(* ===== verification/_CoqProject ===== *)
-Q . S2P
Prelude.v
AlignedMemory.v
Tiling.v
HeapAllocator.v
BasicMath.v
GfxPartition.v
OrdMap.v
HostPtrManager.v
SvmMemoryManager.v
PageTable.v
IDList.v
StackVec.v
LocalWorkSize.v
Dispatch.v
Event.v
TrimCandidates.v
WddmResidency.v
Submissions.v
LocalIds.v
TagAllocator.v
Bytes.v
Elf.v
Printf.v
GraphicsAllocation.v
AllocationLifetime.v
HwCommands.v
Preamble.v
FlushTask.v
BuiltinCopy.v
BufferRect.v
MapOperations.v
DeferredDeleter.v
BaseObject.v
CommandQueue.v
QueueOrder.v
