(* ===== verification/Prelude.v ===== *)
(** * A model of the compute runtime's memory, dispatch and event core

    This development models parts of the Intel OpenCL runtime (NEO) whose
    sources are under [src/].  The runtime turns API calls into GPU work: an
    ND range is cut into walkers ([enqueueKernel], the dispatch builder), local
    sizes are chosen and local ids written for the hardware threads, command
    buffers are recorded and submitted in batches, events order the commands,
    and a memory manager hands out address ranges, tracks user memory, fills
    page tables and decides which allocations are resident.  Definitions keep
    the names of the code; each file says which source it translates and what
    its [None] stands for.

    ** Files

    - [Prelude] (this file): words of a given width with their wrap-around,
      tactics ([word_lia], [unwrap], [dcases], [eval_decide]), hint databases,
      lemmas on bits.
    - [AlignedMemory]: [helpers/aligned_memory.h], [memory_constants.h].
    - [Tiling]: the conservation law of range allocators, shared by
      [HeapAllocator]; no code of its own.
    - [HeapAllocator]: [utilities/heap_allocator.h].  Properties: live ranges
      are disjoint and the sizes add up ([heap_allocator_safe]); when a request
      is refused ([allocate_outcome]); defragmentation restores a drained heap
      ([heap_drained_is_fresh]); the subtraction that wraps when the base of
      the heap is below the threshold ([allocate_underflow_escapes]).
    - [BasicMath]: [helpers/basic_math.h].
    - [GfxPartition]: [memory_manager/gfx_partition.cpp], whose heaps are
      [HeapAllocator]s: the initialised heaps cover the address space
      ([gfx_partition_layout]) and live ranges of all heaps do not overlap
      ([partition_no_overlap]).
    - [OrdMap]: [std::map] as a sorted list with positions for iterators.
    - [HostPtrManager]: [memory_manager/host_ptr_manager.cpp] with the part of
      [internal_allocation_storage.cpp] and [os_agnostic_memory_manager.cpp]
      it calls: reference counts of shared fragments, overlap classification,
      release, and the pointer that dangles after a clean-up.
    - [SvmMemoryManager]: [memory_manager/svm_memory_manager.cpp].
    - [PageTable]: [memory_manager/page_table.inl] and its entry bits: the walk
      translates, refines one flat table, and agrees with [map].
    - [IDList]: [utilities/idlist.h]: the pointer operations refine operations
      on sequences.  [Submissions] and [TagAllocator] use lists of this kind
      and take the sequences this file justifies.
    - [StackVec]: [utilities/stackvec.h] refines lists, but for assignment to
      itself and for a reference into the buffer that the call leaves
      ([stackvec_refines_list]).
    - [LocalWorkSize]: [command_queue/local_work_size.cpp]; [Dispatch]:
      [enqueue_kernel.h], [helpers/dispatch_info_builder.h], using the
      deduction through the class [WorkSizeDeduction].  The walkers run every
      work item once ([nd_range_runs_once]).
    - [LocalIds]: [command_queue/local_id_gen.cpp] and [.inl], over the class
      [Vec] that the two vector types implement from the processor's
      instructions ([Intrinsics]): every work item of a group is given to one
      lane, in both layouts.
    - [Event]: [event/event.cpp], [user_event.cpp]: statuses, commands,
      callbacks and the graph of waiting events; accounting over any sequence
      of calls, what [setStatus] does on every branch ([set_status_settles]),
      termination, and propagation of a termination to the children.
    - [TrimCandidates], [WddmResidency]: [os_interface/windows/
      wddm_residency_controller.cpp]: the array with holes refines a queue;
      trimming evicts the oldest allocations; making allocations resident
      returns, with either answer ([make_resident_outcome]), and the shared fragment that is marked resident although it was
      evicted on the way.
    - [Submissions]: [command_stream/submissions_aggregator.cpp] and the loop of
      [flushBatchedSubmissions]: every buffer is submitted once and in order.
    - [TagAllocator]: [utilities/tag_allocator.h] as atomic steps of many
      threads: each tag has one place and calls progress
      ([tags_have_one_place]); an example runs the race that leaves [getTag]
      without a node.
    - [Bytes]: little-endian fields in byte lists, for the two files below.
    - [Elf]: [src/elf]: what the writer writes, the reader accepts and finds.
    - [Printf]: [program/print_formatter.cpp] and [.h]: a buffer of printf
      records becomes the texts of the records ([kernel_output_is_rendered]);
      a [%s] argument of 1024 characters or more makes the terminator leave the
      array ([string_argument_bound]).
    - [GraphicsAllocation]: the use of an allocation by several contexts
      ([memory_manager/graphics_allocation.cpp]).
    - [AllocationLifetime]: residency and task counts of the receivers, the
      storages of [internal_allocation_storage.cpp], destruction and the deletion
      that is deferred: what the GPU may still run uses live memory only.
    - [HwCommands]: the commands of the receiver and their sizes, the stream they
      are written to and their effect on the engine ([exec]); [Preamble]: the
      set-up commands of the three generations and the preemption mode;
      [FlushTask]: [flushTask] of [command_stream_receiver_hw.inl].  It writes
      only what changed, and yet the engine is as each task needs it
      ([engine_is_ready]); all it writes fits the space computed before
      ([flush_fits_the_streams]); dependent tasks are separated by a stall
      ([dependent_tasks_wait]).
    - [BuiltinCopy]: reading, writing, copying and filling buffers and SVM with
      the built-in kernels ([built_ins/built_ins.cpp], [built_ins/kernels],
      [command_queue/enqueue_*.h]): every byte arrives and no other changes
      ([transfers_copy], [fill_repeats_pattern]), except for SVM copies between
      equally misaligned pointers ([unaligned_svm_copy_skips_bytes]);
      [BufferRect]: the same for rectangles with pitches that hold their rows,
      and the pitches that are accepted ([rects_copy], [rect_pitches_exact]); a
      copy between buffers takes zero pitches as they are
      ([copied_rect_keeps_zero_pitches]).
    - [MapOperations]: the mapped ranges of an object
      ([mem_obj/map_operations_handler.cpp]) and the mapping of buffers by the CPU
      and by the GPU ([cpu_data_transfer_handler.cpp], [command_queue.cpp]): what
      is written through a mapped pointer arrives ([mapped_writes_arrive]).
    - [DeferredDeleter]: [memory_manager/deferred_deleter.cpp] as atomic steps of
      the clients and of the worker on the queue, the counters, the mutexes and
      the condition variable: no deletion is lost or run twice, a blocking drain
      waits for all, a worker that sleeps is woken, and joining it returns.
    - [BaseObject]: [helpers/base_object.h] and [reference_tracked_object.h] as
      atomic steps of threads: one owner at a time and no lost wake-up
      ([ownership_passes_on]); objects are deleted once and are not used
      afterwards ([references_delete_once]).
    - [CommandQueue]: [enqueueHandler] of [command_queue/enqueue_common.h] with
      task levels, blocking, completion stamps and the events of blocked
      commands, over the class [Receiver]: a kernel that must wait for another
      requires a level above the other's stamp ([dependent_commands_ordered]).
    - [QueueOrder]: the receiver of [FlushTask] meets [Receiver], so that kernels
      that depend on one another are separated on the engine
      ([dependent_kernels_separated]).

    ** Conventions

    An unsigned [w]-bit value is a [Z]; every operation of the code that can
    wrap is written with [wrap].  Objects that are shared or aliased live in a
    store (a [gmap] from addresses or names); undefined behaviour, aborts and
    accesses outside of a container are [None] or an error constructor, so a
    theorem that gives [Some] also says that the code does not get there.
    Code of other components and of the system (allocation of graphics memory,
    the kernel-mode driver, the task counts of the command stream receiver) is
    a parameter; classes such as [MemoryManagerSpec] and [IntrinsicsSpec] say
    what it promises, and an instance meets each of them.

    ** Fuel and bounds

    Loops that are not structural take fuel, and the theorems give a result for
    the fuel that the definitions choose: the number of chunks for merging, of
    nodes for list traversals, of buffers for a flush, 64 for the carry loops of
    the local ids (33 turns suffice), 32 for halvings; for events the theorem
    [event_graph_terminates] gives fuel linear in the height of the graph;
    making allocations resident takes at most one round for each candidate for
    trimming, one for the temporary resources and the last one.
    [HeapAllocator] is safe when the base of the heap is not below the
    threshold (see [allocate_underflow_escapes] for the other case), so the
    theorem [partition_no_overlap] leaves out the heaps whose base is smaller:
    the one at 2 MB and a 32-bit heap at 0.  [LocalIds] needs a
    group of at most [2^13] items (the devices allow 1024), because the vector
    comparisons are signed.  [Elf] binaries are below 4 GB.

    ** Not modelled

    Bit layouts of the generated commands ([gen8], [gen9], [gen10]),
    the API entry points, images, and kernels (argument state over
    external compiled kernels), operating-system calls and drivers, compiler and
    GMM libraries, simulator capture ([aub], [tbx]), sharings with graphics
    APIs, profiling and performance counters.  Locks are modelled where they
    matter ([TagAllocator], [DeferredDeleter], [BaseObject]); elsewhere the lock
    is held for the whole operation, so that an execution is a sequence of
    operations.

    ** Plan

    Not done, and worth doing next: the memory manager's choice of allocation
    data, images and their mapping, the order of blocked commands
    once their events complete ([CommandQueue] shows when they block and an
    example of their release), and the remaining operations of [IDList],
    [StackVec] and [Event]. *)

From stdpp Require Export base tactics list numbers option gmap fin_maps relations sorting.
From Stdlib Require Export ZArith Lia.
#[global] Open Scope Z_scope.

(** ** Machine words

    An unsigned [w]-bit integer is a [Z] in [0, 2^w).  Arithmetic wraps, so
    every operation that the source performs on a [uint64_t], [size_t] or
    [uintptr_t] is written with the 64-bit operators below, and the 32-bit
    ones are written with [w32]. *)

Definition wrap (w z : Z) : Z := z mod 2 ^ w.
Abbreviation w64 := (wrap 64).
Abbreviation w32 := (wrap 32).
Abbreviation w16 := (wrap 16).
Abbreviation w8 := (wrap 8).

(** Bitwise complement of an unsigned [w]-bit word. *)
Definition wnot (w z : Z) : Z := 2 ^ w - 1 - z.
Abbreviation not64 := (wnot 64).
Abbreviation not32 := (wnot 32).

Declare Scope word_scope.
Delimit Scope word_scope with word.
Notation "x ⊞ y" := (w64 (x + y)) (at level 50, left associativity) : word_scope.
Notation "x ⊟ y" := (w64 (x - y)) (at level 50, left associativity) : word_scope.
Notation "x ⊠ y" := (w64 (x * y)) (at level 40, left associativity) : word_scope.
#[global] Open Scope word_scope.

(** [uint w z]: [z] is a value of the unsigned [w]-bit type. *)
Definition uint (w z : Z) : Prop := 0 <= z < 2 ^ w.
Abbreviation u64 := (uint 64).
Abbreviation u32 := (uint 32).

#[export] Instance uint_dec w z : Decision (uint w z).
Proof. unfold uint. apply _. Defined.

(** ** Tactics *)

Create HintDb words.
Create Rewrite HintDb words.
Create HintDb neo.
Create Rewrite HintDb neo.

(** Linear arithmetic that may mention words, [div] and [mod]. *)
Ltac word_lia := unfold uint in *; lia.
Ltac mod_lia := unfold uint, wrap in *; Z.div_mod_to_equations; lia.

(** Case analysis on every [if decide ..] and [match] of goal and context. *)
Ltac dcases :=
  repeat first [ progress simplify_eq/= | case_decide | case_match ].

(** Closes a decidable proposition about concrete values by evaluation. *)
Ltac eval_decide :=
  lazymatch goal with
  | |- Z.divide _ _ => apply Z.mod_divide; [vm_compute; discriminate|vm_compute; reflexivity]
  | |- _ => refine (bool_decide_unpack _ _); vm_compute; exact I
  end.

(** ** Words *)

Lemma wrap_small w z : uint w z -> wrap w z = z.
Proof. intros H. apply Z.mod_small, H. Qed.

(** Removes the wrap-around of every word operation whose argument is in
    range, the range being proved by [lia]. *)
Ltac unwrap :=
  repeat match goal with
  | |- context [wrap ?w ?x] => rewrite (wrap_small w x) by word_lia
  end.

Ltac unwrap_in H :=
  repeat match type of H with
  | context [wrap ?w ?x] => rewrite (wrap_small w x) in H by word_lia
  end.

Lemma wrap_range w z : 0 <= w -> uint w (wrap w z).
Proof. intros H. apply Z.mod_pos_bound. lia. Qed.

Lemma w64_range z : u64 (w64 z).
Proof. by apply wrap_range. Qed.

Lemma w32_range z : u32 (w32 z).
Proof. by apply wrap_range. Qed.

Lemma wrap_idemp w z : 0 <= w -> wrap w (wrap w z) = wrap w z.
Proof. intros H. by apply wrap_small, wrap_range. Qed.

#[export] Hint Resolve w64_range w32_range : words.
#[export] Hint Rewrite wrap_idemp using lia : words.

(** A value below [2^k] has no bit at or above [k]. *)
Lemma testbit_high z k i : 0 <= z < 2 ^ k -> k <= i -> Z.testbit z i = false.
Proof.
  intros Hz Hi. destruct (decide (0 <= k)) as [Hk|Hk].
  2: { rewrite Z.pow_neg_r in Hz by lia. lia. }
  destruct (decide (z = 0)) as [->|Hnz]; [apply Z.bits_0|].
  apply Z.bits_above_log2; [lia|].
  apply Z.log2_lt_pow2; [lia|]. eapply Z.lt_le_trans; [apply Hz|].
  apply Z.pow_le_mono_r; lia.
Qed.

Lemma wnot_testbit w z i :
  uint w z -> 0 <= i < w -> Z.testbit (wnot w z) i = negb (Z.testbit z i).
Proof.
  intros Hz Hi. unfold wnot.
  replace (2 ^ w - 1 - z) with (Z.lxor (Z.ones w) z).
  - rewrite Z.lxor_spec, Z.ones_spec_low by lia. by destruct (Z.testbit z i).
  - assert (Z.land (Z.lxor (Z.ones w) z) z = 0) as Hd.
    { apply Z.bits_inj'. intros j Hj. rewrite Z.land_spec, Z.lxor_spec, Z.bits_0.
      destruct (decide (j < w)).
      - rewrite Z.ones_spec_low by lia. by destruct (Z.testbit z j).
      - rewrite Z.ones_spec_high by lia. rewrite (testbit_high z w) by word_lia. done. }
    apply Z.add_nocarry_lxor in Hd.
    rewrite Z.lxor_assoc, Z.lxor_nilpotent, Z.lxor_0_r in Hd.
    rewrite Z.ones_equiv in Hd |- *. lia.
Qed.

Lemma wnot_range w z : uint w z -> uint w (wnot w z).
Proof. unfold wnot. word_lia. Qed.
#[export] Hint Resolve wnot_range : words.

(** Masking with [~(2^k - 1)] clears the [k] low bits. *)
Lemma land_wnot_ones w x k :
  uint w x -> 0 <= k <= w -> Z.land x (wnot w (2 ^ k - 1)) = x - x mod 2 ^ k.
Proof.
  intros Hx Hk.
  assert (0 < 2 ^ k <= 2 ^ w) as Hp.
  { split; [lia|]. apply Z.pow_le_mono_r; lia. }
  replace (x - x mod 2 ^ k) with (Z.ldiff x (Z.ones k)).
  - apply Z.bits_inj'. intros i Hi. rewrite Z.land_spec, Z.ldiff_spec.
    destruct (decide (i < w)).
    + rewrite wnot_testbit by word_lia.
      f_equal. f_equal. rewrite Z.ones_equiv. f_equal; lia.
    + rewrite (testbit_high x w) by word_lia. done.
  - rewrite Z.ldiff_ones_r, Z.shiftl_mul_pow2, Z.shiftr_div_pow2 by lia.
    pose proof (Z.div_mod x (2 ^ k)). lia.
Qed.

Lemma land_low_ones x k : 0 <= k -> Z.land x (2 ^ k - 1) = x mod 2 ^ k.
Proof.
  intros Hk. rewrite <- Z.land_ones by lia. by rewrite Z.ones_equiv, Z.sub_1_r.
Qed.

(** Bounds of the bitwise operations on words. *)
Lemma lor_range w x y : uint w x -> uint w y -> uint w (Z.lor x y).
Proof.
  intros Hx Hy. destruct (decide (0 <= w)) as [Hw|Hw].
  2: { unfold uint in *. rewrite Z.pow_neg_r in * by lia. lia. }
  assert (Z.lor x y = (Z.lor x y) mod 2 ^ w) as ->; [|by apply Z.mod_pos_bound; lia].
  rewrite <- Z.land_ones by lia. apply Z.bits_inj'. intros i Hi.
  rewrite Z.land_spec, Z.lor_spec. destruct (decide (i < w)).
  - rewrite Z.ones_spec_low by lia. by rewrite andb_true_r.
  - rewrite !(testbit_high _ w) by word_lia. done.
Qed.

Lemma land_range w x y : uint w x -> 0 <= y -> uint w (Z.land x y).
Proof.
  intros Hx Hy. destruct (decide (0 <= w)) as [Hw|Hw].
  2: { unfold uint in *. rewrite Z.pow_neg_r in * by lia. lia. }
  assert (Z.land x y = (Z.land x y) mod 2 ^ w) as ->; [|by apply Z.mod_pos_bound; lia].
  rewrite <- Z.land_ones by lia. apply Z.bits_inj'. intros i Hi.
  rewrite !Z.land_spec. destruct (decide (i < w)).
  - rewrite Z.ones_spec_low by lia. by rewrite andb_true_r.
  - rewrite (testbit_high x w) by word_lia. done.
Qed.

Lemma shiftr_range w x k : uint w x -> 0 <= k -> uint w (Z.shiftr x k).
Proof.
  intros Hx Hk. rewrite Z.shiftr_div_pow2 by lia. unfold uint in *.
  assert (0 < 2 ^ k) by lia. split; [apply Z.div_pos; lia|].
  apply Z.le_lt_trans with x; [|lia]. apply Z.div_le_upper_bound; nia.
Qed.
#[export] Hint Resolve lor_range land_range shiftr_range : words.

(** A disjunction of two words that do not share bits is their sum. *)
Lemma land_high_0 a b k : 0 <= k -> 0 <= a < 2 ^ k -> Z.land a (b * 2 ^ k) = 0.
Proof.
  intros Hk Ha. apply Z.bits_inj'. intros i Hi. rewrite Z.land_spec, Z.bits_0.
  destruct (decide (i < k)).
  - rewrite Z.mul_pow2_bits_low by done. apply andb_false_r.
  - by rewrite (testbit_high a k) by lia.
Qed.

Lemma lor_high_add a b k : 0 <= k -> 0 <= a < 2 ^ k -> Z.lor a (b * 2 ^ k) = a + b * 2 ^ k.
Proof.
  intros Hk Ha. pose proof (land_high_0 a b k Hk Ha) as H0.
  by rewrite Z.add_nocarry_lxor, Z.lxor_lor.
Qed.

(** ** Sums over threads *)

Abbreviation sumw := sum_list_with.

Lemma sum_update {A} (f : A -> nat) t x y l : l !! t = Some x -> (sumw f (<[t := y]> l) + f x)%nat = (sumw f l + f y)%nat.
Proof. revert t. induction l as [|z l IH]; intros t Ht; [done|]. destruct t as [|t]; simpl in *; [simplify_eq; lia|]. specialize (IH t Ht). lia. Qed.

Lemma sum_ge {A} (f : A -> nat) t x l : l !! t = Some x -> (f x <= sumw f l)%nat.
Proof. revert t. induction l as [|z l IH]; intros t Ht; [done|]. destruct t as [|t]; simpl in *; [simplify_eq; lia|]. specialize (IH t Ht). lia. Qed.
