(* ===== verification/AlignedMemory.v ===== *)
(** * Alignment helpers

    Model of [runtime/helpers/aligned_memory.h] and of the constants it uses
    from [runtime/memory_manager/memory_constants.h].  The templates
    [alignUp]/[alignDown] are instantiated at an unsigned type of [w] bits
    (the mask is computed in [size_t] and then converted to the type), the
    pointer overloads are the instances at [uintptr_t], i.e. [w = 64].
    [alignedMalloc]/[alignedFree] keep the original pointer in the word just
    below the aligned block; that word of the heap is a map from addresses to
    pointers. *)

From S2P Require Import Prelude.

(** [runtime/memory_manager/memory_constants.h] *)
Module MemoryConstants.
Definition kiloByte : Z := 1024.
Definition megaByte : Z := 1024 * kiloByte.
Definition gigaByte : Z := 1024 * megaByte.
Definition pageSize : Z := 4 * kiloByte.
Definition pageSize64k : Z := 64 * kiloByte.
Definition pageMask : Z := pageSize - 1.
Definition maxNBitValue (n : Z) : Z := Z.shiftl 1 n - 1.
Definition max32BitAddress : Z := maxNBitValue 32.
Definition max64BitAppAddress : Z := maxNBitValue 47.
Definition max48BitAddress : Z := maxNBitValue 48.
Definition page4kEntryMask : Z := Z.land (2 ^ 64 - 1) (not64 pageMask).
End MemoryConstants.
Import MemoryConstants.

Definition alignUp (w before alignment : Z) : Z :=
  let mask := wrap w (alignment ⊟ 1) in
  Z.land (wrap w (before + mask)) (wnot w mask).

Definition alignDown (w before alignment : Z) : Z :=
  let mask := wrap w (alignment ⊟ 1) in
  Z.land before (wnot w mask).

Definition alignSizeWholePage (ptr size : Z) : Z :=
  let startPageMisalignedAddressOffset := Z.land ptr pageMask in
  alignUp 64 (startPageMisalignedAddressOffset ⊞ size) pageSize.

Definition isAligned (alignment val : Z) : bool :=
  bool_decide (val mod alignment = 0).

(** [new (std::nothrow) char[n]] is the C++ allocator: [alloc n] is the
    address it returns, 0 for a null pointer.  The result is the aligned
    pointer and the memory with the header word written. *)
Definition sizeof_void_p : Z := 8.

Definition alignedMalloc (alloc : Z -> Z) (mem : gmap Z Z) (bytes alignment : Z)
    : Z * gmap Z Z :=
  let bytes := if decide (bytes = 0) then sizeof_void_p else bytes in
  let alignment := Z.max alignment sizeof_void_p in
  let sizeToAlloc := bytes ⊞ alignment in
  let pOriginalMemory := alloc sizeToAlloc in
  let pAlignedMemory := pOriginalMemory in
  if decide (pAlignedMemory = 0) then (pAlignedMemory, mem)
  else
    let pAlignedMemory := pAlignedMemory ⊞ alignment in
    let pAlignedMemory := pAlignedMemory ⊟ (pAlignedMemory mod alignment) in
    (pAlignedMemory, <[pAlignedMemory ⊟ sizeof_void_p := pOriginalMemory]> mem).

(** The pointer that [delete[]] receives, [None] when nothing is freed. *)
Definition alignedFree (mem : gmap Z Z) (ptr : Z) : option Z :=
  if decide (ptr = 0) then None else mem !! (ptr ⊟ sizeof_void_p).

(** ** Arithmetic of the alignment helpers *)

Lemma pow2_align_pos k : 0 <= k -> 0 < 2 ^ k.
Proof. lia. Qed.

Lemma align_mask w k : 0 <= k < w -> w <= 64 -> wrap w (2 ^ k ⊟ 1) = 2 ^ k - 1.
Proof.
  intros Hk Hw.
  assert (0 < 2 ^ k) by lia.
  assert (2 ^ k < 2 ^ w) by (apply Z.pow_lt_mono_r; lia).
  assert (2 ^ w <= 2 ^ 64) by (apply Z.pow_le_mono_r; lia).
  by unwrap.
Qed.

Lemma alignDown_spec w x k :
  uint w x -> 0 <= k < w -> w <= 64 -> alignDown w x (2 ^ k) = x - x mod 2 ^ k.
Proof.
  intros Hx Hk Hw. unfold alignDown. rewrite align_mask by lia.
  by apply land_wnot_ones; [|lia].
Qed.

Lemma alignUp_wrap w x k :
  0 <= k < w -> w <= 64 ->
  alignUp w x (2 ^ k) = wrap w (x + (2 ^ k - 1)) - wrap w (x + (2 ^ k - 1)) mod 2 ^ k.
Proof.
  intros Hk Hw. unfold alignUp. rewrite align_mask by lia.
  apply land_wnot_ones; [apply wrap_range|]; lia.
Qed.

Lemma round_up_eq x m : 0 < m -> (x + (m - 1)) - (x + (m - 1)) mod m = m * ((x + (m - 1)) / m).
Proof. intros Hm. pose proof (Z.div_mod (x + (m - 1)) m). lia. Qed.

(** Without overflow [alignUp] rounds up to the next multiple. *)
Lemma alignUp_spec w x k :
  uint w x -> 0 <= k < w -> w <= 64 -> x + (2 ^ k - 1) < 2 ^ w ->
  let r := alignUp w x (2 ^ k) in
  x <= r < x + 2 ^ k /\ r mod 2 ^ k = 0 /\ uint w r.
Proof.
  intros Hx Hk Hw Hov r. assert (0 < 2 ^ k) as Hp by lia.
  assert (r = 2 ^ k * ((x + (2 ^ k - 1)) / 2 ^ k)) as ->.
  { subst r. rewrite alignUp_wrap by lia.
    rewrite wrap_small by word_lia. by apply round_up_eq. }
  pose proof (Z.div_mod (x + (2 ^ k - 1)) (2 ^ k)).
  pose proof (Z.mod_pos_bound (x + (2 ^ k - 1)) (2 ^ k)).
  rewrite (Z.mul_comm (2 ^ k)), Z.mod_mul by lia.
  split_and!; try word_lia.
Qed.

Lemma pageSize_pow2 : pageSize = 2 ^ 12.
Proof. reflexivity. Qed.

(** [alignUp] at the page size, the form the allocators use. *)
Lemma alignUp_page x :
  0 <= x -> x + 4095 < 2 ^ 64 ->
  x <= alignUp 64 x pageSize < x + pageSize /\ alignUp 64 x pageSize mod pageSize = 0.
Proof.
  intros H1 H2. rewrite pageSize_pow2.
  destruct (alignUp_spec 64 x 12) as (Hb & Hm & _); [word_lia|lia..|by split].
Qed.

Lemma alignDown_page x :
  u64 x -> alignDown 64 x pageSize = x - x mod pageSize.
Proof. intros Hx. rewrite pageSize_pow2. by apply alignDown_spec. Qed.
#[export] Hint Rewrite alignDown_page using word_lia : neo.

(** The byte ranges that a page-granular operation on [ptr, ptr+size) touches:
    [alignSizeWholePage] is the length of the run of whole pages. *)
Lemma alignSizeWholePage_spec ptr size :
  u64 ptr -> 0 <= size -> ptr + size + 2 * pageSize <= 2 ^ 64 ->
  alignDown 64 ptr pageSize + alignSizeWholePage ptr size = alignUp 64 (ptr + size) pageSize.
Proof.
  intros Hp Hs Hov. unfold alignSizeWholePage.
  assert (Z.land ptr pageMask = ptr mod pageSize) as ->.
  { change pageMask with (2 ^ 12 - 1). by rewrite land_low_ones. }
  assert (0 <= ptr mod pageSize < pageSize) as Hm by (by apply Z.mod_pos_bound).
  change pageSize with 4096 in *.
  unwrap. rewrite alignDown_page by done. change pageSize with 4096.
  destruct (alignUp_page (ptr mod 4096 + size)) as [Ha1 Ha2]; [word_lia..|].
  destruct (alignUp_page (ptr + size)) as [Hb1 Hb2]; [word_lia..|].
  change pageSize with 4096 in *.
  mod_lia.
Qed.

(** ** Properties *)

(** for every power-of-two alignment below the width of the type and every
    value that can be rounded up without overflow, [alignUp] returns the least
    multiple of the alignment that is not below the value, [alignDown] the
    greatest multiple that is not above it, and the two agree exactly on the
    values that are aligned. *)
Theorem alignUp_alignDown_extremal w x k :
  uint w x -> 0 <= k < w -> w <= 64 -> x + (2 ^ k - 1) < 2 ^ w ->
  (alignUp w x (2 ^ k) mod 2 ^ k = 0 /\ x <= alignUp w x (2 ^ k) /\
   forall m, m mod 2 ^ k = 0 -> x <= m -> alignUp w x (2 ^ k) <= m) /\
  (alignDown w x (2 ^ k) mod 2 ^ k = 0 /\ alignDown w x (2 ^ k) <= x /\
   forall m, m mod 2 ^ k = 0 -> m <= x -> m <= alignDown w x (2 ^ k)) /\
  (alignUp w x (2 ^ k) = alignDown w x (2 ^ k) <-> isAligned (2 ^ k) x = true).
Proof.
  intros Hx Hk Hw Hov.
  destruct (alignUp_spec w x k Hx Hk Hw Hov) as (Hu1 & Hu2 & _).
  rewrite alignDown_spec by done.
  set (u := alignUp w x (2 ^ k)) in *. unfold isAligned. rewrite bool_decide_eq_true.
  set (q := 2 ^ k) in *. assert (0 < q) as Hq by (subst q; lia). clearbody q u.
  pose proof (Z.div_mod x q). pose proof (Z.mod_pos_bound x q Hq).
  assert (forall m, m mod q = 0 -> m = q * (m / q)) as Hmul.
  { intros m Hm. pose proof (Z.div_mod m q). lia. }
  apply Hmul in Hu2 as Hu3.
  assert ((x - x mod q) mod q = 0) as Hd.
  { replace (x - x mod q) with (x / q * q) by lia. apply Z.mod_mul. lia. }
  assert (forall a b, q * a < q * b + q -> q * a <= q * b) as Hgap.
  { intros a b Hab. apply Z.mul_le_mono_nonneg_l; [lia|]. nia. }
  assert (forall m, m mod q = 0 -> x <= m -> u <= m) as Hleast.
  { intros m Hm Hle. rewrite Hu3, (Hmul m Hm). apply Hgap. rewrite <- Hu3, <- (Hmul m Hm). lia. }
  split_and!; try done; try lia.
  - intros m Hm Hle. rewrite (Hmul m Hm), (Hmul _ Hd). apply Hgap.
    rewrite <- (Hmul m Hm), <- (Hmul _ Hd). lia.
  - split; intros He; [lia|]. specialize (Hleast x He). lia.
Qed.

Example alignUp_alignDown_extremal_witness :
  alignUp 64 5000 (2 ^ 12) = 8192 /\
  ((alignUp 64 5000 (2 ^ 12) mod 2 ^ 12 = 0 /\ 5000 <= alignUp 64 5000 (2 ^ 12) /\
   forall m, m mod 2 ^ 12 = 0 -> 5000 <= m -> alignUp 64 5000 (2 ^ 12) <= m) /\
  (alignDown 64 5000 (2 ^ 12) mod 2 ^ 12 = 0 /\ alignDown 64 5000 (2 ^ 12) <= 5000 /\
   forall m, m mod 2 ^ 12 = 0 -> m <= 5000 -> m <= alignDown 64 5000 (2 ^ 12)) /\
  (alignUp 64 5000 (2 ^ 12) = alignDown 64 5000 (2 ^ 12) <-> isAligned (2 ^ 12) 5000 = true)).
Proof.
  split; [reflexivity|].
  apply (alignUp_alignDown_extremal 64 5000 12); eval_decide.
Defined.

(** when the allocator returns a pointer-aligned block of the requested
    length inside the address space, [alignedMalloc] returns a pointer that
    has the requested power-of-two alignment, lies inside the block together
    with the requested bytes, leaves room for the header word below it inside
    the block, and [alignedFree] of that pointer passes to [delete] exactly the
    pointer the allocator returned. *)
Theorem alignedMalloc_alignedFree alloc mem bytes k :
  let alignment := 2 ^ k in
  let total := (if decide (bytes = 0) then 8 else bytes) + Z.max alignment 8 in
  0 <= bytes -> 0 <= k < 63 -> u64 total ->
  0 < alloc total -> alloc total mod 8 = 0 -> alloc total + total <= 2 ^ 64 - 1 ->
  let '(p, mem') := alignedMalloc alloc mem bytes alignment in
  p mod alignment = 0 /\
  alloc total <= p - sizeof_void_p /\ p + bytes <= alloc total + total /\
  alignedFree mem' p = Some (alloc total).
Proof.
  intros alignment total Hb Hk Ht Hpos Hal Hfit.
  unfold alignedMalloc, sizeof_void_p. fold alignment.
  assert (0 < alignment) as Hap by (subst alignment; lia).
  set (a := Z.max alignment 8) in *.
  assert (a mod alignment = 0 /\ a mod 8 = 0) as [Ha1 Ha2].
  { subst a alignment. destruct (decide (k <= 3)).
    - rewrite Z.max_r by (change 8 with (2 ^ 3); apply Z.pow_le_mono_r; lia).
      split; [|reflexivity]. replace 8 with (2 ^ (3 - k) * 2 ^ k); [apply Z.mod_mul; lia|].
      rewrite <- Z.pow_add_r by lia. by replace (3 - k + k) with 3 by lia.
    - rewrite Z.max_l by (change 8 with (2 ^ 3); apply Z.pow_le_mono_r; lia).
      split; [apply Z.mod_same; lia|]. replace (2 ^ k) with (2 ^ (k - 3) * 8); [by apply Z.mod_mul|].
      change 8 with (2 ^ 3). rewrite <- Z.pow_add_r by lia. by replace (k - 3 + 3) with k by lia. }
  set (b := if decide (bytes = 0) then 8 else bytes) in *.
  assert (bytes <= b /\ 1 <= b) as Hbb by (subst b; case_decide; lia).
  replace (b ⊞ a) with total by (rewrite wrap_small; [done|word_lia]).
  set (o := alloc total) in *. rewrite decide_False by lia.
  assert (8 <= a) as Ha8 by (subst a; lia).
  assert (w64 (o + a) = o + a) as Hw by (apply wrap_small; word_lia).
  rewrite Hw. set (r := (o + a) mod a).
  assert (0 <= r < a) as Hr by (apply Z.mod_pos_bound; lia).
  assert (w64 (o + a - r) = o + a - r) as -> by (apply wrap_small; word_lia).
  set (p := o + a - r). 
  assert (p mod a = 0) as Hpa.
  { subst p r. pose proof (Z.div_mod (o + a) a).
    replace (o + a - (o + a) mod a) with ((o + a) / a * a) by lia. apply Z.mod_mul. lia. }
  assert (forall d, 0 < d -> a mod d = 0 -> p mod d = 0) as Hdiv.
  { intros d Hd Had. apply Z.mod_divide; [lia|]. apply Z.mod_divide in Hpa, Had; try lia.
    by apply Z.divide_trans with a. }
  assert (p mod 8 = 0) as Hp8 by (apply Hdiv; [lia|done]).
  assert (o + 8 <= p) as Hlow by (subst p; mod_lia).
  split_and!; [by apply Hdiv|lia|subst p; lia|].
  unfold alignedFree, sizeof_void_p. rewrite decide_False by lia.
  by rewrite lookup_insert_eq.
Qed.

Example alignedMalloc_alignedFree_witness :
  let alloc := fun n : Z => 16 in
  let '(p, mem') := alignedMalloc alloc ∅ 100 (2 ^ 6) in
  p mod 2 ^ 6 = 0 /\ 16 <= p - sizeof_void_p /\ p + 100 <= 16 + 164 /\
  alignedFree mem' p = Some 16.
Proof.
  apply (alignedMalloc_alignedFree (fun _ => 16) ∅ 100 6); eval_decide.
Defined.
