(* ===== verification/Tiling.v ===== *)
(** * Tilings of an address range

    A list of chunks [tiles lo hi] when, in some order, the chunks are
    nonempty and adjacent, the first starting at [lo] and the last ending at
    [hi].  This is the conservation law of the range allocators: every byte
    of the range belongs to exactly one chunk.  The lemmas below are the moves
    an allocator makes on its chunks (split, merge, extend or shrink the range
    at either end). *)

From S2P Require Import Prelude.

(** [struct HeapChunk] of [runtime/utilities/heap_allocator.h]. *)
Record HeapChunk := mkHeapChunk { ptr : Z; chunkSize : Z }.

#[export] Instance HeapChunk_eq_dec : EqDecision HeapChunk.
Proof. solve_decision. Defined.

(** Sum of the sizes of the chunks. *)
Definition total (l : list HeapChunk) : Z := foldr (fun c n => chunkSize c + n) 0 l.

Definition disjoint_chunks (c d : HeapChunk) : Prop :=
  ptr c + chunkSize c <= ptr d \/ ptr d + chunkSize d <= ptr c.

Lemma total_app l1 l2 : total (l1 ++ l2) = total l1 + total l2.
Proof. unfold total. induction l1; simpl; lia. Qed.

#[export] Instance total_proper : Proper (Permutation ==> eq) total.
Proof. unfold total. induction 1; simpl in *; lia. Qed.

(** Chunk sizes are multiples of a granularity [g], so that all chunk
    boundaries are aligned when one end of the range is. *)
Inductive chain (g : Z) : Z -> Z -> list HeapChunk -> Prop :=
  | chain_nil lo : chain g lo lo []
  | chain_cons p s hi l :
      0 < s -> (g | s) -> chain g (p + s) hi l -> chain g p hi (mkHeapChunk p s :: l).

Definition tiles (g lo hi : Z) (l : list HeapChunk) : Prop :=
  exists l', l' ≡ₚ l /\ chain g lo hi l'.

Section chain.
Context (g : Z).
Implicit Types l : list HeapChunk.
#[local] Abbreviation chain := (chain g).
#[local] Abbreviation tiles := (tiles g).

Lemma chain_le lo hi l : chain lo hi l -> lo <= hi.
Proof. induction 1; lia. Qed.

Lemma chain_app lo hi l1 l2 :
  chain lo hi (l1 ++ l2) <-> exists mid, chain lo mid l1 /\ chain mid hi l2.
Proof.
  revert lo. induction l1 as [|[p s] l1 IH]; intros lo; simpl.
  - split; [intros H; exists lo; by split; [constructor|]|].
    intros (mid & H1 & H2). by inversion H1; subst.
  - split.
    + inversion 1 as [|? ? ? ? Hs Hg Hc]; subst. apply IH in Hc as (mid & Hc1 & Hc2).
      exists mid. split; [by constructor|done].
    + intros (mid & H1 & H2). inversion H1; subst. constructor; [done..|]. apply IH. eauto.
Qed.

Lemma chain_elem lo hi l c :
  chain lo hi l -> c ∈ l ->
  lo <= ptr c /\ ptr c + chunkSize c <= hi /\ 0 < chunkSize c /\
  (g | chunkSize c) /\ (g | ptr c - lo).
Proof.
  induction 1 as [lo|p s hi l Hs Hg Hc IH]; intros Hin; [by apply elem_of_nil in Hin|].
  apply elem_of_cons in Hin as [->|Hin]; simpl.
  - apply chain_le in Hc. rewrite Z.sub_diag. split_and!; [lia..|done|apply Z.divide_0_r].
  - apply IH in Hin as (? & ? & ? & ? & Hd). split_and!; [lia..|done|].
    replace (ptr c - p) with (ptr c - (p + s) + s) by lia. by apply Z.divide_add_r.
Qed.

Lemma chain_total lo hi l : chain lo hi l -> total l = hi - lo.
Proof. unfold total. induction 1; simpl in *; lia. Qed.

Lemma chain_divide lo hi l : chain lo hi l -> (g | hi - lo).
Proof.
  induction 1 as [|p s hi l Hs Hg Hc IH]; [rewrite Z.sub_diag; apply Z.divide_0_r|].
  replace (hi - p) with (hi - (p + s) + s) by lia. by apply Z.divide_add_r.
Qed.

#[export] Instance tiles_proper lo hi : Proper (Permutation ==> iff) (tiles lo hi).
Proof. intros l1 l2 Hl. unfold Tiling.tiles. by setoid_rewrite Hl. Qed.

Lemma tiles_nil lo : tiles lo lo [].
Proof. exists []. split; [done|constructor]. Qed.

Lemma tiles_le lo hi l : tiles lo hi l -> lo <= hi.
Proof. intros (l' & _ & H). by eapply chain_le. Qed.

Lemma tiles_total lo hi l : tiles lo hi l -> total l = hi - lo.
Proof. intros (l' & <- & H). by apply chain_total. Qed.

Lemma tiles_divide lo hi l : tiles lo hi l -> (g | hi - lo).
Proof. intros (l' & _ & H). by eapply chain_divide. Qed.

Lemma tiles_elem_full lo hi l c :
  tiles lo hi l -> c ∈ l ->
  lo <= ptr c /\ ptr c + chunkSize c <= hi /\ 0 < chunkSize c /\
  (g | chunkSize c) /\ (g | ptr c - lo).
Proof. intros (l' & <- & H). by apply chain_elem. Qed.

Lemma tiles_elem lo hi l c :
  tiles lo hi l -> c ∈ l -> lo <= ptr c /\ ptr c + chunkSize c <= hi /\ 0 < chunkSize c.
Proof. intros H Hc. destruct (tiles_elem_full _ _ _ _ H Hc); tauto. Qed.

Lemma tiles_total_app lo hi l1 l2 :
  tiles lo hi (l1 ++ l2) ->
  0 <= total l1 /\ 0 <= total l2 /\ total l1 + total l2 = hi - lo.
Proof.
  intros Ht. pose proof (tiles_total _ _ _ Ht) as Hsum. rewrite total_app in Hsum.
  assert (forall l, (forall c, c ∈ l -> 0 < chunkSize c) -> 0 <= total l) as Hnn.
  { induction l as [|c l IH]; intros Hl; simpl; [done|].
    assert (0 < chunkSize c) by (apply Hl; set_solver).
    assert (0 <= total l) by (apply IH; set_solver). lia. }
  split_and!; [apply Hnn; intros c Hc; eapply tiles_elem; [done|]; set_solver..|done].
Qed.

(** Isolates one chunk of a tiling. *)
Lemma tiles_isolate lo hi c l :
  tiles lo hi (c :: l) <->
  0 < chunkSize c /\ (g | chunkSize c) /\
  exists l1 l2, l1 ++ l2 ≡ₚ l /\ chain lo (ptr c) l1 /\ chain (ptr c + chunkSize c) hi l2.
Proof.
  destruct c as [p s]; simpl. split.
  - intros (l' & Hp & Hc).
    assert (mkHeapChunk p s ∈ l') as (l1 & l2 & ->)%list_elem_of_split.
    { rewrite Hp. by left. }
    apply chain_app in Hc as (mid & Hc1 & Hc2). inversion Hc2; subst.
    split_and!; [done..|]. exists l1, l2. split_and!; [|done..].
    apply (inj (cons (mkHeapChunk p s))). by rewrite Permutation_middle.
  - intros (Hs & Hg & l1 & l2 & Hp & Hc1 & Hc2). exists (l1 ++ mkHeapChunk p s :: l2). split.
    + by rewrite <- Permutation_middle, Hp.
    + apply chain_app. exists p. split; [done|]. by constructor.
Qed.

(** Splitting a chunk in two, and merging two adjacent chunks. *)
Lemma tiles_split lo hi p a b l :
  0 < a -> 0 < b -> (g | a) ->
  tiles lo hi (mkHeapChunk p (a + b) :: l) ->
  tiles lo hi (mkHeapChunk p a :: mkHeapChunk (p + a) b :: l).
Proof.
  intros Ha Hb Hga (_ & Hg & l1 & l2 & Hp & Hc1 & Hc2)%tiles_isolate. simpl in *.
  apply tiles_isolate. split_and!; [done..|]. exists l1, (mkHeapChunk (p + a) b :: l2).
  split_and!; [|done|].
  - by rewrite <- Permutation_middle, Hp.
  - constructor; [done| |by replace (p + a + b) with (p + (a + b)) by lia].
    by apply (Z.divide_add_cancel_r _ a).
Qed.

Lemma tiles_merge lo hi p a b l :
  tiles lo hi (mkHeapChunk p a :: mkHeapChunk (p + a) b :: l) ->
  tiles lo hi (mkHeapChunk p (a + b) :: l).
Proof.
  intros (Ha & Hga & l1 & l2 & Hp & Hc1 & Hc2)%tiles_isolate. simpl in *.
  assert (mkHeapChunk (p + a) b ∈ l1 ++ l2) as Hin by (rewrite Hp; by left).
  apply elem_of_app in Hin as [Hin|Hin].
  { pose proof (chain_elem _ _ _ _ Hc1 Hin) as (_ & ? & ? & _). simpl in *. lia. }
  inversion Hc2 as [|? s ? l3 Hs Hg Hc3]; subst; [by apply elem_of_nil in Hin|].
  apply elem_of_cons in Hin as [Heq|Hin].
  - simplify_eq. apply tiles_isolate. simpl.
    split_and!; [lia|by apply Z.divide_add_r|]. exists l1, l3. split_and!.
    + apply (inj (cons (mkHeapChunk (p + a) s))). by rewrite Permutation_middle.
    + done.
    + by replace (p + (a + s)) with (p + a + s) by lia.
  - pose proof (chain_elem _ _ _ _ Hc3 Hin) as (? & ? & ? & _). simpl in *. lia.
Qed.

(** Moving the ends of the range. *)
Lemma tiles_push_front p s hi l :
  0 < s -> (g | s) -> tiles (p + s) hi l -> tiles p hi (mkHeapChunk p s :: l).
Proof.
  intros Hs Hg (l' & Hp & Hc). exists (mkHeapChunk p s :: l'). split; [by rewrite Hp|by constructor].
Qed.

Lemma tiles_push_back lo p s l :
  0 < s -> (g | s) -> tiles lo p l -> tiles lo (p + s) (mkHeapChunk p s :: l).
Proof.
  intros Hs Hg (l' & Hp & Hc). apply tiles_isolate. simpl. split_and!; [done..|].
  exists l', []. rewrite app_nil_r. split_and!; [done..|constructor].
Qed.

Lemma tiles_pop_front p s hi l :
  tiles p hi (mkHeapChunk p s :: l) -> tiles (p + s) hi l.
Proof.
  intros (Hs & Hg & l1 & l2 & Hp & Hc1 & Hc2)%tiles_isolate. simpl in *.
  inversion Hc1 as [|? ? ? ? ? ? Hc]; subst.
  - exists l2. by split.
  - apply chain_le in Hc. lia.
Qed.

Lemma tiles_pop_back lo p s l :
  tiles lo (p + s) (mkHeapChunk p s :: l) -> tiles lo p l.
Proof.
  intros (Hs & Hg & l1 & l2 & Hp & Hc1 & Hc2)%tiles_isolate. simpl in *.
  inversion Hc2 as [? Heq|? ? ? ? ? ? Hc]; subst.
  - exists l1. split; [|done]. by rewrite app_nil_r in Hp.
  - apply chain_le in Hc. lia.
Qed.

(** Two chunks of a tiling do not overlap. *)
Lemma tiles_disjoint lo hi c d l : tiles lo hi (c :: d :: l) -> disjoint_chunks c d.
Proof.
  intros (Hs & Hg & l1 & l2 & Hp & Hc1 & Hc2)%tiles_isolate.
  assert (d ∈ l1 ++ l2) as [Hin|Hin]%elem_of_app by (rewrite Hp; by left).
  - right. pose proof (chain_elem _ _ _ _ Hc1 Hin). lia.
  - left. pose proof (chain_elem _ _ _ _ Hc2 Hin). lia.
Qed.
End chain.
