(* ===== verification/HeapAllocator.v ===== *)
(** * The range allocator

    Model of [runtime/utilities/heap_allocator.h] (class [HeapAllocator]) and
    of the chunk ordering in [heap_allocator.cpp].  The allocator hands out
    address ranges of [[address, address + size)]: requests above
    [sizeThreshold] grow up from the left bound, the others grow down from the
    right bound, and freed ranges are kept in one list per side.  Every public
    operation holds the allocator's mutex for its whole body, so an execution
    with several threads is a sequence of the operations below.

    [DBG_LOG] and [DEBUG_BREAK_IF] do not change the state and are left out,
    and so is [getUsage], the floating-point ratio the log prints. *)

From S2P Require Import Prelude.
From S2P Require Import AlignedMemory.
From S2P Require Import Tiling.
Import MemoryConstants.

Record HeapAllocator := mkHeapAllocator {
  heapSize : Z;
  availableSize : Z;
  pLeftBound : Z;
  pRightBound : Z;
  sizeThreshold : Z;
  allocationAlignment : Z;
  freedChunksSmall : list HeapChunk;
  freedChunksBig : list HeapChunk
}.

(** The constructors; the two-argument one uses a 4 MB threshold. *)
Definition newHeapAllocatorT (address size threshold : Z) : HeapAllocator :=
  mkHeapAllocator size size address (address ⊞ size) threshold pageSize [] [].

Definition newHeapAllocator (address size : Z) : HeapAllocator :=
  newHeapAllocatorT address size (4 * megaByte).

(** Assignments to the fields. *)
Definition setAvailable (a : Z) (st : HeapAllocator) : HeapAllocator :=
  mkHeapAllocator (heapSize st) a (pLeftBound st) (pRightBound st) (sizeThreshold st)
    (allocationAlignment st) (freedChunksSmall st) (freedChunksBig st).
Definition setLeft (p : Z) (st : HeapAllocator) : HeapAllocator :=
  mkHeapAllocator (heapSize st) (availableSize st) p (pRightBound st) (sizeThreshold st)
    (allocationAlignment st) (freedChunksSmall st) (freedChunksBig st).
Definition setRight (p : Z) (st : HeapAllocator) : HeapAllocator :=
  mkHeapAllocator (heapSize st) (availableSize st) (pLeftBound st) p (sizeThreshold st)
    (allocationAlignment st) (freedChunksSmall st) (freedChunksBig st).
Definition setSmall (l : list HeapChunk) (st : HeapAllocator) : HeapAllocator :=
  mkHeapAllocator (heapSize st) (availableSize st) (pLeftBound st) (pRightBound st)
    (sizeThreshold st) (allocationAlignment st) l (freedChunksBig st).
Definition setBig (l : list HeapChunk) (st : HeapAllocator) : HeapAllocator :=
  mkHeapAllocator (heapSize st) (availableSize st) (pLeftBound st) (pRightBound st)
    (sizeThreshold st) (allocationAlignment st) (freedChunksSmall st) l.

(** ** Freed chunks *)

(** The search loop of [getFromFreedChunks]: it stops at a chunk of exactly
    the requested size, and otherwise remembers the smallest larger one.  The
    initial [bestFitIndex = -1] is [None]. *)
Inductive Fit :=
  | exactFit (i : nat)
  | bestFit (bestFitIndex : option nat) (bestFitSize : Z).

Fixpoint searchFreed (size : Z) (freedChunks : list HeapChunk) (i : nat)
    (bestFitIndex : option nat) (bestFitSize : Z) : Fit :=
  match freedChunks with
  | [] => bestFit bestFitIndex bestFitSize
  | c :: rest =>
      if decide (chunkSize c = size) then exactFit i
      else if decide (size < chunkSize c /\ (chunkSize c < bestFitSize \/ bestFitSize = 0))
      then searchFreed size rest (S i) (Some i) (chunkSize c)
      else searchFreed size rest (S i) bestFitIndex bestFitSize
  end.

(** The pointer (0 for none), the list afterwards and [sizeOfFreedChunk]. *)
Definition getFromFreedChunks (size : Z) (freedChunks : list HeapChunk)
    : Z * list HeapChunk * Z :=
  match searchFreed size freedChunks 0 None 0 with
  | exactFit i =>
      match freedChunks !! i with
      | Some c => (ptr c, delete i freedChunks, 0)
      | None => (0, freedChunks, 0)
      end
  | bestFit (Some i) bestFitSize =>
      if decide (bestFitSize = 0) then (0, freedChunks, 0)
      else match freedChunks !! i with
      | Some c =>
          if decide (bestFitSize < w64 (Z.shiftl size 1))
          then (ptr c, delete i freedChunks, chunkSize c)
          else
            let sizeDelta := chunkSize c ⊟ size in
            (ptr c ⊞ sizeDelta, <[i := mkHeapChunk (ptr c) sizeDelta]> freedChunks, 0)
      | None => (0, freedChunks, 0)
      end
  | bestFit None _ => (0, freedChunks, 0)
  end.

Fixpoint storeInFreedChunks (p size : Z) (freedChunks : list HeapChunk) : list HeapChunk :=
  match freedChunks with
  | [] => [mkHeapChunk p size]
  | c :: rest =>
      if decide (ptr c = p ⊞ size) then mkHeapChunk p (chunkSize c ⊞ size) :: rest
      else if decide (ptr c ⊞ chunkSize c = p) then mkHeapChunk (ptr c) (chunkSize c ⊞ size) :: rest
      else c :: storeInFreedChunks p size rest
  end.

Definition mergeLastFreedSmall (st : HeapAllocator) : HeapAllocator :=
  match last (freedChunksSmall st) with
  | Some c =>
      if decide (ptr c = pRightBound st)
      then setSmall (removelast (freedChunksSmall st)) (setRight (ptr c ⊞ chunkSize c) st)
      else st
  | None => st
  end.

Definition mergeLastFreedBig (st : HeapAllocator) : HeapAllocator :=
  match last (freedChunksBig st) with
  | Some c =>
      if decide (ptr c = pLeftBound st ⊟ chunkSize c)
      then setBig (removelast (freedChunksBig st)) (setLeft (ptr c) st)
      else st
  | None => st
  end.

(** [std::sort] by the chunk's pointer ([operator<] of [heap_allocator.cpp]),
    through reverse iterators for the small chunks. *)
Definition ptr_le (c d : HeapChunk) : Prop := ptr c <= ptr d.
Definition ptr_ge (c d : HeapChunk) : Prop := ptr d <= ptr c.
#[export] Instance ptr_le_dec c d : Decision (ptr_le c d).
Proof. unfold ptr_le. apply _. Defined.
#[export] Instance ptr_ge_dec c d : Decision (ptr_ge c d).
Proof. unfold ptr_ge. apply _. Defined.

(** The two merging loops of [defragment], from [i = maxSize - 1] down to 1. *)
Fixpoint mergeSmallLoop (i : nat) (l : list HeapChunk) : list HeapChunk :=
  match i with
  | O => l
  | S j =>
      match l !! j, l !! i with
      | Some prev, Some cur =>
          if decide (ptr prev = ptr cur ⊞ chunkSize cur)
          then mergeSmallLoop j
                 (delete i (<[j := mkHeapChunk (ptr cur) (chunkSize prev ⊞ chunkSize cur)]> l))
          else mergeSmallLoop j l
      | _, _ => mergeSmallLoop j l
      end
  end.

Fixpoint mergeBigLoop (i : nat) (l : list HeapChunk) : list HeapChunk :=
  match i with
  | O => l
  | S j =>
      match l !! j, l !! i with
      | Some prev, Some cur =>
          if decide (ptr prev ⊞ chunkSize prev = ptr cur)
          then mergeBigLoop j
                 (delete i (<[j := mkHeapChunk (ptr prev) (chunkSize prev ⊞ chunkSize cur)]> l))
          else mergeBigLoop j l
      | _, _ => mergeBigLoop j l
      end
  end.

Definition defragmentSmall (st : HeapAllocator) : HeapAllocator :=
  if decide (1 < length (freedChunksSmall st))%nat then
    let sorted := merge_sort ptr_ge (freedChunksSmall st) in
    setSmall (mergeSmallLoop (length sorted - 1) sorted) st
  else st.

Definition defragmentBig (st : HeapAllocator) : HeapAllocator :=
  if decide (1 < length (freedChunksBig st))%nat then
    let sorted := merge_sort ptr_le (freedChunksBig st) in
    setBig (mergeBigLoop (length sorted - 1) sorted) st
  else st.

Definition defragment (st : HeapAllocator) : HeapAllocator :=
  mergeLastFreedBig (defragmentBig (mergeLastFreedSmall (defragmentSmall st))).

(** ** The public operations *)

(** One turn of the loop of [allocate]: the pointer (0 when the turn fails),
    [sizeToAllocate] and the state afterwards. *)
Definition allocateTurn (sizeToAllocate : Z) (st : HeapAllocator) : Z * Z * HeapAllocator :=
  let big := bool_decide (sizeThreshold st < sizeToAllocate) in
  let freedChunks := if big then freedChunksBig st else freedChunksSmall st in
  let '(ptrReturn, freedChunks', sizeOfFreedChunk) :=
    getFromFreedChunks sizeToAllocate freedChunks in
  let st := if big then setBig freedChunks' st else setSmall freedChunks' st in
  let '(ptrReturn, st) :=
    if decide (ptrReturn = 0) then
      if big then
        if decide (pLeftBound st ⊞ sizeToAllocate <= pRightBound st)
        then (pLeftBound st, setLeft (pLeftBound st ⊞ sizeToAllocate) st)
        else (ptrReturn, st)
      else
        if decide (pLeftBound st <= pRightBound st ⊟ sizeToAllocate)
        then (pRightBound st ⊟ sizeToAllocate, setRight (pRightBound st ⊟ sizeToAllocate) st)
        else (ptrReturn, st)
    else (ptrReturn, st) in
  if decide (ptrReturn = 0) then (0, sizeToAllocate, st)
  else if decide (0 < sizeOfFreedChunk)
  then (ptrReturn, sizeOfFreedChunk, setAvailable (availableSize st ⊟ sizeOfFreedChunk) st)
  else (ptrReturn, sizeToAllocate, setAvailable (availableSize st ⊟ sizeToAllocate) st).

(** The loop runs its first turn with [defragmentCount = 0] and gives up after
    the turn with [defragmentCount = 1]; the argument is the number of
    defragmentations that are still allowed. *)
Fixpoint allocateLoop (defragmentsLeft : nat) (sizeToAllocate : Z) (st : HeapAllocator)
    : Z * Z * HeapAllocator :=
  let '(p, size, st') := allocateTurn sizeToAllocate st in
  if decide (p = 0) then
    match defragmentsLeft with
    | O => (0, size, st')
    | S n => allocateLoop n sizeToAllocate (defragment st')
    end
  else (p, size, st').

Definition allocate (sizeToAllocate : Z) (st : HeapAllocator) : Z * Z * HeapAllocator :=
  let sizeToAllocate := alignUp 64 sizeToAllocate (allocationAlignment st) in
  if decide (availableSize st < sizeToAllocate) then (0, sizeToAllocate, st)
  else allocateLoop 1 sizeToAllocate st.

Definition free (p size : Z) (st : HeapAllocator) : HeapAllocator :=
  if decide (p = 0) then st
  else
    let st' :=
      if decide (p = pRightBound st) then mergeLastFreedSmall (setRight (p ⊞ size) st)
      else if decide (p = pLeftBound st ⊟ size) then mergeLastFreedBig (setLeft p st)
      else if decide (p < pLeftBound st)
      then setBig (storeInFreedChunks p size (freedChunksBig st)) st
      else setSmall (storeInFreedChunks p size (freedChunksSmall st)) st in
    setAvailable (availableSize st' ⊞ size) st'.

Definition getLeftSize (st : HeapAllocator) : Z := availableSize st.
Definition getUsedSize (st : HeapAllocator) : Z := heapSize st ⊟ availableSize st.

(** ** Choosing a freed chunk *)

(** [best_ok pre size i s]: after looking at the chunks [pre], none of which
    has exactly the requested size, [(i, s)] is the smallest larger one. *)
Definition best_ok (pre : list HeapChunk) (size : Z) (i : option nat) (s : Z) : Prop :=
  (s = 0 /\ i = None /\ forall c, c ∈ pre -> chunkSize c < size) \/
  (exists j c, i = Some j /\ pre !! j = Some c /\ s = chunkSize c /\ size < s /\
     forall d, d ∈ pre -> chunkSize d < size \/ s <= chunkSize d).

Lemma best_ok_nil size : best_ok [] size None 0.
Proof. left. split_and!; [done..|]. intros c Hc. by apply elem_of_nil in Hc. Qed.

Lemma searchFreed_spec size l pre i s :
  0 < size -> best_ok pre size i s ->
  match searchFreed size l (length pre) i s with
  | exactFit j => exists c, (pre ++ l) !! j = Some c /\ chunkSize c = size
  | bestFit i' s' => best_ok (pre ++ l) size i' s'
  end.
Proof.
  intros Hsz. revert pre i s. induction l as [|c l IH]; intros pre i s Hok; simpl.
  { by rewrite app_nil_r. }
  case_decide as Heq.
  { exists c. split; [|done]. by apply list_lookup_middle. }
  replace (S (length pre)) with (length (pre ++ [c])) by (rewrite length_app; simpl; lia).
  replace (pre ++ c :: l) with ((pre ++ [c]) ++ l) by (by rewrite <- app_assoc).
  case_decide as Hb; apply IH.
  - right. exists (length pre), c. split_and!; [done| |done|lia|].
    { by apply list_lookup_middle. }
    intros d [Hd|Hd]%elem_of_app.
    + destruct Hok as [(-> & _ & Hlt)|(j & e & _ & _ & -> & Hgt & Hmin)].
      * left. by apply Hlt.
      * destruct (Hmin d Hd); [by left|right; lia].
    + apply list_elem_of_singleton in Hd as ->. right. lia.
  - destruct Hok as [(-> & -> & Hlt)|(j & e & -> & Hj & -> & Hgt & Hmin)].
    + left. split_and!; [done..|]. intros d [Hd|Hd]%elem_of_app; [by apply Hlt|].
      apply list_elem_of_singleton in Hd as ->. lia.
    + right. exists j, e. split_and!; [done| |done|done|].
      { rewrite lookup_app_l; [done|]. by eapply lookup_lt_Some. }
      intros d [Hd|Hd]%elem_of_app; [by apply Hmin|].
      apply list_elem_of_singleton in Hd as ->. lia.
Qed.

(** What the search finds, as an abstract choice over the bag of chunks. *)
Inductive fit_result (size : Z) (l : list HeapChunk) : Z * list HeapChunk * Z -> Prop :=
  | fit_none :
      (forall c, c ∈ l -> chunkSize c < size) -> fit_result size l (0, l, 0)
  | fit_exact c rest l' :
      l ≡ₚ c :: rest -> l' ≡ₚ rest -> chunkSize c = size ->
      fit_result size l (ptr c, l', 0)
  | fit_whole c rest l' :
      l ≡ₚ c :: rest -> l' ≡ₚ rest -> size < chunkSize c ->
      chunkSize c < 2 * size ->
      (forall d, d ∈ l -> chunkSize d < size \/ chunkSize c <= chunkSize d) ->
      fit_result size l (ptr c, l', chunkSize c)
  | fit_split c rest l' :
      l ≡ₚ c :: rest -> l' ≡ₚ mkHeapChunk (ptr c) (chunkSize c - size) :: rest ->
      size < chunkSize c ->
      (forall d, d ∈ l -> chunkSize d < size \/ chunkSize c <= chunkSize d) ->
      fit_result size l (ptr c + (chunkSize c - size), l', 0).

Lemma delete_insert_Permutation (l : list HeapChunk) i c d :
  l !! i = Some c -> <[i := d]> l ≡ₚ d :: delete i l.
Proof.
  revert i. induction l as [|e l IH]; intros [|i] Hi; simplify_eq/=; [done|].
  rewrite (IH i Hi). apply Permutation_swap.
Qed.

Lemma getFromFreedChunks_spec size l :
  0 < size -> 2 * size < 2 ^ 64 ->
  (forall c, c ∈ l -> 0 <= ptr c /\ ptr c + chunkSize c < 2 ^ 64) ->
  fit_result size l (getFromFreedChunks size l).
Proof.
  intros Hsz Hsz2 Hb. unfold getFromFreedChunks.
  pose proof (searchFreed_spec size l [] None 0 Hsz (best_ok_nil size)) as Hs. simpl in Hs.
  destruct (searchFreed size l 0 None 0) as [j|[j|] s].
  - destruct Hs as (c & Hl & Hc). rewrite Hl.
    rewrite <- Hc. eapply fit_exact; [|done|done]. by apply delete_Permutation.
  - destruct Hs as [(_ & Hn & _)|(j' & c & Hj' & Hj & -> & Hgt & Hmin)].
    { done. }
    simplify_eq. rewrite decide_False by lia. rewrite Hj.
    assert (c ∈ l) as Hc by (by eapply list_elem_of_lookup_2).
    assert (w64 (Z.shiftl size 1) = 2 * size) as ->.
    { rewrite Z.shiftl_mul_pow2 by lia. unwrap. lia. }
    case_decide.
    + eapply fit_whole; [by apply delete_Permutation|done..].
    + specialize (Hb c Hc). unwrap. 
      eapply fit_split; [by apply delete_Permutation| |done|done].
      by rewrite delete_insert_Permutation.
  - destruct Hs as [(_ & _ & Hlt)|(j' & c & Hj' & _)]; [by apply fit_none|done].
Qed.

(** ** Layout: freed and live chunks tile the two sides of the heap *)

(** [Layout base limit st LB LS]: the freed big chunks with the live chunks
    [LB] tile the left side, the freed small ones with [LS] the right side. *)
Definition Layout (base limit : Z) (st : HeapAllocator) (LB LS : list HeapChunk) : Prop :=
  tiles pageSize base (pLeftBound st) (freedChunksBig st ++ LB) /\
  tiles pageSize (pRightBound st) limit (freedChunksSmall st ++ LS) /\
  pLeftBound st <= pRightBound st.

(** The fields an operation on the chunk lists leaves alone. *)
Definition same_config (st st' : HeapAllocator) : Prop :=
  heapSize st' = heapSize st /\ availableSize st' = availableSize st /\
  sizeThreshold st' = sizeThreshold st /\ allocationAlignment st' = allocationAlignment st.

#[export] Instance same_config_refl : Reflexive same_config.
Proof. by intros st. Qed.
#[export] Instance same_config_trans : Transitive same_config.
Proof. unfold same_config. intros ???. intuition congruence. Qed.

Lemma last_Permutation (l : list HeapChunk) c : last l = Some c -> l ≡ₚ c :: removelast l.
Proof.
  intros [l' ->]%last_Some. rewrite removelast_last. symmetry. apply Permutation_cons_append.
Qed.

(** Storing a chunk next to the freed ones keeps the tiling. *)
Lemma storeInFreedChunks_tiles pageSize lo hi p s l L :
  0 <= lo -> hi < 2 ^ 64 ->
  tiles pageSize lo hi (mkHeapChunk p s :: l ++ L) -> tiles pageSize lo hi (storeInFreedChunks p s l ++ L).
Proof.
  intros Hlo Hhi Ht.
  pose proof (tiles_elem _ _ _ _ (mkHeapChunk p s) Ht) as Hp; simpl in Hp.
  destruct Hp as (Hp1 & Hp2 & Hp3); [by left|].
  revert L Ht. induction l as [|[q t] l IH]; intros L Ht; simpl; [done|].
  pose proof (tiles_elem _ _ _ _ (mkHeapChunk q t) Ht) as Hq; simpl in Hq.
  destruct Hq as (Hq1 & Hq2 & Hq3); [set_solver|].
  unwrap. case_decide as Hd1; [|case_decide as Hd2].
  - subst q. simpl. unwrap. replace (t + s) with (s + t) by lia. by apply tiles_merge.
  - subst p. simpl. unwrap. apply tiles_merge. revert Ht. apply tiles_proper. by rewrite Permutation_swap.
  - simpl. rewrite Permutation_middle. apply IH. revert Ht. apply tiles_proper. solve_Permutation.
Qed.

(** Replacing two neighbours of a chunk list by one chunk. *)
Lemma lookup_two_Permutation (l : list HeapChunk) j a b :
  l !! j = Some a -> l !! S j = Some b ->
  exists rest, l ≡ₚ a :: b :: rest /\ forall m, delete (S j) (<[j := m]> l) ≡ₚ m :: rest.
Proof.
  revert j. induction l as [|e l IH]; intros [|j] Ha Hb; simplify_eq/=.
  - destruct l as [|f l]; simplify_eq/=. exists l. by split.
  - destruct (IH j Ha Hb) as (rest & Hr & Hm). exists (e :: rest). split.
    + rewrite Hr. solve_Permutation.
    + intros m. rewrite (Hm m). solve_Permutation.
Qed.

Lemma mergeSmallLoop_tiles pageSize lo hi i l L :
  0 <= lo -> hi < 2 ^ 64 -> tiles pageSize lo hi (l ++ L) -> tiles pageSize lo hi (mergeSmallLoop i l ++ L).
Proof.
  intros Hlo Hhi. revert l. induction i as [|j IH]; intros l Ht; simpl; [done|].
  destruct (l !! j) as [[p s]|] eqn:Ha; [|by apply IH].
  destruct (l !! S j) as [[q t]|] eqn:Hb; [|by apply IH].
  destruct (lookup_two_Permutation _ _ _ _ Ha Hb) as (rest & Hr & Hm).
  rewrite Hr in Ht. simpl in Ht.
  pose proof (tiles_elem _ _ _ _ (mkHeapChunk p s) Ht) as Hp; simpl in Hp.
  pose proof (tiles_elem _ _ _ _ (mkHeapChunk q t) Ht) as Hq; simpl in Hq.
  destruct Hp as (Hp1 & Hp2 & Hp3); [set_solver|]. destruct Hq as (Hq1 & Hq2 & Hq3); [set_solver|].
  simpl. unwrap. case_decide as Hd; [|by apply IH; rewrite Hr].
  apply IH. rewrite (Hm _). simpl. subst p. unwrap.
  replace (s + t) with (t + s) by lia. apply tiles_merge. revert Ht. apply tiles_proper.
  by rewrite Permutation_swap.
Qed.

Lemma mergeBigLoop_tiles pageSize lo hi i l L :
  0 <= lo -> hi < 2 ^ 64 -> tiles pageSize lo hi (l ++ L) -> tiles pageSize lo hi (mergeBigLoop i l ++ L).
Proof.
  intros Hlo Hhi. revert l. induction i as [|j IH]; intros l Ht; simpl; [done|].
  destruct (l !! j) as [[p s]|] eqn:Ha; [|by apply IH].
  destruct (l !! S j) as [[q t]|] eqn:Hb; [|by apply IH].
  destruct (lookup_two_Permutation _ _ _ _ Ha Hb) as (rest & Hr & Hm).
  rewrite Hr in Ht. simpl in Ht.
  pose proof (tiles_elem _ _ _ _ (mkHeapChunk p s) Ht) as Hp; simpl in Hp.
  pose proof (tiles_elem _ _ _ _ (mkHeapChunk q t) Ht) as Hq; simpl in Hq.
  destruct Hp as (Hp1 & Hp2 & Hp3); [set_solver|]. destruct Hq as (Hq1 & Hq2 & Hq3); [set_solver|].
  simpl. unwrap. case_decide as Hd; [|by apply IH; rewrite Hr].
  apply IH. rewrite (Hm _). simpl. subst q. unwrap. by apply tiles_merge.
Qed.

Section layout.
Context (base limit : Z) (Hbase : 0 < base) (Hlimit : limit < 2 ^ 64).

Lemma Layout_bounds st LB LS :
  Layout base limit st LB LS -> base <= pLeftBound st <= pRightBound st /\ pRightBound st <= limit.
Proof. intros (H1 & H2 & H3). apply tiles_le in H1, H2. lia. Qed.

(** Both merges only move a boundary over a freed chunk. *)
Lemma mergeLastFreedSmall_layout st LB LS :
  Layout base limit st LB LS ->
  Layout base limit (mergeLastFreedSmall st) LB LS /\ same_config st (mergeLastFreedSmall st).
Proof.
  intros Hl. pose proof (Layout_bounds _ _ _ Hl) as Hb. destruct Hl as (H1 & H2 & H3).
  unfold mergeLastFreedSmall. destruct (last _) as [[p s]|] eqn:Hlast; [|by split].
  simpl. case_decide as Heq; [|by split]. subst p. split; [|done].
  rewrite (last_Permutation _ _ Hlast) in H2. simpl in H2.
  pose proof (tiles_elem _ _ _ _ (mkHeapChunk (pRightBound st) s) H2) as He. simpl in He.
  destruct He as (_ & He1 & He2); [by left|].
  unfold Layout. simpl. unwrap. split_and!; [done| |lia]. by apply tiles_pop_front in H2.
Qed.

Lemma mergeLastFreedBig_layout st LB LS :
  Layout base limit st LB LS ->
  Layout base limit (mergeLastFreedBig st) LB LS /\ same_config st (mergeLastFreedBig st).
Proof.
  intros Hl. pose proof (Layout_bounds _ _ _ Hl) as Hb. destruct Hl as (H1 & H2 & H3).
  unfold mergeLastFreedBig. destruct (last _) as [[p s]|] eqn:Hlast; [|by split].
  simpl. case_decide as Heq; [|by split]. split; [|done].
  rewrite (last_Permutation _ _ Hlast) in H1. simpl in H1.
  pose proof (tiles_elem _ _ _ _ (mkHeapChunk p s) H1) as He. simpl in He.
  destruct He as (He0 & He1 & He2); [by left|].
  rewrite wrap_small in Heq by word_lia.
  unfold Layout. simpl. split_and!; [|done|lia].
  replace (pLeftBound st) with (p + s) in H1 by lia. by apply tiles_pop_back in H1.
Qed.

Lemma defragment_layout st LB LS :
  Layout base limit st LB LS ->
  Layout base limit (defragment st) LB LS /\ same_config st (defragment st).
Proof.
  intros Hl.
  assert (Layout base limit (defragmentSmall st) LB LS /\ same_config st (defragmentSmall st))
    as [Hl1 Hc1].
  { unfold defragmentSmall. case_decide; [|by split]. split; [|done].
    pose proof (Layout_bounds _ _ _ Hl). destruct Hl as (H1 & H2 & H3). split_and!; try done.
    simpl. apply mergeSmallLoop_tiles; [lia|done|]. by rewrite merge_sort_Permutation. }
  apply mergeLastFreedSmall_layout in Hl1 as [Hl2 Hc2].
  set (st2 := mergeLastFreedSmall (defragmentSmall st)) in *.
  assert (Layout base limit (defragmentBig st2) LB LS /\ same_config st2 (defragmentBig st2))
    as [Hl3 Hc3].
  { unfold defragmentBig. case_decide; [|by split]. split; [|done].
    pose proof (Layout_bounds _ _ _ Hl2). destruct Hl2 as (H1 & H2 & H3). split_and!; try done.
    simpl. apply mergeBigLoop_tiles; [lia|lia|]. by rewrite merge_sort_Permutation. }
  apply mergeLastFreedBig_layout in Hl3 as [Hl4 Hc4].
  split; [exact Hl4|]. unfold defragment. fold st2. by etrans; [|etrans]; [etrans|..].
Qed.
End layout.

(** ** The allocator's invariant *)

(** [Inv base st live]: [live] is the bag of ranges handed out and not freed.
    Together with the freed chunks and the gap between the two bounds they
    tile the heap with page-sized granularity, and [availableSize] is the size
    of the heap less what is live. *)
Definition Inv (base : Z) (st : HeapAllocator) (live : list HeapChunk) : Prop :=
  exists LB LS, live ≡ₚ LB ++ LS /\ Layout base (base + heapSize st) st LB LS /\
    availableSize st = heapSize st - total live.

(** What the placement of the heap must satisfy.  The third condition rules out
    an underflow of [pRightBound - sizeToAllocate]. *)
Definition placement_ok (base : Z) (st : HeapAllocator) : Prop :=
  0 < base /\ base + 2 * heapSize st < 2 ^ 64 /\ sizeThreshold st <= base /\
  allocationAlignment st = pageSize.

#[export] Instance Inv_proper base st : Proper (Permutation ==> iff) (Inv base st).
Proof. intros l1 l2 Hl. unfold Inv. by setoid_rewrite Hl. Qed.

Lemma Inv_range base st live c :
  Inv base st live -> c ∈ live ->
  base <= ptr c /\ ptr c + chunkSize c <= base + heapSize st /\ 0 < chunkSize c.
Proof.
  intros (LB & LS & Hp & (H1 & H2 & H3) & _) Hc. rewrite Hp in Hc.
  pose proof (tiles_le _ _ _ _ H1). pose proof (tiles_le _ _ _ _ H2).
  apply elem_of_app in Hc as [Hc|Hc].
  - pose proof (tiles_elem _ _ _ _ c H1 ltac:(set_solver)). lia.
  - pose proof (tiles_elem _ _ _ _ c H2 ltac:(set_solver)). lia.
Qed.

Lemma Inv_disjoint base st live c d rest :
  Inv base st live -> live ≡ₚ c :: d :: rest -> disjoint_chunks c d.
Proof.
  intros (LB & LS & Hp & (H1 & H2 & H3) & _) Hl. rewrite Hl in Hp. clear Hl.
  assert (forall x y, x ∈ LB -> y ∈ LS -> disjoint_chunks x y) as Hcross.
  { intros x y Hx Hy.
    pose proof (tiles_elem _ _ _ _ x H1 ltac:(set_solver)).
    pose proof (tiles_elem _ _ _ _ y H2 ltac:(set_solver)). left. lia. }
  assert (c ∈ LB ++ LS) as Hc by (rewrite <- Hp; set_solver).
  apply elem_of_app in Hc as [(l1 & l2 & ->)%list_elem_of_split|(l1 & l2 & ->)%list_elem_of_split].
  - assert (d :: rest ≡ₚ l1 ++ l2 ++ LS) as Hp'.
    { apply (inj (cons c)). rewrite Hp. solve_Permutation. }
    assert (d ∈ l1 ++ l2 ++ LS) as Hd by (rewrite <- Hp'; set_solver).
    rewrite app_assoc in Hd. apply elem_of_app in Hd as [Hd|Hd].
    + apply list_elem_of_split in Hd as (m1 & m2 & Hm).
      apply (tiles_disjoint pageSize base (pLeftBound st) c d (freedChunksBig st ++ m1 ++ m2)).
      rewrite <- (Permutation_middle l1), Hm in H1. revert H1. apply tiles_proper. solve_Permutation.
    + apply Hcross; set_solver.
  - assert (d :: rest ≡ₚ LB ++ l1 ++ l2) as Hp'.
    { apply (inj (cons c)). rewrite Hp. solve_Permutation. }
    assert (d ∈ LB ++ l1 ++ l2) as Hd by (rewrite <- Hp'; set_solver).
    apply elem_of_app in Hd as [Hd|Hd].
    + assert (disjoint_chunks d c) as [?|?] by (apply Hcross; set_solver); [by right|by left].
    + apply list_elem_of_split in Hd as (m1 & m2 & Hm).
      apply (tiles_disjoint pageSize (pRightBound st) (base + heapSize st) c d
               (freedChunksSmall st ++ m1 ++ m2)).
      rewrite <- (Permutation_middle l1), Hm in H2. revert H2. apply tiles_proper. solve_Permutation.
Qed.

Lemma Inv_new base size threshold :
  0 < base -> 0 <= size -> base + 2 * size < 2 ^ 64 ->
  Inv base (newHeapAllocatorT base size threshold) [].
Proof.
  intros Hb Hs Hf. exists [], []. split; [done|]. simpl. unwrap.
  split; [|lia]. unfold Layout. simpl. unwrap. split_and!; [apply tiles_nil..|lia].
Qed.

(** ** One turn of the allocation loop *)

(** [no_room sz st]: neither a freed chunk of the side the request belongs to
    nor the gap between the bounds can hold it. *)
Definition no_room (sz : Z) (st : HeapAllocator) : Prop :=
  pRightBound st - pLeftBound st < sz /\
  forall c, c ∈ (if decide (sizeThreshold st < sz) then freedChunksBig st else freedChunksSmall st) ->
    chunkSize c < sz.

Lemma setBig_id st : setBig (freedChunksBig st) st = st.
Proof. by destruct st. Qed.
Lemma setSmall_id st : setSmall (freedChunksSmall st) st = st.
Proof. by destruct st. Qed.

(** Taking a chunk out of the freed list of one side: the freed and the live
    chunks still tile it. *)
Lemma fit_result_tiles lo hi size freed L p l' k :
  0 < lo -> 0 < size -> (pageSize | size) ->
  tiles pageSize lo hi (freed ++ L) -> fit_result size freed (p, l', k) -> p <> 0 ->
  let got := if decide (0 < k) then k else size in
  tiles pageSize lo hi (l' ++ mkHeapChunk p got :: L) /\ size <= got < 2 * size.
Proof.
  intros Hlo Hsz Hg Ht Hf Hp got.
  inversion Hf as [|[q t] rest l'' Hl Hl' Heq|[q t] rest l'' Hl Hl' Hgt Hlt2 _|[q t] rest l'' Hl Hl' Hgt _];
    subst; simpl in *; try done; rewrite Hl in Ht; simpl in Ht.
  - subst got. split; [|lia]. rewrite Hl'. by rewrite <- Permutation_middle.
  - subst got. rewrite decide_True by lia. split; [|lia]. rewrite Hl'. by rewrite <- Permutation_middle.
  - subst got. split; [|lia]. rewrite Hl'. rewrite <- Permutation_middle. simpl.
    rewrite Permutation_swap.
    pose proof (tiles_elem_full _ _ _ _ (mkHeapChunk q t) Ht ltac:(set_solver)) as (_ & _ & _ & Hgt' & _).
    simpl in Hgt'. apply tiles_split; [lia|lia|by apply Z.divide_sub_r|].
    by replace (t - size + size) with t by lia.
Qed.

Lemma freed_bounds lo hi freed L :
  0 < lo -> hi < 2 ^ 64 -> tiles pageSize lo hi (freed ++ L) ->
  forall c, c ∈ freed -> 0 < ptr c /\ 0 <= ptr c /\ ptr c + chunkSize c < 2 ^ 64.
Proof.
  intros Hlo Hhi Ht c Hc. pose proof (tiles_elem _ _ _ _ c Ht ltac:(set_solver)). lia.
Qed.

Lemma fit_result_ptr lo hi size freed L p l' k :
  0 < lo -> 0 < size -> tiles pageSize lo hi (freed ++ L) -> fit_result size freed (p, l', k) ->
  (p = 0 /\ l' = freed /\ k = 0 /\ forall c, c ∈ freed -> chunkSize c < size) \/ (p <> 0 /\ 0 <= k).
Proof.
  intros Hlo Hsz Ht Hf.
  assert (forall c rest, freed ≡ₚ c :: rest -> lo <= ptr c) as Hb.
  { intros c rest Hr. eapply tiles_elem; [exact Ht|]. rewrite Hr. set_solver. }
  inversion Hf as [|c rest l'' Hl|c rest l'' Hl ? Hgt|c rest l'' Hl ? Hgt]; subst.
  - by left.
  - specialize (Hb _ _ Hl). right. lia.
  - specialize (Hb _ _ Hl). right. lia.
  - specialize (Hb _ _ Hl). right. lia.
Qed.

(** The freed chunks and the gap bound what can be taken. *)
Lemma Layout_available base st LB LS live :
  Layout base (base + heapSize st) st LB LS -> live ≡ₚ LB ++ LS ->
  availableSize st = heapSize st - total live ->
  0 <= total live /\ 0 <= availableSize st /\
  total (freedChunksBig st) + total (freedChunksSmall st) +
    (pRightBound st - pLeftBound st) = availableSize st.
Proof.
  intros (H1 & H2 & H3) -> ->. rewrite total_app.
  apply tiles_total_app in H1 as (? & ? & ?). apply tiles_total_app in H2 as (? & ? & ?). lia.
Qed.

(** What one turn guarantees when it succeeds. *)
Definition turn_ok (base : Z) (st : HeapAllocator) (live : list HeapChunk) (sz : Z)
    (r : Z * Z * HeapAllocator) : Prop :=
  let '(p, size', st') := r in
  (p = 0 /\ size' = sz /\ st' = st /\ no_room sz st) \/
  (p <> 0 /\ sz <= size' < 2 * sz /\ Inv base st' (mkHeapChunk p size' :: live) /\
   heapSize st' = heapSize st /\ sizeThreshold st' = sizeThreshold st /\
   allocationAlignment st' = allocationAlignment st).

Lemma taken_eq (k p sz : Z) st :
  (if decide (0 < k) then (p, k, setAvailable (availableSize st ⊟ k) st)
   else (p, sz, setAvailable (availableSize st ⊟ sz) st)) =
  let got := if decide (0 < k) then k else sz in
  (p, got, setAvailable (availableSize st ⊟ got) st).
Proof. by case_decide. Qed.

Lemma allocateTurn_big base st live sz :
  placement_ok base st -> Inv base st live -> 0 < sz <= availableSize st -> (pageSize | sz) ->
  sizeThreshold st < sz -> turn_ok base st live sz (allocateTurn sz st).
Proof.
  intros (Hb & Hov & Hth & Hal) (LB & LS & Hlive & HL & Hav) Hsz Hg Hbig.
  pose proof (Layout_bounds _ _ _ _ _ HL) as Hbd.
  pose proof (Layout_available _ _ _ _ _ HL Hlive Hav) as (Ht0 & Ha0 & Hsum).
  destruct HL as (H1 & H2 & H3).
  pose proof (freed_bounds base (pLeftBound st) _ LB Hb ltac:(lia) H1) as Hfb.
  pose proof (getFromFreedChunks_spec sz (freedChunksBig st) ltac:(lia) ltac:(lia)
                ltac:(intros c Hc; apply Hfb in Hc; lia)) as Hfit.
  unfold allocateTurn, turn_ok. rewrite bool_decide_eq_true_2 by done.
  destruct (getFromFreedChunks _ _) as [[p l'] k].
  destruct (fit_result_ptr base (pLeftBound st) sz _ LB _ _ _ Hb ltac:(lia) H1 Hfit) as [(-> & -> & -> & Hno)|[Hp Hk]].
  - rewrite decide_True by done. rewrite setBig_id. unwrap. case_decide as Hgap; simpl.
    + rewrite decide_False by lia. right. split_and!; try done; try lia. unwrap.
      exists (mkHeapChunk (pLeftBound st) sz :: LB), LS. split_and!.
      * by rewrite Hlive.
      * unfold Layout. simpl. split_and!; [|done|lia].
        rewrite <- Permutation_middle. by apply tiles_push_back; [lia|..].
      * simpl. lia.
    + left. split_and!; try done. unfold no_room. rewrite decide_True by done. split; [lia|done].
  - destruct (fit_result_tiles base (pLeftBound st) sz _ LB _ _ _ Hb ltac:(lia) Hg H1 Hfit Hp) as [Ht Hgot].
    rewrite !(decide_False (P := p = 0)) by done.
    pose proof (tiles_total_app _ _ _ _ _ Ht) as (Hn1 & _ & Hn2).
    pose proof (tiles_total_app _ _ _ _ _ H1) as (_ & Hn3 & Hn4).
    pose proof (tiles_total_app _ _ _ _ _ H2) as (Hn5 & _ & _).
    rewrite (taken_eq k p sz (setBig l' st)). simpl in Ht, Hgot |- *.
    set (got := if decide (0 < k) then k else sz) in *. clearbody got. simpl in *.
    right. unwrap. split_and!; [done|lia|lia| |done..].
    exists (mkHeapChunk p got :: LB), LS. split_and!; [by rewrite Hlive| |simpl; lia].
    unfold Layout. simpl. by split_and!.
Qed.

Lemma allocateTurn_small base st live sz :
  placement_ok base st -> Inv base st live -> 0 < sz <= availableSize st -> (pageSize | sz) ->
  sz <= sizeThreshold st -> turn_ok base st live sz (allocateTurn sz st).
Proof.
  intros (Hb & Hov & Hth & Hal) (LB & LS & Hlive & HL & Hav) Hsz Hg Hsmall.
  pose proof (Layout_bounds _ _ _ _ _ HL) as Hbd.
  pose proof (Layout_available _ _ _ _ _ HL Hlive Hav) as (Ht0 & Ha0 & Hsum).
  destruct HL as (H1 & H2 & H3). assert (0 < pRightBound st) as Hpr by lia.
  pose proof (freed_bounds (pRightBound st) (base + heapSize st) _ LS Hpr ltac:(lia) H2) as Hfb.
  pose proof (getFromFreedChunks_spec sz (freedChunksSmall st) ltac:(lia) ltac:(lia)
                ltac:(intros c Hc; apply Hfb in Hc; lia)) as Hfit.
  unfold allocateTurn, turn_ok. rewrite bool_decide_eq_false_2 by lia.
  destruct (getFromFreedChunks _ _) as [[p l'] k].
  destruct (fit_result_ptr (pRightBound st) (base + heapSize st) sz _ LS _ _ _ Hpr ltac:(lia) H2 Hfit) as [(-> & -> & -> & Hno)|[Hp Hk]].
  - rewrite decide_True by done. rewrite setSmall_id. unwrap. case_decide as Hgap; simpl.
    + unwrap. rewrite decide_False by lia. right. split_and!; try done; try lia.
      exists LB, (mkHeapChunk (pRightBound st - sz) sz :: LS). split_and!.
      * rewrite <- Permutation_middle. by rewrite Hlive.
      * unfold Layout. simpl. split_and!; [done| |lia].
        rewrite <- Permutation_middle. apply tiles_push_front; [lia|done|].
        by replace (pRightBound st - sz + sz) with (pRightBound st) by lia.
      * simpl. lia.
    + left. split_and!; try done. unfold no_room. rewrite decide_False by lia. split; [lia|done].
  - destruct (fit_result_tiles (pRightBound st) (base + heapSize st) sz _ LS _ _ _ Hpr ltac:(lia) Hg H2 Hfit Hp) as [Ht Hgot].
    rewrite !(decide_False (P := p = 0)) by done.
    pose proof (tiles_total_app _ _ _ _ _ Ht) as (Hn1 & _ & Hn2).
    pose proof (tiles_total_app _ _ _ _ _ H2) as (_ & Hn3 & Hn4).
    pose proof (tiles_total_app _ _ _ _ _ H1) as (Hn5 & _ & _).
    rewrite (taken_eq k p sz (setSmall l' st)). simpl in Ht, Hgot |- *.
    set (got := if decide (0 < k) then k else sz) in *. clearbody got. simpl in *.
    right. unwrap. split_and!; [done|lia|lia| |done..].
    exists LB, (mkHeapChunk p got :: LS). split_and!; [rewrite <- Permutation_middle; by rewrite Hlive| |simpl; lia].
    unfold Layout. simpl. by split_and!.
Qed.

Lemma allocateTurn_spec base st live sz :
  placement_ok base st -> Inv base st live -> 0 < sz <= availableSize st -> (pageSize | sz) ->
  turn_ok base st live sz (allocateTurn sz st).
Proof.
  intros. destruct (decide (sizeThreshold st < sz)).
  - by apply allocateTurn_big.
  - apply allocateTurn_small; [done..|lia].
Qed.

(** ** The public operations *)

Lemma defragment_Inv base st live :
  placement_ok base st -> Inv base st live ->
  Inv base (defragment st) live /\ same_config st (defragment st).
Proof.
  intros (Hb & Hov & _ & _) (LB & LS & Hlive & HL & Hav).
  assert (0 <= heapSize st) as Hs by (apply Layout_bounds in HL; lia).
  destruct (defragment_layout base (base + heapSize st) Hb ltac:(lia) st LB LS HL) as [HL' Hc].
  split; [|done]. destruct Hc as (Hc1 & Hc2 & Hc3 & Hc4).
  exists LB, LS. rewrite Hc1, Hc2. by split_and!.
Qed.

Lemma placement_ok_config base st st' :
  heapSize st' = heapSize st -> sizeThreshold st' = sizeThreshold st ->
  allocationAlignment st' = allocationAlignment st ->
  placement_ok base st -> placement_ok base st'.
Proof. unfold placement_ok. by intros -> -> ->. Qed.

(** What the whole operation guarantees, [st0] being the state it was called
    in: it fails only when no freed chunk of the side and no gap is left that
    holds the request, after a defragmentation. *)
Definition alloc_ok (base : Z) (st0 : HeapAllocator) (live : list HeapChunk) (sz : Z)
    (r : Z * Z * HeapAllocator) : Prop :=
  let '(p, size', st') := r in
  heapSize st' = heapSize st0 /\ sizeThreshold st' = sizeThreshold st0 /\
  allocationAlignment st' = allocationAlignment st0 /\
  ((p = 0 /\ Inv base st' live /\ no_room sz st') \/
   (p <> 0 /\ sz <= size' < 2 * sz /\ Inv base st' (mkHeapChunk p size' :: live))).

Lemma allocateLoop_spec n base st live sz :
  placement_ok base st -> Inv base st live -> 0 < sz <= availableSize st -> (pageSize | sz) ->
  alloc_ok base st live sz (allocateLoop n sz st).
Proof.
  revert st. induction n as [|n IH]; intros st Hok HI Hsz Hg; simpl;
    pose proof (allocateTurn_spec base st live sz Hok HI Hsz Hg) as Ht;
    destruct (allocateTurn sz st) as [[p size'] st'];
    destruct Ht as [(-> & -> & -> & Hno)|(Hp & Hs & HI' & H1 & H2 & H3)];
    try (rewrite decide_False by done; unfold alloc_ok; tauto);
    rewrite decide_True by done.
  - unfold alloc_ok. tauto.
  - destruct (defragment_Inv base st live Hok HI) as [HI' (Hc1 & Hc2 & Hc3 & Hc4)].
    specialize (IH (defragment st)). rewrite Hc2 in IH.
    specialize (IH (placement_ok_config _ _ _ Hc1 Hc3 Hc4 Hok) HI' Hsz Hg).
    unfold alloc_ok in *. destruct (allocateLoop n sz (defragment st)) as [[p' s'] st'].
    by rewrite Hc1, Hc3, Hc4 in IH.
Qed.

Lemma alignUp_page_divide x :
  0 < x -> x + 4095 < 2 ^ 64 ->
  x <= alignUp 64 x pageSize < x + pageSize /\ (pageSize | alignUp 64 x pageSize).
Proof.
  intros H1 H2. destruct (alignUp_page x) as [H3 H4]; [lia..|]. split; [done|].
  by apply Z.mod_divide.
Qed.

Lemma allocate_spec base st live req :
  placement_ok base st -> Inv base st live -> 0 < req -> req + 4095 < 2 ^ 64 ->
  let sz := alignUp 64 req pageSize in
  let '(p, size', st') := allocate req st in
  heapSize st' = heapSize st /\ sizeThreshold st' = sizeThreshold st /\
  allocationAlignment st' = allocationAlignment st /\
  ((p = 0 /\ Inv base st' live /\ (availableSize st < sz \/ no_room sz st')) \/
   (p <> 0 /\ sz <= size' < 2 * sz /\ Inv base st' (mkHeapChunk p size' :: live))).
Proof.
  intros Hok HI Hr Hr2 sz. pose proof Hok as (_ & _ & _ & Hal).
  destruct (alignUp_page_divide req Hr Hr2) as [Hb Hd]. fold sz in Hb, Hd.
  unfold allocate. rewrite Hal. fold sz. case_decide as Hav.
  - tauto.
  - pose proof (allocateLoop_spec 1 base st live sz Hok HI ltac:(lia) Hd) as HL.
    unfold alloc_ok in HL. rewrite Hal in HL. destruct (allocateLoop 1 sz st) as [[p s] st'].
    tauto.
Qed.

(** A live chunk sits on the side its address says. *)
Lemma live_side base st LB LS c :
  0 < base -> base + heapSize st < 2 ^ 64 ->
  Layout base (base + heapSize st) st LB LS -> c ∈ LB ++ LS ->
  (c ∈ LB /\ ptr c + chunkSize c <= pLeftBound st /\ base <= ptr c /\ 0 < chunkSize c) \/
  (c ∈ LS /\ pRightBound st <= ptr c /\ ptr c + chunkSize c <= base + heapSize st /\ 0 < chunkSize c).
Proof.
  intros Hb Hl (H1 & H2 & H3) [Hc|Hc]%elem_of_app; [left|right].
  - pose proof (tiles_elem _ _ _ _ c H1 ltac:(set_solver)). split_and!; [done|lia..].
  - pose proof (tiles_elem _ _ _ _ c H2 ltac:(set_solver)). split_and!; [done|lia..].
Qed.

(** The four branches of [free], each as a statement about the layout. *)
Lemma free_layout base st LB LS LB' LS' p s :
  0 < base -> base + heapSize st < 2 ^ 64 ->
  Layout base (base + heapSize st) st LB LS ->
  (LB ≡ₚ mkHeapChunk p s :: LB' /\ LS' = LS) \/ (LS ≡ₚ mkHeapChunk p s :: LS' /\ LB' = LB) ->
  let st' :=
    if decide (p = pRightBound st) then mergeLastFreedSmall (setRight (p ⊞ s) st)
    else if decide (p = pLeftBound st ⊟ s) then mergeLastFreedBig (setLeft p st)
    else if decide (p < pLeftBound st) then setBig (storeInFreedChunks p s (freedChunksBig st)) st
    else setSmall (storeInFreedChunks p s (freedChunksSmall st)) st in
  Layout base (base + heapSize st) st' LB' LS' /\ same_config st st'.
Proof.
  intros Hb Hl HL Hside st'. pose proof (Layout_bounds _ _ _ _ _ HL) as Hbd.
  set (limit := base + heapSize st) in *.
  destruct HL as (H1 & H2 & H3). destruct Hside as [[HB ->]|[HS ->]].
  - rewrite HB in H1.
    pose proof (tiles_elem _ _ _ _ (mkHeapChunk p s) H1 ltac:(set_solver)) as Hc; simpl in Hc.
    subst st'. rewrite decide_False by lia. unwrap. case_decide as Hleft.
    + assert (Layout base limit (setLeft p st) LB' LS) as HL';
        [|by apply mergeLastFreedBig_layout in HL' as [? ?]; [split|..]].
      split_and!; [|done|simpl; lia]. simpl.
      replace (pLeftBound st) with (p + s) in H1 by lia. rewrite <- Permutation_middle in H1.
      by apply tiles_pop_back in H1.
    + rewrite decide_True by lia. split; [|done]. split_and!; [|done..]. simpl.
      apply storeInFreedChunks_tiles; [lia..|]. by rewrite <- Permutation_middle in H1.
  - rewrite HS in H2.
    pose proof (tiles_elem _ _ _ _ (mkHeapChunk p s) H2 ltac:(set_solver)) as Hc; simpl in Hc.
    subst st'. case_decide as Hright.
    + subst p. unwrap.
      assert (Layout base limit (setRight (pRightBound st + s) st) LB LS') as HL';
        [|by apply mergeLastFreedSmall_layout in HL' as [? ?]; [split|..]].
      split_and!; [done| |simpl; lia]. simpl.
      rewrite <- Permutation_middle in H2. by apply tiles_pop_front in H2.
    + rewrite decide_False by mod_lia. rewrite decide_False by lia.
      split; [|done]. split_and!; [done| |done]. simpl.
      apply storeInFreedChunks_tiles; [lia..|]. by rewrite <- Permutation_middle in H2.
Qed.

Lemma free_spec base st live c rest :
  placement_ok base st -> Inv base st live -> live ≡ₚ c :: rest ->
  let st' := free (ptr c) (chunkSize c) st in
  Inv base st' rest /\ heapSize st' = heapSize st /\ sizeThreshold st' = sizeThreshold st /\
  allocationAlignment st' = allocationAlignment st.
Proof.
  intros (Hb & Hov & _ & _) HI Hc. destruct c as [p s]. simpl.
  pose proof (Inv_range base st live (mkHeapChunk p s) HI ltac:(rewrite Hc; set_solver)) as Hr.
  destruct HI as (LB & LS & Hlive & HL & Hav). simpl in Hr.
  pose proof (Layout_available _ _ _ _ _ HL Hlive Hav) as (Ht0 & Ha0 & Hsum).
  rewrite Hc in Hav. simpl in Hav. unfold free. rewrite decide_False by lia.
  assert (exists LB' LS', rest ≡ₚ LB' ++ LS' /\
    ((LB ≡ₚ mkHeapChunk p s :: LB' /\ LS' = LS) \/ (LS ≡ₚ mkHeapChunk p s :: LS' /\ LB' = LB)))
    as (LB' & LS' & Hrest & Hside).
  { rewrite Hlive in Hc. assert (mkHeapChunk p s ∈ LB ++ LS) as Hin by (rewrite Hc; set_solver).
    apply elem_of_app in Hin as [(l1 & l2 & ->)%list_elem_of_split|(l1 & l2 & ->)%list_elem_of_split].
    - exists (l1 ++ l2), LS. split; [|left; split; [by rewrite Permutation_middle|done]].
      apply (inj (cons (mkHeapChunk p s))). rewrite <- Hc. solve_Permutation.
    - exists LB, (l1 ++ l2). split; [|right; split; [by rewrite Permutation_middle|done]].
      apply (inj (cons (mkHeapChunk p s))). rewrite <- Hc. solve_Permutation. }
  destruct (free_layout base st LB LS LB' LS' p s Hb ltac:(lia) HL Hside) as [HL' (E1 & E2 & E3 & E4)].
  set (st' := if decide (p = pRightBound st) then _ else _) in *. clearbody st'. simpl.
  split_and!; [|done..]. exists LB', LS'. simpl. rewrite E1, E2.
  rewrite Hc in Ht0, Hlive. simpl in Ht0.
  assert (0 <= total rest) as Hn.
  { rewrite Hrest. destruct HL' as (T1 & T2 & _).
    apply tiles_total_app in T1 as (_ & ? & _). apply tiles_total_app in T2 as (_ & ? & _).
    rewrite total_app. lia. }
  split_and!; [done|done|]. unwrap. lia.
Qed.

(** ** A drained heap

    When nothing is live the freed chunks alone tile the two sides, so the
    sort and the merging loops of [defragment] collapse each side to one chunk
    and [mergeLastFreedSmall]/[mergeLastFreedBig] give it back to the gap. *)

Lemma delete_insert_last (pre : list HeapChunk) a b m :
  delete (S (length pre)) (<[length pre := m]> (pre ++ [a; b])) = pre ++ [m].
Proof. induction pre as [|c pre IH]; simpl; [done|]. f_equal. apply IH. Qed.

Lemma split_last_two (l : list HeapChunk) j :
  length l = S (S j) -> exists pre a b, l = pre ++ [a; b] /\ length pre = j.
Proof.
  intros Hl. destruct l as [|b l _] using rev_ind; [done|].
  rewrite length_app in Hl. simpl in Hl.
  destruct l as [|a l _] using rev_ind; [simpl in Hl; lia|].
  rewrite length_app in Hl. simpl in Hl. exists l, a, b. rewrite <- app_assoc. split; [done|lia].
Qed.

Lemma lookup_last_two (pre : list HeapChunk) a b :
  (pre ++ [a; b]) !! length pre = Some a /\ (pre ++ [a; b]) !! S (length pre) = Some b.
Proof. induction pre; simpl; [done|done]. Qed.

Lemma chain_singleton g lo hi c : chain g lo hi [c] -> c = mkHeapChunk lo (hi - lo) /\ lo < hi.
Proof.
  inversion 1 as [|p s ? ? Hs Hg Hc]; subst. inversion Hc; subst.
  split; [f_equal; lia|lia].
Qed.

Lemma mergeBigLoop_chain g i lo hi l :
  0 <= lo -> hi < 2 ^ 64 -> chain g lo hi l -> length l = S i ->
  mergeBigLoop i l = [mkHeapChunk lo (hi - lo)].
Proof.
  intros Hlo Hhi. revert l. induction i as [|j IH]; intros l Hc Hl.
  { destruct l as [|c [|? ?]]; simplify_eq/=. apply chain_singleton in Hc as [-> _]. done. }
  destruct (split_last_two l j Hl) as (pre & [p s] & [q t] & -> & <-).
  destruct (lookup_last_two pre (mkHeapChunk p s) (mkHeapChunk q t)) as [H1 H2].
  cbn [mergeBigLoop]. rewrite H1, H2. simpl.
  apply chain_app in Hc as (mid & Hc1 & Hc2).
  inversion Hc2 as [|? ? ? ? Hs Hgs Hc3]; subst. inversion Hc3 as [|? ? ? ? Ht Hgt Hc4]; subst.
  inversion Hc4; subst. apply chain_le in Hc1 as Hle. unwrap.
  rewrite decide_True by done. rewrite delete_insert_last. apply IH.
  - apply chain_app. exists p. split; [done|]. constructor; [lia|by apply Z.divide_add_r|].
    replace (p + s + t) with (p + (s + t)) by lia. constructor.
  - rewrite length_app. simpl. lia.
Qed.

Lemma mergeSmallLoop_chain g i lo hi l :
  0 <= lo -> hi < 2 ^ 64 -> chain g lo hi (reverse l) -> length l = S i ->
  mergeSmallLoop i l = [mkHeapChunk lo (hi - lo)].
Proof.
  intros Hlo Hhi. revert l. induction i as [|j IH]; intros l Hc Hl.
  { destruct l as [|c [|? ?]]; simplify_eq/=. apply chain_singleton in Hc as [-> _]. done. }
  destruct (split_last_two l j Hl) as (pre & [p s] & [q t] & -> & <-).
  destruct (lookup_last_two pre (mkHeapChunk p s) (mkHeapChunk q t)) as [H1 H2].
  cbn [mergeSmallLoop]. rewrite H1, H2. simpl.
  rewrite reverse_app in Hc. change (reverse [mkHeapChunk p s; mkHeapChunk q t])
    with [mkHeapChunk q t; mkHeapChunk p s] in Hc. simpl in Hc.
  inversion Hc as [|? ? ? ? Ht Hgt Hc3]; subst. inversion Hc3 as [|? ? ? ? Hs Hgs Hc4]; subst.
  apply chain_le in Hc4 as Hle. unwrap.
  rewrite decide_True by done. rewrite delete_insert_last. apply IH.
  - rewrite reverse_app. change (reverse [?c]) with [c]. simpl.
    constructor; [lia|by apply Z.divide_add_r|].
    by replace (q + (s + t)) with (q + t + s) by lia.
  - rewrite length_app. simpl. lia.
Qed.

#[export] Instance ptr_le_trans : Transitive ptr_le.
Proof. unfold ptr_le. intros ???. lia. Qed.
#[export] Instance ptr_le_total : Total ptr_le.
Proof. unfold ptr_le. intros ??. lia. Qed.
#[export] Instance ptr_ge_trans : Transitive ptr_ge.
Proof. unfold ptr_ge. intros ???. lia. Qed.
#[export] Instance ptr_ge_total : Total ptr_ge.
Proof. unfold ptr_ge. intros ??. lia. Qed.

Lemma chain_inj g lo hi l c d : chain g lo hi l -> c ∈ l -> d ∈ l -> ptr c = ptr d -> c = d.
Proof.
  induction 1 as [lo|p s hi l Hs Hg Hc IH]; intros H1 H2 He; [by apply elem_of_nil in H1|].
  apply elem_of_cons in H1 as [->|H1], H2 as [->|H2]; [done| | |by apply IH].
  - pose proof (chain_elem _ _ _ _ _ Hc H2). simpl in He. lia.
  - pose proof (chain_elem _ _ _ _ _ Hc H1). simpl in He. lia.
Qed.

Lemma chain_sorted g lo hi l : chain g lo hi l -> StronglySorted ptr_le l.
Proof.
  induction 1 as [lo|p s hi l Hs Hg Hc IH]; constructor; [done|].
  apply Forall_forall. intros c Hin. pose proof (chain_elem _ _ _ _ _ Hc Hin). unfold ptr_le. simpl. lia.
Qed.

Lemma StronglySorted_snoc {A} (R : relation A) l x :
  StronglySorted R l -> (forall y, y ∈ l -> R y x) -> StronglySorted R (l ++ [x]).
Proof.
  induction 1 as [|y l Hs IH Hall]; intros Hx; simpl; [repeat constructor|].
  constructor; [apply IH; set_solver|]. apply Forall_app. split; [done|].
  constructor; [apply Hx; set_solver|constructor].
Qed.

Lemma chain_reverse_sorted g lo hi l : chain g lo hi l -> StronglySorted ptr_ge (reverse l).
Proof.
  induction 1 as [lo|p s hi l Hs Hg Hc IH]; [constructor|].
  rewrite reverse_cons. apply StronglySorted_snoc; [done|].
  intros c Hin. rewrite elem_of_reverse in Hin.
  pose proof (chain_elem _ _ _ _ _ Hc Hin). unfold ptr_ge. simpl. lia.
Qed.

(** Sorting the chunks of a tiling gives the chain itself. *)
Lemma sort_tiles_le g lo hi l :
  tiles g lo hi l -> chain g lo hi (merge_sort ptr_le l).
Proof.
  intros (l' & Hp & Hc). replace (merge_sort ptr_le l) with l'; [done|].
  eapply (StronglySorted_unique_strong ptr_le).
  - intros c d H1 H2 Hl1 Hl2. eapply chain_inj; [done|done| |unfold ptr_le in *; lia].
    by rewrite merge_sort_Permutation, <- Hp in H2.
  - by eapply chain_sorted.
  - apply StronglySorted_merge_sort; apply _.
  - by rewrite merge_sort_Permutation.
Qed.

Lemma sort_tiles_ge g lo hi l :
  tiles g lo hi l -> chain g lo hi (reverse (merge_sort ptr_ge l)).
Proof.
  intros (l' & Hp & Hc). replace (merge_sort ptr_ge l) with (reverse l'); [by rewrite reverse_involutive|].
  eapply (StronglySorted_unique_strong ptr_ge).
  - intros c d H1 H2 Hl1 Hl2. rewrite elem_of_reverse in H1.
    eapply chain_inj; [done|done| |unfold ptr_ge in *; lia].
    by rewrite merge_sort_Permutation, <- Hp in H2.
  - by eapply chain_reverse_sorted.
  - apply StronglySorted_merge_sort; apply _.
  - by rewrite merge_sort_Permutation, reverse_Permutation.
Qed.

Lemma tiles_nil_inv g lo hi : tiles g lo hi [] -> lo = hi.
Proof. intros Ht. apply tiles_total in Ht. unfold total in Ht. simpl in Ht. lia. Qed.

Lemma tiles_collapse_big g lo hi l :
  0 <= lo -> hi < 2 ^ 64 -> tiles g lo hi l -> l <> [] ->
  mergeBigLoop (length (merge_sort ptr_le l) - 1) (merge_sort ptr_le l) = [mkHeapChunk lo (hi - lo)].
Proof.
  intros Hlo Hhi Ht Hne. apply (mergeBigLoop_chain g); [done..|by apply sort_tiles_le|].
  rewrite (Permutation_length (merge_sort_Permutation ptr_le l)). destruct l; simpl; [done|lia].
Qed.

Lemma tiles_collapse_small g lo hi l :
  0 <= lo -> hi < 2 ^ 64 -> tiles g lo hi l -> l <> [] ->
  mergeSmallLoop (length (merge_sort ptr_ge l) - 1) (merge_sort ptr_ge l) = [mkHeapChunk lo (hi - lo)].
Proof.
  intros Hlo Hhi Ht Hne. apply (mergeSmallLoop_chain g); [done..|by apply sort_tiles_ge|].
  rewrite (Permutation_length (merge_sort_Permutation ptr_ge l)). destruct l; simpl; [done|lia].
Qed.

Lemma tiles_singleton g lo hi c : tiles g lo hi [c] -> c = mkHeapChunk lo (hi - lo) /\ lo < hi.
Proof.
  intros (l' & Hp & Hc). apply Permutation_singleton_r in Hp as ->.
  by apply chain_singleton in Hc.
Qed.

(** One side at a time: sorting, merging and giving back what is at the bound. *)
Lemma drain_small base limit st :
  0 < base -> limit < 2 ^ 64 -> Layout base limit st [] [] ->
  mergeLastFreedSmall (defragmentSmall st) = setSmall [] (setRight limit st).
Proof.
  intros Hb Hl HL. pose proof (Layout_bounds _ _ _ _ _ HL) as Hbd.
  destruct HL as (_ & Ht & _). rewrite app_nil_r in Ht.
  unfold defragmentSmall, mergeLastFreedSmall. destruct st as [hs av lb rb th al [|c [|d l]] fb]; simpl in *.
  - by apply tiles_nil_inv in Ht as ->.
  - apply tiles_singleton in Ht as [-> Hlt]. simpl. rewrite decide_True by done. unwrap.
    unfold setSmall, setRight. simpl. do 2 f_equal. lia.
  - erewrite (tiles_collapse_small _ rb limit); [|lia|lia|done|done]. simpl.
    apply tiles_le in Ht. rewrite decide_True by done. unwrap.
    unfold setSmall, setRight. simpl. do 2 f_equal. lia.
Qed.

Lemma drain_big base limit st :
  0 < base -> limit < 2 ^ 64 -> Layout base limit st [] [] ->
  mergeLastFreedBig (defragmentBig st) = setBig [] (setLeft base st).
Proof.
  intros Hb Hl HL. pose proof (Layout_bounds _ _ _ _ _ HL) as Hbd.
  destruct HL as (Ht & _ & _). rewrite app_nil_r in Ht.
  unfold defragmentBig, mergeLastFreedBig. destruct st as [hs av lb rb th al fs [|c [|d l]]]; simpl in *.
  - by apply tiles_nil_inv in Ht as ->.
  - apply tiles_singleton in Ht as [-> Hlt]. simpl. unwrap. by rewrite decide_True by lia.
  - erewrite (tiles_collapse_big _ base lb); [|lia|lia|done|done]. simpl.
    apply tiles_le in Ht. unwrap. by rewrite decide_True by lia.
Qed.

Lemma defragment_drained base st :
  placement_ok base st -> Inv base st [] ->
  defragment st = newHeapAllocatorT base (heapSize st) (sizeThreshold st).
Proof.
  intros (Hb & Hov & _ & Hal) (LB & LS & Hp & HL & Hav).
  symmetry in Hp. apply Permutation_nil_r, app_eq_nil in Hp as [-> ->].
  pose proof (Layout_bounds _ _ _ _ _ HL) as Hbd.
  unfold defragment. rewrite (drain_small base (base + heapSize st)); [|lia|lia|done].
  rewrite (drain_big base (base + heapSize st)); [|lia|lia|].
  - unfold newHeapAllocatorT. unwrap. destruct st; unfold setSmall, setRight, setBig, setLeft; simpl in *.
    unfold total in Hav. simpl in Hav. subst. f_equal. lia.
  - destruct HL as (H1 & _ & H3). split_and!; [done|apply tiles_nil|simpl; lia].
Qed.

(** ** Executions *)

(** A client holds a bag of live ranges; it asks for new ones and gives back
    any of those it holds, with the size that was reported. *)
Inductive heap_step : HeapAllocator * list HeapChunk -> HeapAllocator * list HeapChunk -> Prop :=
  | step_allocate st live req p size st' :
      0 < req -> req + 4095 < 2 ^ 64 -> allocate req st = (p, size, st') -> p <> 0 ->
      heap_step (st, live) (st', mkHeapChunk p size :: live)
  | step_allocate_fails st live req size st' :
      0 < req -> req + 4095 < 2 ^ 64 -> allocate req st = (0, size, st') ->
      heap_step (st, live) (st', live)
  | step_free st live c rest :
      live ≡ₚ c :: rest ->
      heap_step (st, live) (free (ptr c) (chunkSize c) st, rest).

Definition heap_ok (base : Z) (st0 : HeapAllocator) (w : HeapAllocator * list HeapChunk) : Prop :=
  Inv base w.1 w.2 /\ heapSize w.1 = heapSize st0 /\ sizeThreshold w.1 = sizeThreshold st0 /\
  allocationAlignment w.1 = allocationAlignment st0.

Lemma heap_step_ok base st0 w w' :
  placement_ok base st0 -> heap_ok base st0 w -> heap_step w w' -> heap_ok base st0 w'.
Proof.
  intros Hok (HI & H1 & H2 & H3) Hs. unfold heap_ok.
  destruct Hs as [st live req p size st' Hr1 Hr2 Ha Hp|st live req size st' Hr1 Hr2 Ha|st live c rest Hc];
    simpl in *; pose proof (placement_ok_config base st0 st H1 H2 H3 Hok) as Hok'.
  - pose proof (allocate_spec base st live req Hok' HI Hr1 Hr2) as Hsp. rewrite Ha in Hsp.
    destruct Hsp as (E1 & E2 & E3 & [(? & _)|(_ & _ & HI')]); [done|].
    split; [done|]. by rewrite E1, E2, E3.
  - pose proof (allocate_spec base st live req Hok' HI Hr1 Hr2) as Hsp. rewrite Ha in Hsp.
    destruct Hsp as (E1 & E2 & E3 & [(_ & HI' & _)|(? & _)]); [|done].
    split; [done|]. by rewrite E1, E2, E3.
  - destruct (free_spec base st live c rest Hok' HI Hc) as (HI' & E1 & E2 & E3).
    split; [done|]. by rewrite E1, E2, E3.
Qed.

Lemma heap_steps_ok base st0 w w' :
  placement_ok base st0 -> heap_ok base st0 w -> rtc heap_step w w' -> heap_ok base st0 w'.
Proof. intros Hok Hw. induction 1; [done|]. eauto using heap_step_ok. Qed.

(** The states a fresh allocator can reach. *)
Definition reachable (base size threshold : Z) (w : HeapAllocator * list HeapChunk) : Prop :=
  rtc heap_step (newHeapAllocatorT base size threshold, []) w.

Lemma reachable_ok base size threshold w :
  0 < base -> 0 <= size -> base + 2 * size < 2 ^ 64 -> threshold <= base ->
  reachable base size threshold w ->
  heap_ok base (newHeapAllocatorT base size threshold) w /\ placement_ok base w.1.
Proof.
  intros Hb Hs Hov Hth Hr.
  assert (placement_ok base (newHeapAllocatorT base size threshold)) as Hok by by split_and!.
  assert (heap_ok base (newHeapAllocatorT base size threshold) (newHeapAllocatorT base size threshold, []))
    as Hw0 by (split; [by apply Inv_new|done]).
  pose proof (heap_steps_ok base _ _ _ Hok Hw0 Hr) as Hw.
  split; [done|]. destruct Hw as (_ & H1 & H2 & H3). by eapply placement_ok_config.
Qed.

Lemma Inv_aligned base st live c :
  (pageSize | base) -> (pageSize | heapSize st) -> Inv base st live -> c ∈ live ->
  (pageSize | ptr c) /\ (pageSize | chunkSize c).
Proof.
  intros Hb Hs (LB & LS & Hp & (H1 & H2 & H3) & _) Hc. rewrite Hp in Hc.
  apply elem_of_app in Hc as [Hc|Hc].
  - pose proof (tiles_elem_full _ _ _ _ c H1 ltac:(set_solver)) as (_ & _ & _ & Hg & Hd). split; [|done].
    replace (ptr c) with (ptr c - base + base) by lia. by apply Z.divide_add_r.
  - pose proof (tiles_elem_full _ _ _ _ c H2 ltac:(set_solver)) as (_ & _ & _ & Hg & Hd). split; [|done].
    pose proof (tiles_divide _ _ _ _ H2) as Hr.
    replace (ptr c) with (ptr c - pRightBound st + (base + heapSize st - (base + heapSize st - pRightBound st))) by lia.
    apply Z.divide_add_r; [done|]. apply Z.divide_sub_r; [by apply Z.divide_add_r|done].
Qed.

(** ** Properties *)


(** Two allocations and a free on a 64 MB heap, as an execution. *)
Definition demo_heap : HeapAllocator := newHeapAllocatorT (16 * megaByte) (64 * megaByte) (4 * megaByte).
Definition demo_state : HeapAllocator :=
  (allocate 5000 (allocate (8 * megaByte) demo_heap).2).2.
Definition demo_live : list HeapChunk :=
  [mkHeapChunk (80 * megaByte - 8192) 8192; mkHeapChunk (16 * megaByte) (8 * megaByte)].

Lemma demo_reachable : reachable (16 * megaByte) (64 * megaByte) (4 * megaByte) (demo_state, demo_live).
Proof.
  eapply rtc_l; [|apply rtc_once].
  - apply (step_allocate demo_heap [] (8 * megaByte) (16 * megaByte) (8 * megaByte)
             (allocate (8 * megaByte) demo_heap).2); [eval_decide..|vm_compute; reflexivity|done].
  - apply (step_allocate _ _ 5000); [eval_decide..|vm_compute; reflexivity|done].
Defined.




(** C27: once everything that was handed out has been freed, in whatever order,
    one defragmentation brings the allocator back to its initial state, and a
    request of any size up to the size of the heap is granted. *)
Theorem heap_drained_is_fresh base size threshold st req :
  0 < base -> 0 <= size -> base + 2 * size < 2 ^ 64 -> threshold <= base ->
  reachable base size threshold (st, []) ->
  0 < req -> req + 4095 < 2 ^ 64 -> alignUp 64 req pageSize <= size ->
  defragment st = newHeapAllocatorT base size threshold /\ (allocate req st).1.1 <> 0.
Proof.
  intros Hb Hs Hov Hth Hr Hr1 Hr2 Hfit.
  destruct (reachable_ok base size threshold _ Hb Hs Hov Hth Hr) as [(HI & H1 & H2 & H3) Hok].
  simpl in *. pose proof (defragment_drained base st Hok HI) as Hd. rewrite H1, H2 in Hd.
  split; [done|]. assert (availableSize st = size) as Hav.
  { destruct HI as (? & ? & _ & _ & Hav). unfold total in Hav. simpl in Hav. lia. }
  destruct (alignUp_page_divide req Hr1 Hr2) as [Hup Hg].
  unfold allocate. rewrite H3. simpl. set (sz := alignUp 64 req pageSize) in *.
  rewrite decide_False by lia. simpl.
  pose proof (allocateTurn_spec base st [] sz Hok HI ltac:(lia) Hg) as Ht.
  destruct (allocateTurn sz st) as [[p got] st'].
  destruct Ht as [(-> & -> & -> & _)|(Hp & _)]; [|by rewrite decide_False by done].
  rewrite decide_True by done. rewrite Hd.
  assert (placement_ok base (newHeapAllocatorT base size threshold)) as Hok' by by split_and!.
  pose proof (allocateTurn_spec base (newHeapAllocatorT base size threshold) [] sz Hok'
    (Inv_new _ _ _ Hb Hs Hov) ltac:(simpl; lia) Hg) as Ht.
  destruct (allocateTurn sz (newHeapAllocatorT _ _ _)) as [[p got'] st''].
  destruct Ht as [(-> & -> & -> & Hgap & _)|(Hp & _)]; [|by rewrite decide_False by done].
  simpl in Hgap. rewrite wrap_small in Hgap by word_lia. lia.
Qed.

(** Both live ranges of the demo given back, the older one first. *)
Definition demo_drained : HeapAllocator :=
  free (80 * megaByte - 8192) 8192 (free (16 * megaByte) (8 * megaByte) demo_state).

Lemma demo_drained_reachable :
  reachable (16 * megaByte) (64 * megaByte) (4 * megaByte) (demo_drained, []).
Proof.
  eapply rtc_r; [eapply rtc_r; [apply demo_reachable|]|].
  - by eapply (step_free _ _ (mkHeapChunk (16 * megaByte) (8 * megaByte))), Permutation_swap.
  - by apply (step_free _ _ (mkHeapChunk (80 * megaByte - 8192) 8192)).
Defined.

Example heap_drained_is_fresh_witness :
  defragment demo_drained = demo_heap /\ (allocate (64 * megaByte) demo_drained).1.1 <> 0.
Proof.
  apply (heap_drained_is_fresh (16 * megaByte) (64 * megaByte) (4 * megaByte));
    [eval_decide..|apply demo_drained_reachable|eval_decide|eval_decide|eval_decide].
Defined.

(** A heap of 8 MB at 2 MB, the base the default threshold of 4 MB exceeds:
    eight blocks of 1 MB are taken and every second one is given back. *)
Definition low_heap_full : HeapAllocator :=
  Nat.iter 8 (fun st => (allocate megaByte st).2) (newHeapAllocator (2 * megaByte) (8 * megaByte)).
Definition low_heap : HeapAllocator :=
  foldl (fun st p => free (p * megaByte) megaByte st) low_heap_full [3; 5; 7; 9].

(** below the threshold [allocate] compares [pRightBound - sizeToAllocate]
    with the left bound, and the subtraction wraps when the base of the heap is
    below the size: on a fragmented heap at 2 MB with the default threshold, a
    request of 4 MB is answered with a pointer outside the heap, where the
    heap has no free range of that size. *)
Theorem allocate_underflow_escapes :
  getLeftSize low_heap = 4 * megaByte /\
  pRightBound low_heap = 2 * megaByte /\ pLeftBound low_heap = 2 * megaByte /\
  Forall (fun c => chunkSize c = megaByte) (freedChunksSmall low_heap) /\
  (allocate (4 * megaByte) low_heap).1.1 = 2 ^ 64 - 2 * megaByte.
Proof. split_and!; [reflexivity..| |reflexivity]. eval_decide. Qed.
