(* ===== verification/BasicMath.v ===== *)
(** * Integer helpers

    Model of [runtime/helpers/basic_math.h]: powers of two, logarithms, bit
    scans, and the conversion of a single-precision float to half precision.
    Unsigned values are [Z] at their width; a [float] is its 32-bit pattern,
    and the comparisons and the exact scalings by powers of two that
    [float2Half] performs on it are written on the pattern. *)

From S2P Require Import Prelude.

Module Math.

Definition nextPowerOfTwo32 (value : Z) : Z :=
  let value := w32 (value - 1) in
  let value := Z.lor value (Z.shiftr value 1) in
  let value := Z.lor value (Z.shiftr value 2) in
  let value := Z.lor value (Z.shiftr value 4) in
  let value := Z.lor value (Z.shiftr value 8) in
  let value := Z.lor value (Z.shiftr value 16) in
  w32 (value + 1).

Definition nextPowerOfTwo64 (value : Z) : Z :=
  let value := w64 (value - 1) in
  let value := Z.lor value (Z.shiftr value 1) in
  let value := Z.lor value (Z.shiftr value 2) in
  let value := Z.lor value (Z.shiftr value 4) in
  let value := Z.lor value (Z.shiftr value 8) in
  let value := Z.lor value (Z.shiftr value 16) in
  let value := Z.lor value (Z.shiftr value 32) in
  w64 (value + 1).

Definition prevPowerOfTwo32 (value : Z) : Z :=
  let value := Z.lor value (Z.shiftr value 1) in
  let value := Z.lor value (Z.shiftr value 2) in
  let value := Z.lor value (Z.shiftr value 4) in
  let value := Z.lor value (Z.shiftr value 8) in
  let value := Z.lor value (Z.shiftr value 16) in
  w32 (value - Z.shiftr value 1).

Definition prevPowerOfTwo64 (value : Z) : Z :=
  let value := Z.lor value (Z.shiftr value 1) in
  let value := Z.lor value (Z.shiftr value 2) in
  let value := Z.lor value (Z.shiftr value 4) in
  let value := Z.lor value (Z.shiftr value 8) in
  let value := Z.lor value (Z.shiftr value 16) in
  let value := Z.lor value (Z.shiftr value 32) in
  w64 (value - Z.shiftr value 1).

Definition multiplyDeBruijnBitPosition : list Z :=
  [0; 1; 28; 2; 29; 14; 24; 3; 30; 22; 20; 15; 25; 17; 4; 8;
   31; 27; 13; 23; 21; 19; 16; 7; 26; 12; 18; 6; 11; 5; 10; 9].

Definition getMinLsbSet (value : Z) : Z :=
  let invert := - value in
  let value := Z.land value (w32 invert) in
  default 0 (multiplyDeBruijnBitPosition !! Z.to_nat (Z.shiftr (w32 (value * 0x077CB531)) 27)).

(** The [while] loops of [log2]; [exponent < 32] (64) bounds the iterations. *)
Fixpoint log2Loop (fuel : nat) (limit mask exponent startVal : Z) : Z :=
  match fuel with
  | O => exponent
  | S n =>
      if decide (startVal <> 0 /\ exponent < limit)
      then log2Loop n limit mask (exponent + 1) (Z.land (Z.shiftr startVal 1) mask)
      else exponent
  end.

Definition log2_32 (value : Z) : Z :=
  if decide (value = 0) then 32
  else log2Loop 33 32 0x7fffffff 0 (Z.land (Z.shiftr value 1) 0x7fffffff).

Definition log2_64 (value : Z) : Z :=
  if decide (value = 0) then 64
  else log2Loop 65 64 0x7fffffffffffffff 0 (Z.land (Z.shiftr value 1) 0x7fffffffffffffff).

Definition isDivisableByPowerOfTwoDivisor (number divisor : Z) : bool :=
  let mask := 0xffffffff in
  let mask := w32 (mask - w32 (divisor - 1)) in
  bool_decide (Z.land number mask = number).

Definition computeTotalElementsCount (x y z : Z) : Z :=
  let minElementCount := 1 in
  let xDim := Z.max minElementCount x in
  let yDim := Z.max minElementCount y in
  let zDim := Z.max minElementCount z in
  xDim ⊠ yDim ⊠ zDim.

Definition isPow2 (w val : Z) : bool :=
  if decide (val <> 0) then bool_decide (Z.land val (wrap w (val - 1)) = 0) else false.

(** The scan of [ffs] from bit [i] upwards, [fuel] bits being left; [None]
    is the [std::abort] after the loop. *)
Fixpoint ffsLoop (fuel : nat) (v i : Z) : option Z :=
  match fuel with
  | O => None
  | S n => if decide (Z.land v (Z.shiftl 1 i) <> 0) then Some i else ffsLoop n v (i + 1)
  end.

Definition ffs (w v : Z) : option Z :=
  if decide (v = 0) then Some (2 ^ w - 1) else ffsLoop (Z.to_nat w) v 0.

(** [x = fabs(f)] is the pattern with the sign bit cleared.  For patterns
    without sign the order of the floats is the order of the patterns, so the
    bounds [2^16], [2^-24], [2^-14] are the patterns below; and for a normal
    [x] the integer part of [x * 2^24] is its 24-bit significand shifted. *)
Definition PosInfinity : Z := 0x7f800000.
Definition ldexp_1 (e : Z) : Z := Z.shiftl (e + 127) 23.

Definition truncScaled24 (x : Z) : Z :=
  Z.shiftr (Z.lor (Z.land x 0x7fffff) 0x800000) (126 - Z.shiftr x 23).

Definition float2Half (u : Z) : Z :=
  let fsign := Z.land (Z.shiftr u 16) 0x8000 in
  let x := Z.land u 0x7fffffff in
  if decide (PosInfinity < x) then
    let u := Z.shiftr u (24 - 11) in
    let u := Z.land u 0x7fff in
    let u := Z.lor u 0x0200 in
    w16 (Z.lor u fsign)
  else if decide (ldexp_1 16 <= x) then
    if decide (x = PosInfinity) then Z.lor 0x7c00 fsign else Z.lor 0x7bff fsign
  else if decide (x < ldexp_1 (-24)) then fsign
  else if decide (x < ldexp_1 (-14)) then w16 (Z.lor (truncScaled24 x) fsign)
  else
    let u := Z.land u 0xFFFFE000 in
    let u := w32 (u - 0x38000000) in
    w16 (Z.lor (Z.shiftr u (24 - 11)) fsign).

(** ** Smearing the top bit *)

(** [smeared s n x]: [x] has [n] as its top bit and the [s] bits from [n]
    downwards are set. *)
Definition smeared (s n x : Z) : Prop :=
  0 <= x < 2 ^ (n + 1) /\ forall i, 0 <= i -> n - s < i <= n -> Z.testbit x i = true.

Lemma smeared_log2 x : 0 < x -> smeared 1 (Z.log2 x) x.
Proof.
  intros Hx. pose proof (Z.log2_spec x Hx). split; [unfold Z.succ in *; lia|].
  intros i Hi Hb. replace i with (Z.log2 x) by lia. by apply Z.bit_log2.
Qed.

Lemma smeared_step s n x : 0 <= s -> 0 <= n -> smeared s n x -> smeared (s + s) n (Z.lor x (Z.shiftr x s)).
Proof.
  intros Hs Hn [Hr Hb]. split.
  - apply (lor_range (n + 1)); [done|]. by apply shiftr_range.
  - intros i Hi Hr2. rewrite Z.lor_spec, Z.shiftr_spec by done.
    destruct (decide (n - s < i)).
    + by rewrite Hb by lia.
    + rewrite (Hb (i + s)) by lia. apply orb_true_r.
Qed.

Lemma smeared_full s n x : 0 <= n < s -> smeared s n x -> x = 2 ^ (n + 1) - 1.
Proof.
  intros Hn [Hr Hb]. rewrite Z.sub_1_r, <- Z.ones_equiv. apply Z.bits_inj'. intros i Hi.
  destruct (decide (i <= n)).
  - rewrite Hb by lia. by rewrite Z.ones_spec_low by lia.
  - rewrite Z.ones_spec_high by lia. apply (testbit_high _ (n + 1)); lia.
Qed.

(** What the five (six) shifts compute; the functions above unfold to it. *)
Definition smear32 (value : Z) : Z :=
  let value := Z.lor value (Z.shiftr value 1) in
  let value := Z.lor value (Z.shiftr value 2) in
  let value := Z.lor value (Z.shiftr value 4) in
  let value := Z.lor value (Z.shiftr value 8) in
  Z.lor value (Z.shiftr value 16).
Definition smear64 (value : Z) : Z :=
  let value := smear32 value in Z.lor value (Z.shiftr value 32).

Lemma smear32_smeared x : 0 < x -> smeared 32 (Z.log2 x) (smear32 x).
Proof.
  intros Hx. pose proof (Z.log2_nonneg x) as Hn.
  assert (forall s, 0 <= s -> forall y, smeared s (Z.log2 x) y ->
    smeared (s + s) (Z.log2 x) (Z.lor y (Z.shiftr y s))) as Hst by eauto using smeared_step.
  unfold smear32. apply (Hst 16), (Hst 8), (Hst 4), (Hst 2), (Hst 1), smeared_log2; done.
Qed.

Lemma smear32_spec x : 0 < x < 2 ^ 32 -> smear32 x = 2 ^ (Z.log2 x + 1) - 1.
Proof.
  intros Hx. apply (smeared_full 32); [|apply smear32_smeared; lia].
  split; [apply Z.log2_nonneg|apply Z.log2_lt_pow2; lia].
Qed.

Lemma smear64_spec x : 0 < x < 2 ^ 64 -> smear64 x = 2 ^ (Z.log2 x + 1) - 1.
Proof.
  intros Hx. pose proof (Z.log2_nonneg x). apply (smeared_full 64).
  - split; [done|apply Z.log2_lt_pow2; lia].
  - apply (smeared_step 32); [lia|done|apply smear32_smeared; lia].
Qed.

Lemma log2_up_pred v : 1 < v -> Z.log2_up v = Z.log2 (v - 1) + 1.
Proof. intros Hv. rewrite Z.log2_up_eqn by lia. unfold Z.succ. by rewrite Z.sub_1_r. Qed.

Lemma nextPowerOfTwo32_spec v :
  u32 v -> nextPowerOfTwo32 v = if decide (v = 0) then 0 else w32 (2 ^ Z.log2_up v).
Proof.
  intros Hv. change (nextPowerOfTwo32 v) with (w32 (smear32 (w32 (v - 1)) + 1)).
  case_decide as Hz; [by subst|]. destruct (decide (v = 1)) as [->|H1]; [reflexivity|].
  rewrite (wrap_small 32 (v - 1)) by word_lia. rewrite smear32_spec by word_lia.
  rewrite log2_up_pred by word_lia. f_equal. lia.
Qed.

Lemma nextPowerOfTwo64_spec v :
  u64 v -> nextPowerOfTwo64 v = if decide (v = 0) then 0 else w64 (2 ^ Z.log2_up v).
Proof.
  intros Hv. change (nextPowerOfTwo64 v) with (w64 (smear64 (w64 (v - 1)) + 1)).
  case_decide as Hz; [by subst|]. destruct (decide (v = 1)) as [->|H1]; [reflexivity|].
  rewrite (wrap_small 64 (v - 1)) by word_lia. rewrite smear64_spec by word_lia.
  rewrite log2_up_pred by word_lia. f_equal. lia.
Qed.

Lemma top_bit n : 0 <= n -> 2 ^ (n + 1) - 1 - Z.shiftr (2 ^ (n + 1) - 1) 1 = 2 ^ n.
Proof.
  intros Hn. rewrite Z.shiftr_div_pow2 by lia. rewrite Z.pow_add_r by lia.
  change (2 ^ 1) with 2. mod_lia.
Qed.

Lemma prevPowerOfTwo32_spec v :
  u32 v -> prevPowerOfTwo32 v = if decide (v = 0) then 0 else 2 ^ Z.log2 v.
Proof.
  intros Hv. change (prevPowerOfTwo32 v) with (w32 (smear32 v - Z.shiftr (smear32 v) 1)).
  case_decide as Hz; [by subst|]. pose proof (Z.log2_spec v ltac:(word_lia)).
  rewrite smear32_spec by word_lia. rewrite top_bit by apply Z.log2_nonneg.
  apply wrap_small. word_lia.
Qed.

Lemma prevPowerOfTwo64_spec v :
  u64 v -> prevPowerOfTwo64 v = if decide (v = 0) then 0 else 2 ^ Z.log2 v.
Proof.
  intros Hv. change (prevPowerOfTwo64 v) with (w64 (smear64 v - Z.shiftr (smear64 v) 1)).
  case_decide as Hz; [by subst|]. pose proof (Z.log2_spec v ltac:(word_lia)).
  rewrite smear64_spec by word_lia. rewrite top_bit by apply Z.log2_nonneg.
  apply wrap_small. word_lia.
Qed.

(** ** The logarithm loop *)

Lemma log2_half v : 1 < v -> Z.log2 v = Z.log2 (Z.shiftr v 1) + 1.
Proof. intros Hv. rewrite Z.log2_shiftr by lia. pose proof (Z.log2_pos v Hv). lia. Qed.

Lemma log2Loop_spec fuel limit k e v :
  0 <= k -> 0 <= v < 2 ^ k -> v < 2 ^ (limit - e) -> 0 <= e <= limit ->
  limit - e <= Z.of_nat fuel ->
  log2Loop fuel limit (2 ^ k - 1) e v = if decide (v = 0) then e else e + Z.log2 v + 1.
Proof.
  intros Hk. revert e v. induction fuel as [|n IH]; intros e v Hv Hl He Hf; simpl.
  - rewrite decide_True; [done|]. replace (limit - e) with 0 in Hl by lia. lia.
  - case_decide as Hz; [|by rewrite decide_True by (destruct (decide (e = limit));
      [subst; rewrite Z.sub_diag in Hl|]; lia)].
    rewrite land_low_ones by done.
    assert (0 <= Z.shiftr v 1 < 2 ^ (limit - (e + 1)) /\ Z.shiftr v 1 <= v) as [Hsh Hle].
    { rewrite Z.shiftr_div_pow2 by lia. change (2 ^ 1) with 2.
      replace (limit - e) with (limit - (e + 1) + 1) in Hl by lia.
      rewrite Z.pow_add_r in Hl by lia. mod_lia. }
    rewrite Z.mod_small by lia. rewrite IH by lia. rewrite (decide_False (P := v = 0)) by tauto.
    case_decide as H1.
    + assert (v = 1) as -> by (rewrite Z.shiftr_div_pow2 in H1 by lia; change (2 ^ 1) with 2 in H1; mod_lia).
      simpl. lia.
    + rewrite (log2_half v); [lia|]. destruct (decide (v = 1)) as [->|]; [done|lia].
Qed.

Lemma log2_32_spec v : u32 v -> log2_32 v = if decide (v = 0) then 32 else Z.log2 v.
Proof.
  intros Hv. unfold log2_32. case_decide as Hz; [done|].
  change 0x7fffffff with (2 ^ 31 - 1). rewrite land_low_ones by lia.
  assert (0 <= Z.shiftr v 1 < 2 ^ 31) as Hs.
  { rewrite Z.shiftr_div_pow2 by lia. change (2 ^ 1) with 2. mod_lia. }
  rewrite Z.mod_small by lia. rewrite log2Loop_spec by lia. case_decide as H1.
  - assert (v = 1) as -> by (rewrite Z.shiftr_div_pow2 in H1 by lia; change (2 ^ 1) with 2 in H1; mod_lia).
    done.
  - rewrite (log2_half v); [lia|]. destruct (decide (v = 1)) as [->|]; [done|word_lia].
Qed.

Lemma log2_64_spec v : u64 v -> log2_64 v = if decide (v = 0) then 64 else Z.log2 v.
Proof.
  intros Hv. unfold log2_64. case_decide as Hz; [done|].
  change 0x7fffffffffffffff with (2 ^ 63 - 1). rewrite land_low_ones by lia.
  assert (0 <= Z.shiftr v 1 < 2 ^ 63) as Hs.
  { rewrite Z.shiftr_div_pow2 by lia. change (2 ^ 1) with 2. mod_lia. }
  rewrite Z.mod_small by lia. rewrite log2Loop_spec by lia. case_decide as H1.
  - assert (v = 1) as -> by (rewrite Z.shiftr_div_pow2 in H1 by lia; change (2 ^ 1) with 2 in H1; mod_lia).
    done.
  - rewrite (log2_half v); [lia|]. destruct (decide (v = 1)) as [->|]; [done|word_lia].
Qed.

(** ** The lowest set bit *)

Lemma pow2_pred_land n : 0 <= n -> Z.land (2 ^ n) (2 ^ n - 1) = 0.
Proof. intros Hn. rewrite land_low_ones by done. apply Z.mod_same. lia. Qed.

(** Every positive number is an odd multiple of a power of two. *)
Lemma odd_part v : 0 < v -> exists k m, 0 <= k /\ 0 <= m /\ v = 2 ^ k * (2 * m + 1).
Proof.
  intros Hv. assert (0 <= v) as Hnn by lia. revert Hv. pattern v. revert v Hnn.
  apply Zlt_0_ind. intros v IH _ Hv.
  destruct (Z.Even_or_Odd v) as [[m ->]|[m ->]].
  - destruct (IH m) as (k & n & Hk & Hn & He); [lia..|].
    exists (k + 1), n. split_and!; [lia|done|]. rewrite Z.pow_add_r by lia. lia.
  - exists 0, m. split_and!; lia.
Qed.

(** [v & -v], computed modulo [2^w], is the lowest set bit. *)
Lemma land_opp w k m :
  0 <= k < w -> 0 <= m -> uint w (2 ^ k * (2 * m + 1)) ->
  Z.land (2 ^ k * (2 * m + 1)) (wrap w (- (2 ^ k * (2 * m + 1)))) = 2 ^ k.
Proof.
  intros Hk Hm Hv. set (v := 2 ^ k * (2 * m + 1)) in *.
  assert (0 < 2 ^ k) as Hp by lia. assert (0 < v) as Hpos by (subst v; nia).
  assert (wrap w (- v) = wnot w v + 1) as ->.
  { unfold wrap, wnot. rewrite Z.mod_opp_l_nz; [|lia|rewrite Z.mod_small by word_lia; lia].
    rewrite Z.mod_small by word_lia. lia. }
  assert (wnot w v + 1 = 2 ^ k * (2 * (2 ^ (w - k - 1) - m - 1) + 1)) as ->.
  { unfold wnot, v. replace w with (k + 1 + (w - k - 1)) at 1 by lia.
    rewrite !Z.pow_add_r by lia. lia. }
  subst v. rewrite !(Z.mul_comm (2 ^ k)), <- !Z.shiftl_mul_pow2, <- Z.shiftl_land by lia.
  rewrite <- (Z.mul_1_l (2 ^ k)), <- Z.shiftl_mul_pow2 by lia. f_equal.
  assert (0 < 2 ^ (w - k - 1)) by lia.
  assert (2 ^ w = 2 ^ k * (2 * 2 ^ (w - k - 1))) as Hw.
  { replace w with (k + 1 + (w - k - 1)) at 1 by lia. rewrite !Z.pow_add_r by lia. lia. }
  assert (m < 2 ^ (w - k - 1)) as Hmq by (unfold uint in Hv; nia).
  apply Z.bits_inj'. intros i Hi. rewrite Z.land_spec.
  destruct (decide (i = 0)) as [->|Hnz]; [by rewrite !Z.testbit_odd_0|].
  rewrite (testbit_high 1 1 i) by lia.
  replace i with (Z.succ (i - 1)) by lia. rewrite !Z.testbit_odd_succ by lia.
  destruct (decide (i - 1 < w - k - 1)).
  - replace (2 ^ (w - k - 1) - m - 1) with (wnot (w - k - 1) m) by (unfold wnot; lia).
    rewrite wnot_testbit by word_lia. by destruct (Z.testbit m (i - 1)).
  - by rewrite (testbit_high m (w - k - 1)) by lia.
Qed.

Lemma getMinLsbSet_spec k m :
  0 <= k < 32 -> 0 <= m -> u32 (2 ^ k * (2 * m + 1)) -> getMinLsbSet (2 ^ k * (2 * m + 1)) = k.
Proof.
  intros Hk Hm Hv. unfold getMinLsbSet. rewrite land_opp by done.
  assert (k ∈ map Z.of_nat (seq 0 32)) as Hin.
  { apply list_elem_of_In, in_map_iff. exists (Z.to_nat k). split; [lia|]. apply in_seq. lia. }
  clear Hv Hk. revert Hin. generalize k. clear. apply Forall_forall. by repeat constructor.
Qed.

Lemma ffsLoop_spec fuel k m i :
  0 <= i <= k -> 0 <= m -> k < i + Z.of_nat fuel ->
  ffsLoop fuel (2 ^ k * (2 * m + 1)) i = Some k.
Proof.
  revert i. induction fuel as [|n IH]; intros i Hi Hm Hf; simpl; [lia|].
  rewrite Z.shiftl_1_l. assert (Z.land (2 ^ k * (2 * m + 1)) (2 ^ i) = if decide (i = k) then 2 ^ k else 0) as ->.
  { apply Z.bits_inj'. intros j Hj. rewrite Z.land_spec.
    rewrite (Z.pow2_bits_eqb i) by lia. destruct (Z.eqb_spec i j) as [<-|Hne].
    - rewrite andb_true_r, Z.mul_comm, Z.mul_pow2_bits by lia. case_decide as He.
      + subst. rewrite Z.sub_diag, Z.testbit_odd_0. by rewrite Z.pow2_bits_true by lia.
      + rewrite Z.bits_0. by apply Z.testbit_neg_r; lia.
    - rewrite andb_false_r. case_decide; [subst|by rewrite Z.bits_0]. by rewrite Z.pow2_bits_false by lia. }
  assert (0 < 2 ^ k) by lia. destruct (decide (i = k)) as [->|Hne].
  - by rewrite decide_True by lia.
  - rewrite decide_False by tauto. apply IH; lia.
Qed.

Lemma isPow2_spec w v : uint w v -> isPow2 w v = true <-> exists k, 0 <= k /\ v = 2 ^ k.
Proof.
  intros Hv. unfold isPow2. case_decide as Hz.
  - destruct (odd_part v) as (k & m & Hk & Hm & He); [word_lia|].
    rewrite bool_decide_eq_true. rewrite wrap_small by word_lia.
    pose proof (Z.log2_spec v ltac:(word_lia)) as Hlog. pose proof (Z.log2_nonneg v) as Hn.
    set (n := Z.log2 v) in *. unfold Z.succ in Hlog. rewrite Z.pow_add_r in Hlog by lia.
    change (2 ^ 1) with 2 in Hlog. split.
    + intros Hl. exists n. split; [done|]. destruct (decide (v = 2 ^ n)) as [|Hne]; [done|].
      assert (Z.testbit (Z.land v (v - 1)) n = true) as Hb; [|by rewrite Hl, Z.bits_0 in Hb].
      assert (Z.log2 (v - 1) = n) as Hl1 by (apply Z.log2_unique'  with (v - 1 - 2 ^ n); lia).
      rewrite Z.land_spec. unfold n at 1. rewrite Z.bit_log2 by word_lia.
      rewrite <- Hl1. rewrite Z.bit_log2 by lia. done.
    + intros (j & Hj & ->). by apply pow2_pred_land.
  - split; [done|]. intros (k & Hk & ->). lia.
Qed.

Lemma isDivisable_spec number k :
  u32 number -> 0 <= k < 32 ->
  isDivisableByPowerOfTwoDivisor number (2 ^ k) = bool_decide (number mod 2 ^ k = 0).
Proof.
  intros Hn Hk. unfold isDivisableByPowerOfTwoDivisor.
  assert (0 < 2 ^ k < 2 ^ 32) as Hp by (split; [lia|apply Z.pow_lt_mono_r; lia]).
  rewrite (wrap_small 32 (2 ^ k - 1)) by word_lia. rewrite wrap_small by word_lia.
  change 0xffffffff with (2 ^ 32 - 1). change (2 ^ 32 - 1 - (2 ^ k - 1)) with (wnot 32 (2 ^ k - 1)).
  rewrite land_wnot_ones by (word_lia || lia). apply bool_decide_ext. lia.
Qed.

(** ** Half-precision truncation *)

(** The values of the two formats in units of their smallest subnormal:
    [2^-149] for the single and [2^-24] for the half. *)
Definition float_units (x : Z) : Z :=
  if decide (Z.shiftr x 23 = 0) then x else (2 ^ 23 + x mod 2 ^ 23) * 2 ^ (x / 2 ^ 23 - 1).
Definition half_units (h : Z) : Z :=
  if decide (Z.shiftr h 10 = 0) then h else (2 ^ 10 + h mod 2 ^ 10) * 2 ^ (h / 2 ^ 10 - 1).

Lemma float2Half_fields u :
  u32 u ->
  Z.land u 0x7fffffff = u mod 2 ^ 31 /\ Z.land (Z.shiftr u 16) 0x8000 = u / 2 ^ 31 * 2 ^ 15 /\
  0 <= u / 2 ^ 31 <= 1.
Proof.
  intros Hu. change 0x7fffffff with (2 ^ 31 - 1). split_and!; [by apply land_low_ones| |mod_lia..].
  change 0x8000 with (wnot 16 (2 ^ 15 - 1)). rewrite Z.shiftr_div_pow2 by lia.
  rewrite land_wnot_ones; [mod_lia|mod_lia|lia].
Qed.

(** The three branches, as functions of the exponent [e] and significand [m]. *)
Lemma float_fields x : 0 <= x -> exists e m, x = e * 2 ^ 23 + m /\ 0 <= m < 2 ^ 23 /\ 0 <= e /\
  x / 2 ^ 23 = e /\ x mod 2 ^ 23 = m.
Proof. intros Hx. exists (x / 2 ^ 23), (x mod 2 ^ 23). mod_lia. Qed.

Lemma truncScaled24_eq e m :
  0 <= e <= 126 -> 0 <= m < 2 ^ 23 -> truncScaled24 (e * 2 ^ 23 + m) = (2 ^ 23 + m) / 2 ^ (126 - e).
Proof.
  intros He Hm. unfold truncScaled24. change 0x7fffff with (2 ^ 23 - 1). change 0x800000 with (1 * 2 ^ 23).
  rewrite land_low_ones, (Z.shiftr_div_pow2 _ 23) by lia.
  replace ((e * 2 ^ 23 + m) mod 2 ^ 23) with m by mod_lia.
  replace ((e * 2 ^ 23 + m) / 2 ^ 23) with e by mod_lia.
  rewrite lor_high_add by lia. rewrite Z.shiftr_div_pow2 by lia. f_equal. lia.
Qed.

Lemma half_units_low h : 0 <= h <= 2 ^ 10 -> half_units h = h.
Proof.
  intros Hh. unfold half_units. rewrite Z.shiftr_div_pow2 by lia. case_decide; [done|].
  assert (h = 2 ^ 10) as -> by mod_lia. reflexivity.
Qed.

Lemma half_units_norm e q :
  1 <= e -> 0 <= q <= 2 ^ 10 -> half_units (e * 2 ^ 10 + q) = (2 ^ 10 + q) * 2 ^ (e - 1).
Proof.
  intros He Hq. unfold half_units. rewrite Z.shiftr_div_pow2 by lia.
  rewrite decide_False by mod_lia. destruct (decide (q = 2 ^ 10)) as [->|Hne].
  - replace ((e * 2 ^ 10 + 2 ^ 10) mod 2 ^ 10) with 0 by mod_lia.
    replace ((e * 2 ^ 10 + 2 ^ 10) / 2 ^ 10) with (e - 1 + 1 + 1) by mod_lia.
    replace (e - 1 + 1 + 1 - 1) with (e - 1 + 1) by lia. rewrite (Z.pow_add_r _ (e - 1)) by lia. lia.
  - replace ((e * 2 ^ 10 + q) mod 2 ^ 10) with q by mod_lia.
    by replace ((e * 2 ^ 10 + q) / 2 ^ 10) with e by mod_lia.
Qed.

Lemma float_units_norm e m :
  1 <= e -> 0 <= m < 2 ^ 23 -> float_units (e * 2 ^ 23 + m) = (2 ^ 23 + m) * 2 ^ (e - 1).
Proof.
  intros He Hm. unfold float_units. rewrite Z.shiftr_div_pow2 by lia.
  rewrite decide_False by mod_lia. 
  replace ((e * 2 ^ 23 + m) mod 2 ^ 23) with m by mod_lia.
  by replace ((e * 2 ^ 23 + m) / 2 ^ 23) with e by mod_lia.
Qed.

(** [h] is the half below [x]: it does not exceed it and the next one does. *)
Definition half_below (h x : Z) : Prop :=
  0 <= h < 2 ^ 15 /\ half_units h * 2 ^ 125 <= float_units x < half_units (h + 1) * 2 ^ 125.

Lemma half_below_tiny x : 0 <= x < 103 * 2 ^ 23 -> half_below 0 x.
Proof.
  intros Hx. destruct (float_fields x) as (e & m & -> & Hm & He & _); [lia|].
  split; [lia|]. rewrite !half_units_low by lia. destruct (decide (e = 0)) as [->|Hne].
  - unfold float_units. rewrite Z.shiftr_div_pow2, decide_True by mod_lia. lia.
  - rewrite float_units_norm by lia. assert (e <= 102) as H102 by lia.
    assert (2 ^ (e - 1) <= 2 ^ 101) by (apply Z.pow_le_mono_r; lia). assert (0 < 2 ^ (e - 1)) by lia. nia.
Qed.

Lemma half_below_denormal e m :
  103 <= e <= 112 -> 0 <= m < 2 ^ 23 -> half_below ((2 ^ 23 + m) / 2 ^ (126 - e)) (e * 2 ^ 23 + m).
Proof.
  intros He Hm. assert (2 ^ 14 <= 2 ^ (126 - e)) as Hp by (apply Z.pow_le_mono_r; lia).
  pose proof (Z.div_mod (2 ^ 23 + m) (2 ^ (126 - e)) ltac:(lia)) as Hd.
  pose proof (Z.mod_pos_bound (2 ^ 23 + m) (2 ^ (126 - e)) ltac:(lia)) as Hr.
  assert (2 ^ (126 - e) * 2 ^ (e - 1) = 2 ^ 125) as H125 by (rewrite <- Z.pow_add_r by lia; f_equal; lia).
  assert (0 < 2 ^ (e - 1)) by lia.
  set (h := (2 ^ 23 + m) / 2 ^ (126 - e)) in *. clearbody h.
  set (r := (2 ^ 23 + m) mod 2 ^ (126 - e)) in *. clearbody r.
  set (d := 2 ^ (126 - e)) in *. clearbody d. assert (0 <= h < 2 ^ 10) as Hh by nia.
  split; [lia|]. rewrite !half_units_low, float_units_norm by lia. rewrite <- H125. nia.
Qed.

Lemma half_below_normal e m :
  113 <= e <= 142 -> 0 <= m < 2 ^ 23 ->
  half_below ((e - 112) * 2 ^ 10 + m / 2 ^ 13) (e * 2 ^ 23 + m).
Proof.
  intros He Hm. assert (0 <= m / 2 ^ 13 < 2 ^ 10) as Hq by mod_lia.
  split; [lia|]. rewrite <- Z.add_assoc, !half_units_norm, float_units_norm by lia.
  replace (e - 112 - 1) with (e - 113) by lia.
  assert (2 ^ (e - 113) * 2 ^ 125 = 2 ^ 13 * 2 ^ (e - 1)) as Hpow.
  { rewrite <- !Z.pow_add_r by lia. f_equal. lia. }
  rewrite <- !Z.mul_assoc, !Hpow. assert (0 < 2 ^ (e - 1)) by lia.
  pose proof (Z.div_mod m (2 ^ 13) ltac:(lia)). pose proof (Z.mod_pos_bound m (2 ^ 13) ltac:(lia)).
  set (q := m / 2 ^ 13) in *. clearbody q. set (p := 2 ^ (e - 1)) in *. clearbody p. nia.
Qed.

(** The half that [float2Half] computes, sign and magnitude. *)
Lemma float2Half_magnitude u :
  u32 u -> u mod 2 ^ 31 < ldexp_1 16 ->
  exists h, float2Half u = h + u / 2 ^ 31 * 2 ^ 15 /\ half_below h (u mod 2 ^ 31).
Proof.
  intros Hu Hlt. change (ldexp_1 16) with (143 * 2 ^ 23) in *.
  destruct (float2Half_fields u Hu) as (Hx & Hs & Hs1). unfold float2Half. rewrite Hx, Hs.
  set (s := u / 2 ^ 31) in *. assert (u = s * 2 ^ 31 + u mod 2 ^ 31) as Hus by (subst s; mod_lia).
  clearbody s. change (ldexp_1 16) with (143 * 2 ^ 23). change (ldexp_1 (-24)) with (103 * 2 ^ 23).
  change (ldexp_1 (-14)) with (113 * 2 ^ 23). unfold PosInfinity.
  assert (0 <= u mod 2 ^ 31) as Hx0 by mod_lia. set (x := u mod 2 ^ 31) in *. clearbody x. subst u.
  rewrite !decide_False by lia.
  assert (forall h, half_below h x -> w16 (Z.lor h (s * 2 ^ 15)) = h + s * 2 ^ 15) as Hw.
  { intros h [Hh _]. rewrite lor_high_add by lia. apply wrap_small. word_lia. }
  case_decide as Htiny; [exists 0; split; [lia|by apply half_below_tiny]|].
  destruct (float_fields x) as (e & m & -> & Hm & He & _); [lia|]. case_decide as Hden.
  - rewrite truncScaled24_eq by lia. eexists. split; [apply Hw|]; apply half_below_denormal; lia.
  - exists ((e - 112) * 2 ^ 10 + m / 2 ^ 13). split; [|apply half_below_normal; lia].
    rewrite <- Hw by (apply half_below_normal; lia).
    change 0xFFFFE000 with (wnot 32 (2 ^ 13 - 1)). rewrite land_wnot_ones by (word_lia || lia).
    rewrite (wrap_small 32) by mod_lia. rewrite Z.shiftr_div_pow2 by lia.
    assert ((s * 2 ^ 31 + (e * 2 ^ 23 + m) - (s * 2 ^ 31 + (e * 2 ^ 23 + m)) mod 2 ^ 13 - 0x38000000) / 2 ^ (24 - 11)
            = (e - 112) * 2 ^ 10 + m / 2 ^ 13 + s * 8 * 2 ^ 15) as -> by (change (24 - 11) with 13; mod_lia).
    assert (0 <= (e - 112) * 2 ^ 10 + m / 2 ^ 13 < 2 ^ 15) as Hh by mod_lia.
    set (h := (e - 112) * 2 ^ 10 + m / 2 ^ 13) in *. clearbody h.
    rewrite <- (lor_high_add h (s * 8)) by lia. rewrite <- Z.lor_assoc.
    assert (Z.lor (s * 8 * 2 ^ 15) (s * 2 ^ 15) = s * 9 * 2 ^ 15) as ->
      by (assert (s = 0 \/ s = 1) as [-> | ->] by lia; reflexivity).
    rewrite !lor_high_add by lia. mod_lia.
Qed.

(** The payload of a NaN keeps the exponent of all ones and stays nonzero. *)
Lemma nan_payload y : 0x7c00 <= y < 2 ^ 15 -> 0x7c00 < Z.lor y 0x200 < 2 ^ 15.
Proof.
  intros Hy. assert (y ∈ map (fun n => 0x7c00 + Z.of_nat n) (seq 0 1024)) as Hin.
  { apply list_elem_of_In, in_map_iff. exists (Z.to_nat (y - 0x7c00)). split; [lia|]. apply in_seq. lia. }
  clear Hy. revert y Hin. apply Forall_forall. eval_decide.
Qed.

Lemma float2Half_nan u :
  u32 u -> PosInfinity < u mod 2 ^ 31 ->
  exists h, float2Half u = h + u / 2 ^ 31 * 2 ^ 15 /\ 0x7c00 < h < 2 ^ 15.
Proof.
  intros Hu Hlt. destruct (float2Half_fields u Hu) as (Hx & Hs & Hs1). unfold float2Half.
  rewrite Hx, Hs, decide_True by done. change 0x7fff with (2 ^ 15 - 1).
  rewrite land_low_ones, Z.shiftr_div_pow2 by lia. unfold PosInfinity in *.
  assert (0x7c00 <= (u / 2 ^ (24 - 11)) mod 2 ^ 15 < 2 ^ 15) as Hy by (change (24 - 11) with 13; mod_lia).
  pose proof (nan_payload _ Hy) as Hn. eexists. split; [|exact Hn].
  rewrite lor_high_add by lia. apply wrap_small. word_lia.
Qed.

Lemma float2Half_overflow u :
  u32 u -> ldexp_1 16 <= u mod 2 ^ 31 <= PosInfinity ->
  float2Half u = (if decide (u mod 2 ^ 31 = PosInfinity) then 0x7c00 else 0x7bff) + u / 2 ^ 31 * 2 ^ 15.
Proof.
  intros Hu Hlt. destruct (float2Half_fields u Hu) as (Hx & Hs & Hs1). unfold float2Half.
  rewrite Hx, Hs, decide_False, decide_True by lia. case_decide; by rewrite lor_high_add by lia.
Qed.

(** ** Properties *)

(** on every 32-bit value, [nextPowerOfTwo] is the least power of two
    not below it (0 when that is [2^32], and for 0), [prevPowerOfTwo] the
    greatest one not above it, [log2] the integer logarithm (32 for 0), and
    [isPow2] recognises exactly the powers of two; the 64-bit overloads agree
    at their width. *)
Theorem power_of_two_helpers w v :
  w = 32 \/ w = 64 -> uint w v ->
  (if decide (w = 32) then nextPowerOfTwo32 v else nextPowerOfTwo64 v) =
    (if decide (v = 0) then 0 else wrap w (2 ^ Z.log2_up v)) /\
  (if decide (w = 32) then prevPowerOfTwo32 v else prevPowerOfTwo64 v) =
    (if decide (v = 0) then 0 else 2 ^ Z.log2 v) /\
  (if decide (w = 32) then log2_32 v else log2_64 v) = (if decide (v = 0) then w else Z.log2 v) /\
  (isPow2 w v = true <-> exists k, 0 <= k /\ v = 2 ^ k).
Proof.
  intros Hw Hv. split_and!; [..|by apply isPow2_spec]; destruct Hw as [-> | ->]; simpl.
  - by apply nextPowerOfTwo32_spec.
  - by apply nextPowerOfTwo64_spec.
  - by apply prevPowerOfTwo32_spec.
  - by apply prevPowerOfTwo64_spec.
  - by apply log2_32_spec.
  - by apply log2_64_spec.
Qed.

Example power_of_two_helpers_witness :
  nextPowerOfTwo32 1000 = 2 ^ 10 /\ prevPowerOfTwo32 1000 = 2 ^ 9 /\ log2_32 1000 = 9 /\
  (isPow2 32 1000 = true <-> exists k, 0 <= k /\ 1000 = 2 ^ k).
Proof. apply (power_of_two_helpers 32 1000); [by left|eval_decide]. Defined.

(** for a nonzero 32-bit value the table lookup of [getMinLsbSet] and
    the loop of [ffs] return the same index, and it is the index of the lowest
    set bit. *)
Theorem bit_scans_agree v :
  u32 v -> v <> 0 ->
  exists k, getMinLsbSet v = k /\ ffs 32 v = Some k /\ 0 <= k < 32 /\
    Z.testbit v k = true /\ forall i, i < k -> Z.testbit v i = false.
Proof.
  intros Hv Hz. destruct (odd_part v) as (k & m & Hk & Hm & ->); [word_lia|].
  assert (k < 32) as Hk32.
  { apply (Z.pow_lt_mono_r_iff 2); [lia..|]. unfold uint in Hv. nia. }
  exists k. split_and!; [by apply getMinLsbSet_spec| |done|done| |].
  - unfold ffs. rewrite decide_False by done. apply ffsLoop_spec; lia.
  - by rewrite Z.mul_comm, Z.mul_pow2_bits, Z.sub_diag, Z.testbit_odd_0 by lia.
  - intros i Hi. by rewrite Z.mul_comm, Z.mul_pow2_bits_low by lia.
Qed.

Example bit_scans_agree_witness :
  exists k, getMinLsbSet 40 = k /\ ffs 32 40 = Some k /\ 0 <= k < 32 /\
    Z.testbit 40 k = true /\ forall i, i < k -> Z.testbit 40 i = false.
Proof. apply (bit_scans_agree 40); [eval_decide|done]. Defined.

(** [float2Half] keeps the sign of every single-precision pattern and
    maps a NaN to a NaN, an infinity to an infinity, a finite magnitude of at
    least [2^16] to the largest finite half, and every other magnitude to the
    greatest half, normal or subnormal, that does not exceed it. *)
Theorem float2Half_truncates u :
  u32 u ->
  let x := u mod 2 ^ 31 in
  exists h, float2Half u = h + u / 2 ^ 31 * 2 ^ 15 /\ 0 <= h < 2 ^ 15 /\
    (if decide (PosInfinity < x) then 0x7c00 < h
     else if decide (x = PosInfinity) then h = 0x7c00
     else if decide (ldexp_1 16 <= x) then h = 0x7bff
     else half_units h * 2 ^ 125 <= float_units x < half_units (h + 1) * 2 ^ 125).
Proof.
  intros Hu x. case_decide as Hn; [|case_decide as Hi; [|case_decide as Ho]].
  - destruct (float2Half_nan u Hu Hn) as (h & He & Hh). exists h. split_and!; [done|lia..].
  - exists 0x7c00. rewrite float2Half_overflow by (try done; change (ldexp_1 16) with (143 * 2 ^ 23); fold x; unfold PosInfinity in *; lia).
    fold x. rewrite decide_True by done. done.
  - exists 0x7bff. rewrite float2Half_overflow by (try done; fold x; lia).
    fold x. rewrite decide_False by done. done.
  - destruct (float2Half_magnitude u Hu) as (h & He & Hb & Hh); [fold x; lia|].
    exists h. split_and!; [done|lia..|apply Hh|apply Hh].
Qed.

Example float2Half_truncates_witness :
  let x := 0xbf9df3b6 mod 2 ^ 31 in
  exists h, float2Half 0xbf9df3b6 = h + 0xbf9df3b6 / 2 ^ 31 * 2 ^ 15 /\ 0 <= h < 2 ^ 15 /\
    (if decide (PosInfinity < x) then 0x7c00 < h
     else if decide (x = PosInfinity) then h = 0x7c00
     else if decide (ldexp_1 16 <= x) then h = 0x7bff
     else half_units h * 2 ^ 125 <= float_units x < half_units (h + 1) * 2 ^ 125).
Proof. apply (float2Half_truncates 0xbf9df3b6). eval_decide. Defined.
End Math.
