(* ===== verification/GfxPartition.v ===== *)
(** * The GPU address space and its heaps

    Model of [runtime/memory_manager/gfx_partition.{h,cpp}]: the GPU address
    space is cut into seven heaps, each with a [HeapAllocator] of its own.  The
    64-bit build is modelled ([is64bit] is an argument of [init], so the 32-bit
    base is there as well).  A heap that was never initialised has a null
    allocator; using it is the [None] of [heapAllocate]. *)

From S2P Require Import Prelude.
From S2P Require Import AlignedMemory.
From S2P Require Import Tiling.
From S2P Require Import HeapAllocator.
Import MemoryConstants.

Inductive HeapIndex :=
  | HEAP_INTERNAL_DEVICE_MEMORY
  | HEAP_INTERNAL
  | HEAP_EXTERNAL_DEVICE_MEMORY
  | HEAP_EXTERNAL
  | HEAP_STANDARD
  | HEAP_STANDARD64KB
  | HEAP_SVM.

#[export] Instance HeapIndex_eq_dec : EqDecision HeapIndex.
Proof. solve_decision. Defined.

(** The class [Heap]; [alloc] is [None] for a null [unique_ptr]. *)
Record Heap := mkHeap { base : Z; size : Z; alloc : option HeapAllocator }.

(** The array of heaps, as the map from indices it is used as. *)
Definition GfxPartition : Type := HeapIndex -> Heap.

Definition emptyPartition : GfxPartition := fun _ => mkHeap 0 0 None.

Definition setHeap (h : HeapIndex) (x : Heap) (p : GfxPartition) : GfxPartition :=
  fun k => if decide (k = h) then x else p k.

Definition heapInit (heapIndex : HeapIndex) (base size : Z) (p : GfxPartition) : GfxPartition :=
  setHeap heapIndex (mkHeap base size (Some (newHeapAllocator base size))) p.

(** The pointer, the size reported back and the partition afterwards. *)
Definition heapAllocate (heapIndex : HeapIndex) (sz : Z) (p : GfxPartition)
    : option (Z * Z * GfxPartition) :=
  let h := p heapIndex in
  a ← alloc h;
  let '(ptr, sz', a') := allocate sz a in
  Some (ptr, sz', setHeap heapIndex (mkHeap (base h) (size h) (Some a')) p).

Definition heapFree (heapIndex : HeapIndex) (ptr sz : Z) (p : GfxPartition)
    : option GfxPartition :=
  let h := p heapIndex in
  a ← alloc h;
  Some (setHeap heapIndex (mkHeap (base h) (size h) (Some (free ptr sz a))) p).

Definition getHeapBase (heapIndex : HeapIndex) (p : GfxPartition) : Z := base (p heapIndex).

Definition getHeapLimit (heapIndex : HeapIndex) (p : GfxPartition) : Z :=
  base (p heapIndex) ⊞ size (p heapIndex) ⊟ 1.

Definition heap32Names : list HeapIndex :=
  [HEAP_INTERNAL_DEVICE_MEMORY; HEAP_INTERNAL; HEAP_EXTERNAL_DEVICE_MEMORY; HEAP_EXTERNAL].

Definition gfxHeap32Size : Z := 4 * gigaByte.
Definition gfxGranularity : Z := 2 * megaByte.

(** One turn of the loop over [heap32Names]; the state is [gfxBase]. *)
Definition initHeap32 (acc : Z * GfxPartition) (heap : HeapIndex) : Z * GfxPartition :=
  let '(gfxBase, p) := acc in
  (gfxBase ⊞ gfxHeap32Size,
   heapInit heap (if decide (gfxBase = 0) then gfxGranularity else gfxBase)
     (if decide (gfxBase = 0) then gfxHeap32Size ⊟ gfxGranularity else gfxHeap32Size) p).

Definition init (is64bit : bool) (gpuAddressSpace : Z) (p : GfxPartition) : GfxPartition :=
  let gfxTop := gpuAddressSpace ⊞ 1 in
  let gfxBase := if is64bit then max64BitAppAddress ⊞ 1 else max32BitAddress ⊞ 1 in
  let '(gfxBase, p) :=
    if decide (gpuAddressSpace = max48BitAddress)
    then (gfxBase, heapInit HEAP_SVM gfxGranularity (gfxBase ⊟ gfxGranularity) p)
    else (0, p) in
  let '(gfxBase, p) := foldl initHeap32 (gfxBase, p) heap32Names in
  let gfxStandardSize := Z.shiftr (gfxTop ⊟ gfxBase) 1 in
  let p := heapInit HEAP_STANDARD gfxBase gfxStandardSize p in
  let gfxBase := gfxBase ⊞ gfxStandardSize in
  let gfxBaseAligned := alignUp 64 gfxBase gfxGranularity in
  heapInit HEAP_STANDARD64KB gfxBaseAligned (gfxStandardSize ⊟ (gfxBaseAligned ⊟ gfxBase)) p.

(** ** The layout that [init] computes *)

(** The gap in front of the 64 KB heap when the standard heap does not end on
    a 2 MB boundary. *)
Definition standardSize (top base : Z) : Z := (top - base) / 2.
Definition alignGap (top base : Z) : Z :=
  alignUp 64 (base + standardSize top base) gfxGranularity - (base + standardSize top base).

Definition heap32Base (limited : bool) (i : Z) : Z :=
  (if limited then 0 else 2 ^ 47) + i * gfxHeap32Size.

(** The layout, heap by heap: [(base, size)], [None] for an unused heap. *)
Definition layoutOf (gpuAddressSpace : Z) (h : HeapIndex) : option (Z * Z) :=
  let top := gpuAddressSpace + 1 in
  let limited := bool_decide (gpuAddressSpace <> max48BitAddress) in
  let std := heap32Base limited 4 in
  let ssize := standardSize top std in
  match h with
  | HEAP_INTERNAL_DEVICE_MEMORY =>
      if limited then Some (gfxGranularity, gfxHeap32Size - gfxGranularity)
      else Some (heap32Base limited 0, gfxHeap32Size)
  | HEAP_INTERNAL => Some (heap32Base limited 1, gfxHeap32Size)
  | HEAP_EXTERNAL_DEVICE_MEMORY => Some (heap32Base limited 2, gfxHeap32Size)
  | HEAP_EXTERNAL => Some (heap32Base limited 3, gfxHeap32Size)
  | HEAP_STANDARD => Some (std, ssize)
  | HEAP_STANDARD64KB => Some (std + ssize + alignGap top std, ssize - alignGap top std)
  | HEAP_SVM => if limited then None else Some (gfxGranularity, 2 ^ 47 - gfxGranularity)
  end.

(** Address spaces that leave room for the standard heaps above the four
    32-bit ones. *)
Definition space_ok (gpuAddressSpace : Z) : Prop :=
  4 * gfxHeap32Size + 2 * gfxGranularity <= gpuAddressSpace + 1 <= 2 ^ 48.

Lemma alignGap_spec top b :
  0 <= b -> b + 2 * gfxGranularity <= top <= 2 ^ 48 ->
  0 <= alignGap top b < gfxGranularity /\ alignGap top b <= standardSize top b /\
  (b + standardSize top b + alignGap top b) mod gfxGranularity = 0.
Proof.
  intros Hb Ht. unfold alignGap, standardSize. change gfxGranularity with (2 ^ 21) in *.
  set (x := b + (top - b) / 2). assert (0 <= x <= 2 ^ 48) as Hx by (subst x; mod_lia).
  destruct (alignUp_spec 64 x 21) as (H1 & H2 & _); [word_lia|lia..|].
  set (u := alignUp 64 x (2 ^ 21)) in *. clearbody u.
  replace (x + (u - x)) with u by lia. split_and!; [lia|lia| |done]. mod_lia.
Qed.

Definition layout_heap (l : option (Z * Z)) : Heap :=
  match l with
  | Some (b, s) => mkHeap b s (Some (newHeapAllocator b s))
  | None => mkHeap 0 0 None
  end.

Lemma setHeap_eq h x p : setHeap h x p h = x.
Proof. unfold setHeap. by rewrite decide_True. Qed.
Lemma setHeap_ne h k x p : k <> h -> setHeap h x p k = p k.
Proof. intros Hne. unfold setHeap. by rewrite decide_False. Qed.

(** The base and the partition after the four 32-bit heaps. *)
Lemma heap32_limited p h :
  (foldl initHeap32 (0, p) heap32Names).1 = heap32Base true 4 /\
  (foldl initHeap32 (0, p) heap32Names).2 h =
    (if decide (h ∈ heap32Names) then layout_heap (layoutOf 0 h) else p h).
Proof. split; [reflexivity|]. destruct h; vm_compute; reflexivity. Qed.

(** [init] on the 64-bit build sets every heap to its layout. *)
Lemma init_layout gpuAddressSpace h :
  space_ok gpuAddressSpace ->
  init true gpuAddressSpace emptyPartition h = layout_heap (layoutOf gpuAddressSpace h).
Proof.
  intros Hs. unfold space_ok in Hs.
  destruct (decide (gpuAddressSpace = max48BitAddress)) as [->|Hf].
  { destruct h; vm_compute; reflexivity. }
  unfold init. rewrite decide_False by done. cbv zeta iota.
  destruct (heap32_limited emptyPartition h) as [H1 H2].
  destruct (foldl initHeap32 (0, emptyPartition) heap32Names) as [b p]. cbn [fst snd] in H1, H2. subst b.
  unfold layoutOf. rewrite bool_decide_eq_true_2 by done.
  change (heap32Base true 4) with (2 ^ 34) in *.
  change (4 * gfxHeap32Size + 2 * gfxGranularity) with (2 ^ 34 + 2 ^ 22) in Hs.
  destruct (alignGap_spec (gpuAddressSpace + 1) (2 ^ 34)) as (Hg1 & Hg2 & _);
    [lia|change (2 * gfxGranularity) with (2 ^ 22); lia|].
  unfold alignGap in *. change gfxGranularity with (2 ^ 21) in *.
  rewrite (wrap_small 64 (gpuAddressSpace + 1)) by word_lia.
  rewrite (wrap_small 64 (gpuAddressSpace + 1 - 2 ^ 34)) by word_lia.
  rewrite Z.shiftr_div_pow2 by lia. change (2 ^ 1) with 2. fold (standardSize (gpuAddressSpace + 1) (2 ^ 34)).
  assert (0 <= standardSize (gpuAddressSpace + 1) (2 ^ 34) < 2 ^ 48) as Hss by (unfold standardSize; mod_lia).
  set (ss := standardSize (gpuAddressSpace + 1) (2 ^ 34)) in *. clearbody ss.
  rewrite (wrap_small 64 (2 ^ 34 + ss)) by word_lia.
  set (u := alignUp 64 (2 ^ 34 + ss) (2 ^ 21)) in *. clearbody u.
  rewrite (wrap_small 64 (u - (2 ^ 34 + ss))) by word_lia.
  rewrite (wrap_small 64 (ss - _)) by word_lia.
  replace (2 ^ 34 + ss + (u - (2 ^ 34 + ss))) with u by lia.
  unfold heapInit.
  destruct h; rewrite ?setHeap_eq, ?setHeap_ne by done; try rewrite H2; reflexivity.
Qed.

(** Facts about the layout, stated on ranges: a heap is [base, base + size). *)
Lemma layout_bounds g h b s :
  space_ok g -> layoutOf g h = Some (b, s) ->
  gfxGranularity <= b /\ 0 <= s /\ b + s <= g + 1 /\ b mod gfxGranularity = 0.
Proof.
  intros Hs Hl. unfold space_ok in Hs. unfold layoutOf in Hl.
  change (4 * gfxHeap32Size + 2 * gfxGranularity) with (2 ^ 34 + 2 ^ 22) in Hs.
  case_bool_decide as Hb.
  - change (heap32Base true 4) with (2 ^ 34) in Hl.
    destruct (alignGap_spec (g + 1) (2 ^ 34)) as (Hg1 & Hg2 & Hg3);
      [lia|change (2 * gfxGranularity) with (2 ^ 22); lia|].
    assert (2 ^ 34 + 2 * standardSize (g + 1) (2 ^ 34) <= g + 1) by (unfold standardSize; mod_lia).
    set (gap := alignGap _ _) in *. set (ss := standardSize _ _) in *. clearbody gap ss.
    unfold heap32Base in Hl. change gfxHeap32Size with (2 ^ 32) in Hl. change gfxGranularity with (2 ^ 21) in *.
    destruct h; simplify_eq; (split_and!; [lia..|]); try reflexivity; done.
  - subst g. clear Hs.
    destruct h; injection Hl as <- <-; vm_compute; split_and!; congruence.
Qed.

Lemma layout_disjoint g h k b s b' s' :
  space_ok g -> layoutOf g h = Some (b, s) -> layoutOf g k = Some (b', s') -> h <> k ->
  b + s <= b' \/ b' + s' <= b.
Proof.
  intros Hs Hl Hk Hne. unfold space_ok in Hs. unfold layoutOf in Hl, Hk.
  change (4 * gfxHeap32Size + 2 * gfxGranularity) with (2 ^ 34 + 2 ^ 22) in Hs.
  case_bool_decide as Hb.
  - change (heap32Base true 4) with (2 ^ 34) in *.
    destruct (alignGap_spec (g + 1) (2 ^ 34)) as (Hg1 & Hg2 & Hg3);
      [lia|change (2 * gfxGranularity) with (2 ^ 22); lia|].
    set (gap := alignGap _ _) in *. set (ss := standardSize _ _) in *. clearbody gap ss.
    unfold heap32Base in *. change gfxHeap32Size with (2 ^ 32) in *. change gfxGranularity with (2 ^ 21) in *.
    destruct h, k; simplify_eq; lia.
  - subst g. clear Hs.
    change (heap32Base false 4) with (2 ^ 47 + 2 ^ 34) in *.
    change (standardSize (max48BitAddress + 1) (2 ^ 47 + 2 ^ 34)) with (2 ^ 46 - 2 ^ 33) in *.
    change (alignGap (max48BitAddress + 1) (2 ^ 47 + 2 ^ 34)) with 0 in *.
    unfold heap32Base in *. change gfxHeap32Size with (2 ^ 32) in *. change gfxGranularity with (2 ^ 21) in *.
    destruct h, k; simplify_eq; lia.
Qed.

Lemma layout_covers g a :
  space_ok g -> gfxGranularity <= a < g ->
  (exists h b s, layoutOf g h = Some (b, s) /\ b <= a < b + s) \/
  (exists b s b' s', layoutOf g HEAP_STANDARD = Some (b, s) /\ layoutOf g HEAP_STANDARD64KB = Some (b', s') /\
    b + s <= a < b' /\ b' < b + s + gfxGranularity).
Proof.
  intros Hs Ha. unfold space_ok in Hs. unfold layoutOf.
  change (4 * gfxHeap32Size + 2 * gfxGranularity) with (2 ^ 34 + 2 ^ 22) in Hs.
  case_bool_decide as Hb.
  - change (heap32Base true 4) with (2 ^ 34) in *.
    destruct (alignGap_spec (g + 1) (2 ^ 34)) as (Hg1 & Hg2 & Hg3);
      [lia|change (2 * gfxGranularity) with (2 ^ 22); lia|].
    assert (g <= 2 ^ 34 + 2 * standardSize (g + 1) (2 ^ 34)) by (unfold standardSize; mod_lia).
    set (gap := alignGap _ _) in *. set (ss := standardSize _ _) in *. clearbody gap ss.
    unfold heap32Base in *. change gfxHeap32Size with (2 ^ 32) in *. change gfxGranularity with (2 ^ 21) in *.
    destruct (decide (a < 2 ^ 32)); [left; exists HEAP_INTERNAL_DEVICE_MEMORY; do 2 eexists; split; [done|lia]|].
    destruct (decide (a < 2 * 2 ^ 32)); [left; exists HEAP_INTERNAL; do 2 eexists; split; [done|lia]|].
    destruct (decide (a < 3 * 2 ^ 32)); [left; exists HEAP_EXTERNAL_DEVICE_MEMORY; do 2 eexists; split; [done|lia]|].
    destruct (decide (a < 2 ^ 34)); [left; exists HEAP_EXTERNAL; do 2 eexists; split; [done|lia]|].
    destruct (decide (a < 2 ^ 34 + ss)); [left; exists HEAP_STANDARD; do 2 eexists; split; [done|lia]|].
    destruct (decide (a < 2 ^ 34 + ss + gap)).
    { right. do 4 eexists. split_and!; [done..|lia|lia|lia]. }
    left. exists HEAP_STANDARD64KB. do 2 eexists. split; [done|lia].
  - subst g. clear Hs. left.
    change (heap32Base false 4) with (2 ^ 47 + 2 ^ 34).
    change (standardSize (max48BitAddress + 1) (2 ^ 47 + 2 ^ 34)) with (2 ^ 46 - 2 ^ 33).
    change (alignGap (max48BitAddress + 1) (2 ^ 47 + 2 ^ 34)) with 0.
    change max48BitAddress with (2 ^ 48 - 1) in *. change gfxGranularity with (2 ^ 21) in *.
    unfold heap32Base in *. change gfxHeap32Size with (2 ^ 32) in *.
    destruct (decide (a < 2 ^ 47)); [exists HEAP_SVM; do 2 eexists; split; [done|lia]|].
    destruct (decide (a < 2 ^ 47 + 2 ^ 32)); [exists HEAP_INTERNAL_DEVICE_MEMORY; do 2 eexists; split; [done|lia]|].
    destruct (decide (a < 2 ^ 47 + 2 * 2 ^ 32)); [exists HEAP_INTERNAL; do 2 eexists; split; [done|lia]|].
    destruct (decide (a < 2 ^ 47 + 3 * 2 ^ 32)); [exists HEAP_EXTERNAL_DEVICE_MEMORY; do 2 eexists; split; [done|lia]|].
    destruct (decide (a < 2 ^ 47 + 2 ^ 34)); [exists HEAP_EXTERNAL; do 2 eexists; split; [done|lia]|].
    destruct (decide (a < 2 ^ 47 + 2 ^ 34 + (2 ^ 46 - 2 ^ 33))); [exists HEAP_STANDARD; do 2 eexists; split; [done|lia]|].
    exists HEAP_STANDARD64KB. do 2 eexists. split; [done|lia].
Qed.

Lemma layout_heap_range g h :
  space_ok g -> let p := init true g emptyPartition in
  alloc (p h) <> None ->
  exists b s, layoutOf g h = Some (b, s) /\ p h = mkHeap b s (Some (newHeapAllocator b s)) /\
    getHeapBase h p = b /\ getHeapLimit h p = b + s - 1.
Proof.
  intros Hs p. unfold getHeapLimit, getHeapBase. subst p. rewrite (init_layout g h Hs).
  destruct (layoutOf g h) as [[b s]|] eqn:Hl; [|done]. intros _. exists b, s.
  destruct (layout_bounds g h b s Hs Hl) as (H1 & H2 & H3 & H4). unfold space_ok in Hs.
  split_and!; [done..|]. simpl. change gfxGranularity with (2 ^ 21) in *. unwrap. done.
Qed.

(** The heaps that [init] initialises. *)
Lemma init_alloc g h :
  space_ok g -> alloc (init true g emptyPartition h) = None <-> h = HEAP_SVM /\ g <> max48BitAddress.
Proof.
  intros Hs. rewrite (init_layout g h Hs). unfold layoutOf. case_bool_decide; destruct h; simpl; naive_solver.
Qed.

(** C13: on the 64-bit build, for every GPU address space that leaves room
    above the four 32-bit heaps, [init] initialises every heap but the SVM heap
    of an address space other than 48 bits, and gives each an allocator of just
    the range between its base and its limit.  The initialised heaps lie inside
    the address space, above address 0, on 2 MB boundaries and pairwise disjoint;
    each 32-bit heap stays inside one 4 GB window, so that a 32-bit offset from
    the window's base reaches all of it; and every address from 2 MB up to the
    last but one is in some initialised heap or in the alignment gap of less than
    2 MB between the two standard heaps. *)
Theorem gfx_partition_layout g :
  space_ok g -> let p := init true g emptyPartition in
  (forall h, alloc (p h) = None <-> h = HEAP_SVM /\ g <> max48BitAddress) /\
  (forall h a, alloc (p h) = Some a ->
     a = newHeapAllocator (getHeapBase h p) (getHeapLimit h p - getHeapBase h p + 1)) /\
  (forall h, alloc (p h) <> None ->
     gfxGranularity <= getHeapBase h p /\ getHeapLimit h p <= g /\
     getHeapBase h p mod gfxGranularity = 0) /\
  (forall h k, alloc (p h) <> None -> alloc (p k) <> None -> h <> k ->
     getHeapLimit h p < getHeapBase k p \/ getHeapLimit k p < getHeapBase h p) /\
  (forall h, h ∈ heap32Names -> getHeapBase h p / gfxHeap32Size = getHeapLimit h p / gfxHeap32Size) /\
  (forall a, gfxGranularity <= a < g ->
     (exists h, alloc (p h) <> None /\ getHeapBase h p <= a <= getHeapLimit h p) \/
     (getHeapLimit HEAP_STANDARD p < a < getHeapBase HEAP_STANDARD64KB p /\
      getHeapBase HEAP_STANDARD64KB p <= getHeapLimit HEAP_STANDARD p + gfxGranularity)).
Proof.
  intros Hs p.
  assert (forall h b s, layoutOf g h = Some (b, s) -> getHeapBase h p = b /\ getHeapLimit h p = b + s - 1) as Hr.
  { intros h b s Hl. destruct (layout_heap_range g h Hs) as (b' & s' & Hl' & _ & ? & ?).
    { rewrite (init_layout g h Hs), Hl. done. }
    by simplify_eq. }
  split_and!.
  - intros h. unfold p. by apply init_alloc.
  - intros h al Ha. destruct (layout_heap_range g h Hs) as (b & s & Hl & Hp & _).
    { fold p. by rewrite Ha. }
    destruct (Hr h b s Hl) as [-> ->]. fold p in Hp. rewrite Hp in Ha. simpl in Ha. simplify_eq. f_equal; lia.
  - intros h Ha. destruct (layout_heap_range g h Hs Ha) as (b & s & Hl & _).
    destruct (Hr h b s Hl) as [-> ->].
    destruct (layout_bounds g h b s Hs Hl) as (? & ? & ? & ?). split_and!; [lia..|done].
  - intros h k Ha Hb Hne. destruct (layout_heap_range g h Hs Ha) as (b & s & Hl & _).
    destruct (Hr h b s Hl) as [-> ->].
    destruct (layout_heap_range g k Hs Hb) as (b' & s' & Hl' & _).
    destruct (Hr k b' s' Hl') as [-> ->].
    pose proof (layout_disjoint g h k _ _ _ _ Hs Hl Hl' Hne). lia.
  - intros h Hh. assert (exists b s, layoutOf g h = Some (b, s) /\ b / gfxHeap32Size = (b + s - 1) / gfxHeap32Size)
      as (b & s & Hl & Heq).
    { unfold heap32Names in Hh. rewrite !elem_of_cons, elem_of_nil in Hh.
      unfold layoutOf. case_bool_decide; unfold heap32Base;
        destruct Hh as [->|[->|[->|[->|[]]]]]; do 2 eexists; (split; [done|reflexivity]). }
    by destruct (Hr h b s Hl) as [-> ->].
  - intros a Ha. destruct (layout_covers g a Hs Ha) as [(h & b & s & Hl & Hin)|(b & s & b' & s' & H1 & H2 & H3 & H4)].
    + left. exists h. destruct (Hr h b s Hl) as [-> ->]. split; [|lia]. unfold p. by rewrite (init_layout g h Hs), Hl.
    + right. destruct (Hr _ _ _ H1) as [_ ->], (Hr _ _ _ H2) as [-> _]. lia.
Qed.

Example gfx_partition_layout_witness :
  let g := 2 ^ 36 - 1 in let p := init true g emptyPartition in
  (forall h, alloc (p h) = None <-> h = HEAP_SVM /\ g <> max48BitAddress) /\
  (forall h a, alloc (p h) = Some a ->
     a = newHeapAllocator (getHeapBase h p) (getHeapLimit h p - getHeapBase h p + 1)) /\
  (forall h, alloc (p h) <> None ->
     gfxGranularity <= getHeapBase h p /\ getHeapLimit h p <= g /\
     getHeapBase h p mod gfxGranularity = 0) /\
  (forall h k, alloc (p h) <> None -> alloc (p k) <> None -> h <> k ->
     getHeapLimit h p < getHeapBase k p \/ getHeapLimit k p < getHeapBase h p) /\
  (forall h, h ∈ heap32Names -> getHeapBase h p / gfxHeap32Size = getHeapLimit h p / gfxHeap32Size) /\
  (forall a, gfxGranularity <= a < g ->
     (exists h, alloc (p h) <> None /\ getHeapBase h p <= a <= getHeapLimit h p) \/
     (getHeapLimit HEAP_STANDARD p < a < getHeapBase HEAP_STANDARD64KB p /\
      getHeapBase HEAP_STANDARD64KB p <= getHeapLimit HEAP_STANDARD p + gfxGranularity)).
Proof. apply (gfx_partition_layout (2 ^ 36 - 1)). split; eval_decide. Defined.

(** ** Executions over all the heaps *)

Definition addLive (h : HeapIndex) (l : list HeapChunk) (live : HeapIndex -> list HeapChunk)
    : HeapIndex -> list HeapChunk :=
  fun k => if decide (k = h) then l else live k.

(** Clients allocate from and free to any heap whose base is not below the
    threshold of its allocator. *)
Inductive partition_step :
    GfxPartition * (HeapIndex -> list HeapChunk) -> GfxPartition * (HeapIndex -> list HeapChunk) -> Prop :=
  | pstep_allocate p live h req ptr sz p' :
      4 * megaByte <= getHeapBase h p -> 0 < req -> req + 4095 < 2 ^ 64 ->
      heapAllocate h req p = Some (ptr, sz, p') -> ptr <> 0 ->
      partition_step (p, live) (p', addLive h (mkHeapChunk ptr sz :: live h) live)
  | pstep_allocate_fails p live h req sz p' :
      4 * megaByte <= getHeapBase h p -> 0 < req -> req + 4095 < 2 ^ 64 ->
      heapAllocate h req p = Some (0, sz, p') -> partition_step (p, live) (p', live)
  | pstep_free p live h c rest p' :
      4 * megaByte <= getHeapBase h p ->
      live h ≡ₚ c :: rest -> heapFree h (ptr c) (chunkSize c) p = Some p' ->
      partition_step (p, live) (p', addLive h rest live).

(** Every heap keeps its range, and its allocator the invariant on it. *)
Definition heap_inv (l : option (Z * Z)) (x : Heap) (live : list HeapChunk) : Prop :=
  match l with
  | None => alloc x = None /\ live = []
  | Some (b, s) => base x = b /\ size x = s /\
      exists a, alloc x = Some a /\
        (if decide (4 * megaByte <= b) then heap_ok b (newHeapAllocator b s) (a, live) else live = [])
  end.

Definition partition_inv (g : Z) (w : GfxPartition * (HeapIndex -> list HeapChunk)) : Prop :=
  forall h, heap_inv (layoutOf g h) (w.1 h) (w.2 h).

Lemma heap_placement g h b s :
  space_ok g -> layoutOf g h = Some (b, s) -> 4 * megaByte <= b ->
  placement_ok b (newHeapAllocator b s).
Proof.
  intros Hs Hl Hb. destruct (layout_bounds g h b s Hs Hl) as (H1 & H2 & H3 & H4). unfold space_ok in Hs.
  change (4 * megaByte) with (2 ^ 22) in Hb. unfold placement_ok. simpl. change (4 * megaByte) with (2 ^ 22).
  split_and!; [lia..|done].
Qed.

Lemma partition_inv_init g :
  space_ok g -> partition_inv g (init true g emptyPartition, fun _ => []).
Proof.
  intros Hs h. cbn [fst snd]. rewrite (init_layout g h Hs). unfold heap_inv.
  destruct (layoutOf g h) as [[b s]|] eqn:Hl; simpl; [|done].
  split_and!; [done..|]. eexists. split; [done|]. case_decide as Hb; [|done].
  destruct (layout_bounds g h b s Hs Hl) as (H1 & H2 & H3 & H4).
  destruct (heap_placement g h b s Hs Hl Hb) as (? & ? & _). simpl in *.
  split; [|done]. apply Inv_new; lia.
Qed.

(** A step of one heap is a [heap_step] of its allocator. *)
Lemma partition_inv_update g p live h a a' l' :
  space_ok g -> partition_inv g (p, live) -> 4 * megaByte <= getHeapBase h p ->
  alloc (p h) = Some a -> heap_step (a, live h) (a', l') ->
  partition_inv g (setHeap h (mkHeap (base (p h)) (size (p h)) (Some a')) p, addLive h l' live).
Proof.
  intros Hs HI Hb Ha Hstep k. pose proof (HI k) as HIk. unfold setHeap, addLive. cbn [fst snd] in *.
  case_decide as Hk; [|done]. subst k. unfold heap_inv, getHeapBase in *.
  destruct (layoutOf g h) as [[b s]|] eqn:Hl; [|destruct HIk; simplify_eq].
  destruct HIk as (H1 & H2 & a0 & H3 & H4). simplify_eq. simpl. split_and!; [done..|].
  exists a'. split; [done|]. rewrite decide_True in H4 |- * by done.
  eapply heap_step_ok; [by eapply heap_placement|done|done].
Qed.

Lemma partition_inv_ext g p live live' :
  (forall h, live h = live' h) -> partition_inv g (p, live) -> partition_inv g (p, live').
Proof. intros He HI h. specialize (HI h). cbn [fst snd] in *. by rewrite <- He. Qed.

Lemma partition_step_inv g w w' :
  space_ok g -> partition_inv g w -> partition_step w w' -> partition_inv g w'.
Proof.
  intros Hs HI Hst. destruct Hst as [p live h req ptr sz p' Hb Hr1 Hr2 Ha Hp|p live h req sz p' Hb Hr1 Hr2 Ha|p live h c rest p' Hb Hc Ha].
  - unfold heapAllocate in Ha. destruct (alloc (p h)) as [a|] eqn:Hal; [|done]. simpl in Ha.
    destruct (allocate req a) as [[q sz'] a'] eqn:Hreq. simplify_eq.
    eapply partition_inv_update; [done..|]. by eapply step_allocate.
  - unfold heapAllocate in Ha. destruct (alloc (p h)) as [a|] eqn:Hal; [|done]. simpl in Ha.
    destruct (allocate req a) as [[q sz'] a'] eqn:Hreq. simplify_eq.
    apply partition_inv_ext with (addLive h (live h) live).
    { intros k. unfold addLive. by case_decide; subst. }
    eapply partition_inv_update; [done..|]. by eapply step_allocate_fails.
  - unfold heapFree in Ha. destruct (alloc (p h)) as [a|] eqn:Hal; [|done]. simpl in Ha. simplify_eq.
    eapply partition_inv_update; [done..|]. by apply step_free.
Qed.

Lemma partition_live_range g p live h c :
  space_ok g -> partition_inv g (p, live) -> c ∈ live h ->
  exists b s, layoutOf g h = Some (b, s) /\ base (p h) = b /\ size (p h) = s /\
    heap_ok b (newHeapAllocator b s) (default (newHeapAllocator b s) (alloc (p h)), live h) /\
    b <= ptr c /\ ptr c + chunkSize c <= b + s.
Proof.
  intros Hs HI Hc. pose proof (HI h) as HIh. unfold heap_inv in HIh. cbn [fst snd] in HIh.
  destruct (layoutOf g h) as [[b s]|] eqn:Hl; [|destruct HIh as [_ Hn]; rewrite Hn in Hc; by apply elem_of_nil in Hc].
  destruct HIh as (H1 & H2 & a & H3 & H4). case_decide; [|rewrite H4 in Hc; by apply elem_of_nil in Hc].
  exists b, s. rewrite H3. simpl. pose proof H4 as (HIa & E1 & _). simpl in *.
  pose proof (Inv_range _ _ _ _ HIa Hc) as Hr. rewrite E1 in Hr. split_and!; try done; lia.
Qed.

(** whatever clients allocate and free, in whichever heaps whose base is
    not below the threshold of their allocators, two live ranges never overlap,
    of the same heap or of two different ones, and every
    live range lies between the base and the limit of the heap it was taken
    from, inside the address space. *)
Theorem partition_no_overlap g p live :
  space_ok g ->
  rtc partition_step (init true g emptyPartition, fun _ => []) (p, live) ->
  (forall h c, c ∈ live h -> getHeapBase h p <= ptr c /\ ptr c + chunkSize c - 1 <= getHeapLimit h p <= g) /\
  (forall h c d rest, live h ≡ₚ c :: d :: rest -> disjoint_chunks c d) /\
  (forall h k c d, h <> k -> c ∈ live h -> d ∈ live k -> disjoint_chunks c d).
Proof.
  intros Hs Hr. assert (partition_inv g (p, live)) as HI.
  { pose proof (partition_inv_init g Hs) as H0. revert H0. induction Hr; [done|]. eauto using partition_step_inv. }
  split_and!.
  - intros h c Hc. destruct (partition_live_range g p live h c Hs HI Hc) as (b & s & Hl & H1 & H2 & _ & H3 & H4).
    destruct (layout_bounds g h b s Hs Hl) as (? & ? & ? & _). unfold space_ok in Hs.
    unfold getHeapBase, getHeapLimit. rewrite H1, H2. change gfxGranularity with (2 ^ 21) in *.
    unwrap. lia.
  - intros h c d rest Hp. destruct (partition_live_range g p live h c Hs HI) as (b & s & _ & _ & _ & (HIa & _) & _).
    { rewrite Hp. set_solver. }
    by eapply Inv_disjoint.
  - intros h k c d Hne Hc Hd.
    destruct (partition_live_range g p live h c Hs HI Hc) as (b & s & Hl & _ & _ & _ & H3 & H4).
    destruct (partition_live_range g p live k d Hs HI Hd) as (b' & s' & Hl' & _ & _ & _ & H3' & H4').
    pose proof (layout_disjoint g h k _ _ _ _ Hs Hl Hl' Hne). unfold disjoint_chunks. lia.
Qed.

(** An allocation in each of two heaps of a 48-bit address space. *)
Definition demo_partition : GfxPartition := init true max48BitAddress emptyPartition.
Definition demo_allocated : GfxPartition :=
  default demo_partition (snd <$> (heapAllocate HEAP_STANDARD 100 demo_partition)).

Lemma demo_partition_run :
  exists live, rtc partition_step (init true max48BitAddress emptyPartition, fun _ => []) (demo_allocated, live) /\
    live HEAP_STANDARD = [mkHeapChunk (2 ^ 47 + 2 ^ 34 + 2 ^ 46 - 2 ^ 33 - 4096) 4096].
Proof.
  eexists. split.
  - apply rtc_once. apply (pstep_allocate _ (fun _ => []) HEAP_STANDARD 100 (2 ^ 47 + 2 ^ 34 + 2 ^ 46 - 2 ^ 33 - 4096) 4096);
      [eval_decide..|vm_compute; reflexivity|done].
  - reflexivity.
Defined.

Example partition_no_overlap_witness :
  exists live, live HEAP_STANDARD <> [] /\
  (forall h c, c ∈ live h -> getHeapBase h demo_allocated <= ptr c /\
     ptr c + chunkSize c - 1 <= getHeapLimit h demo_allocated <= max48BitAddress) /\
  (forall h c d rest, live h ≡ₚ c :: d :: rest -> disjoint_chunks c d) /\
  (forall h k c d, h <> k -> c ∈ live h -> d ∈ live k -> disjoint_chunks c d).
Proof.
  destruct demo_partition_run as (live & Hr & Hl). exists live. split; [by rewrite Hl|].
  apply (partition_no_overlap max48BitAddress demo_allocated live); [split; eval_decide|done].
Defined.
