(* ===== verification/OrdMap.v ===== *)
(** * Ordered maps

    [std::map] keyed by addresses, as a list of pairs in increasing key order.
    An iterator is a position in the list, [end()] being its length and
    [begin()] 0, so that [lower_bound], decrementing an iterator and erasing at
    one are the operations the source performs. *)

From S2P Require Import Prelude.

Section ordmap.
Context {V : Type}.
Implicit Types (m : list (Z * V)) (k : Z) (v : V).

(** The first position whose key is not less than [k]. *)
Fixpoint lower_bound k m : nat :=
  match m with
  | [] => O
  | (k', _) :: m' => if decide (k <= k') then O else S (lower_bound k m')
  end.

Definition find k m : nat :=
  let i := lower_bound k m in
  match m !! i with
  | Some (k', _) => if decide (k' = k) then i else length m
  | None => length m
  end.

(** [insert] leaves an existing key alone. *)
Fixpoint map_insert k v m : list (Z * V) :=
  match m with
  | [] => [(k, v)]
  | (k', v') :: m' =>
      if decide (k < k') then (k, v) :: m
      else if decide (k' = k) then m
      else (k', v') :: map_insert k v m'
  end.

(** [erase] at an iterator. *)
Definition map_erase (i : nat) m : list (Z * V) := delete i m.

(** [element->second] and an assignment to it. *)
Definition map_set (i : nat) v m : list (Z * V) :=
  match m !! i with
  | Some (k, _) => <[i := (k, v)]> m
  | None => m
  end.

(** Strictly increasing keys. *)
Definition key_lt (a b : Z * V) : Prop := a.1 < b.1.
Definition ordered m : Prop := StronglySorted key_lt m.

Lemma lower_bound_le k m : (lower_bound k m <= length m)%nat.
Proof. induction m as [|[k' v] m IH]; simpl; [lia|]. case_decide; lia. Qed.

Lemma lower_bound_before k m i e : (i < lower_bound k m)%nat -> m !! i = Some e -> e.1 < k.
Proof.
  revert i. induction m as [|[k' v] m IH]; intros i Hi Hl; [done|]. simpl in Hi.
  case_decide; [lia|]. destruct i as [|i]; simplify_eq/=; [lia|]. eapply IH; [|done]. lia.
Qed.

Lemma lower_bound_after k m i e :
  ordered m -> (lower_bound k m <= i)%nat -> m !! i = Some e -> k <= e.1.
Proof.
  intros Hs. revert i. induction Hs as [|[k' v] m Hs IH Hall]; intros i Hi Hl; [done|].
  simpl in Hi. case_decide as Hk.
  - destruct i as [|i]; simplify_eq/=; [done|].
    rewrite Forall_forall in Hall. pose proof (Hall e (list_elem_of_lookup_2 _ _ _ Hl)) as Hlt.
    unfold key_lt in Hlt. simpl in Hlt. lia.
  - destruct i as [|i]; [lia|]. simpl in Hl. eapply IH; [|done]. lia.
Qed.

Lemma ordered_lookup_lt m i j a b :
  ordered m -> m !! i = Some a -> m !! j = Some b -> (i < j)%nat -> a.1 < b.1.
Proof.
  intros Hs. revert i j. induction Hs as [|[k' v] m Hs IH Hall]; intros i j Hi Hj Hij; [done|].
  destruct j as [|j]; [lia|]. destruct i as [|i]; simplify_eq/=.
  - rewrite Forall_forall in Hall. apply (Hall b). by eapply list_elem_of_lookup_2.
  - eapply IH; [done..|lia].
Qed.

Lemma ordered_key_inj m a b : ordered m -> a ∈ m -> b ∈ m -> a.1 = b.1 -> a = b.
Proof.
  intros Hs Ha Hb He. apply list_elem_of_lookup in Ha as [i Hi], Hb as [j Hj].
  destruct (lt_eq_lt_dec i j) as [[Hlt| ->]|Hlt]; [|by simplify_eq|].
  - pose proof (ordered_lookup_lt m i j a b Hs Hi Hj Hlt). lia.
  - pose proof (ordered_lookup_lt m j i b a Hs Hj Hi Hlt). lia.
Qed.

Lemma map_insert_Permutation k v m :
  (forall e, e ∈ m -> e.1 <> k) -> map_insert k v m ≡ₚ (k, v) :: m.
Proof.
  induction m as [|[k' v'] m IH]; intros Hn; simpl; [done|].
  assert (k' <> k) by (apply (Hn (k', v')); by left).
  case_decide; [done|]. rewrite decide_False by done.
  rewrite IH; [apply Permutation_swap|]. intros e He. apply Hn. by right.
Qed.

Lemma map_insert_present k v m e : e ∈ m -> e.1 = k -> ordered m -> map_insert k v m = m.
Proof.
  intros He Hk Hs. induction Hs as [|[k' v'] m Hs IH Hall]; [by apply elem_of_nil in He|]. simpl.
  apply elem_of_cons in He as [->|He]; simpl in *.
  - rewrite decide_False by lia. by rewrite decide_True by lia.
  - rewrite Forall_forall in Hall. pose proof (Hall e He) as Hlt. unfold key_lt in Hlt. simpl in Hlt.
    rewrite decide_False by lia. rewrite decide_False by lia. by rewrite IH.
Qed.

Lemma elem_of_map_insert k v m e : e ∈ map_insert k v m -> e = (k, v) \/ e ∈ m.
Proof.
  induction m as [|[k' v'] m IH]; simpl.
  - intros ->%list_elem_of_singleton. by left.
  - case_decide; [|case_decide]; rewrite ?elem_of_cons; naive_solver.
Qed.

Lemma map_insert_ordered k v m : ordered m -> ordered (map_insert k v m).
Proof.
  induction 1 as [|[k' v'] m Hs IH Hall]; simpl; [repeat constructor|].
  rewrite Forall_forall in Hall. unfold key_lt in Hall; simpl in Hall.
  case_decide; [|case_decide].
  - constructor; [constructor; [done|]|constructor; [done|]]; rewrite ?Forall_forall; [done|].
    intros e He. specialize (Hall e He). unfold key_lt. simpl. lia.
  - constructor; [done|]. by rewrite Forall_forall.
  - constructor; [done|]. rewrite Forall_forall. unfold key_lt. simpl.
    intros e [->|He]%elem_of_map_insert; simpl; [lia|]. by apply Hall.
Qed.

Lemma ordered_keys m : ordered m <-> StronglySorted Z.lt m.*1.
Proof.
  split.
  - induction 1 as [|[k v] m Hs IH Hall]; simpl; constructor; [done|]. by apply Forall_fmap.
  - induction m as [|[k v] m IH]; simpl; intros Hs; constructor; inversion Hs; subst; [by apply IH|].
    change (Forall (Z.lt k ∘ fst) m). by apply Forall_fmap.
Qed.

Lemma map_erase_ordered i m : ordered m -> ordered (map_erase i m).
Proof.
  unfold map_erase. intros Hs. revert i. induction Hs as [|[k v] m Hs IH Hall]; intros [|i]; simpl; [constructor..|done|].
  constructor; [apply IH|]. by apply Forall_delete.
Qed.

Lemma map_set_ordered i v m : ordered m -> ordered (map_set i v m).
Proof.
  rewrite !ordered_keys. unfold map_set. destruct (m !! i) as [[k v']|] eqn:Hi; [|done].
  rewrite list_fmap_insert. simpl. rewrite list_insert_id; [done|]. rewrite list_lookup_fmap, Hi. done.
Qed.

Lemma map_set_Permutation i k v v' m :
  m !! i = Some (k, v) -> map_set i v' m ≡ₚ (k, v') :: map_erase i m.
Proof.
  intros Hi. unfold map_set, map_erase. rewrite Hi. revert i Hi.
  induction m as [|e m IH]; intros [|i] Hi; simplify_eq/=; [done|].
  rewrite (IH i Hi). apply Permutation_swap.
Qed.

Lemma map_erase_Permutation i e m : m !! i = Some e -> m ≡ₚ e :: map_erase i m.
Proof. apply delete_Permutation. Qed.

(** [find] is the position of the key, or [end()]. *)
Lemma find_spec k m :
  ordered m ->
  (exists v, m !! find k m = Some (k, v)) \/ (find k m = length m /\ forall e, e ∈ m -> e.1 <> k).
Proof.
  intros Hs. unfold find. destruct (m !! lower_bound k m) as [[k' v]|] eqn:Hl.
  - case_decide as Hk; [subst; left; eauto|]. right. split; [done|].
    intros e He ->%eq_sym. apply list_elem_of_lookup in He as [j Hj].
    pose proof (lower_bound_after (e.1) m _ _ Hs (le_n _) Hl) as Hge. simpl in Hge.
    destruct (decide (j < lower_bound (e.1) m)%nat) as [Hlt|Hnlt].
    + pose proof (lower_bound_before _ _ _ _ Hlt Hj). lia.
    + destruct (decide (j = lower_bound (e.1) m)) as [->|]; [by simplify_eq|].
      pose proof (ordered_lookup_lt m _ _ _ _ Hs Hl Hj ltac:(lia)). simpl in *. lia.
  - right. split; [done|]. intros e He Hk. apply list_elem_of_lookup in He as [j Hj].
    apply lookup_ge_None in Hl. pose proof (lookup_lt_Some _ _ _ Hj) as Hj2.
    pose proof (lower_bound_before k m j e ltac:(lia) Hj). lia.
Qed.

Lemma map_insert_find k v m :
  ordered m -> (forall e, e ∈ m -> e.1 <> k) -> map_insert k v m !! find k (map_insert k v m) = Some (k, v).
Proof.
  intros Hs Hn. destruct (find_spec k (map_insert k v m)) as [[v' Hv]|[_ Hno]].
  - by apply map_insert_ordered.
  - rewrite Hv. apply list_elem_of_lookup_2, elem_of_map_insert in Hv as [->|He]; [done|].
    by specialize (Hn _ He).
  - exfalso. apply (Hno (k, v)); [|done]. rewrite map_insert_Permutation by done. by left.
Qed.
End ordmap.
#[export] Hint Resolve map_insert_ordered map_erase_ordered map_set_ordered : neo.
