(* ===== verification/HostPtrManager.v ===== *)
(** * Host pointer fragments

    Model of [runtime/memory_manager/host_ptr_manager.cpp] and
    [host_ptr_defines.h]: user memory that the GPU reads in place is cut into a
    leading page, a middle run of pages and a trailing page, and pages that
    several allocations share are stored once, with a reference count.  The
    OS side is [OsAgnosticMemoryManager::populateOsHandles]; the allocations
    that wait for the GPU are the temporary list of
    [internal_allocation_storage.cpp].

    A [FragmentStorage*] into [partialAllocations] is the key of its map node:
    [std::map] keeps nodes in place until they are erased, so the pointer is
    good as long as the key is present, and following it afterwards is the
    [DanglingPointer] outcome.  The manager's recursive mutex is held for the
    whole of every operation. *)

From S2P Require Import Prelude.
From S2P Require Import AlignedMemory.
From S2P Require Import Tiling.
From S2P Require Import OrdMap.
Import MemoryConstants.

Definition maxFragmentsCount : nat := 3.

Inductive FragmentPosition := NONE | LEADING | MIDDLE | TRAILING.

Inductive OverlapStatus :=
  | FRAGMENT_NOT_OVERLAPING_WITH_ANY_OTHER
  | FRAGMENT_WITHIN_STORED_FRAGMENT
  | FRAGMENT_WITH_EXACT_SIZE_AS_STORED_FRAGMENT
  | FRAGMENT_OVERLAPING_AND_BIGGER_THEN_STORED_FRAGMENT
  | FRAGMENT_NOT_CHECKED.

#[export] Instance OverlapStatus_eq_dec : EqDecision OverlapStatus.
Proof. solve_decision. Defined.

Record PartialAllocation := mkPartialAllocation {
  fragmentPosition : FragmentPosition; allocationPtr : Z; allocationSize : Z }.

(** The first [requiredFragmentsCount] entries of the array. *)
Record AllocationRequirements := mkRequirements {
  AllocationFragments : list PartialAllocation; totalRequiredSize : Z }.

(** [driverAllocation] is never set by the manager and left out; pointers to
    OS handles are numbers, 0 being null. *)
Record FragmentStorage := mkFragment {
  fragmentCpuPointer : Z; fragmentSize : Z; refCount : Z;
  osInternalStorage : Z; residency : Z }.

Record AllocationStorageData := mkStorageData {
  osHandleStorage : Z; sdFragmentSize : Z; cpuPtr : Z; freeTheFragment : bool; sdResidency : Z }.

Record OsHandleStorage := mkOsHandleStorage {
  fragmentStorageData : list AllocationStorageData; fragmentCount : nat }.

#[export] Instance FragmentStorage_eq_dec : EqDecision FragmentStorage.
Proof. solve_decision. Defined.
#[export] Instance AllocationStorageData_eq_dec : EqDecision AllocationStorageData.
Proof. solve_decision. Defined.

Definition emptyStorageData : AllocationStorageData := mkStorageData 0 0 0 false 0.

(** The outcome of an operation: [Aborted] is [UNRECOVERABLE_IF] and
    [abortExecution]. *)
Inductive result (A : Type) :=
  | Ok (a : A)
  | Aborted
  | DanglingPointer.
Arguments Ok {A} a.
Arguments Aborted {A}.
Arguments DanglingPointer {A}.

#[export] Instance result_ret : MRet result := fun A a => Ok a.
#[export] Instance result_bind : MBind result := fun A B f r =>
  match r with Ok a => f a | Aborted => Aborted | DanglingPointer => DanglingPointer end.

(** ** Cutting a range into fragments *)

Definition getAllocationRequirements (inputPtr size : Z) : AllocationRequirements :=
  let wholeAllocationSize := alignSizeWholePage inputPtr size in
  let alignedStartAddress := alignDown 64 inputPtr pageSize in
  let leadingNeeded := bool_decide (alignedStartAddress <> inputPtr) in
  let leading :=
    if leadingNeeded then [mkPartialAllocation LEADING alignedStartAddress pageSize] else [] in
  let endAddress := inputPtr ⊞ size in
  let alignedEndAddress := alignDown 64 endAddress pageSize in
  let trailingNeeded :=
    bool_decide (alignedEndAddress <> endAddress /\ alignedEndAddress <> alignedStartAddress) in
  let middleSize := wholeAllocationSize ⊟ (Z.b2z trailingNeeded + Z.b2z leadingNeeded) * pageSize in
  let middle :=
    if decide (middleSize <> 0)
    then [mkPartialAllocation MIDDLE (alignUp 64 inputPtr pageSize) middleSize] else [] in
  let trailing :=
    if trailingNeeded then [mkPartialAllocation TRAILING alignedEndAddress pageSize] else [] in
  mkRequirements (leading ++ middle ++ trailing) wholeAllocationSize.

(** ** The fragment map *)

Abbreviation fragments := (list (Z * FragmentStorage)).

(** The end of a stored fragment as [findElement] computes it. *)
Definition storedEnd (f : FragmentStorage) : Z :=
  let storedEndAddress := fragmentCpuPointer f ⊞ fragmentSize f in
  if decide (fragmentSize f = 0) then storedEndAddress ⊞ 1 else storedEndAddress.

(** [None] is [partialAllocations.end()]. *)
Definition findElement (ptr : Z) (m : fragments) : option nat :=
  let i := lower_bound ptr m in
  match m !! i with
  | Some (_, storedFragment) =>
      if decide (fragmentCpuPointer storedFragment <= ptr) then Some i
      else match i with
      | O => None
      | S j =>
          match m !! j with
          | Some (_, prev) => if decide (ptr < storedEnd prev) then Some j else None
          | None => None
          end
      end
  | None =>
      match i with
      | O => None
      | S j =>
          match m !! j with
          | Some (_, prev) => if decide (ptr < storedEnd prev) then Some j else None
          | None => None
          end
      end
  end.

(** [getFragment]: the node found, as its key. *)
Definition getFragment (ptr : Z) (m : fragments) : option Z :=
  i ← findElement ptr m; fst <$> m !! i.

Definition setRefCount (n : Z) (f : FragmentStorage) : FragmentStorage :=
  mkFragment (fragmentCpuPointer f) (fragmentSize f) n (osInternalStorage f) (residency f).

Definition storeFragment (fragment : FragmentStorage) (m : fragments) : fragments :=
  match findElement (fragmentCpuPointer fragment) m with
  | Some i =>
      match m !! i with
      | Some (_, f) => map_set i (setRefCount (refCount f + 1) f) m
      | None => m
      end
  | None =>
      map_insert (fragmentCpuPointer fragment) (setRefCount (refCount fragment + 1) fragment) m
  end.

Definition storeFragmentData (storageData : AllocationStorageData) (m : fragments) : fragments :=
  storeFragment (mkFragment (cpuPtr storageData) (sdFragmentSize storageData) 0
                   (osHandleStorage storageData) (sdResidency storageData)) m.

(** Releasing a pointer that no fragment holds dereferences [end()]. *)
Definition releaseHostPtr (ptr : Z) (m : fragments) : result (bool * fragments) :=
  match findElement ptr m with
  | Some i =>
      match m !! i with
      | Some (_, f) =>
          if decide (refCount f - 1 <= 0) then Ok (true, map_erase i m)
          else Ok (false, map_set i (setRefCount (refCount f - 1) f) m)
      | None => DanglingPointer
      end
  | None => DanglingPointer
  end.

Definition setFree (b : bool) (d : AllocationStorageData) : AllocationStorageData :=
  mkStorageData (osHandleStorage d) (sdFragmentSize d) (cpuPtr d) b (sdResidency d).

Fixpoint releaseEntries (l : list AllocationStorageData) (m : fragments)
    : result (list AllocationStorageData * fragments) :=
  match l with
  | [] => Ok ([], m)
  | d :: l' =>
      if decide (sdFragmentSize d <> 0 \/ cpuPtr d <> 0) then
        '(b, m) ← releaseHostPtr (cpuPtr d) m;
        '(l'', m) ← releaseEntries l' m;
        Ok (setFree b d :: l'', m)
      else
        '(l'', m) ← releaseEntries l' m;
        Ok (d :: l'', m)
  end.

Definition releaseHandleStorage (s : OsHandleStorage) (m : fragments)
    : result (OsHandleStorage * fragments) :=
  '(l, m) ← releaseEntries (fragmentStorageData s) m;
  Ok (mkOsHandleStorage l (fragmentCount s), m).

(** The result is the pointer returned (a key, [None] for null) and the
    status. *)
Definition getFragmentAndCheckForOverlaps (inputPtr size : Z) (m : fragments)
    : option Z * OverlapStatus :=
  let next := lower_bound inputPtr m in
  let element := pred next in
  match m !! element with
  | None => (None, FRAGMENT_NOT_OVERLAPING_WITH_ANY_OTHER)
  | Some (key, storedFragment) =>
      if decide (fragmentCpuPointer storedFragment = inputPtr /\ fragmentSize storedFragment = size)
      then (Some key, FRAGMENT_WITH_EXACT_SIZE_AS_STORED_FRAGMENT)
      else
        let storedEndAddress := fragmentCpuPointer storedFragment ⊞ fragmentSize storedFragment in
        let inputEndAddress := inputPtr ⊞ size in
        if decide (fragmentCpuPointer storedFragment <= inputPtr /\ inputPtr < storedEndAddress) then
          if decide (inputEndAddress <= storedEndAddress)
          then (Some key, FRAGMENT_WITHIN_STORED_FRAGMENT)
          else (None, FRAGMENT_OVERLAPING_AND_BIGGER_THEN_STORED_FRAGMENT)
        else
          match m !! next with
          | None => (None, FRAGMENT_NOT_OVERLAPING_WITH_ANY_OTHER)
          | Some (nextKey, storedNext) =>
              let storedNextEndAddress := fragmentCpuPointer storedNext ⊞ fragmentSize storedNext in
              let storedNextStartAddress := fragmentCpuPointer storedNext in
              if decide (inputPtr < storedNextStartAddress) then
                if decide (storedNextStartAddress < inputEndAddress)
                then (None, FRAGMENT_OVERLAPING_AND_BIGGER_THEN_STORED_FRAGMENT)
                else (None, FRAGMENT_NOT_OVERLAPING_WITH_ANY_OTHER)
              else if decide (storedNextEndAddress < inputEndAddress)
              then (None, FRAGMENT_OVERLAPING_AND_BIGGER_THEN_STORED_FRAGMENT)
              else if decide (inputEndAddress < storedNextEndAddress)
              then (Some nextKey, FRAGMENT_WITHIN_STORED_FRAGMENT)
              else (Some nextKey, FRAGMENT_WITH_EXACT_SIZE_AS_STORED_FRAGMENT)
          end
  end.

(** ** Preparing the storage of an allocation *)

(** [fragmentStorage->refCount++] and the reads through the pointer. *)
Definition derefFragment (p : option Z) (m : fragments) : result (FragmentStorage * fragments) :=
  match p with
  | None => Aborted
  | Some key =>
      match m !! find key m with
      | Some (_, f) => Ok (f, map_set (find key m) (setRefCount (refCount f + 1) f) m)
      | None => DanglingPointer
      end
  end.

Definition populateFragment (req : PartialAllocation) (checked : option (option Z * OverlapStatus))
    (m : fragments) : result (AllocationStorageData * fragments) :=
  let '(p, status) := default (None, FRAGMENT_NOT_CHECKED) checked in
  let '(p, status) :=
    if decide (status = FRAGMENT_NOT_CHECKED)
    then getFragmentAndCheckForOverlaps (allocationPtr req) (allocationSize req) m
    else (p, status) in
  if decide (status = FRAGMENT_WITHIN_STORED_FRAGMENT) then
    '(f, m) ← derefFragment p m;
    Ok (mkStorageData (osInternalStorage f) (allocationSize req) (allocationPtr req) false (residency f), m)
  else if decide (status <> FRAGMENT_OVERLAPING_AND_BIGGER_THEN_STORED_FRAGMENT) then
    match p with
    | Some _ =>
        '(f, m) ← derefFragment p m;
        Ok (mkStorageData (osInternalStorage f) (allocationSize req) (allocationPtr req) false (residency f), m)
    | None => Ok (mkStorageData 0 (allocationSize req) (allocationPtr req) false 0, m)
    end
  else Aborted.

Fixpoint populateFragments (reqs : list PartialAllocation) (checked : option (list (option Z * OverlapStatus)))
    (m : fragments) : result (list AllocationStorageData * fragments) :=
  match reqs with
  | [] => Ok ([], m)
  | r :: reqs' =>
      '(d, m) ← populateFragment r (c ← checked; head c) m;
      '(l, m) ← populateFragments reqs' (tail <$> checked) m;
      Ok (d :: l, m)
  end.

Definition populateAlreadyAllocatedFragments (requirements : AllocationRequirements)
    (checked : option (list (option Z * OverlapStatus))) (m : fragments)
    : result (OsHandleStorage * fragments) :=
  let reqs := AllocationFragments requirements in
  '(l, m) ← populateFragments reqs checked m;
  Ok (mkOsHandleStorage (l ++ replicate (maxFragmentsCount - length l) emptyStorageData) (length reqs), m).

(** The state the operations below work on; temporary allocations carry the
    task count the GPU has to reach before they are freed. *)
Record World := mkWorld {
  partialAllocations : fragments;
  temporaryAllocations : list (Z * OsHandleStorage);
  nextHandle : Z
}.

(** [OsAgnosticMemoryManager::populateOsHandles]: [new OsHandle()] is a fresh
    number. *)
Fixpoint populateHandles (l : list AllocationStorageData) (m : fragments) (fresh : Z)
    : list AllocationStorageData * fragments * Z :=
  match l with
  | [] => ([], m, fresh)
  | d :: l' =>
      if decide (osHandleStorage d = 0 /\ cpuPtr d <> 0) then
        let d' := mkStorageData fresh (sdFragmentSize d) (cpuPtr d) (freeTheFragment d) fresh in
        let m := storeFragment (mkFragment (cpuPtr d') (sdFragmentSize d') 0 fresh fresh) m in
        let '(l'', m, fresh) := populateHandles l' m (fresh + 1) in
        (d' :: l'', m, fresh)
      else
        let '(l'', m, fresh) := populateHandles l' m fresh in
        (d :: l'', m, fresh)
  end.

Definition populateOsHandles (s : OsHandleStorage) (w : World) : OsHandleStorage * World :=
  let '(l, m, fresh) := populateHandles (fragmentStorageData s) (partialAllocations w) (nextHandle w) in
  (mkOsHandleStorage l (fragmentCount s), mkWorld m (temporaryAllocations w) fresh).

(** [cleanOsHandles]: the handles it deletes. *)
Definition cleanOsHandles (s : OsHandleStorage) : list Z :=
  osHandleStorage <$> filter (fun d => freeTheFragment d = true) (fragmentStorageData s).

(** [freeAllocationsList] on the temporary list: what the GPU is done with is
    released, the rest stays in order. *)
Fixpoint freeAllocationsList (waitTaskCount : Z) (l : list (Z * OsHandleStorage)) (m : fragments)
    : result (list (Z * OsHandleStorage) * fragments) :=
  match l with
  | [] => Ok ([], m)
  | (taskCount, s) :: l' =>
      if decide (taskCount <= waitTaskCount) then
        '(_, m) ← releaseHandleStorage s m;
        freeAllocationsList waitTaskCount l' m
      else
        '(l'', m) ← freeAllocationsList waitTaskCount l' m;
        Ok ((taskCount, s) :: l'', m)
  end.

Definition cleanAllocationList (waitTaskCount : Z) (w : World) : result World :=
  '(l, m) ← freeAllocationsList waitTaskCount (temporaryAllocations w) (partialAllocations w);
  Ok (mkWorld m l (nextHandle w)).

(** The task counts the GPU has written when the tag is read, for one
    fragment: before and after the wait for completion. *)
Definition checkFragment (tags : Z * Z) (req : PartialAllocation) (w : World)
    : result (option Z * OverlapStatus * World) :=
  let check w := getFragmentAndCheckForOverlaps (allocationPtr req) (allocationSize req) (partialAllocations w) in
  let '(p, status) := check w in
  if decide (status = FRAGMENT_OVERLAPING_AND_BIGGER_THEN_STORED_FRAGMENT) then
    w ← cleanAllocationList (fst tags) w;
    let '(p, status) := check w in
    if decide (status = FRAGMENT_OVERLAPING_AND_BIGGER_THEN_STORED_FRAGMENT) then
      w ← cleanAllocationList (snd tags) w;
      let '(p, status) := check w in
      if decide (status = FRAGMENT_OVERLAPING_AND_BIGGER_THEN_STORED_FRAGMENT)
      then Aborted
      else Ok (p, status, w)
    else Ok (p, status, w)
  else Ok (p, status, w).

(** A [FATAL] status aborts in the only caller, so it is [Aborted] here. *)
Fixpoint checkAllocationsForOverlapping (tags : nat -> Z * Z) (reqs : list PartialAllocation) (w : World)
    : result (list (option Z * OverlapStatus) * World) :=
  match reqs with
  | [] => Ok ([], w)
  | r :: reqs' =>
      '(p, status, w) ← checkFragment (tags O) r w;
      '(l, w) ← checkAllocationsForOverlapping (fun i => tags (S i)) reqs' w;
      Ok ((p, status) :: l, w)
  end.

Definition prepareOsStorageForAllocation (tags : nat -> Z * Z) (size ptr : Z) (w : World)
    : result (OsHandleStorage * World) :=
  let requirements := getAllocationRequirements ptr size in
  '(checked, w) ← checkAllocationsForOverlapping tags (AllocationFragments requirements) w;
  '(s, m) ← populateAlreadyAllocatedFragments requirements (Some checked) (partialAllocations w);
  let w := mkWorld m (temporaryAllocations w) (nextHandle w) in
  if decide (0 < fragmentCount s)%nat then Ok (populateOsHandles s w) else Ok (s, w).

(** ** The fragments of a range *)

Definition chunkOf (a : PartialAllocation) : HeapChunk := mkHeapChunk (allocationPtr a) (allocationSize a).

Lemma requirements_spec ptr size :
  0 <= ptr -> 0 < size -> ptr + size + 2 * pageSize <= 2 ^ 64 ->
  let r := getAllocationRequirements ptr size in
  let lo := alignDown 64 ptr pageSize in
  let hi := alignUp 64 (ptr + size) pageSize in
  chain pageSize lo hi (chunkOf <$> AllocationFragments r) /\
  totalRequiredSize r = hi - lo /\ (1 <= length (AllocationFragments r) <= maxFragmentsCount)%nat /\
  Forall (fun a => match fragmentPosition a with
                   | NONE => False
                   | LEADING => allocationPtr a < ptr < allocationPtr a + pageSize
                   | MIDDLE => ptr <= allocationPtr a
                   | TRAILING => allocationPtr a < ptr + size < allocationPtr a + pageSize
                   end) (AllocationFragments r).
Proof.
  intros Hp Hs Hov r lo hi. subst r. unfold getAllocationRequirements. fold lo.
  pose proof (alignSizeWholePage_spec ptr size ltac:(change pageSize with 4096 in *; word_lia) ltac:(lia) Hov) as Hw.
  fold lo hi in Hw. set (whole := alignSizeWholePage ptr size) in *. clearbody whole.
  assert (w64 (ptr + size) = ptr + size) as -> by (change pageSize with 4096 in *; unwrap; done).
  change pageSize with 4096 in *.
  assert (lo = ptr - ptr mod 4096) as Hlo by (apply (alignDown_page ptr); word_lia).
  assert (ptr + size <= hi < ptr + size + 4096 /\ hi mod 4096 = 0) as [Hhi1 Hhi2]
    by (apply (alignUp_page (ptr + size)); lia).
  assert (alignDown 64 (ptr + size) 4096 = ptr + size - (ptr + size) mod 4096) as Hed
    by (apply (alignDown_page (ptr + size)); word_lia).
  set (ed := alignDown 64 (ptr + size) 4096) in *. clearbody ed hi lo.
  assert (ptr <= alignUp 64 ptr 4096 < ptr + 4096 /\ alignUp 64 ptr 4096 mod 4096 = 0) as [Hup1 Hup2]
    by (apply (alignUp_page ptr); lia).
  set (up := alignUp 64 ptr 4096) in *. clearbody up.
  assert (exists d, whole = 4096 * d) as [d Hd].
  { exists (whole / 4096). mod_lia. }
  assert (forall a b c l, 0 < b -> (4096 | b) -> chain 4096 (a + b) c l -> chain 4096 a c (mkHeapChunk a b :: l)) as Hcons.
  { intros. by constructor. }
  assert (forall a b, a = b -> chain 4096 a b []) as Hnil by (intros a ? <-; constructor).
  destruct (bool_decide_reflect (lo <> ptr)) as [Hl|Hl], (bool_decide_reflect (ed <> ptr + size /\ ed <> lo)) as [Ht|Ht];
    simpl Z.b2z; rewrite (wrap_small 64) by (unfold uint; mod_lia);
    case_decide as Hm; simpl; unfold chunkOf, maxFragmentsCount; simpl;
    (split_and!; [repeat first [apply Hnil; mod_lia|
        match goal with |- chain _ ?a _ (mkHeapChunk ?b _ :: _) => replace b with a by mod_lia end;
        apply Hcons; [mod_lia|apply Z.mod_divide; [lia|mod_lia]|]] |simpl; lia..|]);
    repeat (constructor; simpl; [mod_lia|]); constructor.
Qed.

(** ** The map invariant *)

Definition fend (f : FragmentStorage) : Z := fragmentCpuPointer f + fragmentSize f.

(** [p] lies in the fragment; two fragments do not meet. *)
Definition holds (f : FragmentStorage) (p : Z) : Prop := fragmentCpuPointer f <= p < fend f.
Definition apart (f g : FragmentStorage) : Prop :=
  fend f <= fragmentCpuPointer g \/ fend g <= fragmentCpuPointer f.

Record wf (m : fragments) : Prop := {
  wf_ordered : ordered m;
  wf_key : forall e, e ∈ m -> e.1 = fragmentCpuPointer e.2;
  wf_range : forall e, e ∈ m -> 0 < fragmentCpuPointer e.2 /\ 0 < fragmentSize e.2 /\ fend e.2 < 2 ^ 64;
  wf_apart : forall a b, a ∈ m -> b ∈ m -> a.1 <> b.1 -> apart a.2 b.2
}.

Lemma wf_nil : wf [].
Proof. split; [apply SSorted_nil|intros; exfalso; by eapply elem_of_nil..]. Qed.

Lemma wf_holds_unique m a b p : wf m -> a ∈ m -> b ∈ m -> holds a.2 p -> holds b.2 p -> a = b.
Proof.
  intros Hw Ha Hb H1 H2. destruct (decide (a.1 = b.1)) as [He|He].
  - eapply ordered_key_inj; [apply Hw|done..].
  - pose proof (wf_apart m Hw a b Ha Hb He). unfold apart, holds in *. lia.
Qed.

Lemma storedEnd_eq m e : wf m -> e ∈ m -> storedEnd e.2 = fend e.2.
Proof.
  intros Hw He. destruct (wf_range m Hw e He) as (H1 & H2 & H3). unfold storedEnd, fend in *.
  rewrite decide_False by lia. by unwrap.
Qed.

(** Entries before the lower bound end at or before the next one starts, so
    only the previous entry can hold the pointer. *)
Lemma wf_before m i j a b :
  wf m -> m !! i = Some a -> m !! j = Some b -> (i < j)%nat -> fend a.2 <= fragmentCpuPointer b.2.
Proof.
  intros Hw Ha Hb Hij. pose proof (ordered_lookup_lt m i j a b (wf_ordered m Hw) Ha Hb Hij) as Hlt.
  apply list_elem_of_lookup_2 in Ha, Hb.
  pose proof (wf_apart m Hw a b Ha Hb ltac:(lia)). pose proof (wf_key m Hw a Ha). pose proof (wf_key m Hw b Hb).
  pose proof (wf_range m Hw a Ha). pose proof (wf_range m Hw b Hb). unfold apart, fend in *. lia.
Qed.

Lemma no_holder_before m p i e :
  wf m -> (i < pred (lower_bound p m))%nat -> m !! i = Some e -> fend e.2 < p.
Proof.
  intros Hw Hi He. destruct (lookup_lt_is_Some_2 m (S i)) as [e' He'].
  { pose proof (lower_bound_le p m). lia. }
  pose proof (wf_before m i (S i) e e' Hw He He' ltac:(lia)).
  pose proof (lower_bound_before p m (S i) e' ltac:(lia) He').
  pose proof (wf_key m Hw e' (list_elem_of_lookup_2 _ _ _ He')). lia.
Qed.

Lemma holder_index m p e :
  wf m -> e ∈ m -> holds e.2 p ->
  (m !! lower_bound p m = Some e /\ e.1 = p) \/
  (exists j, lower_bound p m = S j /\ m !! j = Some e /\ e.1 < p).
Proof.
  intros Hw He Hh. pose proof (wf_key m Hw e He) as Hk. apply list_elem_of_lookup in He as [i Hi].
  unfold holds in Hh. destruct (decide (lower_bound p m <= i)%nat) as [Hge|Hlt].
  - pose proof (lower_bound_after p m i e (wf_ordered m Hw) Hge Hi) as Hpk.
    left. destruct (decide (i = lower_bound p m)) as [->|Hne]; [split; [done|lia]|exfalso].
    destruct (lookup_lt_is_Some_2 m (lower_bound p m)) as [e' He'].
    { apply lookup_lt_Some in Hi. lia. }
    pose proof (lower_bound_after p m _ e' (wf_ordered m Hw) (le_n _) He').
    pose proof (ordered_lookup_lt m _ _ _ _ (wf_ordered m Hw) He' Hi ltac:(lia)). lia.
  - right. pose proof (lower_bound_before p m i e ltac:(lia) Hi).
    destruct (decide (i = pred (lower_bound p m))) as [->|Hne].
    + exists (pred (lower_bound p m)). split_and!; [lia|done|lia].
    + pose proof (no_holder_before m p i e Hw ltac:(lia) Hi). lia.
Qed.

(** [findElement] returns the one fragment that holds the pointer. *)
Lemma findElement_spec m p :
  wf m ->
  match findElement p m with
  | Some i => exists e, m !! i = Some e /\ holds e.2 p
  | None => forall e, e ∈ m -> ~ holds e.2 p
  end.
Proof.
  intros Hw. unfold findElement.
  assert (forall P Q : Prop, P -> (P -> Q) -> Q) as cut by tauto.
  assert (forall e, e ∈ m -> holds e.2 p -> m !! lower_bound p m <> Some e -> 
    exists j, lower_bound p m = S j /\ m !! j = Some e) as Hprev.
  { intros e He Hh Hn. destruct (holder_index m p e Hw He Hh) as [[? _]|(j & ? & ? & _)]; [done|eauto]. }
  destruct (m !! lower_bound p m) as [[k f]|] eqn:Hlb.
  - assert ((k, f) ∈ m) as Hin by (by eapply list_elem_of_lookup_2).
    pose proof (wf_key m Hw _ Hin) as Hk. pose proof (wf_range m Hw _ Hin) as Hr.
    pose proof (lower_bound_after p m _ _ (wf_ordered m Hw) (le_n _) Hlb) as Hge. simpl in *.
    case_decide as Hle; [eexists; split; [done|]; unfold holds, fend in *; simpl; lia|].
    destruct (lower_bound p m) as [|j] eqn:Hj.
    + intros e He Hh. destruct (Hprev e He Hh) as (? & ? & _); [|done].
      intros ?. simplify_eq. unfold holds in Hh. simpl in Hh. lia.
    + destruct (m !! j) as [[k' f']|] eqn:Hm; [|apply lookup_ge_None in Hm; apply lookup_lt_Some in Hlb; lia].
      assert ((k', f') ∈ m) as Hin' by (by eapply list_elem_of_lookup_2).
      pose proof (storedEnd_eq m (k', f') Hw Hin') as Hse. simpl in Hse. rewrite Hse. case_decide as Hp.
      * eexists. split; [done|]. pose proof (lower_bound_before p m j (k', f') ltac:(lia) Hm).
        pose proof (wf_key m Hw _ Hin'). unfold holds. simpl in *. lia.
      * intros e He Hh. destruct (Hprev e He Hh) as (j' & ? & Hj'); [|simplify_eq].
        { intros ?. simplify_eq. unfold holds in Hh. simpl in Hh. lia. }
        unfold holds in Hh. simpl in Hh. lia.
  - destruct (lower_bound p m) as [|j] eqn:Hj.
    + intros e He Hh. by destruct (Hprev e He Hh) as (? & ? & _).
    + destruct (m !! j) as [[k' f']|] eqn:Hm.
      2: { apply lookup_ge_None in Hm. pose proof (lower_bound_le p m). lia. }
      assert ((k', f') ∈ m) as Hin' by (by eapply list_elem_of_lookup_2).
      pose proof (storedEnd_eq m (k', f') Hw Hin') as Hse. simpl in Hse. rewrite Hse. case_decide as Hp.
      * eexists. split; [done|]. pose proof (lower_bound_before p m j (k', f') ltac:(lia) Hm).
        pose proof (wf_key m Hw _ Hin'). unfold holds. simpl in *. lia.
      * intros e He Hh. destruct (Hprev e He Hh) as (j' & ? & Hj'); [done|simplify_eq].
        unfold holds in Hh. simpl in Hh. lia.
Qed.

(** ** The overlap check *)

(** What the check promises about the range [p, p+s). *)
Definition contained (p s : Z) (f : FragmentStorage) : Prop :=
  fragmentCpuPointer f <= p /\ p + s <= fend f.
Definition overlaps (p s : Z) (f : FragmentStorage) : Prop :=
  p < fend f /\ fragmentCpuPointer f < p + s.

Inductive check_spec (m : fragments) (p s : Z) : option Z * OverlapStatus -> Prop :=
  | check_exact e :
      e ∈ m -> fragmentCpuPointer e.2 = p -> fragmentSize e.2 = s ->
      check_spec m p s (Some e.1, FRAGMENT_WITH_EXACT_SIZE_AS_STORED_FRAGMENT)
  | check_within e :
      e ∈ m -> contained p s e.2 -> s < fragmentSize e.2 ->
      check_spec m p s (Some e.1, FRAGMENT_WITHIN_STORED_FRAGMENT)
  | check_bigger e :
      e ∈ m -> overlaps p s e.2 -> (forall d, d ∈ m -> ~ contained p s d.2) ->
      check_spec m p s (None, FRAGMENT_OVERLAPING_AND_BIGGER_THEN_STORED_FRAGMENT)
  | check_free :
      (forall e, e ∈ m -> ~ overlaps p s e.2) ->
      check_spec m p s (None, FRAGMENT_NOT_OVERLAPING_WITH_ANY_OTHER).

(** An overlapping entry is the previous one, or the next one starts inside
    the range. *)
Lemma overlap_index m p s e :
  wf m -> 0 < s -> e ∈ m -> overlaps p s e.2 ->
  (exists j, lower_bound p m = S j /\ m !! j = Some e) \/
  (exists e', m !! lower_bound p m = Some e' /\ p <= fragmentCpuPointer e'.2 <= fragmentCpuPointer e.2).
Proof.
  intros Hw Hs He [H1 H2]. pose proof (wf_key m Hw e He) as Hk. apply list_elem_of_lookup in He as [i Hi].
  destruct (decide (lower_bound p m <= i)%nat) as [Hge|Hlt].
  - right. destruct (lookup_lt_is_Some_2 m (lower_bound p m)) as [e' He'].
    { apply lookup_lt_Some in Hi. lia. }
    exists e'. split; [done|]. pose proof (wf_key m Hw e' (list_elem_of_lookup_2 _ _ _ He')).
    pose proof (lower_bound_after p m _ e' (wf_ordered m Hw) (le_n _) He').
    destruct (decide (i = lower_bound p m)) as [->|]; [simplify_eq; lia|].
    pose proof (ordered_lookup_lt m _ _ _ _ (wf_ordered m Hw) He' Hi ltac:(lia)). lia.
  - left. destruct (decide (i = pred (lower_bound p m))) as [->|].
    + exists (pred (lower_bound p m)). split; [lia|done].
    + pose proof (no_holder_before m p i e Hw ltac:(lia) Hi). lia.
Qed.

(** A fragment that contains the range excludes every other overlap. *)
Lemma contained_overlaps p s f : 0 < s -> contained p s f -> overlaps p s f.
Proof. unfold contained, overlaps. lia. Qed.

Lemma check_overlaps_spec m p s :
  wf m -> 0 < p -> 0 < s -> p + s < 2 ^ 64 ->
  check_spec m p s (getFragmentAndCheckForOverlaps p s m).
Proof.
  intros Hw Hp Hs Hov. unfold getFragmentAndCheckForOverlaps.
  destruct (m !! pred (lower_bound p m)) as [[k f]|] eqn:Hel.
  2: { apply check_free. intros e He. apply list_elem_of_lookup in He as [i Hi].
       apply lookup_ge_None in Hel. apply lookup_lt_Some in Hi. pose proof (lower_bound_le p m). lia. }
  assert ((k, f) ∈ m) as Hin by (by eapply list_elem_of_lookup_2).
  pose proof (wf_key m Hw _ Hin) as Hk. pose proof (wf_range m Hw _ Hin) as (Hf1 & Hf2 & Hf3). simpl in Hk, Hf1, Hf2, Hf3.
  case_decide as Hex.
  { destruct Hex. by apply (check_exact m p s (k, f)). }
  assert (w64 (fragmentCpuPointer f + fragmentSize f) = fend f) as -> by (unfold fend in *; by unwrap).
  rewrite (wrap_small 64 (p + s)) by word_lia.
  case_decide as Hhold.
  { case_decide as Hc.
    - apply (check_within m p s (k, f)); [done|unfold contained; simpl; lia|].
      simpl. unfold fend in Hc. destruct (decide (fragmentCpuPointer f = p)); lia.
    - apply (check_bigger m p s (k, f)); [done|unfold overlaps; simpl; lia|].
      intros d Hd Hcd. assert (d = (k, f)) as -> by
        (eapply (wf_holds_unique m d (k, f) p); [done..| |]; unfold holds, contained in *; simpl; lia).
      unfold contained in Hcd. simpl in Hcd. lia. }
  (* the previous fragment does not reach the range *)
  assert (forall e, e ∈ m -> overlaps p s e.2 ->
    exists e', m !! lower_bound p m = Some e' /\ p <= fragmentCpuPointer e'.2 <= fragmentCpuPointer e.2) as Hnext.
  { intros e He Ho. destruct (overlap_index m p s e Hw Hs He Ho) as [(j & Hj & Hm)|]; [|done].
    rewrite Hj in Hel. simpl in Hel. assert (e = (k, f)) as -> by congruence. unfold overlaps in Ho. simpl in Ho.
    pose proof (lower_bound_before p m j (k, f) ltac:(lia) Hm). simpl in *. lia. }
  destruct (m !! lower_bound p m) as [[k' g]|] eqn:Hlb.
  2: { apply check_free. intros e He Ho. by destruct (Hnext e He Ho) as (? & ? & _). }
  assert ((k', g) ∈ m) as Hin' by (by eapply list_elem_of_lookup_2).
  pose proof (wf_key m Hw _ Hin') as Hk'. pose proof (wf_range m Hw _ Hin') as (Hg1 & Hg2 & Hg3). simpl in Hk', Hg1, Hg2, Hg3.
  pose proof (lower_bound_after p m _ _ (wf_ordered m Hw) (le_n _) Hlb) as Hge. simpl in Hge.
  assert (w64 (fragmentCpuPointer g + fragmentSize g) = fend g) as -> by (unfold fend in *; by unwrap).
  case_decide as Hlt.
  - case_decide as Hst.
    + apply (check_bigger m p s (k', g)); [done|unfold overlaps, fend in *; simpl; lia|].
      intros d Hd Hcd. apply contained_overlaps in Hcd as Ho; [|done].
      destruct (Hnext d Hd Ho) as (e' & ? & ?). assert (e' = (k', g)) as -> by congruence. unfold contained in Hcd. simpl in *. lia.
    + apply check_free. intros e He Ho. destruct (Hnext e He Ho) as (e' & ? & ?). assert (e' = (k', g)) as -> by congruence.
      unfold overlaps in Ho. simpl in *. lia.
  - case_decide as Hb; [|case_decide as Hw2].
    + apply (check_bigger m p s (k', g)); [done|unfold overlaps, fend in *; simpl; lia|].
      intros d Hd Hcd. assert (d = (k', g)) as -> by
        (eapply (wf_holds_unique m d (k', g) p); [done..| |]; unfold holds, contained, fend in *; simpl; lia).
      unfold contained in Hcd. simpl in Hcd. lia.
    + apply (check_within m p s (k', g)); [done|unfold contained; simpl; lia|unfold fend in *; simpl; lia].
    + apply (check_exact m p s (k', g)); [done|simpl; lia|unfold fend in *; simpl; lia].
Qed.

(** ** Reference counts *)

#[export] Instance holds_dec f p : Decision (holds f p).
Proof. unfold holds. apply _. Defined.

(** The references of live storages to a fragment. *)
Definition refs (f : FragmentStorage) (live : list AllocationStorageData) : Z :=
  Z.of_nat (length (filter (fun d => holds f (cpuPtr d)) live)).

Lemma refs_cons f d live :
  refs f (d :: live) = (if decide (holds f (cpuPtr d)) then 1 else 0) + refs f live.
Proof. unfold refs. rewrite filter_cons. case_decide; simpl; lia. Qed.

Lemma refs_nonneg f live : 0 <= refs f live.
Proof. unfold refs. lia. Qed.

Lemma refs_zero f live : refs f live = 0 <-> forall d, d ∈ live -> ~ holds f (cpuPtr d).
Proof.
  induction live as [|d live IH]; [split; [intros _ d Hd; by apply elem_of_nil in Hd|done]|].
  rewrite refs_cons. pose proof (refs_nonneg f live). split.
  - intros Hz d' [->|Hd']%elem_of_cons Hh; case_decide; try done; [lia| |]; apply IH in Hd'; done || lia.
  - intros Hn. rewrite decide_False by (apply Hn; by left).
    rewrite (proj2 IH); [done|]. intros d' Hd'. apply Hn. by right.
Qed.

#[export] Instance refs_proper f : Proper (Permutation ==> eq) (refs f).
Proof. intros l1 l2 Hl. unfold refs. by rewrite Hl. Qed.

(** A live entry refers to a range inside a stored fragment. *)
Definition refers (d : AllocationStorageData) (f : FragmentStorage) : Prop :=
  0 < sdFragmentSize d /\ contained (cpuPtr d) (sdFragmentSize d) f /\
  osHandleStorage d = osInternalStorage f.

Record counted (m : fragments) (live : list AllocationStorageData) : Prop := {
  counted_wf : wf m;
  counted_refs : forall e, e ∈ m ->
    refCount e.2 = refs e.2 live /\ 0 < refCount e.2 /\ osInternalStorage e.2 <> 0;
  counted_live : forall d, d ∈ live -> exists e, e ∈ m /\ refers d e.2
}.

#[export] Instance counted_proper m : Proper (Permutation ==> iff) (counted m).
Proof.
  assert (forall l1 l2, l1 ≡ₚ l2 -> counted m l1 -> counted m l2) as H.
  { intros l1 l2 Hl [H1 H2 H3]. split; [done|..].
    - intros e He. rewrite <- Hl. by apply H2.
    - intros d Hd. apply H3. by rewrite Hl. }
  intros l1 l2 Hl. split; apply H; [done|by symmetry].
Qed.

Lemma refers_holds d f : refers d f -> holds f (cpuPtr d).
Proof. unfold refers, contained, holds. lia. Qed.

(** One entry set apart from the others. *)
Lemma wf_isolate m i k f :
  wf m -> m !! i = Some (k, f) ->
  m ≡ₚ (k, f) :: map_erase i m /\
  forall e, e ∈ map_erase i m -> e ∈ m /\ e.1 <> k /\ apart f e.2.
Proof.
  intros Hw Hi. pose proof (map_erase_Permutation i _ m Hi) as Hp. split; [done|].
  intros e He. assert (e ∈ m) as Hem by (rewrite Hp; by right).
  assert (e.1 <> k) as Hk.
  { intros ->%eq_sym. assert (NoDup m.*1) as Hnd.
    { pose proof (wf_ordered m Hw) as Hs. apply ordered_keys in Hs.
      induction Hs as [|x l Hs IH Hall]; constructor; [|done].
      intros Hx. rewrite Forall_forall in Hall. specialize (Hall x Hx). lia. }
    rewrite Hp in Hnd. simpl in Hnd. apply NoDup_cons in Hnd as [Hnd _]. apply Hnd.
    by apply list_elem_of_fmap_2'  with e. }
  split_and!; [done..|]. apply (wf_apart m Hw (k, f) e); [|done|simpl; lia].
  by eapply list_elem_of_lookup_2.
Qed.

Lemma apart_holds f g p : apart f g -> holds f p -> ~ holds g p.
Proof. unfold apart, holds. lia. Qed.

Lemma wf_set m i k f n : wf m -> m !! i = Some (k, f) -> wf (map_set i (setRefCount n f) m).
Proof.
  intros Hw Hi. destruct (wf_isolate m i k f Hw Hi) as [Hp Hr].
  pose proof (map_set_Permutation i k f (setRefCount n f) m Hi) as Hq.
  assert ((k, f) ∈ m) as Hin by (by eapply list_elem_of_lookup_2).
  split.
  - apply map_set_ordered, Hw.
  - intros e He. rewrite Hq in He. apply elem_of_cons in He as [->|He]; [by apply (wf_key m Hw (k, f))|].
    by apply (wf_key m Hw e), Hr.
  - intros e He. rewrite Hq in He. apply elem_of_cons in He as [->|He]; [by apply (wf_range m Hw (k, f))|].
    by apply (wf_range m Hw e), Hr.
  - intros a b Ha Hb Hne. rewrite Hq in Ha, Hb.
    apply elem_of_cons in Ha as [->|Ha], Hb as [->|Hb]; [done|..].
    + by apply Hr.
    + destruct (Hr a Ha) as (_ & _ & [?|?]); [by right|by left].
    + apply (wf_apart m Hw); [by apply Hr..|done].
Qed.

Lemma wf_erase m i k f : wf m -> m !! i = Some (k, f) -> wf (map_erase i m).
Proof.
  intros Hw Hi. destruct (wf_isolate m i k f Hw Hi) as [Hp Hr]. split.
  - apply map_erase_ordered, Hw.
  - intros e He. by apply (wf_key m Hw e), Hr.
  - intros e He. by apply (wf_range m Hw e), Hr.
  - intros a b Ha Hb Hne. apply (wf_apart m Hw); [by apply Hr..|done].
Qed.

Lemma counted_addref m live i k f d :
  counted m live -> m !! i = Some (k, f) -> refers d f ->
  counted (map_set i (setRefCount (refCount f + 1) f) m) (d :: live).
Proof.
  intros [Hw Hc Hl] Hi Hd. destruct (wf_isolate m i k f Hw Hi) as [Hp Hr].
  pose proof (map_set_Permutation i k f (setRefCount (refCount f + 1) f) m Hi) as Hq.
  assert ((k, f) ∈ m) as Hin by (by eapply list_elem_of_lookup_2).
  pose proof (refers_holds d f Hd) as Hh. split; [by eapply wf_set|..].
  - intros e He. rewrite Hq in He. rewrite refs_cons. apply elem_of_cons in He as [->|He].
    + destruct (Hc _ Hin) as (H1 & H2 & H3). simpl in *. change (holds (setRefCount (refCount f + 1) f) (cpuPtr d)) with (holds f (cpuPtr d)). 
      rewrite decide_True by done. change (refs (setRefCount (refCount f + 1) f) live) with (refs f live).
      split_and!; [lia..|done].
    + destruct (Hr e He) as (Hem & _ & Hap). rewrite decide_False by (by eapply apart_holds).
      by apply Hc.
  - intros d' [->|Hd']%elem_of_cons.
    + exists (k, setRefCount (refCount f + 1) f). split; [rewrite Hq; by left|done].
    + destruct (Hl d' Hd') as (e & He & Href). rewrite Hp in He. apply elem_of_cons in He as [->|He].
      * exists (k, setRefCount (refCount f + 1) f). split; [rewrite Hq; by left|done].
      * exists e. split; [rewrite Hq; by right|done].
Qed.

Lemma counted_insert m live f d :
  counted m live -> 0 < fragmentCpuPointer f -> 0 < fragmentSize f -> fend f < 2 ^ 64 ->
  (forall e, e ∈ m -> ~ overlaps (fragmentCpuPointer f) (fragmentSize f) e.2) ->
  refCount f = 1 -> osInternalStorage f <> 0 ->
  cpuPtr d = fragmentCpuPointer f -> sdFragmentSize d = fragmentSize f ->
  osHandleStorage d = osInternalStorage f ->
  counted (map_insert (fragmentCpuPointer f) f m) (d :: live).
Proof.
  intros [Hw Hc Hl] Hp Hs Hf Hno Hrc Hh Hd1 Hd2 Hd3.
  assert (forall e, e ∈ m -> apart f e.2) as Hap.
  { intros e He. specialize (Hno e He). unfold overlaps, apart, fend in *. lia. }
  assert (forall e, e ∈ m -> e.1 <> fragmentCpuPointer f) as Hk.
  { intros e He. pose proof (wf_key m Hw e He). pose proof (wf_range m Hw e He).
    specialize (Hap e He). unfold apart, fend in *. lia. }
  pose proof (map_insert_Permutation _ f m Hk) as Hq.
  assert (holds f (cpuPtr d)) as Hhd by (unfold holds, fend; lia).
  assert (forall d', d' ∈ live -> ~ holds f (cpuPtr d')) as Hnl.
  { intros d' Hd' Hhf. destruct (Hl d' Hd') as (e & He & Href). apply refers_holds in Href.
    by eapply apart_holds; [apply (Hap e)| |]. }
  split; [split| |].
  - apply map_insert_ordered, Hw.
  - intros e He. rewrite Hq in He. apply elem_of_cons in He as [->|He]; [done|by apply (wf_key m Hw)].
  - intros e He. rewrite Hq in He. apply elem_of_cons in He as [->|He]; [done|by apply (wf_range m Hw)].
  - intros a b Ha Hb Hne. rewrite Hq in Ha, Hb.
    apply elem_of_cons in Ha as [->|Ha], Hb as [->|Hb]; [done|..]; simpl.
    + by apply Hap.
    + destruct (Hap a Ha); [by right|by left].
    + by apply (wf_apart m Hw).
  - intros e He. rewrite Hq in He. rewrite refs_cons. apply elem_of_cons in He as [->|He]; simpl.
    + rewrite decide_True by done. apply refs_zero in Hnl. split_and!; [lia..|done].
    + rewrite decide_False by (by eapply apart_holds; [apply Hap|]). by apply Hc.
  - intros d' [->|Hd']%elem_of_cons.
    + exists (fragmentCpuPointer f, f). split; [rewrite Hq; by left|].
      unfold refers, contained, fend. simpl. lia.
    + destruct (Hl d' Hd') as (e & He & Href). exists e. split; [rewrite Hq; by right|done].
Qed.

(** Releasing one reference never follows a bad iterator; it reports [true],
    and the fragment goes, exactly when it was the last one. *)
Lemma counted_release m d rest :
  counted m (d :: rest) ->
  exists b m', releaseHostPtr (cpuPtr d) m = Ok (b, m') /\ counted m' rest /\
    (b = true <-> forall d', d' ∈ rest -> osHandleStorage d' = osHandleStorage d ->
                   forall e, e ∈ m -> refers d e.2 -> ~ refers d' e.2).
Proof.
  intros [Hw Hc Hl]. destruct (Hl d ltac:(by left)) as (e0 & He0 & Href0).
  pose proof (refers_holds _ _ Href0) as Hh0. pose proof (findElement_spec m (cpuPtr d) Hw) as Hf.
  unfold releaseHostPtr. destruct (findElement (cpuPtr d) m) as [i|]; [|by specialize (Hf _ He0)].
  destruct Hf as ([k f] & Hi & Hh). rewrite Hi. simpl in Hh.
  assert ((k, f) ∈ m) as Hin by (by eapply list_elem_of_lookup_2).
  assert (e0 = (k, f)) as -> by (by eapply (wf_holds_unique m e0 (k, f) (cpuPtr d))). simpl in *.
  destruct (wf_isolate m i k f Hw Hi) as [Hp Hr]. destruct (Hc _ Hin) as (H1 & H2 & H3).
  rewrite refs_cons in H1. simpl in *. rewrite decide_True in H1 by done.
  assert (forall e live', e ∈ map_erase i m -> refCount e.2 = refs e.2 (d :: live') -> refCount e.2 = refs e.2 live') as Hother.
  { intros e live' He Hrc. destruct (Hr e He) as (_ & _ & Hap). rewrite refs_cons in Hrc.
    by rewrite decide_False in Hrc by (by eapply apart_holds). }
  assert ((forall d', d' ∈ rest -> osHandleStorage d' = osHandleStorage d ->
                   forall e, e ∈ m -> refers d e.2 -> ~ refers d' e.2) <-> refs f rest = 0) as Hiff.
  { rewrite refs_zero. split.
    - intros Hno d' Hd' Hhf. destruct (Hl d' ltac:(by right)) as (e & He & Href).
      assert (e = (k, f)) as -> by (eapply (wf_holds_unique m e (k, f) (cpuPtr d')); [done..|by apply refers_holds|done]).
      apply (Hno d' Hd') with (k, f); [|done..]. destruct Href as (_ & _ & ->). by destruct Href0 as (_ & _ & ->).
    - intros H0 d' Hd' _ e He Hre Hre'.
      assert (e = (k, f)) as -> by (eapply (wf_holds_unique m e (k, f) (cpuPtr d)); [done..|by apply refers_holds|done]).
      apply (H0 d' Hd'). by apply refers_holds in Hre'. }
  case_decide as Hlast.
  - exists true, (map_erase i m). split; [done|]. split; [|rewrite Hiff; lia].
    assert (refs f rest = 0) as Hz by lia. pose proof (proj2 Hiff Hz) as Hno.
    split; [by eapply wf_erase|..].
    + intros e He. destruct (Hr e He) as (Hem & _). destruct (Hc e Hem) as (G1 & G2 & G3).
      split_and!; [by apply Hother|done..].
    + intros d' Hd'. destruct (Hl d' ltac:(by right)) as (e & He & Href). exists e. split; [|done].
      pose proof He as He2. rewrite Hp in He2. apply elem_of_cons in He2 as [->|]; [|done]. exfalso.
      apply (Hno d' Hd') with (k, f); [|done..]. destruct Href as (_ & _ & ->). by destruct Href0 as (_ & _ & ->).
  - set (f' := setRefCount (refCount f - 1) f). exists false, (map_set i f' m).
    split; [done|]. split; [|rewrite Hiff; split; [done|lia]].
    pose proof (map_set_Permutation i k f f' m Hi) as Hq. split; [by eapply wf_set|..].
    + intros e He. rewrite Hq in He. apply elem_of_cons in He as [->|He].
      * simpl. change (refs f' rest) with (refs f rest). split_and!; [lia..|done].
      * destruct (Hr e He) as (Hem & _). destruct (Hc e Hem) as (G1 & G2 & G3).
        split_and!; [by apply Hother|done..].
    + intros d' Hd'. destruct (Hl d' ltac:(by right)) as (e & He & Href).
      rewrite Hp in He. apply elem_of_cons in He as [->|He].
      * exists (k, f'). split; [rewrite Hq; by left|done].
      * exists e. split; [rewrite Hq; by right|done].
Qed.

(** ** Releasing whole storages *)

Definition active (d : AllocationStorageData) : Prop := sdFragmentSize d <> 0 \/ cpuPtr d <> 0.
#[export] Instance active_dec d : Decision (active d).
Proof. unfold active. apply _. Defined.

(** The references that a list of storages holds. *)
Definition entries (ss : list OsHandleStorage) : list AllocationStorageData :=
  ss ≫= fun s => filter active (fragmentStorageData s).

Lemma releaseEntries_spec m l rest :
  counted m (filter active l ++ rest) ->
  exists l' m', releaseEntries l m = Ok (l', m') /\ counted m' rest.
Proof.
  revert m. induction l as [|d l IH]; intros m Hc; cbn [releaseEntries].
  { by exists [], m. }
  rewrite filter_cons in Hc. destruct (decide (sdFragmentSize d <> 0 \/ cpuPtr d <> 0)) as [Ha|Ha].
  - rewrite decide_True in Hc by done. destruct (counted_release m d (filter active l ++ rest) Hc) as (b & m1 & -> & Hc1 & _).
    destruct (IH m1 Hc1) as (l' & m' & Hl & Hc'). cbn. rewrite Hl. cbn. by do 2 eexists.
  - rewrite decide_False in Hc by done. destruct (IH m Hc) as (l' & m' & Hl & Hc'). rewrite Hl. cbn. by do 2 eexists.
Qed.

Lemma releaseHandleStorage_spec m s rest :
  counted m (entries [s] ++ rest) ->
  exists s' m', releaseHandleStorage s m = Ok (s', m') /\ counted m' rest.
Proof.
  unfold entries. simpl. rewrite app_nil_r. intros Hc. unfold releaseHandleStorage.
  destruct (releaseEntries_spec m _ rest Hc) as (l' & m' & -> & Hc'). cbn. by do 2 eexists.
Qed.

(** What a release does to the set of fragments: keys only disappear, and what
    stays keeps its place. *)
Definition shrinks (m m' : fragments) : Prop :=
  forall e', e' ∈ m' -> exists e, e ∈ m /\ e'.1 = e.1 /\
    fragmentCpuPointer e'.2 = fragmentCpuPointer e.2 /\ fragmentSize e'.2 = fragmentSize e.2 /\
    osInternalStorage e'.2 = osInternalStorage e.2.

#[export] Instance shrinks_refl : Reflexive shrinks.
Proof. intros m e' He. by exists e'. Qed.
#[export] Instance shrinks_trans : Transitive shrinks.
Proof.
  intros m1 m2 m3 H1 H2 e3 He3. destruct (H2 e3 He3) as (e2 & He2 & ? & ? & ? & ?).
  destruct (H1 e2 He2) as (e1 & He1 & ? & ? & ? & ?). exists e1. split_and!; congruence.
Qed.

Lemma map_set_shrinks m i k f n :
  m !! i = Some (k, f) -> shrinks m (map_set i (setRefCount n f) m).
Proof.
  intros Hi e' He'. rewrite (map_set_Permutation i k f) in He' by done.
  pose proof (map_erase_Permutation i _ m Hi) as Hp.
  apply elem_of_cons in He' as [->|He'].
  - exists (k, f). split; [by eapply list_elem_of_lookup_2|done].
  - exists e'. split; [rewrite Hp; by right|done].
Qed.

Lemma releaseHostPtr_shrinks m p b m' : releaseHostPtr p m = Ok (b, m') -> shrinks m m'.
Proof.
  unfold releaseHostPtr. destruct (findElement p m) as [i|]; [|done].
  destruct (m !! i) as [[k f]|] eqn:Hi; [|done]. case_decide; intros ?; simplify_eq.
  - intros e' He'. exists e'. split; [|done]. rewrite (map_erase_Permutation i _ m Hi). by right.
  - by eapply map_set_shrinks.
Qed.

Lemma releaseEntries_shrinks m l l' m' : releaseEntries l m = Ok (l', m') -> shrinks m m'.
Proof.
  revert m l' m'. induction l as [|d l IH]; intros m l' m' Hr; cbn [releaseEntries] in Hr; [by simplify_eq|].
  case_decide.
  - destruct (releaseHostPtr (cpuPtr d) m) as [[b m1]| |] eqn:H1; try done. cbn in Hr.
    destruct (releaseEntries l m1) as [[l1 m2]| |] eqn:H2; try done. cbn in Hr. simplify_eq.
    etrans; [by eapply releaseHostPtr_shrinks|by eapply IH].
  - destruct (releaseEntries l m) as [[l1 m2]| |] eqn:H2; try done. cbn in Hr. simplify_eq. by eapply IH.
Qed.

(** Cleaning the temporary list frees what the GPU is done with. *)
Lemma freeAllocationsList_spec wait l m rest :
  counted m (entries l.*2 ++ rest) ->
  exists l' m', freeAllocationsList wait l m = Ok (l', m') /\
    counted m' (entries l'.*2 ++ rest) /\ l' = filter (fun x => wait < x.1) l /\ shrinks m m'.
Proof.
  revert m rest. induction l as [|[tc s] l IH]; intros m rest Hc; cbn [freeAllocationsList].
  { by exists [], m. }
  rewrite filter_cons. simpl in Hc |- *. rewrite <- app_assoc in Hc. case_decide as Htc.
  - rewrite decide_False by (simpl; lia).
    assert (counted m (entries [s] ++ (entries l.*2 ++ rest))) as Hc2 by (unfold entries; simpl; by rewrite app_nil_r).
    destruct (releaseHandleStorage_spec m s _ Hc2) as (s' & m1 & Hr & Hc1). rewrite Hr. cbn.
    destruct (IH m1 rest Hc1) as (l' & m' & Hl & Hc' & Hf & Hsh). rewrite Hl. exists l', m'.
    split_and!; [done..|]. etrans; [|done]. unfold releaseHandleStorage in Hr.
    destruct (releaseEntries (fragmentStorageData s) m) as [[l1 m2]| |] eqn:He; try done. cbn in Hr. simplify_eq.
    by eapply releaseEntries_shrinks.
  - rewrite decide_True by (simpl; lia).
    assert (counted m (entries l.*2 ++ (filter active (fragmentStorageData s) ++ rest))) as Hc2.
    { revert Hc. apply counted_proper. solve_Permutation. }
    destruct (IH m _ Hc2) as (l' & m' & Hl & Hc' & Hf & Hsh). rewrite Hl. cbn.
    exists ((tc, s) :: l'), m'. split_and!; [done| |by rewrite Hf|done].
    revert Hc'. apply counted_proper. simpl. unfold entries. solve_Permutation.
Qed.

(** The invariant of the manager: [held] are the storages of the allocations
    that clients hold, next to the temporary ones. *)
Definition world_ok (held : list OsHandleStorage) (w : World) : Prop :=
  counted (partialAllocations w) (entries (temporaryAllocations w).*2 ++ entries held) /\ 0 < nextHandle w.

Lemma cleanAllocationList_spec wait held w :
  world_ok held w ->
  exists w', cleanAllocationList wait w = Ok w' /\ world_ok held w' /\
    shrinks (partialAllocations w) (partialAllocations w').
Proof.
  intros [Hc Hn]. unfold cleanAllocationList.
  destruct (freeAllocationsList_spec wait _ _ _ Hc) as (l' & m' & -> & Hc' & _ & Hsh). cbn.
  eexists. split; [done|]. by split.
Qed.

(** ** Checking the fragments of a request *)

(** A request that [getAllocationRequirements] makes. *)
Definition req_ok (r : PartialAllocation) : Prop :=
  0 < allocationPtr r /\ 0 < allocationSize r /\ allocationPtr r + allocationSize r < 2 ^ 64.

(** What a check result still says after other storages were released: the
    fragment it points to contains the range if it is still there. *)
Definition check_weak (m : fragments) (r : PartialAllocation) (c : option Z * OverlapStatus) : Prop :=
  match c with
  | (Some k, FRAGMENT_WITH_EXACT_SIZE_AS_STORED_FRAGMENT)
  | (Some k, FRAGMENT_WITHIN_STORED_FRAGMENT) =>
      forall e, e ∈ m -> e.1 = k -> contained (allocationPtr r) (allocationSize r) e.2
  | (None, FRAGMENT_NOT_OVERLAPING_WITH_ANY_OTHER) =>
      forall e, e ∈ m -> ~ overlaps (allocationPtr r) (allocationSize r) e.2
  | _ => False
  end.

(** The pointer of a check result is not dangling. *)
Definition present (m : fragments) (c : option Z * OverlapStatus) : Prop :=
  match c.1 with Some k => k ∈ m.*1 | None => True end.

#[export] Instance present_dec m c : Decision (present m c).
Proof. unfold present. destruct c.1; apply _. Defined.

Lemma check_weak_shrinks m m' r c : shrinks m m' -> check_weak m r c -> check_weak m' r c.
Proof.
  intros Hs. destruct c as [[k|] []]; simpl; try done; intros Hc e He.
  - intros Hk. destruct (Hs e He) as (e0 & He0 & H1 & H2 & H3 & _).
    specialize (Hc e0 He0 ltac:(congruence)). unfold contained, fend in *. by rewrite H2, H3.
  - intros Hk. destruct (Hs e He) as (e0 & He0 & H1 & H2 & H3 & _).
    specialize (Hc e0 He0 ltac:(congruence)). unfold contained, fend in *. by rewrite H2, H3.
  - destruct (Hs e He) as (e0 & He0 & H1 & H2 & H3 & _). specialize (Hc e0 He0).
    unfold overlaps, fend in *. by rewrite H2, H3.
Qed.

Lemma check_spec_weak m r c :
  wf m -> check_spec m (allocationPtr r) (allocationSize r) c ->
  c.2 <> FRAGMENT_OVERLAPING_AND_BIGGER_THEN_STORED_FRAGMENT ->
  check_weak m r c /\ present m c.
Proof.
  intros Hw Hc Hn. destruct Hc as [e He H1 H2|e He H1 H2|e He H1 H2|H1]; simpl in *; try done; split; try done.
  - intros e' He' Hk. assert (e' = e) as -> by (by eapply ordered_key_inj; [apply Hw|..]).
    unfold contained, fend. lia.
  - unfold present. simpl. by apply list_elem_of_fmap_2' with e.
  - intros e' He' Hk. assert (e' = e) as -> by (by eapply ordered_key_inj; [apply Hw|..]). done.
  - unfold present. simpl. by apply list_elem_of_fmap_2' with e.
Qed.

(** The request meets no stored fragment except ones that contain it. *)
Definition compatible (m : fragments) (r : PartialAllocation) : Prop :=
  forall e, e ∈ m -> overlaps (allocationPtr r) (allocationSize r) e.2 ->
    contained (allocationPtr r) (allocationSize r) e.2.

Lemma checkFragment_spec tags held r w :
  world_ok held w -> req_ok r ->
  match checkFragment tags r w with
  | Ok (c, w') =>
      world_ok held w' /\ check_weak (partialAllocations w') r c /\
      shrinks (partialAllocations w) (partialAllocations w') /\
      (compatible (partialAllocations w) r -> w' = w /\ present (partialAllocations w) c)
  | Aborted => ~ compatible (partialAllocations w) r
  | DanglingPointer => False
  end.
Proof.
  intros Hw (Hr1 & Hr2 & Hr3). unfold checkFragment.
  assert (forall w, world_ok held w -> check_spec (partialAllocations w) (allocationPtr r) (allocationSize r)
    (getFragmentAndCheckForOverlaps (allocationPtr r) (allocationSize r) (partialAllocations w))) as Hchk.
  { intros w1 [Hc1 _]. apply check_overlaps_spec; [apply Hc1|done..]. }
  assert (forall w, world_ok held w -> forall p status,
    getFragmentAndCheckForOverlaps (allocationPtr r) (allocationSize r) (partialAllocations w) = (p, status) ->
    status <> FRAGMENT_OVERLAPING_AND_BIGGER_THEN_STORED_FRAGMENT ->
    check_weak (partialAllocations w) r (p, status) /\ present (partialAllocations w) (p, status)) as Hok.
  { intros w1 Hw1 p st He Hn. pose proof (Hchk w1 Hw1) as Hs. rewrite He in Hs.
    apply check_spec_weak; [apply Hw1|done..]. }
  pose proof (Hchk w Hw) as Hs. pose proof (Hok w Hw) as Hok0.
  destruct (getFragmentAndCheckForOverlaps _ _ _) as [p status].
  case_decide as Hb; [|by destruct (Hok0 p status eq_refl Hb)].
  assert (~ compatible (partialAllocations w) r) as Hnc.
  { intros Hcomp. inversion Hs as [| |e He Ho Hall|]; subst; try done.
    apply (Hall e He). by apply Hcomp. }
  destruct (cleanAllocationList_spec tags.1 held w Hw) as (w1 & -> & Hw1 & Hsh1). cbn.
  pose proof (Hok w1 Hw1) as Hok1. destruct (getFragmentAndCheckForOverlaps _ _ _) as [p1 status1].
  case_decide as Hb1; [|by destruct (Hok1 p1 status1 eq_refl Hb1)].
  destruct (cleanAllocationList_spec tags.2 held w1 Hw1) as (w2 & -> & Hw2 & Hsh2). cbn.
  pose proof (Hok w2 Hw2) as Hok2. destruct (getFragmentAndCheckForOverlaps _ _ _) as [p2 status2].
  case_decide as Hb2; [done|]. destruct (Hok2 p2 status2 eq_refl Hb2) as [? _].
  split_and!; [done..|by etrans|done].
Qed.

Lemma checkAllocations_spec tags held reqs w :
  world_ok held w -> Forall req_ok reqs ->
  match checkAllocationsForOverlapping tags reqs w with
  | Ok (cs, w') =>
      world_ok held w' /\ Forall2 (check_weak (partialAllocations w')) reqs cs /\
      shrinks (partialAllocations w) (partialAllocations w') /\
      (Forall (compatible (partialAllocations w)) reqs -> w' = w /\ Forall (present (partialAllocations w)) cs)
  | Aborted => ~ Forall (compatible (partialAllocations w)) reqs
  | DanglingPointer => False
  end.
Proof.
  revert tags w. induction reqs as [|r reqs IH]; intros tags w Hw Hr; cbn [checkAllocationsForOverlapping].
  { split_and!; [done|constructor|done|]. intros _. split; [done|constructor]. }
  inversion Hr as [|? ? Hr1 Hr2]; subst.
  pose proof (checkFragment_spec (tags O) held r w Hw Hr1) as Hc.
  destruct (checkFragment (tags O) r w) as [[[p status] w1]| |]; cbn; [|by rewrite Forall_cons; tauto|done].
  destruct Hc as (Hw1 & Hwk & Hsh & Hcomp).
  pose proof (IH (fun i => tags (S i)) w1 Hw1 Hr2) as Hc2.
  destruct (checkAllocationsForOverlapping _ reqs w1) as [[cs w2]| |]; cbn.
  - destruct Hc2 as (Hw2 & Hwk2 & Hsh2 & Hcomp2). split_and!; [done| |by etrans|].
    + constructor; [by eapply check_weak_shrinks|done].
    + rewrite !Forall_cons. intros [G1 G2]. destruct (Hcomp G1) as [-> Hp]. by destruct (Hcomp2 G2) as [-> ?].
  - rewrite Forall_cons. intros [G1 G2]. destruct (Hcomp G1) as [-> Hp]. done.
  - done.
Qed.

(** ** Populating the storage *)

Definition bound (d : AllocationStorageData) : Prop := osHandleStorage d <> 0.
#[export] Instance bound_dec d : Decision (bound d).
Proof. unfold bound. apply _. Defined.

Definition describes (r : PartialAllocation) (d : AllocationStorageData) : Prop :=
  cpuPtr d = allocationPtr r /\ sdFragmentSize d = allocationSize r /\ freeTheFragment d = false.

(** The range of [d] meets no stored fragment. *)
Definition clear (m : fragments) (d : AllocationStorageData) : Prop :=
  forall e, e ∈ m -> ~ overlaps (cpuPtr d) (sdFragmentSize d) e.2.

Lemma clear_shrinks m m' d : shrinks m m' -> clear m d -> clear m' d.
Proof.
  intros Hs Hc e He. destruct (Hs e He) as (e0 & He0 & _ & H2 & H3 & _). specialize (Hc e0 He0).
  unfold overlaps, fend in *. by rewrite H2, H3.
Qed.

Lemma map_set_grows m i k f n : m !! i = Some (k, f) -> shrinks (map_set i (setRefCount n f) m) m.
Proof.
  intros Hi e He. rewrite (map_erase_Permutation i _ m Hi) in He.
  pose proof (map_set_Permutation i k f (setRefCount n f) m Hi) as Hq.
  apply elem_of_cons in He as [->|He].
  - exists (k, setRefCount n f). split; [rewrite Hq; by left|done].
  - exists e. split; [rewrite Hq; by right|done].
Qed.

Lemma derefFragment_spec m live k r :
  counted m live -> req_ok r ->
  (forall e, e ∈ m -> e.1 = k -> contained (allocationPtr r) (allocationSize r) e.2) ->
  match derefFragment (Some k) m with
  | Ok (f, m') =>
      let d := mkStorageData (osInternalStorage f) (allocationSize r) (allocationPtr r) false (residency f) in
      counted m' (d :: live) /\ osInternalStorage f <> 0 /\ shrinks m m' /\ shrinks m' m
  | Aborted => False
  | DanglingPointer => k ∉ m.*1
  end.
Proof.
  intros Hc (Hr1 & Hr2 & Hr3) Hk. unfold derefFragment.
  destruct (find_spec k m (wf_ordered m (counted_wf _ _ Hc))) as [[f Hf]|[Hf Hn]].
  - rewrite Hf. assert ((k, f) ∈ m) as Hin by (by eapply list_elem_of_lookup_2).
    specialize (Hk _ Hin eq_refl). cbn. split_and!.
    + apply (counted_addref m live _ k); [done..|]. by split_and!.
    + by apply (counted_refs _ _ Hc (k, f)).
    + by eapply map_set_shrinks.
    + by eapply map_set_grows.
  - rewrite (lookup_ge_None_2 m (find k m)) by lia.
    intros (e & He & Hin)%list_elem_of_fmap. by specialize (Hn e Hin).
Qed.

Lemma populateFragment_spec m live r c :
  counted m live -> req_ok r -> check_weak m r c ->
  match populateFragment r (Some c) m with
  | Ok (d, m') =>
      describes r d /\ shrinks m m' /\ shrinks m' m /\
      ((bound d /\ counted m' (d :: live)) \/ (~ bound d /\ counted m' live /\ clear m' d))
  | Aborted => False
  | DanglingPointer => ~ present m c
  end.
Proof.
  intros Hc Hr Hw. unfold populateFragment. destruct c as [[k|] []]; simpl in *; try done.
  - pose proof (derefFragment_spec m live k r Hc Hr Hw) as Hd. unfold derefFragment in Hd.
    destruct (m !! find k m) as [[k' f]|]; cbn; [|done]. destruct Hd as (H1 & H2 & H3 & H4).
    split_and!; [done..|]. by left.
  - pose proof (derefFragment_spec m live k r Hc Hr Hw) as Hd. unfold derefFragment in Hd.
    destruct (m !! find k m) as [[k' f]|]; cbn; [|done]. destruct Hd as (H1 & H2 & H3 & H4).
    split_and!; [done..|]. by left.
  - split_and!; [done..|]. right. split_and!; [unfold bound; simpl; tauto|done..].
Qed.

Lemma present_shrinks m m' c : shrinks m' m -> present m c -> present m' c.
Proof.
  unfold present. destruct c.1 as [k|]; [|done]. intros Hs (e & -> & He)%list_elem_of_fmap.
  destruct (Hs e He) as (e' & He' & -> & _). by apply list_elem_of_fmap_2.
Qed.

Lemma populateFragments_spec m live reqs cs :
  counted m live -> Forall req_ok reqs -> Forall2 (check_weak m) reqs cs ->
  match populateFragments reqs (Some cs) m with
  | Ok (l, m') =>
      Forall2 describes reqs l /\ shrinks m m' /\ shrinks m' m /\
      counted m' (filter bound l ++ live) /\ (forall d, d ∈ l -> ~ bound d -> clear m' d)
  | Aborted => False
  | DanglingPointer => ~ Forall (present m) cs
  end.
Proof.
  revert m live cs. induction reqs as [|r reqs IH]; intros m live cs Hc Hr Hw.
  { inversion Hw; subst. cbn. split_and!; try done. intros d Hd. by apply elem_of_nil in Hd. }
  inversion Hw as [|? c ? cs' Hw1 Hw2]; subst. inversion Hr as [|? ? Hr1 Hr2]; subst.
  cbn [populateFragments]. pose proof (populateFragment_spec m live r c Hc Hr1 Hw1) as Hp. cbn [mbind option_bind head].
  destruct (populateFragment r (Some c) m) as [[d m1]| |]; cbn; [|done|by rewrite Forall_cons; tauto].
  destruct Hp as (Hd & Hs1 & Hs2 & Hcase).
  assert (Forall2 (check_weak m1) reqs cs') as Hw2'.
  { eapply Forall2_impl; [done|]. intros. by eapply check_weak_shrinks. }
  assert (exists live', counted m1 live' /\ live' = (if decide (bound d) then [d] else []) ++ live /\ (~ bound d -> clear m1 d))
    as (live' & Hc' & -> & Hclr).
  { destruct Hcase as [[Hb Hc1]|(Hb & Hc1 & Hcl)]; eexists; (split; [done|]).
    - by rewrite decide_True.
    - by rewrite decide_False. }
  pose proof (IH m1 _ cs' Hc' Hr2 Hw2') as Hrec. cbn [fmap option_fmap option_map tail].
  destruct (populateFragments reqs (Some cs') m1) as [[l m2]| |]; cbn [mbind result_bind].
  - destruct Hrec as (Hl & Hs3 & Hs4 & Hc2 & Hcl2). split_and!.
    + by constructor.
    + by etrans.
    + by etrans.
    + revert Hc2. apply counted_proper. rewrite filter_cons. case_decide; simpl; [|done]. solve_Permutation.
    + intros d' [->|Hd']%elem_of_cons Hb; [|by apply Hcl2]. by eapply clear_shrinks; [|apply Hclr].
  - done.
  - rewrite Forall_cons. intros [_ Hp]. apply Hrec. eapply Forall_impl; [done|].
    intros. by eapply present_shrinks.
Qed.

(** The second loop stores what is still missing. *)
Definition before (a b : AllocationStorageData) : Prop := active b -> cpuPtr a + sdFragmentSize a <= cpuPtr b.
Definition entry_ok (d : AllocationStorageData) : Prop :=
  d = emptyStorageData \/ (0 < cpuPtr d /\ 0 < sdFragmentSize d /\ cpuPtr d + sdFragmentSize d < 2 ^ 64).
Definition same_range (d d' : AllocationStorageData) : Prop :=
  cpuPtr d' = cpuPtr d /\ sdFragmentSize d' = sdFragmentSize d.

Lemma storeFragment_new m live d h :
  counted m live -> 0 < cpuPtr d -> 0 < sdFragmentSize d -> cpuPtr d + sdFragmentSize d < 2 ^ 64 ->
  clear m d -> h <> 0 ->
  let f := mkFragment (cpuPtr d) (sdFragmentSize d) 0 h h in
  storeFragment f m = map_insert (cpuPtr d) (setRefCount 1 f) m /\
  counted (storeFragment f m) (mkStorageData h (sdFragmentSize d) (cpuPtr d) (freeTheFragment d) h :: live).
Proof.
  intros Hc H1 H2 H3 Hcl Hh f. assert (storeFragment f m = map_insert (cpuPtr d) (setRefCount 1 f) m) as ->.
  { unfold storeFragment. simpl. pose proof (findElement_spec m (cpuPtr d) (counted_wf _ _ Hc)) as Hf.
    destruct (findElement (cpuPtr d) m) as [i|]; [|done]. destruct Hf as (e & He & Hhe). exfalso.
    apply (Hcl e); [by eapply list_elem_of_lookup_2|]. unfold holds, overlaps in *. lia. }
  split; [done|]. by apply (counted_insert m live (setRefCount 1 f)).
Qed.

Lemma populateHandles_spec l m live fresh :
  0 < fresh -> counted m (filter bound l ++ live) -> Forall entry_ok l -> StronglySorted before l ->
  (forall d, d ∈ l -> active d -> ~ bound d -> clear m d) ->
  let '(l', m', fresh') := populateHandles l m fresh in
  counted m' (filter active l' ++ live) /\ 0 < fresh' /\ Forall2 same_range l l' /\
  (forall d, d ∈ l' -> active d -> bound d).
Proof.
  revert m live fresh. induction l as [|d l IH]; intros m live fresh Hf Hc Hok Hso Hcl; cbn [populateHandles].
  { split_and!; try done. intros d Hd. by apply elem_of_nil in Hd. }
  inversion Hok as [|? ? Hd Hok']; subst. inversion Hso as [|? ? Hso' Hbef]; subst. rewrite Forall_forall in Hbef.
  rewrite filter_cons in Hc. destruct (decide (osHandleStorage d = 0 /\ cpuPtr d <> 0)) as [Hp|Hp].
  - rewrite decide_False in Hc by (unfold bound; tauto).
    destruct Hd as [->|(Hd1 & Hd2 & Hd3)]; [by destruct Hp|].
    assert (clear m d) as Hcd by (apply Hcl; [by left|unfold active; lia|unfold bound; tauto]).
    destruct (storeFragment_new m _ d fresh Hc Hd1 Hd2 Hd3 Hcd ltac:(lia)) as [He Hc1].
    cbn [cpuPtr sdFragmentSize]. set (m1 := storeFragment _ m) in *. set (d' := mkStorageData fresh _ _ _ fresh) in *.
    assert (counted m1 (filter bound l ++ (d' :: live))) as Hc2.
    { revert Hc1. apply counted_proper. solve_Permutation. }
    specialize (IH m1 (d' :: live) (fresh + 1) ltac:(lia) Hc2 Hok' Hso').
    destruct (populateHandles l m1 (fresh + 1)) as [[l' m'] fresh'].
    destruct IH as (G1 & G2 & G3 & G4).
    { intros b Hb Hab Hnb e Hem. rewrite He in Hem. apply elem_of_map_insert in Hem as [->|Hem].
      - specialize (Hbef b Hb Hab). unfold overlaps, fend. simpl. lia.
      - apply (Hcl b); [by right|done..]. }
    split_and!; [|done|by constructor|].
    + revert G1. apply counted_proper. rewrite filter_cons, decide_True by (unfold active; simpl; lia). solve_Permutation.
    + intros b [->|Hb]%elem_of_cons Hab; [unfold bound; simpl; lia|by apply G4].
  - assert (exists live', counted m (filter bound l ++ live') /\
      live' ≡ₚ (if decide (active d) then [d] else []) ++ live /\ (active d -> bound d)) as (live' & Hc2 & Hlive & Hab).
    { destruct Hd as [->|(Hd1 & Hd2 & Hd3)].
      - rewrite decide_False in Hc by (unfold bound; simpl; tauto). exists live.
        assert (~ active emptyStorageData) as Hna by (intros [?|?]; done). rewrite decide_False by done.
        by split_and!.
      - assert (bound d) as Hb by (unfold bound; lia). assert (active d) as Ha by (unfold active; lia).
        rewrite decide_True in Hc by done. exists (d :: live). rewrite decide_True by done.
        split_and!; [|done..]. revert Hc. apply counted_proper. solve_Permutation. }
    specialize (IH m live' fresh Hf Hc2 Hok' Hso').
    destruct (populateHandles l m fresh) as [[l' m'] fresh'].
    destruct IH as (G1 & G2 & G3 & G4).
    { intros b Hb. apply Hcl. by right. }
    split_and!; [|done|by constructor|].
    + revert G1. apply counted_proper. rewrite Hlive, filter_cons. case_decide; simpl; [|done]. solve_Permutation.
    + intros b [->|Hb]%elem_of_cons Hba; [by apply Hab|by apply G4].
Qed.

Lemma describes_sorted lo hi reqs l n :
  chain pageSize lo hi (chunkOf <$> reqs) -> Forall2 describes reqs l ->
  StronglySorted before (l ++ replicate n emptyStorageData).
Proof.
  intros Hch H2. revert lo Hch. induction H2 as [|r d reqs l Hd H2 IH]; intros lo Hch; simpl.
  - induction n as [|n IHn]; simpl; constructor; [done|]. apply Forall_replicate. by intros [?|?].
  - simpl in Hch. inversion Hch as [|p s ? ? Hs Hg Hc]; subst. constructor; [by eapply IH|].
    destruct Hd as (Hd1 & Hd2 & _). apply Forall_app. split; [|apply Forall_replicate; by intros [?|?]].
    apply Forall_forall. intros b Hb _. apply list_elem_of_lookup in Hb as [i Hi].
    destruct (Forall2_lookup_r _ _ _ i b H2 Hi) as (r' & Hr' & Hb1 & _).
    assert (chunkOf r' ∈ chunkOf <$> reqs) as Hin by (apply list_elem_of_fmap_2; by eapply list_elem_of_lookup_2).
    pose proof (chain_elem _ _ _ _ _ Hc Hin) as (Hle & _). simpl in Hle. lia.
Qed.

(** The page ranges of the entries a storage uses. *)
Definition rangeOf (d : AllocationStorageData) : HeapChunk := mkHeapChunk (cpuPtr d) (sdFragmentSize d).
Definition used (s : OsHandleStorage) : list AllocationStorageData := take (fragmentCount s) (fragmentStorageData s).

Lemma requirements_ok ptr size :
  pageSize <= ptr -> 0 < size -> ptr + size + 2 * pageSize <= 2 ^ 64 ->
  Forall req_ok (AllocationFragments (getAllocationRequirements ptr size)).
Proof.
  intros Hp Hs Hov. change pageSize with 4096 in Hp, Hov.
  destruct (requirements_spec ptr size) as (Hch & _); [lia|done|change pageSize with 4096; lia|].
  apply Forall_forall. intros r Hr.
  pose proof (chain_elem _ _ _ _ _ Hch (list_elem_of_fmap_2 chunkOf _ _ Hr)) as (H1 & H2 & H3 & _). simpl in *.
  rewrite alignDown_page in H1 by word_lia.
  destruct (alignUp_page (ptr + size)) as [Hu _]; [lia..|]. change pageSize with 4096 in *.
  unfold req_ok. mod_lia.
Qed.

Lemma filter_bound_replicate n : filter bound (replicate n emptyStorageData) = [].
Proof.
  induction n as [|n IH]; [done|]. simpl replicate.
  rewrite filter_cons, decide_False by (unfold bound; simpl; tauto). done.
Qed.

Lemma populate_storage_spec held ptr size w cs :
  let reqs := AllocationFragments (getAllocationRequirements ptr size) in
  world_ok held w -> pageSize <= ptr -> 0 < size -> ptr + size + 2 * pageSize <= 2 ^ 64 ->
  Forall2 (check_weak (partialAllocations w)) reqs cs ->
  match populateAlreadyAllocatedFragments (getAllocationRequirements ptr size) (Some cs) (partialAllocations w) with
  | Ok (s, m) =>
      (0 < fragmentCount s)%nat /\
      let '(s', w') := populateOsHandles s (mkWorld m (temporaryAllocations w) (nextHandle w)) in
      world_ok (s' :: held) w' /\ rangeOf <$> used s' = chunkOf <$> reqs /\
      (forall d, d ∈ used s' -> osHandleStorage d <> 0)
  | Aborted => False
  | DanglingPointer => ~ Forall (present (partialAllocations w)) cs
  end.
Proof.
  intros reqs [Hc Hn] Hp Hs Hov Hw. pose proof (requirements_ok ptr size Hp Hs Hov) as Hreq. fold reqs in Hreq.
  destruct (requirements_spec ptr size) as (Hch & _ & Hlen & _); [change pageSize with 4096 in Hp; lia|done..|].
  fold reqs in Hch, Hlen. unfold populateAlreadyAllocatedFragments. fold reqs. clearbody reqs.
  pose proof (populateFragments_spec _ _ reqs cs Hc Hreq Hw) as Hpop.
  destruct (populateFragments reqs (Some cs) (partialAllocations w)) as [[l m]| |]; cbn; [|done..].
  destruct Hpop as (Hdesc & _ & _ & Hcm & Hclr). cbn [fragmentCount]. split; [lia|].
  pose proof (Forall2_length _ _ _ Hdesc) as Hll.
  unfold populateOsHandles. cbn [fragmentStorageData partialAllocations nextHandle temporaryAllocations].
  set (pad := replicate _ _).
  assert (Forall2 (fun r d => entry_ok d /\ active d) reqs l) as Hent.
  { clear -Hreq Hdesc. induction Hdesc as [|r d reqs l (D1 & D2 & _) H2 IH]; constructor; inversion Hreq as [|? ? (R1 & R2 & R3)]; subst; [|by apply IH].
    split; [right; rewrite D1, D2; lia|unfold active; lia]. }
  pose proof (populateHandles_spec (l ++ pad) m (entries (temporaryAllocations w).*2 ++ entries held) (nextHandle w) Hn) as Hh.
  destruct (populateHandles (l ++ pad) m (nextHandle w)) as [[l' m'] fresh'].
  destruct Hh as (G1 & G2 & G3 & G4).
  - rewrite filter_app. subst pad. by rewrite filter_bound_replicate, app_nil_r.
  - apply Forall_app. split; [|apply Forall_replicate; by left]. apply Forall_forall. intros d Hd.
    apply list_elem_of_lookup in Hd as [i Hi]. by destruct (Forall2_lookup_r _ _ _ i d Hent Hi) as (r & _ & ? & _).
  - by eapply describes_sorted.
  - intros d Hd Ha Hb. apply elem_of_app in Hd as [Hd|Hd]; [by apply Hclr|].
    apply elem_of_replicate in Hd as [-> _]. by destruct Ha.
  - assert (Forall2 (fun r d => rangeOf d = chunkOf r /\ active d) reqs (take (length reqs) l')) as Hr.
    { apply Forall2_app_inv_l in G3 as (l1 & l2 & G3 & _ & ->).
      assert (length reqs = length l1) as Hl1 by (apply Forall2_length in G3; lia).
      rewrite Hl1, take_app_length.
      clear -Hdesc G3 Hreq. revert l1 G3. induction Hdesc as [|r d reqs l (D1 & D2 & _) H2 IH]; intros l1 G3; inversion G3 as [|? d' ? l1' (E1 & E2)]; subst; constructor.
      - inversion Hreq as [|? ? (R1 & R2 & R3)]; subst. unfold rangeOf, chunkOf, active. rewrite E1, E2, D1, D2. split; [done|lia].
      - inversion Hreq; subst. by apply IH. }
    unfold used. cbn [fragmentCount fragmentStorageData]. split_and!.
    + split; [|done]. cbn [partialAllocations temporaryAllocations].
      revert G1. apply counted_proper. unfold entries. simpl. solve_Permutation.
    + clear -Hr. induction Hr as [|r d ? ? [Hrd _] _ IH]; [done|]. by rewrite !fmap_cons, Hrd, IH.
    + intros d Hd. pose proof Hd as Hd2. apply list_elem_of_lookup in Hd2 as [i Hi].
      destruct (Forall2_lookup_r _ _ _ i d Hr Hi) as (r & _ & _ & Ha). apply G4; [|done].
      eapply elem_of_take in Hd as (j & Hj & _). by eapply list_elem_of_lookup_2.
Qed.

(** ** Deleting OS handles *)

(** How many of the released entries ask for the deletion of a fragment's OS
    handle. *)
Definition deletions (f : FragmentStorage) (l : list AllocationStorageData) : nat :=
  length (filter (fun d => freeTheFragment d = true /\ holds f (cpuPtr d)) l).

Lemma deletions_cons f d l :
  deletions f (d :: l) =
  ((if decide (freeTheFragment d = true /\ holds f (cpuPtr d)) then 1 else 0) + deletions f l)%nat.
Proof. unfold deletions. rewrite filter_cons. case_decide; simpl; lia. Qed.

Lemma deletions_none f l : (forall d, d ∈ l -> ~ holds f (cpuPtr d)) -> deletions f l = O.
Proof.
  induction l as [|d l IH]; intros Hn; [done|]. rewrite deletions_cons.
  rewrite decide_False by (intros [_ ?]; by apply (Hn d); [left|]).
  rewrite IH; [done|]. intros. apply Hn. by right.
Qed.

Lemma releaseEntries_ptrs l m l' m' : releaseEntries l m = Ok (l', m') -> cpuPtr <$> l' = cpuPtr <$> l.
Proof.
  revert m l' m'. induction l as [|d l IH]; intros m l' m' Hr; cbn [releaseEntries] in Hr; [by simplify_eq|].
  case_decide.
  - destruct (releaseHostPtr (cpuPtr d) m) as [[b m1]| |]; try done. cbn in Hr.
    destruct (releaseEntries l m1) as [[l1 m2]| |] eqn:H2; try done. cbn in Hr. simplify_eq.
    rewrite !fmap_cons. f_equal. by eapply IH.
  - destruct (releaseEntries l m) as [[l1 m2]| |] eqn:H2; try done. cbn in Hr. simplify_eq.
    rewrite !fmap_cons. f_equal. by eapply IH.
Qed.

(** One release on a counted map: which fragment it touches. *)
Lemma release_one m d rest b m1 e :
  counted m (d :: rest) -> releaseHostPtr (cpuPtr d) m = Ok (b, m1) -> e ∈ m ->
  if decide (b = true /\ holds e.2 (cpuPtr d))
  then forall e', e' ∈ m1 -> apart e.2 e'.2 /\ e'.1 <> e.1
  else exists e', e' ∈ m1 /\ e'.1 = e.1 /\ fragmentCpuPointer e'.2 = fragmentCpuPointer e.2 /\
    fragmentSize e'.2 = fragmentSize e.2.
Proof.
  intros Hc Hr He. pose proof (counted_wf _ _ Hc) as Hw. unfold releaseHostPtr in Hr.
  pose proof (findElement_spec m (cpuPtr d) Hw) as Hf.
  destruct (findElement (cpuPtr d) m) as [i|]; [|done]. destruct Hf as ([k f] & Hi & Hh). rewrite Hi in Hr.
  destruct (wf_isolate m i k f Hw Hi) as [Hp Hrest].
  assert ((k, f) ∈ m) as Hin by (by eapply list_elem_of_lookup_2). simpl in Hh.
  destruct (decide (refCount f - 1 <= 0)) as [Hz|Hz]; injection Hr as <- <-.
  - case_decide as Hb.
    + assert (e = (k, f)) as -> by (by eapply (wf_holds_unique m e (k, f) (cpuPtr d)); [..|apply Hb|]).
      intros e' He'. by destruct (Hrest e' He') as (_ & ? & ?).
    + exists e. split; [|done]. rewrite Hp in He. apply elem_of_cons in He as [->|]; [|done].
      exfalso. apply Hb. done.
  - rewrite decide_False by (by intros [? _]).
    pose proof (map_set_Permutation i k f (setRefCount (refCount f - 1) f) m Hi) as Hq.
    rewrite Hp in He. apply elem_of_cons in He as [->|He].
    + eexists. split; [rewrite Hq; by left|done].
    + exists e. split; [rewrite Hq; by right|done].
Qed.

Lemma releaseEntries_deletions m l rest l' m' e :
  counted m (filter active l ++ rest) -> releaseEntries l m = Ok (l', m') -> e ∈ m ->
  deletions e.2 l' = (if decide (e.1 ∈ m'.*1) then 0 else 1)%nat.
Proof.
  revert m l' m' e. induction l as [|d l IH]; intros m l' m' e Hc Hr He; cbn [releaseEntries] in Hr.
  { simplify_eq. rewrite decide_True; [done|]. by apply list_elem_of_fmap_2. }
  rewrite filter_cons in Hc. destruct (decide (sdFragmentSize d <> 0 \/ cpuPtr d <> 0)) as [Ha|Ha].
  - rewrite decide_True in Hc by done.
    destruct (releaseHostPtr (cpuPtr d) m) as [[b m1]| |] eqn:H1; try done. cbn in Hr.
    destruct (releaseEntries l m1) as [[l1 m2]| |] eqn:H2; try done. cbn in Hr. simplify_eq.
    assert (counted m1 (filter active l ++ rest)) as Hc1.
    { destruct (counted_release m d _ Hc) as (b' & m1' & H1' & Hc1 & _). by assert (m1' = m1) as <- by congruence. }
    pose proof (release_one m d _ b m1 e Hc H1 He) as Hone. rewrite deletions_cons. cbn [freeTheFragment cpuPtr setFree].
    destruct (decide (b = true /\ holds e.2 (cpuPtr d))) as [Hb|Hb].
    + rewrite deletions_none; [|intros d' Hd' Hh].
      * rewrite decide_False; [done|]. intros (e2 & Hk & He2)%list_elem_of_fmap.
        destruct (releaseEntries_shrinks _ _ _ _ H2 e2 He2) as (e1 & He1 & Hk1 & _).
        destruct (Hone e1 He1) as [_ Hne]. congruence.
      * assert (cpuPtr d' ∈ cpuPtr <$> l) as (d0 & Hd0 & Hin0)%list_elem_of_fmap.
        { rewrite <- (releaseEntries_ptrs _ _ _ _ H2). by apply list_elem_of_fmap_2. }
        rewrite Hd0 in Hh. destruct (decide (active d0)) as [Had|Had].
        -- destruct (counted_live _ _ Hc1 d0) as (e1 & He1 & Href).
           { apply elem_of_app. left. by apply list_elem_of_filter. }
           apply refers_holds in Href. destruct (Hone e1 He1) as [Hap _]. by eapply apart_holds.
        -- assert (cpuPtr d0 = 0) as H0 by (unfold active in Had; lia). rewrite H0 in Hh.
           pose proof (wf_range _ (counted_wf _ _ Hc) e He). unfold holds in Hh. lia.
    + destruct Hone as (e1 & He1 & Hk1 & Hp1 & Hs1).
      specialize (IH m1 l1 m' e1 Hc1 H2 He1). rewrite <- Hk1, <- IH. simpl.
      assert (forall p, holds e1.2 p <-> holds e.2 p) as Hheq by (intros p; unfold holds, fend; by rewrite Hp1, Hs1).
      unfold deletions. f_equal. apply list_filter_iff. intros x. by rewrite Hheq.
  - rewrite decide_False in Hc by done.
    destruct (releaseEntries l m) as [[l1 m2]| |] eqn:H2; try done. cbn in Hr. simplify_eq.
    rewrite deletions_cons, decide_False; [by eapply IH|]. intros [_ Hh].
    pose proof (wf_range _ (counted_wf _ _ Hc) e He). unfold holds in Hh. lia.
Qed.

Lemma prepare_spec tags held size ptr w :
  world_ok held w -> pageSize <= ptr -> 0 < size -> ptr + size + 2 * pageSize <= 2 ^ 64 ->
  let reqs := AllocationFragments (getAllocationRequirements ptr size) in
  match prepareOsStorageForAllocation tags size ptr w with
  | Ok (s, w') =>
      world_ok (s :: held) w' /\ rangeOf <$> used s = chunkOf <$> reqs /\
      (forall d, d ∈ used s -> osHandleStorage d <> 0)
  | _ => ~ Forall (compatible (partialAllocations w)) reqs
  end.
Proof.
  intros Hw Hp Hs Hov reqs. unfold prepareOsStorageForAllocation. fold reqs.
  pose proof (checkAllocations_spec tags held reqs w Hw (requirements_ok ptr size Hp Hs Hov)) as Hchk.
  destruct (checkAllocationsForOverlapping tags reqs w) as [[cs w1]| |]; cbn [mbind result_bind]; [|done..].
  destruct Hchk as (Hw1 & Hwk & _ & Hcomp).
  pose proof (populate_storage_spec held ptr size w1 cs Hw1 Hp Hs Hov Hwk) as Hpop. fold reqs in Hpop.
  destruct (populateAlreadyAllocatedFragments _ _ _) as [[s m]| |]; cbn [mbind result_bind]; [|done|].
  - destruct Hpop as [Hcnt Hpop]. rewrite decide_True by done. by destruct (populateOsHandles s _) as [s' w'].
  - intros Hall. destruct (Hcomp Hall) as [-> ?]. done.
Qed.

(** ** Properties *)

(** for every nonempty range of user memory the fragments that
    [getAllocationRequirements] returns are, in order, adjacent and a whole
    number of pages each; they start at the page of the first byte and end at
    the page boundary after the last one, there are one to three of them, and
    their sizes add up to [totalRequiredSize].  A leading fragment is a page
    the range starts strictly inside of, a trailing one a page it ends
    strictly inside of. *)
Theorem host_ptr_requirements_tile ptr size :
  0 <= ptr -> 0 < size -> ptr + size + 2 * pageSize <= 2 ^ 64 ->
  let r := getAllocationRequirements ptr size in
  let lo := alignDown 64 ptr pageSize in
  let hi := alignUp 64 (ptr + size) pageSize in
  chain pageSize lo hi (chunkOf <$> AllocationFragments r) /\
  totalRequiredSize r = hi - lo /\ (1 <= length (AllocationFragments r) <= maxFragmentsCount)%nat /\
  Forall (fun a => match fragmentPosition a with
                   | NONE => False
                   | LEADING => allocationPtr a < ptr < allocationPtr a + pageSize
                   | MIDDLE => ptr <= allocationPtr a
                   | TRAILING => allocationPtr a < ptr + size < allocationPtr a + pageSize
                   end) (AllocationFragments r).
Proof. apply requirements_spec. Qed.

Example host_ptr_requirements_tile_witness :
  let r := getAllocationRequirements 5000 9000 in
  chain pageSize 4096 16384 (chunkOf <$> AllocationFragments r) /\
  totalRequiredSize r = 12288 /\ (1 <= length (AllocationFragments r) <= maxFragmentsCount)%nat /\
  Forall (fun a => match fragmentPosition a with
                   | NONE => False
                   | LEADING => allocationPtr a < 5000 < allocationPtr a + pageSize
                   | MIDDLE => 5000 <= allocationPtr a
                   | TRAILING => allocationPtr a < 14000 < allocationPtr a + pageSize
                   end) (AllocationFragments r).
Proof. apply (host_ptr_requirements_tile 5000 9000); eval_decide. Defined.

(** on a map of stored fragments that do not overlap, the two
    neighbours that [getFragmentAndCheckForOverlaps] looks at decide the
    question for the whole map: it answers EXACT with a fragment of the same
    range, WITHIN with a larger fragment that contains the range, BIGGER when
    some fragment overlaps the range and none contains it, and NOT_OVERLAPING
    when no fragment shares a byte with it. *)
Theorem overlap_check_classifies m p s :
  wf m -> 0 < p -> 0 < s -> p + s < 2 ^ 64 ->
  check_spec m p s (getFragmentAndCheckForOverlaps p s m).
Proof. apply check_overlaps_spec. Qed.

Lemma counted_nil : counted [] [].
Proof. split; [apply wf_nil|intros ? Hin; by apply elem_of_nil in Hin..]. Qed.

(** A map with one fragment of two pages at 0x10000. *)
Definition demo_fragments : fragments := storeFragment (mkFragment 0x10000 0x2000 0 7 7) [].

Lemma demo_counted : counted demo_fragments [mkStorageData 7 0x2000 0x10000 false 7].
Proof.
  apply (storeFragment_new [] [] (mkStorageData 7 0x2000 0x10000 false 7) 7);
    [apply counted_nil|eval_decide..|intros ? Hin; by apply elem_of_nil in Hin|done].
Defined.

Example overlap_check_classifies_witness :
  check_spec demo_fragments 0x11000 0x1000 (getFragmentAndCheckForOverlaps 0x11000 0x1000 demo_fragments).
Proof.
  apply (overlap_check_classifies demo_fragments 0x11000 0x1000); [|eval_decide..]. apply demo_counted.
Defined.

(** C14: preparing the storage for a host range keeps the invariant of the
    manager: stored fragments are disjoint, each carries as many references as
    there are live storage entries inside it, and every live entry has the OS
    handle of the fragment that contains it.  When it returns, the entries of
    the new storage are exactly the page ranges of the request, each with an
    OS handle; and it returns whenever the request partially overlaps no
    stored fragment. *)
Theorem prepare_keeps_counts tags held size ptr w :
  world_ok held w -> pageSize <= ptr -> 0 < size -> ptr + size + 2 * pageSize <= 2 ^ 64 ->
  let reqs := AllocationFragments (getAllocationRequirements ptr size) in
  match prepareOsStorageForAllocation tags size ptr w with
  | Ok (s, w') =>
      world_ok (s :: held) w' /\ rangeOf <$> used s = chunkOf <$> reqs /\
      (forall d, d ∈ used s -> osHandleStorage d <> 0)
  | _ => ~ Forall (compatible (partialAllocations w)) reqs
  end.
Proof. apply prepare_spec. Qed.

Definition demo_world : World := mkWorld demo_fragments [] 8.
Definition demo_storage : OsHandleStorage :=
  mkOsHandleStorage [mkStorageData 7 0x2000 0x10000 false 7; emptyStorageData; emptyStorageData] 1.

Lemma demo_world_ok : world_ok [demo_storage] demo_world.
Proof. split; [apply demo_counted|eval_decide]. Defined.

Example prepare_keeps_counts_witness :
  match prepareOsStorageForAllocation (fun _ => (0, 0)) 100 0x11080 demo_world with
  | Ok (s, w') =>
      world_ok [s; demo_storage] w' /\
      rangeOf <$> used s = chunkOf <$> AllocationFragments (getAllocationRequirements 0x11080 100) /\
      (forall d, d ∈ used s -> osHandleStorage d <> 0)
  | _ => ~ Forall (compatible demo_fragments) (AllocationFragments (getAllocationRequirements 0x11080 100))
  end.
Proof.
  apply (prepare_keeps_counts (fun _ => (0, 0)) [demo_storage] 100 0x11080 demo_world);
    [apply demo_world_ok|eval_decide..].
Defined.

(** C15: releasing a storage that a client holds never follows a bad
    iterator and keeps the counts for the storages that are left; among its
    entries, the ones flagged for deletion of the OS handle are exactly one for
    each fragment that left the map and none for a fragment that stays. *)
Theorem release_deletes_once held s w :
  world_ok (s :: held) w ->
  exists s' m', releaseHandleStorage s (partialAllocations w) = Ok (s', m') /\
    world_ok held (mkWorld m' (temporaryAllocations w) (nextHandle w)) /\
    forall e, e ∈ partialAllocations w ->
      deletions e.2 (fragmentStorageData s') = (if decide (e.1 ∈ m'.*1) then 0 else 1)%nat.
Proof.
  intros [Hc Hn]. set (rest := entries (temporaryAllocations w).*2 ++ entries held).
  assert (counted (partialAllocations w) (filter active (fragmentStorageData s) ++ rest)) as Hc2.
  { revert Hc. apply counted_proper. subst rest. unfold entries. simpl. solve_Permutation. }
  destruct (releaseEntries_spec _ _ _ Hc2) as (l' & m' & Hr & Hc').
  unfold releaseHandleStorage. rewrite Hr. cbn [mbind result_bind]. do 2 eexists. split; [done|]. split; [done|].
  intros e He. by eapply releaseEntries_deletions.
Qed.

Example release_deletes_once_witness :
  exists s' m', releaseHandleStorage demo_storage demo_fragments = Ok (s', m') /\
    world_ok [] (mkWorld m' [] 8) /\
    forall e, e ∈ demo_fragments ->
      deletions e.2 (fragmentStorageData s') = (if decide (e.1 ∈ m'.*1) then 0 else 1)%nat.
Proof. apply (release_deletes_once [] demo_storage demo_world), demo_world_ok. Defined.

(** Two finished temporary allocations: the page at 0x10000, and three pages
    from 0x11000. *)
Definition okOr {A} (x : A) (r : result A) : A := match r with Ok a => a | _ => x end.
Definition stale_one : OsHandleStorage * World :=
  okOr (demo_storage, demo_world) (prepareOsStorageForAllocation (fun _ => (0, 0)) 0x1000 0x10000 (mkWorld [] [] 1)).
Definition stale_two : OsHandleStorage * World :=
  okOr (demo_storage, demo_world) (prepareOsStorageForAllocation (fun _ => (0, 0)) 0x3000 0x11000 stale_one.2).
Definition stale_world : World :=
  mkWorld (partialAllocations stale_two.2) [(1, stale_one.1); (1, stale_two.1)] (nextHandle stale_two.2).

Lemma stale_world_ok : world_ok [] stale_world.
Proof.
  assert (world_ok [stale_one.1] stale_one.2) as H1.
  { pose proof (prepare_spec (fun _ => (0, 0)) [] 0x1000 0x10000 (mkWorld [] [] 1)) as H.
    assert (prepareOsStorageForAllocation (fun _ => (0, 0)) 0x1000 0x10000 (mkWorld [] [] 1) = Ok stale_one) as He
      by (vm_compute; reflexivity).
    rewrite He in H. destruct stale_one. apply H; [split; [apply counted_nil|done]|eval_decide..]. }
  assert (world_ok [stale_two.1; stale_one.1] stale_two.2) as H2.
  { pose proof (prepare_spec (fun _ => (0, 0)) _ 0x3000 0x11000 stale_one.2 H1) as H.
    assert (prepareOsStorageForAllocation (fun _ => (0, 0)) 0x3000 0x11000 stale_one.2 = Ok stale_two) as He
      by (vm_compute; reflexivity).
    rewrite He in H. destruct stale_two. apply H; eval_decide. }
  destruct H2 as [H2 Hn]. split; [|done].
  replace (temporaryAllocations stale_two.2) with (@nil (Z * OsHandleStorage)) in H2 by (vm_compute; reflexivity).
  revert H2. apply counted_proper. unfold stale_world, entries. cbn [temporaryAllocations fmap list_fmap].
  generalize stale_one.1, stale_two.1. intros. simpl. solve_Permutation.
Qed.

(** the pointers that the overlap check collects are not refreshed
    when a later fragment of the same request makes it clean the temporary
    list: with a finished temporary allocation on the first page of the
    request and another one that the rest partially overlaps, the first
    fragment's node is erased between the check and its use, and the
    reference count is incremented through a dangling pointer. *)
Theorem prepare_uses_erased_fragment :
  world_ok [] stale_world /\
  prepareOsStorageForAllocation (fun _ => (1, 1)) 0x5000 0x10800 stale_world = DanglingPointer.
Proof. split; [apply stale_world_ok|vm_compute; reflexivity]. Qed.
