(* ===== verification/SvmMemoryManager.v ===== *)
(** * Shared virtual memory allocations

    Model of [runtime/memory_manager/svm_memory_manager.cpp]: the tracker maps
    the address of each SVM allocation to its [GraphicsAllocation] and finds
    the allocation of an interior pointer.  The memory manager is code of
    another component; what [allocateGraphicsMemoryWithProperties] returned is
    an argument of [createSVMAlloc], with [None] for a null pointer. *)

From S2P Require Import Prelude.
From S2P Require Import OrdMap.

(** The fields of [GraphicsAllocation] that the tracker uses. *)
Record GraphicsAllocation := mkGraphicsAllocation {
  underlyingBuffer : Z; underlyingBufferSize : Z; writable : bool; coherent : bool }.

Abbreviation allocs := (list (Z * GraphicsAllocation)).

Definition trackerInsert (ga : GraphicsAllocation) (m : allocs) : allocs :=
  map_insert (underlyingBuffer ga) ga m.

(** Erasing [end()] is undefined; the caller has just found the entry. *)
Definition trackerRemove (ga : GraphicsAllocation) (m : allocs) : option allocs :=
  let iter := find (underlyingBuffer ga) m in
  match m !! iter with Some _ => Some (map_erase iter m) | None => None end.

Definition trackerGet (ptr : Z) (m : allocs) : option GraphicsAllocation :=
  if decide (ptr = 0) then None
  else
    let iter := lower_bound ptr m in
    let iter :=
      match m !! iter with
      | Some (k, _) => if decide (k <> ptr) then (match iter with O => None | S j => Some j end) else Some iter
      | None => match iter with O => None | S j => Some j end
      end in
    match iter ≫= fun i => m !! i with
    | Some (_, ga) =>
        if decide (ptr < underlyingBuffer ga ⊞ underlyingBufferSize ga) then Some ga else None
    | None => None
    end.

Definition createSVMAlloc (size : Z) (isCoherent readOnly : bool)
    (allocated : option GraphicsAllocation) (m : allocs) : Z * allocs :=
  if decide (size = 0) then (0, m)
  else match allocated with
  | None => (0, m)
  | Some ga =>
      let ga := mkGraphicsAllocation (underlyingBuffer ga) (underlyingBufferSize ga) (negb readOnly) isCoherent in
      (underlyingBuffer ga, trackerInsert ga m)
  end.

Definition getSVMAlloc (ptr : Z) (m : allocs) : option GraphicsAllocation := trackerGet ptr m.

(** The allocation handed to [freeGraphicsMemory], if any; the outer [None] is
    the undefined erase. *)
Definition freeSVMAlloc (ptr : Z) (m : allocs) : option (option GraphicsAllocation * allocs) :=
  match getSVMAlloc ptr m with
  | Some ga => m' ← trackerRemove ga m; Some (Some ga, m')
  | None => Some (None, m)
  end.

Definition getNumAllocs (m : allocs) : nat := length m.

(** [CL_MEM_READ_ONLY], [CL_MEM_HOST_READ_ONLY], [CL_MEM_HOST_NO_ACCESS]. *)
Definition memFlagIsReadOnly (flags : Z) : bool :=
  bool_decide (Z.land flags (Z.lor (Z.lor (Z.shiftl 1 2) (Z.shiftl 1 8)) (Z.shiftl 1 9)) <> 0).

(** ** The tracker's invariant *)

Definition gaEnd (ga : GraphicsAllocation) : Z := underlyingBuffer ga + underlyingBufferSize ga.
Definition gaHolds (ga : GraphicsAllocation) (p : Z) : Prop := underlyingBuffer ga <= p < gaEnd ga.
Definition gaApart (a b : GraphicsAllocation) : Prop :=
  gaEnd a <= underlyingBuffer b \/ gaEnd b <= underlyingBuffer a.

Record tracked (m : allocs) : Prop := {
  tracked_ordered : ordered m;
  tracked_key : forall e, e ∈ m -> e.1 = underlyingBuffer e.2;
  tracked_range : forall e, e ∈ m -> 0 < underlyingBuffer e.2 /\ 0 < underlyingBufferSize e.2 /\ gaEnd e.2 < 2 ^ 64;
  tracked_apart : forall a b, a ∈ m -> b ∈ m -> a.1 <> b.1 -> gaApart a.2 b.2
}.

Lemma tracked_nil : tracked [].
Proof. split; [apply SSorted_nil|intros; exfalso; by eapply elem_of_nil..]. Qed.

Lemma tracked_unique m a b p : tracked m -> a ∈ m -> b ∈ m -> gaHolds a.2 p -> gaHolds b.2 p -> a = b.
Proof.
  intros Ht Ha Hb H1 H2. destruct (decide (a.1 = b.1)) as [He|He].
  - eapply ordered_key_inj; [apply Ht|done..].
  - pose proof (tracked_apart m Ht a b Ha Hb He). unfold gaApart, gaHolds in *. lia.
Qed.

(** Only the entry at the pointer, or the one before it, can hold it. *)
Lemma tracked_holder m p e :
  tracked m -> e ∈ m -> gaHolds e.2 p ->
  m !! lower_bound p m = Some e \/
  ((forall k v, m !! lower_bound p m = Some (k, v) -> k <> p) /\ exists j, lower_bound p m = S j /\ m !! j = Some e).
Proof.
  intros Ht He Hh. pose proof (tracked_key m Ht e He) as Hk. pose proof He as He0.
  apply list_elem_of_lookup in He as [i Hi]. unfold gaHolds in Hh.
  assert (forall j e', m !! j = Some e' -> (i < j)%nat -> p < e'.1) as Hafter.
  { intros j e' Hj Hij. pose proof (ordered_lookup_lt m i j _ _ (tracked_ordered m Ht) Hi Hj Hij).
    assert (e' ∈ m) as He' by (by eapply list_elem_of_lookup_2).
    pose proof (tracked_apart m Ht e e' He0 He' ltac:(lia)). pose proof (tracked_key m Ht e' He').
    pose proof (tracked_range m Ht e' He'). unfold gaApart, gaEnd in *. lia. }
  destruct (decide (lower_bound p m <= i)%nat) as [Hge|Hlt].
  - left. destruct (decide (i = lower_bound p m)) as [->|]; [done|].
    destruct (lookup_lt_is_Some_2 m (lower_bound p m)) as [e' He'].
    { apply lookup_lt_Some in Hi. lia. }
    pose proof (lower_bound_after p m _ e' (tracked_ordered m Ht) (le_n _) He').
    pose proof (ordered_lookup_lt m _ _ _ _ (tracked_ordered m Ht) He' Hi ltac:(lia)). lia.
  - right. split; [intros k v Hlb ->; specialize (Hafter _ _ Hlb ltac:(lia)); simpl in *; lia|].
    exists i. split; [|done]. destruct (decide (lower_bound p m = S i)) as [|Hne]; [done|].
    destruct (lookup_lt_is_Some_2 m (S i)) as [e' He'].
    { pose proof (lower_bound_le p m). lia. }
    pose proof (Hafter (S i) e' He' ltac:(lia)). pose proof (lower_bound_before p m (S i) e' ltac:(lia) He'). lia.
Qed.

Lemma trackerGet_spec m p :
  tracked m -> 0 < p ->
  match trackerGet p m with
  | Some ga => (underlyingBuffer ga, ga) ∈ m /\ gaHolds ga p
  | None => forall e, e ∈ m -> ~ gaHolds e.2 p
  end.
Proof.
  intros Ht Hp. unfold trackerGet. rewrite decide_False by lia.
  set (iter := match m !! lower_bound p m with Some (k, _) => _ | None => _ end).
  assert (forall e, e ∈ m -> gaHolds e.2 p -> iter ≫= (fun i => m !! i) = Some e) as Hfind.
  { intros e He Hh. subst iter. destruct (tracked_holder m p e Ht He Hh) as [Hl|(Hne & j & Hj & Hm)].
    - rewrite Hl. destruct e as [k v]. pose proof (tracked_key m Ht _ He). simpl in *.
      pose proof (lower_bound_after p m _ _ (tracked_ordered m Ht) (le_n _) Hl). simpl in *.
      unfold gaHolds in Hh. rewrite decide_False by (intros Hn; apply Hn; lia). done.
    - rewrite Hj. destruct (m !! S j) as [[k v]|] eqn:Hl; simpl; [|done].
      rewrite <- Hj in Hl. rewrite decide_True by (by eapply Hne). done. }
  assert (forall e, iter ≫= (fun i => m !! i) = Some e -> e ∈ m /\ e.1 <= p) as Hback.
  { subst iter. intros e He. destruct (m !! lower_bound p m) as [[k v]|] eqn:Hl.
    - case_decide as Hk.
      + destruct (lower_bound p m) as [|j] eqn:Hj; [done|]. simpl in He.
        split; [by eapply list_elem_of_lookup_2|]. pose proof (lower_bound_before p m j e ltac:(lia) He). lia.
      + subst k. simpl in He. assert (e = (p, v)) as -> by congruence.
        split; [by eapply list_elem_of_lookup_2|simpl; lia].
    - destruct (lower_bound p m) as [|j] eqn:Hj; [done|]. simpl in He.
      split; [by eapply list_elem_of_lookup_2|]. pose proof (lower_bound_before p m j e ltac:(lia) He). lia. }
  destruct (iter ≫= (fun i => m !! i)) as [[k ga]|] eqn:Hit.
  - destruct (Hback (k, ga) eq_refl) as [Hin Hle]. pose proof (tracked_key m Ht _ Hin) as Hk. simpl in Hk, Hle.
    pose proof (tracked_range m Ht _ Hin) as (R1 & R2 & R3). unfold gaEnd in R3. simpl in R1, R2, R3.
    rewrite wrap_small by word_lia. case_decide as Hlt.
    + rewrite <- Hk. split; [done|]. unfold gaHolds, gaEnd. lia.
    + intros e He Hh. specialize (Hfind e He Hh). simplify_eq. unfold gaHolds, gaEnd in Hh. simpl in Hh. lia.
  - intros e He Hh. by specialize (Hfind e He Hh).
Qed.

(** ** Properties *)

(** on a tracker whose allocations are disjoint, [getSVMAlloc] of any
    non-null pointer returns the one allocation that holds it, interior
    pointers included, and null when none does; a successful
    [createSVMAlloc] of a buffer apart from the tracked ones makes every
    pointer into it resolve to the new allocation and no other pointer
    resolve differently; and [freeSVMAlloc] of any pointer into an allocation
    removes exactly that allocation. *)
Theorem svm_tracker_correct m p size isCoherent readOnly ga :
  tracked m -> 0 < p ->
  0 < size -> 0 < underlyingBuffer ga -> 0 < underlyingBufferSize ga -> gaEnd ga < 2 ^ 64 ->
  (forall e, e ∈ m -> gaApart ga e.2) ->
  (match getSVMAlloc p m with
   | Some a => (underlyingBuffer a, a) ∈ m /\ gaHolds a p
   | None => forall e, e ∈ m -> ~ gaHolds e.2 p
   end) /\
  (let '(q, m') := createSVMAlloc size isCoherent readOnly (Some ga) m in
   tracked m' /\ q = underlyingBuffer ga /\ getNumAllocs m' = S (getNumAllocs m) /\
   getSVMAlloc p m' =
     (if decide (underlyingBuffer ga <= p < gaEnd ga)
      then Some (mkGraphicsAllocation (underlyingBuffer ga) (underlyingBufferSize ga) (negb readOnly) isCoherent)
      else getSVMAlloc p m)) /\
  (exists m', freeSVMAlloc p m = Some (getSVMAlloc p m, m') /\ tracked m' /\
     match getSVMAlloc p m with
     | Some a => m ≡ₚ (underlyingBuffer a, a) :: m'
     | None => m' = m
     end).
Proof.
  intros Ht Hp Hs Hb1 Hb2 Hb3 Hap. pose proof (trackerGet_spec m p Ht Hp) as Hget. split_and!; [done|..].
  - unfold createSVMAlloc. rewrite decide_False by lia. set (ga' := mkGraphicsAllocation _ _ _ _).
    change (forall e, e ∈ m -> gaApart ga' e.2) in Hap.
    assert (forall e, e ∈ m -> e.1 <> underlyingBuffer ga') as Hk.
    { intros e He. pose proof (tracked_key m Ht e He). pose proof (tracked_range m Ht e He).
      specialize (Hap e He). unfold gaApart, gaEnd in *. simpl in *. lia. }
    pose proof (map_insert_Permutation _ ga' m Hk) as Hq. unfold trackerInsert.
    set (m' := map_insert (underlyingBuffer ga') ga' m) in *.
    assert (tracked m') as Ht'.
    { split.
      - apply map_insert_ordered, Ht.
      - intros e He. rewrite Hq in He. apply elem_of_cons in He as [->|He]; [done|by apply (tracked_key m Ht)].
      - intros e He. rewrite Hq in He. apply elem_of_cons in He as [->|He]; [done|by apply (tracked_range m Ht)].
      - intros a b Ha Hb Hne. rewrite Hq in Ha, Hb.
        apply elem_of_cons in Ha as [->|Ha], Hb as [->|Hb]; [done|by apply Hap| |by apply (tracked_apart m Ht)].
        destruct (Hap a Ha); [by right|by left]. }
    split_and!; [done|done|unfold getNumAllocs; by rewrite Hq|].
    pose proof (trackerGet_spec m' p Ht' Hp) as Hget'. unfold getSVMAlloc.
    assert ((underlyingBuffer ga', ga') ∈ m') as Hin' by (rewrite Hq; by left).
    case_decide as Hh.
    + destruct (trackerGet p m') as [a|].
      * destruct Hget' as [Ha Hha]. by pose proof (tracked_unique m' _ _ p Ht' Ha Hin' Hha Hh); simplify_eq.
      * by destruct (Hget' _ Hin').
    + destruct (trackerGet p m') as [a|].
      * destruct Hget' as [Ha Hha]. rewrite Hq in Ha. apply elem_of_cons in Ha as [Ha|Ha]; [by simplify_eq|].
        destruct (trackerGet p m) as [b|]; [|by destruct (Hget _ Ha)].
        destruct Hget as [Hb Hhb]. by pose proof (tracked_unique m _ _ p Ht Ha Hb Hha Hhb); simplify_eq.
      * destruct (trackerGet p m) as [b|]; [|done]. destruct Hget as [Hb Hhb].
        destruct (Hget' (underlyingBuffer b, b)); [rewrite Hq; by right|done].
  - unfold freeSVMAlloc, getSVMAlloc in *. destruct (trackerGet p m) as [a|].
    + destruct Hget as [Ha Hha]. unfold trackerRemove.
      destruct (find_spec (underlyingBuffer a) m (tracked_ordered m Ht)) as [[v Hv]|[_ Hn]];
        [|by destruct (Hn _ Ha)].
      assert (v = a) as -> by (assert ((underlyingBuffer a, v) ∈ m) as Hin by (by eapply list_elem_of_lookup_2);
        by pose proof (ordered_key_inj m _ _ (tracked_ordered m Ht) Hin Ha eq_refl); simplify_eq).
      rewrite Hv. simpl. eexists. split; [done|]. pose proof (map_erase_Permutation _ _ _ Hv) as Hp'.
      assert (forall e, e ∈ map_erase (find (underlyingBuffer a) m) m -> e ∈ m) as Hsub by (intros e He; rewrite Hp'; by right).
      split; [|done]. split.
      * apply map_erase_ordered, Ht.
      * intros e He. by apply (tracked_key m Ht), Hsub.
      * intros e He. by apply (tracked_range m Ht), Hsub.
      * intros b c Hb Hc. apply (tracked_apart m Ht); by apply Hsub.
    + by exists m.
Qed.

Definition demo_svm : GraphicsAllocation := mkGraphicsAllocation 0x20000 0x4000 false false.

Example svm_tracker_correct_witness :
  getSVMAlloc 0x21000 (createSVMAlloc 100 true false (Some demo_svm) []).2 =
    Some (mkGraphicsAllocation 0x20000 0x4000 true true).
Proof.
  destruct (svm_tracker_correct [] 0x21000 100 true false demo_svm) as (_ & (_ & _ & _ & H2) & _);
    [apply tracked_nil|eval_decide..|intros ? Hin; by apply elem_of_nil in Hin|].
  rewrite decide_True in H2 by eval_decide. exact H2.
Defined.
