(* ===== verification/PageTable.v ===== *)
(** * Page tables

    Model of [runtime/memory_manager/page_table.{h,inl,cpp}],
    [physical_address_allocator.h] and [aub_mem_dump/page_table_entry_bits.h]:
    the multi-level GPU page tables that the simulation and capture back ends
    fill.  A table of level 0 ([PTE]) is a map from index to entry, one of
    level [n+1] ([PDE], [PDP], [PML4], and [PDPE] with two index bits) a map
    from index to tables of level [n].  A missing key is a null entry.  The
    tables allocate physical pages from the counter [mainAllocator]; only the
    main memory bank exists, any other one aborts in [reservePage].

    The calls to the [PageWalker] are returned as a list. *)

From S2P Require Import Prelude.
From S2P Require Import AlignedMemory.
Import MemoryConstants.

Definition nonValidBits : Z := 2 ^ 64 - 1.
Definition initialPageAddress : Z := 0x1000.

(** The page and the new value of [mainAllocator]. *)
Definition reservePage (mainAllocator size alignement : Z) : Z * Z :=
  let currentAddress := mainAllocator in
  let alignmentSize := alignUp 64 currentAddress alignement ⊟ currentAddress in
  let mainAllocator := mainAllocator ⊞ alignmentSize in
  (mainAllocator, mainAllocator ⊞ size).

Definition reserve4kPage (mainAllocator : Z) : Z * Z := reservePage mainAllocator pageSize pageSize.
Definition reserve64kPage (mainAllocator : Z) : Z * Z := reservePage mainAllocator pageSize64k pageSize64k.

(** One call of the page walker. *)
Record Call := mkCall { callAddr : Z; callSize : Z; callOffset : Z; callBits : Z }.

Fixpoint PT (n : nat) : Type :=
  match n with
  | O => gmap Z Z
  | S n' => gmap Z (PT n')
  end.

(** A new table: all entries null. *)
Definition newPT (n : nat) : PT n :=
  match n return PT n with
  | O => (∅ : gmap Z Z)
  | S n' => (∅ : gmap Z (PT n'))
  end.

(** [getBits] of a table whose sub-tables have nine index bits each. *)
Definition getBits (n : nat) (bits : Z) : Z := 9 * Z.of_nat n + bits.

(** The two updates of an entry: a new page, or new attribute bits. *)
Definition newEntryBits (entryBits : Z) : Z := Z.lor (Z.land entryBits pageMask) 0x1.

Definition ensureEntry (entry entryBits a : Z) : Z * Z :=
  if decide (entry = 0) then
    let '(tmp, a) := reserve4kPage a in (Z.lor tmp (newEntryBits entryBits), a)
  else if decide (entryBits <> nonValidBits)
  then (Z.lor (Z.land entry page4kEntryMask) (newEntryBits entryBits), a)
  else (entry, a).

(** The number of iterations of [for (index = indexStart; index <= indexEnd; index++)]. *)
Definition loopCount (indexStart indexEnd : Z) : nat := Z.to_nat (indexEnd - indexStart + 1).

(** [PTE::pageWalk] *)
Fixpoint pteWalkLoop (k : nat) (index rem size offset entryBits : Z) (t : gmap Z Z) (a : Z)
    : gmap Z Z * Z * list Call :=
  match k with
  | O => (t, a, [])
  | S k' =>
      let '(entry, a) := ensureEntry (default 0 (t !! index)) entryBits a in
      let t := <[index := entry]> t in
      let res := Z.land entry page4kEntryMask in
      let lSize := Z.min (pageSize - rem) size in
      let call := mkCall (Z.land res (not64 1) ⊞ rem) lSize offset (Z.land entry pageMask) in
      let '(t, a, calls) :=
        pteWalkLoop k' (index + 1) 0 (size ⊟ lSize) (offset ⊞ lSize) entryBits t a in
      (t, a, call :: calls)
  end.

Definition pteWalk (entryBits : Z) (t : gmap Z Z) (vm size offset a : Z) : gmap Z Z * Z * list Call :=
  let mask := Z.shiftl 1 9 - 1 in
  let indexStart := Z.land (Z.shiftr vm 12) mask in
  let indexEnd := Z.land (Z.shiftr (vm ⊞ size ⊟ 1) 12) mask in
  let rem := Z.land vm (pageSize - 1) in
  pteWalkLoop (loopCount indexStart indexEnd) indexStart rem size offset entryBits t a.

(** [PTE::map] *)
Fixpoint pteMapLoop (k : nat) (index entryBits : Z) (t : gmap Z Z) (a res : Z) : gmap Z Z * Z * Z :=
  match k with
  | O => (t, a, res)
  | S k' =>
      let '(entry, a) := ensureEntry (default 0 (t !! index)) entryBits a in
      pteMapLoop k' (index + 1) entryBits (<[index := entry]> t) a (Z.min (Z.land entry page4kEntryMask) res)
  end.

Definition pteMap (entryBits : Z) (t : gmap Z Z) (vm size a : Z) : gmap Z Z * Z * Z :=
  let mask := Z.shiftl 1 9 - 1 in
  let indexStart := Z.land (Z.shiftr vm 12) mask in
  let indexEnd := Z.land (Z.shiftr (vm ⊞ size ⊟ 1) 12) mask in
  let '(t, a, res) := pteMapLoop (loopCount indexStart indexEnd) indexStart entryBits t a (2 ^ 64 - 1) in
  (t, a, Z.land res (not64 (newEntryBits entryBits)) ⊞ Z.land vm (pageSize - 1)).

(** The bounds of the sub-range that entry [index] covers. *)
Definition subStart (shift index maskedVm : Z) : Z :=
  Z.max (Z.shiftl 1 shift ⊠ index) maskedVm.
Definition subEnd (shift index maskedVm size : Z) : Z :=
  Z.min (Z.shiftl 1 shift ⊠ (index + 1) ⊟ 1) (maskedVm ⊞ size ⊟ 1).

(** The loops of the generic levels; [child] is the sub-table's operation. *)
Section loops.
Context {C : Type} (newC : C).

Fixpoint walkLoop (child : C -> Z -> Z -> Z -> Z -> C * Z * list Call)
    (k : nat) (index shift maskedVm size offset : Z) (t : gmap Z C) (a : Z) : gmap Z C * Z * list Call :=
  match k with
  | O => (t, a, [])
  | S k' =>
      let vmStart := subStart shift index maskedVm in
      let vmEnd := subEnd shift index maskedVm size in
      let c := default newC (t !! index) in
      let '(c, a, calls) := child c vmStart (vmEnd ⊟ vmStart ⊞ 1) offset a in
      let '(t, a, calls') :=
        walkLoop child k' (index + 1) shift maskedVm size (offset ⊞ (vmEnd ⊟ vmStart ⊞ 1)) (<[index := c]> t) a in
      (t, a, calls ++ calls')
  end.

Fixpoint mapLoop (child : C -> Z -> Z -> Z -> C * Z * Z)
    (k : nat) (index shift maskedVm size : Z) (t : gmap Z C) (a res : Z) : gmap Z C * Z * Z :=
  match k with
  | O => (t, a, res)
  | S k' =>
      let vmStart := subStart shift index maskedVm in
      let vmEnd := subEnd shift index maskedVm size in
      let c := default newC (t !! index) in
      let '(c, a, r) := child c vmStart (vmEnd ⊟ vmStart ⊞ 1) a in
      mapLoop child k' (index + 1) shift maskedVm size (<[index := c]> t) a (Z.min r res)
  end.
End loops.

(** [PageTable<T, level, bits>::pageWalk] and [::map]. *)
Fixpoint pageWalk (n : nat) (bits entryBits : Z) : PT n -> Z -> Z -> Z -> Z -> PT n * Z * list Call :=
  match n return PT n -> Z -> Z -> Z -> Z -> PT n * Z * list Call with
  | O => pteWalk entryBits
  | S n' => fun t vm size offset a =>
      let shift := getBits n' 9 + 12 in
      let mask := Z.shiftl 1 bits - 1 in
      let indexStart := Z.land (Z.shiftr vm shift) mask in
      let indexEnd := Z.land (Z.shiftr (vm ⊞ size ⊟ 1) shift) mask in
      let vmMask := Z.shiftr (2 ^ 64 - 1) (64 - shift - bits) in
      let maskedVm := Z.land vm vmMask in
      walkLoop (newPT n') (pageWalk n' 9 entryBits) (loopCount indexStart indexEnd)
        indexStart shift maskedVm size offset t a
  end.

Fixpoint map (n : nat) (bits entryBits : Z) : PT n -> Z -> Z -> Z -> PT n * Z * Z :=
  match n return PT n -> Z -> Z -> Z -> PT n * Z * Z with
  | O => pteMap entryBits
  | S n' => fun t vm size a =>
      let shift := getBits n' 9 + 12 in
      let mask := Z.shiftl 1 bits - 1 in
      let indexStart := Z.land (Z.shiftr vm shift) mask in
      let indexEnd := Z.land (Z.shiftr (vm ⊞ size ⊟ 1) shift) mask in
      let vmMask := Z.shiftr (2 ^ 64 - 1) (64 - shift - bits) in
      let maskedVm := Z.land vm vmMask in
      mapLoop (newPT n') (map n' 9 entryBits) (loopCount indexStart indexEnd)
        indexStart shift maskedVm size t a (2 ^ 64 - 1)
  end.

(** ** The flat page table

    What the tree stands for: a function from page numbers to entries, 0 for
    an absent one. *)

Fixpoint entryAt (n : nat) : PT n -> Z -> Z :=
  match n return PT n -> Z -> Z with
  | O => fun t page => default 0 (t !! page)
  | S n' => fun t page =>
      match t !! (page / 2 ^ getBits n' 9) with
      | Some c => entryAt n' c (page mod 2 ^ getBits n' 9)
      | None => 0
      end
  end.

(** The part of a walk that falls on one page. *)
Record Piece := mkPiece { piecePage : Z; pieceRem : Z; pieceSize : Z; pieceOffset : Z }.

Fixpoint pieces (k : nat) (page rem size offset : Z) : list Piece :=
  match k with
  | O => []
  | S k' =>
      let l := Z.min (pageSize - rem) size in
      mkPiece page rem l offset :: pieces k' (page + 1) 0 (size - l) (offset + l)
  end.

Definition piecesOf (vm size offset : Z) : list Piece :=
  pieces (Z.to_nat ((vm + size - 1) / pageSize - vm / pageSize + 1)) (vm / pageSize) (vm mod pageSize) size offset.

Definition upd (f : Z -> Z) (p e : Z) : Z -> Z := fun q => if decide (q = p) then e else f q.

(** The specification of a walk: visit the pieces in order. *)
Fixpoint flatWalk (entryBits : Z) (ps : list Piece) (f : Z -> Z) (a : Z) : (Z -> Z) * Z * list Call :=
  match ps with
  | [] => (f, a, [])
  | p :: ps' =>
      let '(entry, a) := ensureEntry (f (piecePage p)) entryBits a in
      let call := mkCall (Z.land (Z.land entry page4kEntryMask) (not64 1) ⊞ pieceRem p) (pieceSize p)
                    (pieceOffset p) (Z.land entry pageMask) in
      let '(f, a, calls) := flatWalk entryBits ps' (upd f (piecePage p) entry) a in
      (f, a, call :: calls)
  end.

(** ** Pieces of a range *)

Lemma pieces_app k1 k2 page rem s1 s2 off :
  0 <= rem -> rem + s1 = pageSize * Z.of_nat k1 -> 0 <= s1 -> 0 <= s2 -> (k1 <> O -> rem < pageSize) ->
  pieces (k1 + k2) page rem (s1 + s2) off =
  pieces k1 page rem s1 off ++ pieces k2 (page + Z.of_nat k1) 0 s2 (off + s1).
Proof.
  change pageSize with 4096. revert page rem s1 off. induction k1 as [|k1 IH]; intros page rem s1 off Hr Hs Hs1 Hs2 Hk.
  { assert (rem = 0 /\ s1 = 0) as [-> ->] by lia. simpl. f_equal; lia. }
  simpl. change pageSize with 4096. specialize (Hk ltac:(done)).
  assert (Z.min (4096 - rem) (s1 + s2) = 4096 - rem /\ Z.min (4096 - rem) s1 = 4096 - rem) as [-> ->] by lia.
  f_equal. replace (s1 + s2 - (4096 - rem)) with ((s1 - (4096 - rem)) + s2) by lia.
  rewrite IH by lia. f_equal; f_equal; lia.
Qed.

Lemma piecesOf_app vm s1 s2 off :
  0 <= vm -> 0 < s1 -> 0 < s2 -> (vm + s1) mod pageSize = 0 ->
  piecesOf vm (s1 + s2) off = piecesOf vm s1 off ++ piecesOf (vm + s1) s2 (off + s1).
Proof.
  intros Hv H1 H2 Hal. unfold piecesOf. change pageSize with 4096 in *.
  set (k1 := Z.to_nat ((vm + s1 - 1) / 4096 - vm / 4096 + 1)).
  set (k2 := Z.to_nat ((vm + s1 + s2 - 1) / 4096 - (vm + s1) / 4096 + 1)).
  assert (Z.of_nat k1 = (vm + s1) / 4096 - vm / 4096) as Hk1 by (subst k1; mod_lia).
  replace (Z.to_nat ((vm + (s1 + s2) - 1) / 4096 - vm / 4096 + 1)) with (k1 + k2)%nat by (subst k2; mod_lia).
  rewrite pieces_app; [|mod_lia|change pageSize with 4096; mod_lia|lia|lia|change pageSize with 4096; intros _; mod_lia].
  f_equal. f_equal; [lia|]. by rewrite Hal.
Qed.

Lemma pieces_pages k page rem size off p :
  p ∈ pieces k page rem size off -> page <= piecePage p < page + Z.of_nat k.
Proof.
  revert page rem size off. induction k as [|k IH]; intros page rem size off; cbn [pieces].
  - intros Hp. by apply elem_of_nil in Hp.
  - intros [->|Hp]%elem_of_cons; [simpl; lia|]. apply IH in Hp. lia.
Qed.

Lemma piecesOf_pages vm size off p :
  0 <= vm -> 0 < size -> p ∈ piecesOf vm size off ->
  vm / pageSize <= piecePage p <= (vm + size - 1) / pageSize.
Proof.
  intros Hv Hs Hp. apply pieces_pages in Hp. change pageSize with 4096 in *. mod_lia.
Qed.

(** ** The flat walk *)

Lemma flatWalk_app eb ps1 ps2 f a :
  flatWalk eb (ps1 ++ ps2) f a =
  let '(f1, a1, c1) := flatWalk eb ps1 f a in
  let '(f2, a2, c2) := flatWalk eb ps2 f1 a1 in (f2, a2, c1 ++ c2).
Proof.
  revert f a. induction ps1 as [|p ps1 IH]; intros f a; simpl.
  { by destruct (flatWalk eb ps2 f a) as [[??]?]. }
  destruct (ensureEntry (f (piecePage p)) eb a) as [e a']. rewrite IH.
  destruct (flatWalk eb ps1 _ a') as [[f1 a1] c1]. by destruct (flatWalk eb ps2 f1 a1) as [[??]?].
Qed.

Lemma flatWalk_frame eb ps f a q :
  (forall p, p ∈ ps -> piecePage p <> q) -> (flatWalk eb ps f a).1.1 q = f q.
Proof.
  revert f a. induction ps as [|p ps IH]; intros f a Hq; simpl; [done|].
  destruct (ensureEntry (f (piecePage p)) eb a) as [e a'].
  specialize (IH (upd f (piecePage p) e) a' ltac:(intros; apply Hq; by right)).
  destruct (flatWalk eb ps _ a') as [[f1 a1] c1]. simpl in *. rewrite IH. unfold upd.
  rewrite decide_False; [done|]. intros ->. by apply (Hq p); [left|].
Qed.

(** ** The leaf level *)

Lemma pteWalkLoop_refines eb k index rem size off t a base f :
  (forall p, 0 <= p < 512 -> f (base + p) = default 0 (t !! p)) -> 0 <= index -> index + Z.of_nat k <= 512 ->
  0 <= rem < pageSize -> 0 <= size -> 0 <= off -> off + size < 2 ^ 64 ->
  let '(t', a', calls) := pteWalkLoop k index rem size off eb t a in
  let '(f', a2, calls2) := flatWalk eb (pieces k (base + index) rem size off) f a in
  a' = a2 /\ calls = calls2 /\ (forall p, 0 <= p < 512 -> f' (base + p) = default 0 (t' !! p)).
Proof.
  revert index rem size off t a f. induction k as [|k IH]; intros index rem size off t a f Hf Hi Hik Hr Hs Ho Hos; simpl; [done|].
  change pageSize with 4096 in *. rewrite Hf by lia. destruct (ensureEntry (default 0 (t !! index)) eb a) as [e a'].
  set (l := Z.min (4096 - rem) size). rewrite !(wrap_small 64 (size - l)), !(wrap_small 64 (off + l)) by word_lia.
  specialize (IH (index + 1) 0 (size - l) (off + l) (<[index := e]> t) a' (upd f (base + index) e)).
  change pageSize with 4096 in IH.
  destruct (pteWalkLoop k (index + 1) 0 (size - l) (off + l) eb (<[index := e]> t) a') as [[t' a2] c].
  replace (base + index + 1) with (base + (index + 1)) by lia.
  destruct (flatWalk eb _ _ a') as [[f2 a3] c2]. destruct IH as (-> & -> & Hf'); [|lia..|done].
  intros p Hp. unfold upd. destruct (decide (p = index)) as [->|Hne].
  - by rewrite decide_True, lookup_insert_eq by lia.
  - rewrite decide_False, lookup_insert_ne by lia. by apply Hf.
Qed.

(** ** Index arithmetic *)

Lemma index_masked vm Q W : 0 < Q -> 0 < W -> (vm / Q) mod W = (vm mod (Q * W)) / Q.
Proof.
  intros HQ HW. rewrite Z.rem_mul_r by lia. rewrite (Z.mul_comm Q (_ mod W)), Z.div_add by lia.
  rewrite (Z.div_small (vm mod Q)); [lia|]. by apply Z.mod_pos_bound.
Qed.

Lemma index_end vm size Q W :
  0 < Q -> 0 < W -> 0 <= vm -> 0 < size -> vm mod (Q * W) + size <= Q * W ->
  ((vm + size - 1) / Q) mod W = (vm mod (Q * W) + size - 1) / Q.
Proof.
  intros HQ HW Hv Hs Hr. rewrite index_masked by lia. f_equal.
  pose proof (Z.mod_pos_bound vm (Q * W) ltac:(lia)).
  rewrite (Z.div_mod vm (Q * W)) at 1 by lia.
  replace (Q * W * (vm / (Q * W)) + vm mod (Q * W) + size - 1)
    with (vm mod (Q * W) + size - 1 + (vm / (Q * W)) * (Q * W)) by lia.
  rewrite Z.mod_add by lia. apply Z.mod_small. lia.
Qed.

Lemma vm_mask_eq j : 0 <= j <= 64 -> Z.shiftr (2 ^ 64 - 1) (64 - j) = 2 ^ j - 1.
Proof.
  intros Hj. rewrite Z.shiftr_div_pow2 by lia.
  assert (2 ^ 64 = 2 ^ (64 - j) * 2 ^ j) as -> by (rewrite <- Z.pow_add_r by lia; f_equal; lia).
  assert (0 < 2 ^ (64 - j)) by lia. assert (0 < 2 ^ j) by lia.
  symmetry. apply Z.div_unique with (2 ^ (64 - j) - 1); lia.
Qed.

(** ** The refinement, level by level *)

(** The tree of level [n] rooted at page [base] and the flat table agree. *)
Definition agrees (n : nat) (N base : Z) (f : Z -> Z) (t : PT n) : Prop :=
  forall p, 0 <= p < N -> f (base + p) = entryAt n t p.

Definition walk_refines (n : nat) (bits eb : Z) : Prop :=
  let N := 2 ^ getBits n bits in
  forall t vm size off a base f,
  agrees n N base f t -> 0 <= base -> 0 <= vm -> 0 < size -> vm + size < 2 ^ 64 ->
  vm mod (pageSize * N) + size <= pageSize * N -> 0 <= off -> off + size < 2 ^ 64 ->
  let '(t', a', calls) := pageWalk n bits eb t vm size off a in
  let '(f', a2, calls2) := flatWalk eb (piecesOf (pageSize * base + vm mod (pageSize * N)) size off) f a in
  a' = a2 /\ calls = calls2 /\ agrees n N base f' t'.

Lemma pow_getBits_pos n : 0 < 2 ^ getBits n 9.
Proof. apply Z.pow_pos_nonneg; [lia|unfold getBits; lia]. Qed.

Lemma entryAt_S n (t : gmap Z (PT n)) page :
  entryAt (S n) t page =
  match t !! (page / 2 ^ getBits n 9) with
  | Some c => entryAt n c (page mod 2 ^ getBits n 9)
  | None => 0
  end.
Proof. reflexivity. Qed.

Lemma entryAt_0 (t : gmap Z Z) page : entryAt 0 t page = default 0 (t !! page).
Proof. reflexivity. Qed.

Lemma newPT_entry n p : entryAt n (newPT n) p = 0.
Proof. destruct n; simpl; by rewrite lookup_empty. Qed.

(** What one sub-table stands for. *)
Lemma agrees_child n W base f (t : gmap Z (PT n)) i :
  let B := 2 ^ getBits n 9 in
  agrees (S n) (B * W) base f t -> 0 <= i < W ->
  agrees n B (base + B * i) f (default (newPT n) (t !! i)).
Proof.
  intros B Ha Hi p Hp. assert (0 < B) as HB by lia. rewrite <- Z.add_assoc. rewrite Ha by nia. rewrite entryAt_S. fold B.
  replace ((B * i + p) / B) with i by (apply Z.div_unique with p; lia).
  replace ((B * i + p) mod B) with p by (apply Z.mod_unique with i; lia).
  destruct (t !! i) as [c|]; simpl; [done|]. by rewrite newPT_entry.
Qed.

Lemma agrees_insert n W base f f' (t : gmap Z (PT n)) i c :
  let B := 2 ^ getBits n 9 in
  agrees (S n) (B * W) base f t -> 0 <= i < W -> agrees n B (base + B * i) f' c ->
  (forall q, ~ (base + B * i <= q < base + B * i + B) -> f' q = f q) ->
  agrees (S n) (B * W) base f' (<[i := c]> t).
Proof.
  intros B Ha Hi Hc Hfr p Hp. assert (0 < B) as HB by apply pow_getBits_pos. rewrite entryAt_S. fold B.
  pose proof (Z.div_mod p B ltac:(lia)) as Hdm. pose proof (Z.mod_pos_bound p B HB) as Hm.
  destruct (decide (p / B = i)) as [<-|Hne].
  - rewrite lookup_insert_eq. rewrite <- Hc by lia. f_equal. lia.
  - rewrite lookup_insert_ne by done. rewrite Hfr; [by apply Ha|]. nia.
Qed.

Lemma walkLoop_refines n eb W k index mv size off (t : gmap Z (PT n)) a base f :
  let B := 2 ^ getBits n 9 in
  let Q := pageSize * B in
  let shift := getBits n 9 + 12 in
  let vs := Z.max (Q * index) mv in
  walk_refines n 9 eb -> Q * W < 2 ^ 63 ->
  agrees (S n) (B * W) base f t -> 0 <= base -> 0 <= mv -> 0 < size -> mv + size <= Q * W ->
  mv / Q <= index <= (mv + size - 1) / Q -> k = loopCount index ((mv + size - 1) / Q) ->
  0 <= off -> off + (mv + size - vs) < 2 ^ 64 ->
  let '(t', a', calls) := walkLoop (newPT n) (pageWalk n 9 eb) k index shift mv size off t a in
  let '(f', a2, calls2) := flatWalk eb (piecesOf (pageSize * base + vs) (mv + size - vs) off) f a in
  a' = a2 /\ calls = calls2 /\ agrees (S n) (B * W) base f' t'.
Proof.
  intros B Q shift vs Hch HW63. subst vs. revert index off t a f.
  induction k as [|k IH]; intros index off t a f Ha Hbase Hmv Hsz Hin Hidx Hk Ho Hos; [unfold loopCount in Hk; lia|].
  assert (0 < B) as HB by apply pow_getBits_pos. assert (0 < Q) as HQ by (subst Q; change pageSize with 4096; lia).
  pose proof (Z.div_pos mv Q Hmv HQ) as Hi0.
  pose proof (Z.mul_div_le mv Q HQ) as Hml. pose proof (Z.mul_succ_div_gt mv Q HQ) as Hmg.
  pose proof (Z.mul_div_le (mv + size - 1) Q HQ) as Hel. pose proof (Z.mul_succ_div_gt (mv + size - 1) Q HQ) as Heg.
  set (ie := (mv + size - 1) / Q) in *. unfold Z.succ in *.
  assert (forall x y, x <= y -> Q * x <= Q * y) as Hmono by (intros; apply Z.mul_le_mono_nonneg_l; lia).
  assert (ie < W) as HieW by (apply (Z.mul_lt_mono_pos_l Q); lia). assert (0 <= index) as Hi1 by lia.
  pose proof (Hmono index ie ltac:(lia)) as Hqi. pose proof (Hmono (index + 1) W ltac:(lia)) as HqW.
  pose proof (Hmono 0 index Hi1) as Hq0. rewrite Z.mul_0_r in Hq0.
  cbn [walkLoop]. unfold subStart, subEnd.
  assert (Z.shiftl 1 shift = Q) as HshQ.
  { subst shift Q B. rewrite Z.shiftl_mul_pow2 by (unfold getBits; lia). rewrite Z.pow_add_r by (unfold getBits; lia).
    change pageSize with (2 ^ 12). lia. }
  rewrite HshQ. rewrite !(wrap_small 64 (Q * index)), !(wrap_small 64 (Q * (index + 1))) by (word_lia || lia).
  rewrite !(wrap_small 64 (Q * (index + 1) - 1)), !(wrap_small 64 (mv + size)) by word_lia.
  rewrite !(wrap_small 64 (mv + size - 1)) by word_lia.
  set (vs := Z.max (Q * index) mv) in *. set (ve := Z.min (Q * (index + 1) - 1) (mv + size - 1)).
  assert (mv < Q * (index + 1)) as Hmi by (pose proof (Hmono (mv / Q + 1) (index + 1) ltac:(lia)); lia).
  assert (Q * index <= vs <= ve /\ ve < Q * (index + 1) /\ ve < mv + size) as Hv.
  { subst vs ve. lia. }
  rewrite !(wrap_small 64 (ve - vs)), !(wrap_small 64 (ve - vs + 1)) by word_lia.
  assert (Q * W < 2 ^ 64) by lia.
  pose proof (Hch (default (newPT n) (t !! index)) vs (ve - vs + 1) off a (base + B * index) f) as Hc.
  cbv zeta in Hc. fold B in Hc. fold Q in Hc.
  assert (vs mod Q = vs - Q * index) as Hvm by (symmetry; apply Z.mod_unique with index; lia).
  rewrite Hvm in Hc.
  replace (pageSize * (base + B * index) + (vs - Q * index)) with (pageSize * base + vs) in Hc by (subst Q; lia).
  set (ps1 := piecesOf (pageSize * base + vs) (ve - vs + 1) off) in *.
  destruct (pageWalk n 9 eb (default (newPT n) (t !! index)) vs (ve - vs + 1) off a) as [[c1 a1] calls1].
  destruct (flatWalk eb ps1 f a) as [[f1 a2] calls2] eqn:Hfl.
  destruct Hc as (<- & <- & Hag); [apply (agrees_child n W base f t index Ha); lia|pose proof (Z.mul_nonneg_nonneg B index); lia|lia|lia|lia|lia|lia| |].
  { subst vs ve. destruct (decide (index = ie)); lia. }
  assert (agrees (S n) (B * W) base f1 (<[index := c1]> t)) as Ha1.
  { apply (agrees_insert n W base f f1 t index c1 Ha); [lia|done|]. intros q Hq.
    replace f1 with (flatWalk eb ps1 f a).1.1 by (by rewrite Hfl). apply flatWalk_frame. intros p Hp ->%eq_sym. apply Hq.
    apply piecesOf_pages in Hp; [|change pageSize with 4096 in *; lia|lia].
    fold B. revert Hp Hv. unfold Q. change pageSize with 4096. clear. intros Hp Hv. mod_lia. }
  destruct (decide (index = ie)) as [->|Hne].
  - assert (k = O) as -> by (unfold loopCount in Hk; lia). cbn [walkLoop].
    assert (ve = mv + size - 1) as Hve by (subst ve; lia).
    replace (mv + size - vs) with (ve - vs + 1) by lia. fold ps1. rewrite Hfl. rewrite app_nil_r. done.
  - pose proof (Hmono (index + 1) ie ltac:(lia)) as Hnx.
    assert (ve = Q * (index + 1) - 1) as Hve by (subst ve; lia).
    assert (Z.max (Q * (index + 1)) mv = ve + 1) as Hmax by (subst vs ve; lia).
    rewrite (wrap_small 64 (off + (ve - vs + 1))) by (subst vs ve; word_lia).
    specialize (IH (index + 1) (off + (ve - vs + 1)) (<[index := c1]> t) a1 f1 Ha1 Hbase Hmv Hsz Hin ltac:(lia)).
    rewrite Hmax in IH.
    assert (mv + size - vs = (ve - vs + 1) + (mv + size - (ve + 1))) as -> by lia.
    rewrite piecesOf_app; [|change pageSize with 4096 in *; lia|lia|lia|].
    2: { replace (pageSize * base + vs + (ve - vs + 1)) with ((base + B * (index + 1)) * pageSize) by (subst Q; lia).
         by apply Z.mod_mul. }
    replace (pageSize * base + vs + (ve - vs + 1)) with (pageSize * base + (ve + 1)) by lia. fold ps1.
    rewrite flatWalk_app, Hfl.
    destruct (walkLoop (newPT n) (pageWalk n 9 eb) k (index + 1) shift mv size (off + (ve - vs + 1)) (<[index := c1]> t) a1) as [[t2 a3] calls3].
    destruct (flatWalk eb (piecesOf (pageSize * base + (ve + 1)) (mv + size - (ve + 1)) (off + (ve - vs + 1))) f1 a1) as [[f2 a4] calls4].
    destruct IH as (-> & -> & Hag2); [unfold loopCount in *; lia|lia|lia|]. done.
Qed.

Lemma pteWalk_refines eb : walk_refines 0 9 eb.
Proof.
  unfold walk_refines. change (getBits 0 9) with 9. cbv zeta.
  intros t vm size off a base f Ha Hb Hv Hs Hvs Hr Ho Hos. change (pageWalk 0 9 eb) with (pteWalk eb).
  unfold pteWalk. change (Z.shiftl 1 9 - 1) with (2 ^ 9 - 1).
  change (pageSize - 1) with (2 ^ 12 - 1). rewrite (wrap_small 64 (vm + size)), (wrap_small 64 (vm + size - 1)) by word_lia.
  rewrite !Z.shiftr_div_pow2, !land_low_ones by lia. change (2 ^ 12) with pageSize.
  set (mv := vm mod (pageSize * 2 ^ 9)) in *.
  assert ((vm / pageSize) mod 2 ^ 9 = mv / pageSize) as -> by (apply index_masked; done).
  assert (((vm + size - 1) / pageSize) mod 2 ^ 9 = (mv + size - 1) / pageSize) as -> by (by apply index_end).
  assert (vm mod pageSize = mv mod pageSize) as ->.
  { subst mv. change pageSize with 4096. mod_lia. }
  assert (0 <= mv) as Hmv by (subst mv; change pageSize with 4096; mod_lia). clearbody mv.
  unfold piecesOf.
  assert ((pageSize * base + mv) / pageSize = base + mv / pageSize) as -> by (change pageSize with 4096; mod_lia).
  assert ((pageSize * base + mv) mod pageSize = mv mod pageSize) as -> by (change pageSize with 4096; mod_lia).
  assert (Z.to_nat ((pageSize * base + mv + size - 1) / pageSize - (base + mv / pageSize) + 1) =
    loopCount (mv / pageSize) ((mv + size - 1) / pageSize)) as -> by (unfold loopCount; change pageSize with 4096; mod_lia).
  apply (pteWalkLoop_refines eb _ (mv / pageSize) (mv mod pageSize) size off t a base f Ha); unfold loopCount;
    change pageSize with 4096 in *; mod_lia.
Qed.

Lemma pageWalk_refines n bits eb :
  (n = O -> bits = 9) -> 0 <= bits -> getBits n bits <= 50 -> walk_refines n bits eb.
Proof.
  revert bits. induction n as [|n IH]; intros bits H0 Hbits Hmax; [rewrite H0 by done; apply pteWalk_refines|].
  assert (walk_refines n 9 eb) as Hch by (apply IH; [done|lia|unfold getBits in *; lia]). clear IH H0.
  unfold walk_refines. cbv zeta.
  set (B := 2 ^ getBits n 9). set (Q := pageSize * B). set (W := 2 ^ bits).
  assert (2 ^ getBits (S n) bits = B * W) as HN.
  { subst B W. rewrite <- Z.pow_add_r by (unfold getBits; lia). f_equal. unfold getBits. lia. }
  rewrite HN. intros t vm size off a base f Ha Hb Hv Hs Hvs Hr Ho Hos.
  replace (pageSize * (B * W)) with (Q * W) in * by (subst Q; lia).
  assert (0 < B) as HB by apply pow_getBits_pos. assert (0 < W) as HW by (subst W; lia).
  assert (0 < Q) as HQ by (subst Q; change pageSize with 4096; lia).
  assert (Q = 2 ^ (getBits n 9 + 12)) as HQp.
  { subst Q B. rewrite Z.pow_add_r by (unfold getBits; lia). change pageSize with (2 ^ 12). lia. }
  assert (Q * W < 2 ^ 63) as HQW.
  { subst W. rewrite HQp, <- Z.pow_add_r by (unfold getBits; lia). apply Z.pow_lt_mono_r; unfold getBits in *; lia. }
  cbn [pageWalk]. rewrite (wrap_small 64 (vm + size)), (wrap_small 64 (vm + size - 1)) by word_lia.
  rewrite Z.shiftl_1_l. rewrite !Z.shiftr_div_pow2, !land_low_ones by (unfold getBits; lia). rewrite <- HQp. fold W.
  replace (64 - (getBits n 9 + 12) - bits) with (64 - (getBits n 9 + 12 + bits)) by lia.
  assert (Z.shiftr (2 ^ 64 - 1) (64 - (getBits n 9 + 12 + bits)) = Q * W - 1) as ->.
  { rewrite vm_mask_eq by (unfold getBits in *; lia).
    rewrite (Z.pow_add_r _ (getBits n 9 + 12)) by (unfold getBits; lia). by rewrite <- HQp. }
  assert (Z.land vm (Q * W - 1) = vm mod (Q * W)) as ->.
  { rewrite HQp. subst W. rewrite <- Z.pow_add_r by (unfold getBits; lia). apply land_low_ones. unfold getBits; lia. }
  rewrite index_masked, index_end by lia.
  pose proof (Z.mod_pos_bound vm (Q * W) ltac:(lia)) as Hmv. set (mv := vm mod (Q * W)) in *. clearbody mv.
  assert (Q * (mv / Q) <= mv) as Hle by (apply Z.mul_div_le; lia).
  pose proof (walkLoop_refines n eb W (loopCount (mv / Q) ((mv + size - 1) / Q)) (mv / Q) mv size off t a base f Hch HQW Ha Hb ltac:(lia) Hs ltac:(lia)) as HL.
  fold B in HL. fold Q in HL. rewrite Z.max_r in HL by lia.
  replace (mv + size - mv) with size in HL by lia. eapply HL; [|reflexivity|lia|lia].
  split; [lia|]. apply Z.div_le_mono; lia.
Qed.

(** ** What a walk does to the flat table *)

(** Physical page and attribute bits of an entry. *)
Definition phys (e : Z) : Z := e - e mod pageSize.
Definition attrs (e : Z) : Z := e mod pageSize.

Lemma phys_mask e : u64 e -> Z.land e page4kEntryMask = phys e.
Proof.
  intros He. unfold phys. change page4kEntryMask with (wnot 64 (2 ^ 12 - 1)). change pageSize with (2 ^ 12).
  apply land_wnot_ones; [done|lia].
Qed.

Lemma attrs_mask e : Z.land e pageMask = attrs e.
Proof. unfold attrs. change pageMask with (2 ^ 12 - 1). by apply land_low_ones. Qed.

Lemma newEntryBits_range eb : 0 < newEntryBits eb < pageSize.
Proof.
  unfold newEntryBits. rewrite attrs_mask. unfold attrs. change pageSize with (2 ^ 12).
  assert (uint 12 (Z.lor (eb mod 2 ^ 12) 1)) as Hr by (apply lor_range; unfold uint; mod_lia).
  assert (Z.testbit (Z.lor (eb mod 2 ^ 12) 1) 0 = true) as Hb by (by rewrite Z.lor_spec, orb_true_r).
  destruct (decide (Z.lor (eb mod 2 ^ 12) 1 = 0)) as [Hz|Hz]; [by rewrite Hz in Hb|]. unfold uint in Hr. lia.
Qed.

Lemma page_lor x b : u64 x -> x mod pageSize = 0 -> 0 < b < pageSize ->
  Z.lor x b = x + b /\ phys (x + b) = x /\ attrs (x + b) = b /\ x + b <> 0 /\ u64 (x + b).
Proof.
  intros Hx Hm Hb. change pageSize with 4096 in *. assert (Z.lor x b = x + b) as ->.
  { replace x with (x / 4096 * 2 ^ 12) by mod_lia. rewrite Z.lor_comm, lor_high_add by lia. lia. }
  unfold phys, attrs. change pageSize with 4096. split_and!; mod_lia.
Qed.

(** The allocator hands out the page it stands at. *)
Lemma reserve4kPage_spec a :
  0 <= a -> a mod pageSize = 0 -> a + 2 * pageSize < 2 ^ 64 -> reserve4kPage a = (a, a + pageSize).
Proof.
  intros H0 Hm Ha. unfold reserve4kPage, reservePage. change pageSize with 4096 in *.
  destruct (alignUp_page a) as [Hu Hum]; [lia..|]. change pageSize with 4096 in *.
  assert (alignUp 64 a 4096 = a) as -> by mod_lia. rewrite Z.sub_diag. unwrap. f_equal; f_equal; lia.
Qed.

Lemma ensureEntry_spec e eb a :
  u64 e -> 0 < a -> a mod pageSize = 0 -> a + 2 * pageSize < 2 ^ 64 ->
  let '(e', a') := ensureEntry e eb a in
  u64 e' /\ e' <> 0 /\ phys e' = (if decide (e = 0) then a else phys e) /\
  attrs e' = (if decide (e <> 0 /\ eb = nonValidBits) then attrs e else newEntryBits eb) /\
  a' = (if decide (e = 0) then a + pageSize else a).
Proof.
  intros He H0 Hm Ha. unfold ensureEntry. pose proof (newEntryBits_range eb) as Hnb. case_decide as Hz.
  - rewrite reserve4kPage_spec by (done || lia).
    destruct (page_lor a (newEntryBits eb)) as (-> & H1 & H2 & H3 & H4); [change pageSize with 4096 in *; word_lia|done..|].
    rewrite decide_False by tauto. by split_and!.
  - case_decide as Hv.
    + rewrite phys_mask by done.
      destruct (page_lor (phys e) (newEntryBits eb)) as (-> & H1 & H2 & H3 & H4);
        [unfold phys; change pageSize with 4096; mod_lia|unfold phys; change pageSize with 4096; mod_lia|done|].
      rewrite decide_False by tauto. by split_and!.
    + rewrite decide_True by done. by split_and!.
Qed.

(** Entries are words, and present ones have distinct physical pages below
    the allocator. *)
Record table_ok (N : Z) (f : Z -> Z) (a : Z) : Prop := {
  ok_alloc : 0 < a /\ a mod pageSize = 0;
  ok_word : forall p, 0 <= p < N -> u64 (f p);
  ok_below : forall p, 0 <= p < N -> f p <> 0 -> phys (f p) < a;
  ok_inj : forall p q, 0 <= p < N -> 0 <= q < N -> p <> q -> f p <> 0 -> f q <> 0 -> phys (f p) <> phys (f q)
}.

Lemma ensure_table_ok N f a p eb :
  table_ok N f a -> 0 <= p < N -> a + 2 * pageSize < 2 ^ 64 ->
  let '(e, a') := ensureEntry (f p) eb a in
  table_ok N (upd f p e) a' /\ a <= a' <= a + pageSize /\ e <> 0 /\ u64 e /\ (f p <> 0 -> phys e = phys (f p)).
Proof.
  intros [[H0 Hm] Hw Hb Hi] Hp Ha. pose proof (ensureEntry_spec (f p) eb a (Hw p Hp) H0 Hm Ha) as He.
  destruct (ensureEntry (f p) eb a) as [e a']. destruct He as (E1 & E2 & E3 & _ & E5).
  change pageSize with 4096 in *. split_and!.
  - split.
    + destruct (decide (f p = 0)); subst a'; change pageSize with 4096; mod_lia.
    + intros q Hq. unfold upd. destruct (decide (q = p)); [done|by apply Hw].
    + intros q Hq. unfold upd. destruct (decide (q = p)) as [Hqp|Hqp].
      * intros _. rewrite E3. destruct (decide (f p = 0)); [lia|]. specialize (Hb p Hp ltac:(done)). lia.
      * intros Hnz. specialize (Hb q Hq Hnz). destruct (decide (f p = 0)); lia.
    + intros q r Hq Hr Hne. unfold upd. destruct (decide (q = p)), (decide (r = p)); subst q r || subst q || subst r || idtac; try done; intros Hnq Hnr; try by apply Hi.
      * rewrite E3. destruct (decide (f p = 0)); [specialize (Hb r Hr Hnr); lia|by apply Hi].
      * rewrite E3. destruct (decide (f p = 0)); [specialize (Hb q Hq Hnq); lia|by apply Hi].
  - destruct (decide (f p = 0)); lia.
  - destruct (decide (f p = 0)); lia.
  - done.
  - done.
  - intros Hnz. by rewrite decide_False in E3 by done.
Qed.

(** The calls of a walk over [v, v+size) with respect to the final table:
    consecutive, one page each, with the translated address and the
    attributes of the entry. *)
Fixpoint calls_cover (f : Z -> Z) (v off size : Z) (calls : list Call) : Prop :=
  match calls with
  | [] => size = 0
  | c :: calls' =>
      callOffset c = off /\ 0 < callSize c <= size /\ v mod pageSize + callSize c <= pageSize /\
      f (v / pageSize) <> 0 /\ callAddr c = phys (f (v / pageSize)) + v mod pageSize /\
      callBits c = attrs (f (v / pageSize)) /\
      calls_cover f (v + callSize c) (off + callSize c) (size - callSize c) calls'
  end.

Lemma call_addr e r : u64 e -> 0 <= r < pageSize -> Z.land (Z.land e page4kEntryMask) (not64 1) ⊞ r = phys e + r.
Proof.
  intros He Hr. rewrite phys_mask by done. change (not64 1) with (wnot 64 (2 ^ 1 - 1)).
  change pageSize with 4096 in *. assert (u64 (phys e)) by (unfold phys; change pageSize with 4096; mod_lia).
  rewrite land_wnot_ones by (done || lia). unfold phys in *. change pageSize with 4096 in *. change (2 ^ 1) with 2.
  rewrite wrap_small by mod_lia. mod_lia.
Qed.

Lemma flatWalk_spec N eb k page rem size off f a :
  table_ok N f a -> 0 <= page -> 0 <= rem < pageSize -> 0 <= size -> page + Z.of_nat k <= N ->
  rem + size <= pageSize * Z.of_nat k -> (k <> O -> pageSize * (Z.of_nat k - 1) < rem + size /\ 0 < size) ->
  a + pageSize * (Z.of_nat k + 2) < 2 ^ 64 ->
  let '(f', a', calls) := flatWalk eb (pieces k page rem size off) f a in
  table_ok N f' a' /\ a <= a' <= a + pageSize * Z.of_nat k /\
  calls_cover f' (pageSize * page + rem) off size calls /\
  (forall p, 0 <= p < N -> f p <> 0 -> f' p <> 0 /\ phys (f' p) = phys (f p)).
Proof.
  revert page rem size off f a. induction k as [|k IH]; intros page rem size off f a Hok Hpg Hrem Hs HN Hcov Hk Ha.
  { change pageSize with 4096 in *. simpl. split_and!; try done; lia. }
  destruct (Hk ltac:(done)) as [Hk1 Hk2]. cbn [pieces flatWalk piecePage pieceRem pieceSize pieceOffset].
  change pageSize with 4096 in *. set (l := Z.min (4096 - rem) size).
  pose proof (ensure_table_ok N f a page eb Hok ltac:(lia)) as He. change pageSize with 4096 in He.
  destruct (ensureEntry (f page) eb a) as [e a1]. destruct He as (Hok1 & Ha1 & Hez & Hew & Hkeep); [lia|].
  specialize (IH (page + 1) 0 (size - l) (off + l) (upd f page e) a1 Hok1). change pageSize with 4096 in IH.
  pose proof (flatWalk_frame eb (pieces k (page + 1) 0 (size - l) (off + l)) (upd f page e) a1 page) as Hfr.
  destruct (flatWalk eb _ (upd f page e) a1) as [[f2 a2] calls].
  destruct IH as (Hok2 & Ha2 & Hcalls & Hkeep2); [lia..|].
  assert (f2 page = e) as Hpage.
  { etrans; [apply Hfr; intros p Hp; apply pieces_pages in Hp; lia|]. unfold upd. by rewrite decide_True. }
  split_and!; [done|lia|lia| |].
  - cbn [calls_cover callOffset callSize callAddr callBits]. change pageSize with 4096.
    replace ((4096 * page + rem) / 4096) with page by mod_lia.
    replace ((4096 * page + rem) mod 4096) with rem by mod_lia. rewrite Hpage.
    split_and!; [done|lia|lia|lia|done|by apply call_addr|apply attrs_mask|].
    destruct (decide (size = l)) as [Hl|Hl].
    + replace (size - l) with 0 in * by lia. destruct calls as [|c calls]; [done|].
      exfalso. destruct Hcalls as (_ & ? & _). lia.
    + by replace (4096 * page + rem + l) with (4096 * (page + 1) + 0) by lia.
  - intros p Hp Hnz. destruct (decide (p = page)) as [->|Hne].
    + rewrite Hpage. by split; [|apply Hkeep].
    + destruct (Hkeep2 p Hp) as [? ?]; unfold upd in *; rewrite decide_False in * by done; done.
Qed.

(** ** [map] and [pageWalk] fill the same entries *)

Lemma pteMapLoop_state k index rem size off eb t a res :
  (pteMapLoop k index eb t a res).1 = (pteWalkLoop k index rem size off eb t a).1.
Proof.
  revert index rem size off t a res. induction k as [|k IH]; intros index rem size off t a res; cbn [pteMapLoop pteWalkLoop]; [done|].
  destruct (ensureEntry (default 0 (t !! index)) eb a) as [e a'].
  rewrite (IH _ 0 (size ⊟ Z.min (pageSize - rem) size) (off ⊞ Z.min (pageSize - rem) size)).
  by destruct (pteWalkLoop k _ _ _ _ _ _ _) as [[??]?].
Qed.

Lemma mapLoop_state {C} (newC : C) mchild wchild k index shift mv size off (t : gmap Z C) a res :
  (forall c vm s o a, (mchild c vm s a).1 = (wchild c vm s o a).1) ->
  (mapLoop newC mchild k index shift mv size t a res).1 = (walkLoop newC wchild k index shift mv size off t a).1.
Proof.
  intros Hch. revert index off t a res. induction k as [|k IH]; intros index off t a res; cbn [mapLoop walkLoop]; [done|].
  set (vs := subStart shift index mv). set (s := subEnd shift index mv size ⊟ vs ⊞ 1).
  pose proof (Hch (default newC (t !! index)) vs s off a) as Hc.
  destruct (mchild _ vs s a) as [[c1 a1] r], (wchild _ vs s off a) as [[c2 a2] calls]. simpl in Hc. simplify_eq.
  rewrite (IH _ (off ⊞ s)). by destruct (walkLoop newC wchild k _ _ _ _ _ _ _) as [[??]?].
Qed.

Lemma map_state n bits eb t vm size off a :
  (map n bits eb t vm size a).1 = (pageWalk n bits eb t vm size off a).1.
Proof.
  revert bits t vm size off a. induction n as [|n IH]; intros bits t vm size off a; cbn [map pageWalk].
  - unfold pteMap, pteWalk. 
    set (k := loopCount _ _). set (i := Z.land (Z.shiftr vm 12) _).
    pose proof (pteMapLoop_state k i (Z.land vm (pageSize - 1)) size off eb t a (2 ^ 64 - 1)) as Hs.
    by destruct (pteMapLoop k i eb t a (2 ^ 64 - 1)) as [[??]?].
  - apply mapLoop_state. intros. apply IH.
Qed.

(** A range inside one page: [map] returns the translation of its start. *)
Lemma map_single n bits eb t vm size a :
  let N := 2 ^ getBits n bits in
  (n = O -> bits = 9) -> 0 <= bits -> getBits n bits <= 50 ->
  0 <= vm -> 0 < size -> vm mod pageSize + size <= pageSize -> vm + size < 2 ^ 64 ->
  let '(t', _, r) := map n bits eb t vm size a in
  let e := entryAt n t' (vm mod (pageSize * N) / pageSize) in
  u64 e -> r = phys e + vm mod pageSize.
Proof.
  revert bits t vm a. induction n as [|n IH]; intros bits t vm a N H0 Hbits Hmax Hv Hs Hp Hvs.
  - pose proof (H0 eq_refl) as ->. subst N. cbn [map]. unfold pteMap. change (getBits 0 9) with 9.
    change (Z.shiftl 1 9 - 1) with (2 ^ 9 - 1). change (pageSize - 1) with (2 ^ 12 - 1).
    rewrite (wrap_small 64 (vm + size)), (wrap_small 64 (vm + size - 1)) by word_lia.
    rewrite !Z.shiftr_div_pow2, !land_low_ones by lia. change (2 ^ 12) with pageSize.
    rewrite !index_masked by done. change (2 ^ 9) with 512.
    assert ((vm + size - 1) mod (pageSize * 512) / pageSize = vm mod (pageSize * 512) / pageSize) as ->
      by (change pageSize with 4096 in *; mod_lia).
    set (i := vm mod (pageSize * 512) / pageSize). unfold loopCount. replace (i - i + 1) with 1 by lia.
    simpl pteMapLoop. destruct (ensureEntry _ eb a) as [e a']. rewrite entryAt_0.
    rewrite lookup_insert_eq. simpl default. intros He. rewrite phys_mask by done.
    assert (phys e mod pageSize = 0 /\ u64 (phys e)) as [Hpm Hpu] by (unfold phys; change pageSize with 4096; mod_lia).
    rewrite Z.min_l by word_lia. pose proof (newEntryBits_range eb) as Hnb.
    assert (Z.land (phys e) (not64 (newEntryBits eb)) = phys e) as ->.
    { apply Z.bits_inj'. intros j Hj. rewrite Z.land_spec. destruct (decide (j < 64)); [|by rewrite (testbit_high _ 64) by word_lia].
      rewrite wnot_testbit by (change pageSize with 4096 in *; word_lia).
      destruct (decide (j < 12)).
      - replace (phys e) with (phys e / 4096 * 2 ^ 12) by (change pageSize with 4096 in *; mod_lia).
        by rewrite Z.mul_pow2_bits_low by lia.
      - rewrite (testbit_high (newEntryBits eb) 12) by (change pageSize with 4096 in *; lia). apply andb_true_r. }
    rewrite wrap_small by (change pageSize with 4096 in *; mod_lia). done.
  - cbn [map]. set (B := 2 ^ getBits n 9). set (Q := pageSize * B). set (W := 2 ^ bits).
    assert (0 < B) as HB by apply pow_getBits_pos. assert (0 < W) as HW by (subst W; lia).
    assert (0 < Q) as HQ by (subst Q; change pageSize with 4096; lia).
    assert (pageSize * N = Q * W) as HN.
    { subst N Q B W. rewrite <- Z.mul_assoc, <- Z.pow_add_r by (unfold getBits; lia). do 2 f_equal. unfold getBits. lia. }
    assert (Q = 2 ^ (getBits n 9 + 12)) as HQp.
    { subst Q B. rewrite Z.pow_add_r by (unfold getBits; lia). change pageSize with (2 ^ 12). lia. }
    assert (Q * W < 2 ^ 63) as HQW.
    { subst W. rewrite HQp, <- Z.pow_add_r by (unfold getBits; lia). apply Z.pow_lt_mono_r; unfold getBits in *; lia. }
    rewrite (wrap_small 64 (vm + size)), (wrap_small 64 (vm + size - 1)) by word_lia.
    rewrite Z.shiftl_1_l. rewrite !Z.shiftr_div_pow2, !land_low_ones by (unfold getBits; lia). rewrite <- HQp. fold W.
    replace (64 - (getBits n 9 + 12) - bits) with (64 - (getBits n 9 + 12 + bits)) by lia.
    assert (Z.shiftr (2 ^ 64 - 1) (64 - (getBits n 9 + 12 + bits)) = Q * W - 1) as ->.
    { rewrite vm_mask_eq by (unfold getBits in *; lia).
      rewrite (Z.pow_add_r _ (getBits n 9 + 12)) by (unfold getBits; lia). by rewrite <- HQp. }
    assert (Z.land vm (Q * W - 1) = vm mod (Q * W)) as ->.
    { rewrite HQp. subst W. rewrite <- Z.pow_add_r by (unfold getBits; lia). apply land_low_ones. unfold getBits; lia. }
    pose proof (Z.mod_pos_bound vm (Q * W) ltac:(lia)) as Hmv.
    assert (vm mod (Q * W) mod pageSize = vm mod pageSize) as Hmp.
    { subst Q. rewrite <- Z.mul_assoc. rewrite Z.rem_mul_r by (change pageSize with 4096 in *; lia).
      rewrite (Z.mul_comm pageSize), Z.mod_add by done. by rewrite Z.mod_mod. }
    assert (vm mod (Q * W) + size <= Q * W) as Hfit.
    { pose proof (Z.div_mod (vm mod (Q * W)) pageSize ltac:(done)) as Hdm. rewrite Hmp in Hdm.
      assert (Q * W = pageSize * (B * W)) as HQW2 by (subst Q; lia).
      assert (vm mod (Q * W) / pageSize < B * W) as Hlt by (apply Z.div_lt_upper_bound; [done|lia]).
      change pageSize with 4096 in *. lia. }
    rewrite index_end, index_masked by lia. rewrite HN.
    set (mv := vm mod (Q * W)) in *. rewrite <- Hmp in *. clearbody mv. clear Hv Hvs Hmp.
    set (i := mv / Q). pose proof (Z.div_mod mv Q ltac:(lia)) as Hdm. fold i in Hdm.
    pose proof (Z.mod_pos_bound mv Q HQ) as Hmq.
    assert (mv mod Q mod pageSize = mv mod pageSize) as Hmp.
    { subst Q. rewrite Z.rem_mul_r by (change pageSize with 4096 in *; lia).
      rewrite (Z.mul_comm pageSize), Z.mod_add by done. by rewrite Z.mod_mod. }
    assert (mv mod Q + size <= Q) as Hfq.
    { pose proof (Z.div_mod (mv mod Q) pageSize ltac:(done)) as Hd2. rewrite Hmp in Hd2.
      assert (mv mod Q / pageSize < B) as Hlt by (apply Z.div_lt_upper_bound; [done|subst Q; lia]).
      subst Q. change pageSize with 4096 in *. lia. }
    assert ((mv + size - 1) / Q = i) as -> by (symmetry; apply Z.div_unique with (mv mod Q + size - 1); lia).
    unfold loopCount. replace (i - i + 1) with 1 by lia. change (Z.to_nat 1) with 1%nat. cbn [mapLoop].
    assert (0 <= i) as Hi0 by (apply Z.div_pos; lia).
    assert (Q * (i + 1) <= Q * W) as Hi1.
    { apply Z.mul_le_mono_nonneg_l; [lia|]. assert (i < W); [|lia]. apply Z.div_lt_upper_bound; lia. }
    assert (0 <= Q * i) by (apply Z.mul_nonneg_nonneg; lia).
    unfold subStart, subEnd. rewrite Z.shiftl_1_l, <- HQp.
    rewrite !(wrap_small 64 (Q * i)), !(wrap_small 64 (Q * (i + 1))) by word_lia.
    rewrite !(wrap_small 64 (Q * (i + 1) - 1)), !(wrap_small 64 (mv + size)) by word_lia.
    rewrite !(wrap_small 64 (mv + size - 1)) by word_lia.
    rewrite Z.max_r, Z.min_r by lia. replace (mv + size - 1 - mv) with (size - 1) by lia.
    rewrite (wrap_small 64 (size - 1)), (wrap_small 64 (size - 1 + 1)) by word_lia.
    replace (size - 1 + 1) with size by lia.
    specialize (IH 9 (default (newPT n) ((t : gmap Z (PT n)) !! i)) mv a).
    cbv zeta in IH. fold B in IH. fold Q in IH.
    destruct (map n 9 eb _ mv size a) as [[c a'] r]. intros He.
    assert (entryAt (S n) (<[i := c]> (t : gmap Z (PT n))) (mv / pageSize) = entryAt n c (mv mod Q / pageSize)) as Heq.
    { rewrite entryAt_S. fold B. rewrite Z.div_div by (done || lia). fold Q. fold i. rewrite lookup_insert_eq. f_equal.
      rewrite index_masked by (done || lia). fold Q. done. }
    rewrite Heq in He |- *. rewrite (IH ltac:(done) ltac:(lia) ltac:(unfold getBits in *; lia) ltac:(lia) Hs Hp ltac:(lia) He).
    rewrite Z.min_l; [done|]. set (e := entryAt n c _) in *. clearbody e. clear -He.
    unfold phys. change pageSize with 4096. mod_lia.
Qed.

(** ** Properties *)

(** The shapes of table the source instantiates: [PML4] with four levels of
    nine bits, [PDPE] with two bits on top of two levels, and their parts. *)
Definition shape_ok (n : nat) (bits : Z) : Prop := (n = O -> bits = 9) /\ 0 <= bits /\ getBits n bits <= 50.

(** the recursive walk over the levels of a page table is the walk
    over a flat table: for a range that does not leave the table, the calls to
    the page walker, the pages taken from the physical allocator and the
    entries left behind are those of visiting the pages of the range one by
    one. *)
Theorem page_walk_refines_flat n bits eb t vm size off a :
  let N := 2 ^ getBits n bits in
  shape_ok n bits -> 0 <= vm -> 0 < size -> vm + size < 2 ^ 64 ->
  vm mod (pageSize * N) + size <= pageSize * N -> 0 <= off -> off + size < 2 ^ 64 ->
  let '(t', a', calls) := pageWalk n bits eb t vm size off a in
  let '(f, a2, calls2) := flatWalk eb (piecesOf (vm mod (pageSize * N)) size off) (entryAt n t) a in
  a' = a2 /\ calls = calls2 /\ forall p, 0 <= p < N -> f p = entryAt n t' p.
Proof.
  intros N (H0 & Hb & Hm) Hv Hs Hvs Hr Ho Hos.
  pose proof (pageWalk_refines n bits eb H0 Hb Hm t vm size off a 0 (entryAt n t)) as H.
  unfold walk_refines in H. cbv zeta in H. fold N in H. rewrite Z.mul_0_r, Z.add_0_l in H.
  by apply H.
Qed.

Example page_walk_refines_flat_witness :
  let '(t', a', calls) := pageWalk 3 9 1 (newPT 3) 0x1ff800 0x1000 0 0x1000 in
  let '(f, a2, calls2) := flatWalk 1 (piecesOf (0x1ff800 mod (pageSize * 2 ^ 36)) 0x1000 0) (entryAt 3 (newPT 3)) 0x1000 in
  a' = a2 /\ calls = calls2 /\ forall p, 0 <= p < 2 ^ 36 -> f p = entryAt 3 t' p.
Proof.
  apply (page_walk_refines_flat 3 9 1 (newPT 3) 0x1ff800 0x1000 0 0x1000); [split_and!; [done|eval_decide..]|eval_decide..].
Defined.

Lemma walk_table_ok n bits eb t vm size off a :
  let N := 2 ^ getBits n bits in
  shape_ok n bits -> table_ok N (entryAt n t) a ->
  0 <= vm -> 0 < size -> vm + size < 2 ^ 64 -> vm mod (pageSize * N) + size <= pageSize * N ->
  0 <= off -> off + size < 2 ^ 64 -> a + size + 4 * pageSize < 2 ^ 64 ->
  let '(t', a', calls) := pageWalk n bits eb t vm size off a in
  table_ok N (entryAt n t') a' /\
  calls_cover (entryAt n t') (vm mod (pageSize * N)) off size calls /\
  (forall p, 0 <= p < N -> entryAt n t p <> 0 ->
     entryAt n t' p <> 0 /\ phys (entryAt n t' p) = phys (entryAt n t p)) /\
  (forall p, 0 <= p < N ->
     ~ (vm mod (pageSize * N) / pageSize <= p <= (vm mod (pageSize * N) + size - 1) / pageSize) ->
     entryAt n t' p = entryAt n t p).
Proof.
  intros N (H0 & Hb & Hm) Hok Hv Hs Hvs Hr Ho Hos Ha.
  pose proof (pageWalk_refines n bits eb H0 Hb Hm t vm size off a 0 (entryAt n t)) as H.
  unfold walk_refines in H. cbv zeta in H. fold N in H. rewrite Z.mul_0_r, Z.add_0_l in H.
  assert (0 < N) as HN by (subst N; apply Z.pow_pos_nonneg; [lia|unfold getBits; lia]).
  set (mv := vm mod (pageSize * N)) in *.
  assert (0 <= mv) as Hmv by (apply Z.mod_pos_bound; change pageSize with 4096; lia). clearbody mv.
  set (k := Z.to_nat ((mv + size - 1) / pageSize - mv / pageSize + 1)).
  pose proof (flatWalk_spec N eb k (mv / pageSize) (mv mod pageSize) size off (entryAt n t) a Hok) as Hf.
  pose proof (fun q => flatWalk_frame eb (piecesOf mv size off) (entryAt n t) a q) as Hfr.
  unfold piecesOf in H, Hfr. fold k in H, Hfr.
  destruct (pageWalk n bits eb t vm size off a) as [[t' a'] calls].
  destruct (flatWalk eb _ (entryAt n t) a) as [[f a2] calls2].
  destruct H as (-> & -> & Hag); [done..|].
  change pageSize with 4096 in *.
  destruct Hf as (G1 & G2 & G3 & G4); [subst k; mod_lia..|].
  replace (4096 * (mv / 4096) + mv mod 4096) with mv in G3 by mod_lia.
  assert (forall p, 0 <= p < N -> entryAt n t' p = f p) as Hag' by (intros p Hp; by rewrite <- Hag by done).
  split_and!.
  - destruct G1 as [E1 E2 E3 E4]. split; [done|..].
    + intros p Hp. rewrite Hag' by done. by apply E2.
    + intros p Hp. rewrite Hag' by done. by apply E3.
    + intros p q Hp Hq. rewrite !Hag' by done. by apply E4.
  - clear -G3 Hag' Hr Hmv Hs HN. assert (mv + size <= 4096 * N) as Hmx by lia. clear Hr Hs. revert mv off size G3 Hmv Hmx.
    induction calls2 as [|c calls IH]; intros mv off size; cbn [calls_cover]; [done|].
    change pageSize with 4096. intros (C1 & C2 & C3 & C4 & C5 & C6 & C7) Hmv Hmx.
    rewrite Hag' by mod_lia. split_and!; try done; try lia. apply IH; [done|lia..].
  - intros p Hp. rewrite Hag' by done. by apply G4.
  - intros p Hp Hn. rewrite Hag' by done. simpl in Hfr. apply Hfr. intros q Hq ->%eq_sym. apply Hn.
    apply pieces_pages in Hq. subst k. mod_lia.
Qed.

(** C16: starting from a table whose present entries map distinct pages
    to distinct physical pages below the allocator, a walk over a range keeps
    that so, hands the page walker consecutive pieces of the range that never
    cross a page, each with the physical address and the attribute bits that
    the table gives its page afterwards, leaves the pages outside the range
    alone and never moves a page that was already mapped. *)
Theorem page_walk_translates n bits eb t vm size off a :
  let N := 2 ^ getBits n bits in
  shape_ok n bits -> table_ok N (entryAt n t) a ->
  0 <= vm -> 0 < size -> vm + size < 2 ^ 64 -> vm mod (pageSize * N) + size <= pageSize * N ->
  0 <= off -> off + size < 2 ^ 64 -> a + size + 4 * pageSize < 2 ^ 64 ->
  let '(t', a', calls) := pageWalk n bits eb t vm size off a in
  table_ok N (entryAt n t') a' /\
  calls_cover (entryAt n t') (vm mod (pageSize * N)) off size calls /\
  (forall p, 0 <= p < N -> entryAt n t p <> 0 ->
     entryAt n t' p <> 0 /\ phys (entryAt n t' p) = phys (entryAt n t p)) /\
  (forall p, 0 <= p < N ->
     ~ (vm mod (pageSize * N) / pageSize <= p <= (vm mod (pageSize * N) + size - 1) / pageSize) ->
     entryAt n t' p = entryAt n t p).
Proof. apply walk_table_ok. Qed.

Lemma newPT_ok n N : table_ok N (entryAt n (newPT n)) initialPageAddress.
Proof.
  split; [done|..]; intros p; [intros _; by rewrite newPT_entry|intros _; by rewrite newPT_entry|].
  intros q _ _ _. by rewrite newPT_entry.
Qed.

Example page_walk_translates_witness :
  let '(t', a', calls) := pageWalk 2 2 3 (newPT 2) 0xfff00 0x2000 0 initialPageAddress in
  table_ok (2 ^ 20) (entryAt 2 t') a' /\
  calls_cover (entryAt 2 t') (0xfff00 mod (pageSize * 2 ^ 20)) 0 0x2000 calls /\
  (forall p, 0 <= p < 2 ^ 20 -> entryAt 2 (newPT 2) p <> 0 ->
     entryAt 2 t' p <> 0 /\ phys (entryAt 2 t' p) = phys (entryAt 2 (newPT 2) p)) /\
  (forall p, 0 <= p < 2 ^ 20 ->
     ~ (0xfff00 mod (pageSize * 2 ^ 20) / pageSize <= p <= (0xfff00 mod (pageSize * 2 ^ 20) + 0x2000 - 1) / pageSize) ->
     entryAt 2 t' p = entryAt 2 (newPT 2) p).
Proof.
  apply (page_walk_translates 2 2 3 (newPT 2) 0xfff00 0x2000 0 initialPageAddress);
    [split_and!; [done|eval_decide..]|apply newPT_ok|eval_decide..].
Defined.

(** [map] leaves exactly the table and the allocator that [pageWalk]
    leaves, and for a range inside one page it returns the physical address of
    its first byte. *)
Theorem map_agrees_with_walk n bits eb t vm size a :
  let N := 2 ^ getBits n bits in
  shape_ok n bits -> table_ok N (entryAt n t) a ->
  0 <= vm -> 0 < size -> vm mod pageSize + size <= pageSize -> vm + size < 2 ^ 63 ->
  a + size + 4 * pageSize < 2 ^ 64 ->
  let '(t', a', r) := map n bits eb t vm size a in
  (t', a') = (pageWalk n bits eb t vm size 0 a).1 /\
  r = phys (entryAt n t' (vm mod (pageSize * N) / pageSize)) + vm mod pageSize.
Proof.
  intros N Hsh Hok Hv Hs Hp Hvs Ha. pose proof Hsh as (H0 & Hb & Hm).
  pose proof (map_state n bits eb t vm size 0 a) as Hst.
  pose proof (map_single n bits eb t vm size a H0 Hb Hm Hv Hs Hp ltac:(lia)) as Hsg. fold N in Hsg.
  pose proof (walk_table_ok n bits eb t vm size 0 a Hsh Hok Hv Hs ltac:(lia)) as Hw. fold N in Hw.
  destruct (map n bits eb t vm size a) as [[t' a'] r]. simpl in Hst.
  destruct (pageWalk n bits eb t vm size 0 a) as [[t2 a2] calls]. simpl in Hst |- *. simplify_eq.
  split; [done|]. apply Hsg.
  assert (0 < N) as HN by (subst N; apply Z.pow_pos_nonneg; [lia|unfold getBits; lia]).
  pose proof (Z.mod_pos_bound vm (pageSize * N) ltac:(change pageSize with 4096; lia)) as Hmv.
  assert (vm mod (pageSize * N) mod pageSize = vm mod pageSize) as Hmp.
  { rewrite Z.rem_mul_r by (change pageSize with 4096 in *; lia).
    rewrite (Z.mul_comm pageSize), Z.mod_add by done. by rewrite Z.mod_mod. }
  assert (vm mod (pageSize * N) / pageSize < N) as Hlt by (apply Z.div_lt_upper_bound; [done|lia]).
  pose proof (Z.div_mod (vm mod (pageSize * N)) pageSize ltac:(done)) as Hdm. rewrite Hmp in Hdm.
  destruct Hw as (Hok' & _); [change pageSize with 4096 in *; lia|lia|lia|done|].
  apply (ok_word _ _ _ Hok'). split; [apply Z.div_pos; [lia|done]|done].
Qed.

Example map_agrees_with_walk_witness :
  let '(t', a', r) := map 3 9 1 (newPT 3) 0x7fff12345678 16 initialPageAddress in
  (t', a') = (pageWalk 3 9 1 (newPT 3) 0x7fff12345678 16 0 initialPageAddress).1 /\
  r = phys (entryAt 3 t' (0x7fff12345678 mod (pageSize * 2 ^ 36) / pageSize)) + 0x7fff12345678 mod pageSize.
Proof.
  apply (map_agrees_with_walk 3 9 1 (newPT 3) 0x7fff12345678 16 initialPageAddress);
    [split_and!; [done|eval_decide..]|apply newPT_ok|eval_decide..].
Defined.
