(* ===== verification/IDList.v ===== *)
(** * Intrusive doubly linked lists

    Model of [runtime/utilities/idlist.h].  Nodes live in a heap from addresses
    to [prev]/[next] pairs, 0 being the null pointer; following a null or
    deleted node is [None].  The list is its [head] and [tail].  The loops that
    follow [next] or [prev] carry fuel, and the number of nodes in the heap is
    always enough for a well-formed list.

    In the thread-safe instances every operation runs between taking and
    clearing the [locked] flag ([processLocked]), so an execution with several
    threads is a sequence of these operations. *)

From S2P Require Import Prelude.

Record IDNode := mkNode { prev : Z; next : Z }.
Abbreviation heap := (gmap Z IDNode).
Record IDList := mkIDList { head : Z; tail : Z }.

Definition load (h : heap) (p : Z) : option IDNode := if decide (p = 0) then None else h !! p.
Definition setNext (p v : Z) (h : heap) : option heap :=
  n ← load h p; Some (<[p := mkNode (prev n) v]> h).
Definition setPrev (p v : Z) (h : heap) : option heap :=
  n ← load h p; Some (<[p := mkNode v (next n)]> h).

(** ** Operations of a node *)

Definition insertOneNext (this nd : Z) (h : heap) : option heap :=
  t ← load h this;
  h ← setNext nd (next t) h;
  h ← (if decide (next t <> 0) then setPrev (next t) nd h else Some h);
  h ← setPrev nd this h;
  setNext this nd h.

Definition insertOnePrev (this nd : Z) (h : heap) : option heap :=
  t ← load h this;
  h ← (if decide (prev t <> 0) then setNext (prev t) nd h else Some h);
  h ← setNext nd this h;
  h ← setPrev nd (prev t) h;
  setPrev this nd h.

(** The rest of the chain, which is cut off. *)
Definition slice (this : Z) (h : heap) : option (Z * heap) :=
  t ← load h this;
  h ← setNext this 0 h;
  h ← (if decide (next t <> 0) then setPrev (next t) 0 h else Some h);
  Some (next t, h).

Fixpoint getTailLoop (fuel : nat) (h : heap) (curr : Z) : option Z :=
  match fuel with
  | O => None
  | S fuel' =>
      n ← load h curr;
      if decide (next n <> 0) then getTailLoop fuel' h (next n) else Some curr
  end.
Definition getTail (h : heap) (this : Z) : option Z := getTailLoop (size h) h this.

Fixpoint getHeadLoop (fuel : nat) (h : heap) (curr : Z) : option Z :=
  match fuel with
  | O => None
  | S fuel' =>
      n ← load h curr;
      if decide (prev n <> 0) then getHeadLoop fuel' h (prev n) else Some curr
  end.
Definition getHead (h : heap) (this : Z) : option Z := getHeadLoop (size h) h this.

Definition insertAllNext (this rhs : Z) (h : heap) : option heap :=
  rhsTail ← getTail h rhs;
  t ← load h this;
  h ← setNext rhsTail (next t) h;
  h ← (if decide (next t <> 0) then setPrev (next t) rhsTail h else Some h);
  h ← setPrev rhs this h;
  setNext this rhs h.

(** [while (curr != nullptr) { n = curr->next; delete curr; curr = n; }] *)
Fixpoint deleteNextLoop (fuel : nat) (curr : Z) (h : heap) : option heap :=
  if decide (curr = 0) then Some h
  else match fuel with
  | O => None
  | S fuel' => n ← load h curr; deleteNextLoop fuel' (next n) (delete curr h)
  end.

Definition deleteThisAndAllNext (this : Z) (h : heap) : option heap :=
  t ← load h this;
  h' ← deleteNextLoop (size h) (next t) h;
  h' ← (if decide (prev t <> 0) then setNext (prev t) 0 h' else Some h');
  setNext this 0 h'.

(** The predecessors and successors, as the counting and the connection tests
    walk them. *)
Fixpoint successors (fuel : nat) (h : heap) (curr : Z) : option (list Z) :=
  if decide (curr = 0) then Some []
  else match fuel with
  | O => None
  | S fuel' => n ← load h curr; l ← successors fuel' h (next n); Some (curr :: l)
  end.

Definition countSuccessors (h : heap) (this : Z) : option nat :=
  n ← load h this; l ← successors (size h) h (next n); Some (length l).

Definition isPredecessorOf (h : heap) (this rhs : Z) : option bool :=
  n ← load h this; l ← successors (size h) h (next n); Some (bool_decide (rhs ∈ l)).

(** ** Operations of a list *)

Definition pushTailOneImpl (l : IDList) (node : Z) (h : heap) : option (IDList * heap) :=
  if decide (tail l = 0) then
    h ← setPrev node 0 h;
    h ← setNext node 0 h;
    Some (mkIDList node node, h)
  else
    h ← setNext node 0 h;
    h ← setPrev node (tail l) h;
    h ← setNext (tail l) node h;
    Some (mkIDList (head l) node, h).

Definition pushFrontOneImpl (l : IDList) (node : Z) (h : heap) : option (IDList * heap) :=
  if decide (head l = 0) then pushTailOneImpl l node h
  else
    h ← setPrev node 0 h;
    h ← setNext node (head l) h;
    h ← setPrev (head l) node h;
    Some (mkIDList node (tail l), h).

Definition removeOneImpl (l : IDList) (node : Z) (h : heap) : option (IDList * heap) :=
  n ← load h node;
  h ← (if decide (prev n <> 0) then setNext (prev n) (next n) h else Some h);
  h ← (if decide (next n <> 0) then setPrev (next n) (prev n) h else Some h);
  let tail' := if decide (tail l = node) then prev n else tail l in
  let head' := if decide (head l = node) then next n else head l in
  h ← setPrev node 0 h;
  h ← setNext node 0 h;
  Some (mkIDList head' tail', h).

(** The node removed, 0 when the list is empty. *)
Definition removeFrontOneImpl (l : IDList) (h : heap) : option (Z * IDList * heap) :=
  if decide (head l = 0) then Some (0, l, h)
  else '(l', h) ← removeOneImpl l (head l) h; Some (head l, l', h).

Definition detachSequenceImpl (l : IDList) (first last : Z) (h : heap) : option (IDList * heap) :=
  if decide (first = last) then removeOneImpl l first h
  else
    f ← load h first;
    t ← load h last;
    h ← (if decide (prev f <> 0) then setNext (prev f) (next t) h else Some h);
    h ← (if decide (next t <> 0) then setPrev (next t) (prev f) h else Some h);
    let head' := if decide (head l = first) then next t else head l in
    let tail' := if decide (tail l = last) then prev f else tail l in
    h ← setPrev first 0 h;
    h ← setNext last 0 h;
    Some (mkIDList head' tail', h).

Definition detachNodesImpl (l : IDList) : Z * IDList := (head l, mkIDList 0 0).

Definition spliceImpl (l : IDList) (node : Z) (h : heap) : option (IDList * heap) :=
  if decide (tail l = 0) then
    h ← setPrev node 0 h;
    t ← getTail h node;
    Some (mkIDList node t, h)
  else
    h ← setNext (tail l) node h;
    h ← setPrev node (tail l) h;
    t ← getTail h node;
    Some (mkIDList (head l) t, h).

Definition peekContainsImpl (l : IDList) (node : Z) (h : heap) : option bool :=
  ns ← successors (size h) h (head l); Some (bool_decide (node ∈ ns)).

Definition peekIsEmpty (l : IDList) : bool := bool_decide (head l = 0).

(** The destructor of an owning list. *)
Definition cleanup (l : IDList) (h : heap) : option heap :=
  if decide (head l = 0) then Some h
  else h' ← deleteThisAndAllNext (head l) h; Some (delete (head l) h').

(** ** Segments *)

(** [seg h p l n]: the nodes [l] are linked in order, the first one's [prev] is
    [p] and the last one's [next] is [n]. *)
Fixpoint seg (h : heap) (p : Z) (l : list Z) (n : Z) : Prop :=
  match l with
  | [] => True
  | x :: l' => x <> 0 /\ h !! x = Some (mkNode p (List.hd n l')) /\ seg h x l' n
  end.

Definition lastOr (p : Z) (l : list Z) : Z := List.last l p.

#[global] Arguments lastOr : simpl never.

Lemma lastOr_cons p x l : lastOr p (x :: l) = lastOr x l.
Proof. unfold lastOr. simpl. destruct l as [|y l]; [done|]. revert y. induction l as [|z l IH]; intros y; [done|]. apply (IH z). Qed.

Lemma lastOr_app p l x l' : lastOr p (l ++ x :: l') = lastOr x l'.
Proof. revert p. induction l as [|y l IH]; intros p; simpl; rewrite lastOr_cons; [done|apply IH]. Qed.

Lemma seg_app h p l1 l2 n :
  seg h p (l1 ++ l2) n <-> seg h p l1 (List.hd n l2) /\ seg h (lastOr p l1) l2 n.
Proof.
  revert p. induction l1 as [|x l1 IH]; intros p; simpl; [tauto|].
  rewrite lastOr_cons, IH. destruct l1 as [|y l1]; simpl; tauto.
Qed.

Lemma seg_frame h h' p l n : (forall x, x ∈ l -> h' !! x = h !! x) -> seg h p l n -> seg h' p l n.
Proof.
  revert p. induction l as [|x l IH]; intros p Hf; simpl; [done|]. intros (H0 & H1 & H2). split_and!; [done| |].
  - rewrite Hf; [done|by left].
  - apply IH; [|done]. intros y Hy. apply Hf. by right.
Qed.

Lemma seg_insert h x nd p l n : x ∉ l -> seg h p l n -> seg (<[x := nd]> h) p l n.
Proof. intros Hx. apply seg_frame. intros y Hy. apply lookup_insert_ne. by intros ->. Qed.

Lemma seg_delete h x p l n : x ∉ l -> seg h p l n -> seg (delete x h) p l n.
Proof. intros Hx. apply seg_frame. intros y Hy. apply lookup_delete_ne. by intros ->. Qed.

Lemma seg_nonzero h p l n x : seg h p l n -> x ∈ l -> x <> 0.
Proof.
  revert p. induction l as [|y l IH]; intros p; simpl; [intros _ Hx; by apply elem_of_nil in Hx|].
  intros (H0 & _ & H2) [->|Hx]%elem_of_cons; [done|by eapply IH].
Qed.

Lemma seg_lookup h p l1 x l2 n :
  seg h p (l1 ++ x :: l2) n -> x <> 0 /\ h !! x = Some (mkNode (lastOr p l1) (List.hd n l2)).
Proof. rewrite seg_app. simpl. tauto. Qed.

Lemma seg_dom h p l n x : seg h p l n -> x ∈ l -> is_Some (h !! x).
Proof. intros Hs (l1 & l2 & ->)%list_elem_of_split. apply seg_lookup in Hs as [_ ->]. eauto. Qed.

Lemma seg_length h p l n : seg h p l n -> NoDup l -> (length l <= size h)%nat.
Proof.
  intros Hs Hnd. rewrite <- (size_list_to_set (C := gset Z) l) by done. rewrite <- (size_dom (D := gset Z)).
  apply subseteq_size. intros x Hx. apply elem_of_list_to_set in Hx. apply elem_of_dom. by eapply seg_dom.
Qed.

(** Relinking the ends of a segment. *)
Lemma seg_relink_last h p l x n n' :
  x ∉ l -> seg h p (l ++ [x]) n -> seg (<[x := mkNode (lastOr p l) n']> h) p (l ++ [x]) n'.
Proof.
  intros Hx. rewrite !seg_app. simpl. intros (H1 & H2 & _). split_and!; [by apply seg_insert|tauto| |done].
  by rewrite lookup_insert_eq.
Qed.

Lemma seg_relink_first h p p' x l n :
  x ∉ l -> seg h p (x :: l) n -> seg (<[x := mkNode p' (List.hd n l)]> h) p' (x :: l) n.
Proof.
  intros Hx (H1 & H2 & H3). simpl. split_and!; [done|by rewrite lookup_insert_eq|by apply seg_insert].
Qed.

Lemma load_seg h p l1 x l2 n :
  seg h p (l1 ++ x :: l2) n -> load h x = Some (mkNode (lastOr p l1) (List.hd n l2)).
Proof. intros Hs. apply seg_lookup in Hs as [H1 H2]. unfold load. by rewrite decide_False. Qed.

Lemma load_some h x nd : x <> 0 -> h !! x = Some nd -> load h x = Some nd.
Proof. intros Hx Hl. unfold load. by rewrite decide_False. Qed.

Lemma setNext_some h x nd v : x <> 0 -> h !! x = Some nd -> setNext x v h = Some (<[x := mkNode (prev nd) v]> h).
Proof. intros Hx Hl. unfold setNext. by rewrite (load_some h x nd Hx Hl). Qed.
Lemma setPrev_some h x nd v : x <> 0 -> h !! x = Some nd -> setPrev x v h = Some (<[x := mkNode v (next nd)]> h).
Proof. intros Hx Hl. unfold setPrev. by rewrite (load_some h x nd Hx Hl). Qed.

(** The list object represents [l]. *)
Definition represents (h : heap) (L : IDList) (l : list Z) : Prop :=
  NoDup l /\ seg h 0 l 0 /\ head L = List.hd 0 l /\ tail L = lastOr 0 l.

(** Only the nodes of [s] are changed, and none is deleted. *)
Definition only (s : list Z) (h h' : heap) : Prop := forall z, z ∉ s -> h' !! z = h !! z.

Lemma only_insert s x nd h h' : x ∈ s -> only s h h' -> only s h (<[x := nd]> h').
Proof. intros Hx Ho z Hz. rewrite lookup_insert_ne by (by intros ->). by apply Ho. Qed.

Lemma only_refl s h : only s h h.
Proof. by intros z _. Qed.

Lemma lastOr_snoc p l x : lastOr p (l ++ [x]) = x.
Proof. apply lastOr_app. Qed.

Lemma hd_app (n : Z) l x l' : List.hd n (l ++ x :: l') = List.hd x l.
Proof. by destruct l. Qed.

Lemma lastOr_elem p x l : lastOr p (x :: l) ∈ x :: l.
Proof.
  rewrite lastOr_cons. revert x. induction l as [|y l IH]; intros x; [by left|].
  rewrite lastOr_cons. right. apply IH.
Qed.

Lemma list_last_cases (l : list Z) : l = [] \/ exists l0 y, l = l0 ++ [y].
Proof. destruct l as [|y l0 _] using rev_ind; eauto. Qed.

Lemma pushTailOneImpl_spec h L l x :
  represents h L l -> x <> 0 -> x ∉ l -> is_Some (h !! x) ->
  exists L' h', pushTailOneImpl L x h = Some (L', h') /\ represents h' L' (l ++ [x]) /\ only (x :: l) h h'.
Proof.
  intros (Hnd & Hs & Hh & Ht) Hx Hxl [nx Hnx]. unfold pushTailOneImpl.
  destruct (list_last_cases l) as [->|(l0 & y & ->)].
  - rewrite decide_True by done. rewrite (setPrev_some h x nx) by done. simpl.
    rewrite (setNext_some _ x (mkNode 0 (next nx))) by (done || by rewrite lookup_insert_eq). simpl.
    do 2 eexists. split; [done|]. split; [split_and!; try done|].
    + apply NoDup_singleton.
    + simpl. split_and!; [done|by rewrite lookup_insert_eq|done].
    + apply only_insert; [by left|]. apply only_insert; [by left|apply only_refl].
  - rewrite lastOr_snoc in Ht. pose proof (seg_lookup _ _ _ _ _ _ Hs) as [Hy0 Hy]. simpl in Hy.
    assert (y <> x) as Hyx by set_solver. assert (y ∉ l0) as Hyl by (apply NoDup_app in Hnd as (_ & Hd & _); set_solver).
    rewrite decide_False by (by rewrite Ht). rewrite (setNext_some h x nx) by done. simpl.
    rewrite (setPrev_some _ x (mkNode (prev nx) 0)) by (done || by rewrite lookup_insert_eq). simpl.
    rewrite Ht. rewrite (setNext_some _ y (mkNode (lastOr 0 l0) 0)) by (done || by rewrite !lookup_insert_ne by done). simpl.
    rewrite insert_insert_eq. do 2 eexists. split; [done|]. split.
    + split_and!.
      * apply NoDup_app. split_and!; [done|set_solver|apply NoDup_singleton].
      * rewrite seg_app. simpl. split_and!; [|done| |done].
        -- apply seg_relink_last with 0; [done|]. apply seg_insert; [done|]. done.
        -- rewrite lookup_insert_ne by done. rewrite lookup_insert_eq. by rewrite lastOr_snoc.
      * rewrite Hh. by destruct l0.
      * simpl. by rewrite lastOr_snoc.
    + apply only_insert; [set_solver|]. apply only_insert; [set_solver|apply only_refl].
Qed.

Lemma pushFrontOneImpl_spec h L l x :
  represents h L l -> x <> 0 -> x ∉ l -> is_Some (h !! x) ->
  exists L' h', pushFrontOneImpl L x h = Some (L', h') /\ represents h' L' (x :: l) /\ only (x :: l) h h'.
Proof.
  intros Hrep Hx Hxl Hdx. pose proof Hrep as (Hnd & Hs & Hh & Ht). unfold pushFrontOneImpl.
  destruct l as [|y l].
  - rewrite decide_True by done. by apply (pushTailOneImpl_spec h L [] x).
  - simpl in Hh. pose proof Hs as (Hy0 & Hy & Hs'). rewrite decide_False by (by rewrite Hh).
    destruct Hdx as [nx Hnx]. assert (y <> x) as Hyx by set_solver. apply NoDup_cons in Hnd as [Hyl Hnd].
    rewrite (setPrev_some h x nx) by done. simpl.
    rewrite (setNext_some _ x (mkNode 0 (next nx))) by (done || by rewrite lookup_insert_eq). simpl.
    rewrite Hh. rewrite (setPrev_some _ y (mkNode 0 (List.hd 0 l))) by (done || by rewrite !lookup_insert_ne by done). simpl.
    rewrite insert_insert_eq. do 2 eexists. split; [done|]. split.
    + split_and!.
      * constructor; [done|]. by constructor.
      * simpl. split_and!; [done| |done| |].
        -- rewrite lookup_insert_ne by done. by rewrite lookup_insert_eq.
        -- by rewrite lookup_insert_eq.
        -- apply seg_insert; [done|]. apply seg_insert; [set_solver|done].
      * done.
      * simpl. by rewrite Ht, !lastOr_cons.
    + apply only_insert; [set_solver|]. apply only_insert; [set_solver|apply only_refl].
Qed.

(** Cutting a run of nodes out of a segment: the common part of [removeOneImpl]
    and [detachSequenceImpl]. *)
Definition unlink (p n : Z) (h : heap) : option heap :=
  h ← (if decide (p <> 0) then setNext p n h else Some h);
  (if decide (n <> 0) then setPrev n p h else Some h).

Lemma unlink_spec h l1 m l2 :
  NoDup (l1 ++ m ++ l2) -> m <> [] -> seg h 0 (l1 ++ m ++ l2) 0 ->
  exists h', unlink (lastOr 0 l1) (List.hd 0 l2) h = Some h' /\
    seg h' 0 (l1 ++ l2) 0 /\ only (l1 ++ l2) h h'.
Proof.
  intros Hnd Hm Hs. unfold unlink.
  rewrite !seg_app in Hs. destruct Hs as (Hs1 & Hsm & Hs2).
  apply NoDup_app in Hnd as (Hnd1 & Hd1 & Hnd2). apply NoDup_app in Hnd2 as (Hndm & Hdm & Hnd3).
  destruct (list_last_cases l1) as [->|(l0 & y & ->)].
  - change (lastOr 0 []) with 0 in *. rewrite decide_False by (intros Hn; by apply Hn). simpl. destruct l2 as [|z l2]; simpl in *.
    + eexists. split; [done|]. split; [done|apply only_refl].
    + destruct Hs2 as (Hz0 & Hz & Hs2). rewrite decide_True by done.
      rewrite (setPrev_some h z _ 0 Hz0 Hz). eexists. split; [done|]. apply NoDup_cons in Hnd3 as [Hzl _]. split.
      * split_and!; [done|by rewrite lookup_insert_eq|by apply seg_insert].
      * apply only_insert; [by left|apply only_refl].
  - rewrite lastOr_snoc in *. assert (y ∉ l0) as Hyl by (apply NoDup_app in Hnd1 as (_ & Hd & _); set_solver).
    assert (y <> 0) as Hy0 by (eapply seg_nonzero; [apply Hs1|set_solver]).
    assert (h !! y = Some (mkNode (lastOr 0 l0) (List.hd (List.hd 0 l2) m))) as Hy.
    { apply seg_lookup in Hs1 as [_ ->]. simpl. by destruct m. }
    rewrite decide_True by done. rewrite (setNext_some h y _ _ Hy0 Hy). simpl.
    assert (y ∉ l2) as Hyl2 by (specialize (Hd1 y ltac:(set_solver)); set_solver).
    destruct l2 as [|z l2]; simpl in *.
    + eexists. split; [done|]. split.
      * rewrite app_nil_r. eapply seg_relink_last; [done|]. by destruct m.
      * apply only_insert; [set_solver|apply only_refl].
    + destruct Hs2 as (Hz0 & Hz & Hs2). rewrite decide_True by done.
      assert (z <> y) as Hzy by set_solver. apply NoDup_cons in Hnd3 as [Hzl _].
      rewrite (setPrev_some _ z (mkNode (lastOr y m) (List.hd 0 l2))) by (done || by rewrite lookup_insert_ne by done).
      simpl. eexists. split; [done|]. split.
      * rewrite seg_app. simpl. rewrite lastOr_snoc. split_and!.
        -- apply seg_insert; [specialize (Hd1 z); set_solver|]. eapply seg_relink_last; [done|]. by destruct m.
        -- done.
        -- by rewrite lookup_insert_eq.
        -- apply seg_insert; [done|]. apply seg_insert; [set_solver|done].
      * apply only_insert; [set_solver|]. apply only_insert; [set_solver|apply only_refl].
Qed.

(** The head and tail after a run is cut out. *)
Lemma cut_head (l1 l2 : list Z) x m :
  NoDup (l1 ++ (x :: m) ++ l2) ->
  (if decide (List.hd 0 (l1 ++ (x :: m) ++ l2) = x) then List.hd 0 l2 else List.hd 0 (l1 ++ (x :: m) ++ l2)) =
  List.hd 0 (l1 ++ l2).
Proof.
  intros Hnd. destruct l1 as [|y l1]; simpl; [by rewrite decide_True|].
  rewrite decide_False; [done|]. intros ->. simpl in Hnd. apply NoDup_cons in Hnd as [Hn _]. set_solver.
Qed.

Lemma cut_tail (l1 l2 : list Z) y m :
  NoDup (l1 ++ (m ++ [y]) ++ l2) ->
  (if decide (lastOr 0 (l1 ++ (m ++ [y]) ++ l2) = y) then lastOr 0 l1 else lastOr 0 (l1 ++ (m ++ [y]) ++ l2)) =
  lastOr 0 (l1 ++ l2).
Proof.
  intros Hnd. destruct (list_last_cases l2) as [->|(l3 & z & ->)].
  - rewrite !app_nil_r, app_assoc, lastOr_snoc. by rewrite decide_True.
  - rewrite !app_assoc, !lastOr_snoc. rewrite decide_False; [done|]. intros ->.
    rewrite !app_assoc in Hnd. apply NoDup_app in Hnd as (_ & Hd & _). apply (Hd y); set_solver.
Qed.

Lemma detach_spec h L l1 m l2 first last :
  represents h L (l1 ++ m ++ l2) -> List.hd 0 m = first -> lastOr 0 m = last -> m <> [] ->
  exists L' h', detachSequenceImpl L first last h = Some (L', h') /\
    represents h' L' (l1 ++ l2) /\ seg h' 0 m 0 /\ only (l1 ++ m ++ l2) h h'.
Proof.
  intros (Hnd & Hs & Hh & Ht) Hf Hl Hm.
  destruct (unlink_spec h l1 m l2 Hnd Hm Hs) as (h1 & Hu & Hs1 & Ho1).
  pose proof Hs as Hsx. rewrite !seg_app in Hsx. destruct Hsx as (_ & Hsm & _).
  pose proof Hnd as Hnd'. apply NoDup_app in Hnd' as (Hn1 & Hd1 & Hnd').
  apply NoDup_app in Hnd' as (Hnm & Hdm & Hn2).
  assert (forall z, z ∈ m -> z ∉ l1 ++ l2) as Hmx.
  { intros z Hz [Hz1|Hz2]%elem_of_app; [by apply (Hd1 z Hz1), elem_of_app; left|by apply (Hdm z Hz)]. }
  assert (seg h1 (lastOr 0 l1) m (List.hd 0 l2)) as Hsm1.
  { eapply seg_frame; [|exact Hsm]. intros z Hz. apply Ho1. by apply Hmx. }
  assert (NoDup (l1 ++ l2)) as Hn12.
  { apply NoDup_app. split_and!; [done| |done]. intros z Hz1 Hz2. apply (Hd1 z Hz1). apply elem_of_app. by right. }
  assert (only (l1 ++ m ++ l2) h h1) as Ho1'.
  { intros z Hz. apply Ho1. rewrite !elem_of_app in *. tauto. }
  destruct m as [|x m]; [done|]. simpl in Hf. subst x.
  pose proof (load_seg h 0 l1 first (m ++ l2) 0 Hs) as Hlf.
  assert (List.hd 0 (m ++ l2) = List.hd (List.hd 0 l2) m) as Hhd by (by destruct m). rewrite Hhd in Hlf.
  unfold unlink in Hu. unfold detachSequenceImpl. destruct (decide (first = last)) as [Heq|Heq].
  - (* a single node *)
    destruct (list_last_cases m) as [->|(m0 & y & ->)].
    2: { exfalso. rewrite app_comm_cons, lastOr_snoc in Hl. assert (y = first) as -> by congruence. apply NoDup_cons in Hnm as [Hnm _]. set_solver. }
    unfold removeOneImpl. rewrite Hlf. cbn [mbind option_bind prev next List.hd].
    destruct (if decide (lastOr 0 l1 <> 0) then _ else _) as [h0|]; [|done]. cbn [mbind option_bind] in Hu |- *. rewrite Hu.
    cbn [mbind option_bind]. destruct Hsm1 as (Hx0 & Hx & _). simpl in Hx.
    rewrite (setPrev_some h1 first _ 0 Hx0 Hx). cbn [mbind option_bind next].
    rewrite (setNext_some _ first (mkNode 0 (List.hd 0 l2))) by (done || by rewrite lookup_insert_eq). cbn [mbind option_bind prev].
    rewrite insert_insert_eq. do 2 eexists. split; [done|].
    assert (first ∉ l1 ++ l2) as Hfx by (apply Hmx; by left). split; [|split].
    + split_and!; [done|by apply seg_insert| |].
      * cbn [head]. rewrite Hh. apply (cut_head l1 l2 first []). done.
      * cbn [tail]. rewrite Ht. apply (cut_tail l1 l2 first []). done.
    + simpl. split_and!; [done|by rewrite lookup_insert_eq|done].
    + apply only_insert; [set_solver|done].
  - (* at least two nodes *)
    destruct (list_last_cases m) as [->|(m0 & y & ->)]; [done|].
    rewrite app_comm_cons, lastOr_snoc in Hl. subst y.
    assert (load h last = Some (mkNode (lastOr first m0) (List.hd 0 l2))) as Hll.
    { pose proof (load_seg h (lastOr 0 l1) (first :: m0) last [] (List.hd 0 l2) Hsm) as Hll. by rewrite lastOr_cons in Hll. }
    rewrite Hlf, Hll. cbn [mbind option_bind prev next].
    destruct (if decide (lastOr 0 l1 <> 0) then _ else _) as [h0|]; [|done]. cbn [mbind option_bind] in Hu |- *. rewrite Hu.
    cbn [mbind option_bind].
    assert (first ∉ m0 ++ [last]) as Hfm by (by apply NoDup_cons in Hnm as [? _]).
    assert (last ∉ first :: m0) as Hlm.
    { rewrite app_comm_cons in Hnm. apply NoDup_app in Hnm as (_ & Hd & _). intros Hin. apply (Hd last Hin). by left. }
    pose proof (seg_relink_first h1 _ 0 first (m0 ++ [last]) _ Hfm Hsm1) as Hsa.
    set (ha := <[first := _]> h1) in Hsa. rewrite app_comm_cons in Hsa.
    pose proof (seg_relink_last ha 0 (first :: m0) last _ 0 Hlm Hsa) as Hsb. rewrite <- app_comm_cons in Hsb.
    pose proof Hsm1 as (Hf0 & Hfl & _). rewrite (setPrev_some h1 first _ 0 Hf0 Hfl). cbn [mbind option_bind next].
    fold ha. pose proof (seg_lookup _ _ _ _ _ _ Hsa) as [Hl0 Hla].
    rewrite (setNext_some ha last _ 0 Hl0 Hla). cbn [mbind option_bind prev].
    do 2 eexists. split; [done|].
    assert (first ∉ l1 ++ l2) as Hfx by (apply Hmx; by left).
    assert (last ∉ l1 ++ l2) as Hlx by (apply Hmx; set_solver).
    split; [|split].
    + split_and!; [done|apply seg_insert; [done|]; by apply seg_insert| |].
      * cbn [head]. rewrite Hh. apply (cut_head l1 l2 first (m0 ++ [last])). done.
      * cbn [tail]. rewrite Ht. apply (cut_tail l1 l2 last (first :: m0)). done.
    + apply Hsb.
    + apply only_insert; [set_solver|]. apply only_insert; [set_solver|done].
Qed.

Lemma removeOneImpl_spec h L l1 x l2 :
  represents h L (l1 ++ x :: l2) ->
  exists L' h', removeOneImpl L x h = Some (L', h') /\ represents h' L' (l1 ++ l2) /\
    h' !! x = Some (mkNode 0 0) /\ only (l1 ++ x :: l2) h h'.
Proof.
  intros Hrep. destruct (detach_spec h L l1 [x] l2 x x Hrep) as (L' & h' & He & H1 & (_ & H2 & _) & H3); [done..|].
  unfold detachSequenceImpl in He. rewrite decide_True in He by done. eauto 10.
Qed.

(** ** Following the links *)

Lemma getTailLoop_spec fuel h p x l :
  seg h p (x :: l) 0 -> (length l < fuel)%nat -> getTailLoop fuel h x = Some (lastOr x l).
Proof.
  revert p x fuel. induction l as [|y l IH]; intros p x fuel (Hx0 & Hx & Hs) Hf; (destruct fuel as [|fuel]; [lia|]); simpl in *;
    rewrite (load_some h x _ Hx0 Hx); simpl; [done|].
  destruct Hs as (Hy0 & Hy & Hs). rewrite decide_True by done. rewrite lastOr_cons.
  apply (IH x y); [done|lia].
Qed.

Lemma getTail_spec h p x l : seg h p (x :: l) 0 -> NoDup (x :: l) -> getTail h x = Some (lastOr x l).
Proof.
  intros Hs Hnd. eapply getTailLoop_spec; [done|]. pose proof (seg_length _ _ _ _ Hs Hnd) as Hl. simpl in Hl. lia.
Qed.

Lemma successors_spec fuel h p l : seg h p l 0 -> (length l <= fuel)%nat -> successors fuel h (List.hd 0 l) = Some l.
Proof.
  revert p fuel. induction l as [|x l IH]; intros p fuel Hs Hf.
  - by destruct fuel.
  - destruct fuel as [|fuel]; simpl in Hf; [lia|]. destruct Hs as (Hx0 & Hx & Hs). simpl.
    rewrite decide_False by done. rewrite (load_some h x _ Hx0 Hx). simpl. by rewrite (IH x) by (done || lia).
Qed.

Lemma getHeadLoop_spec fuel h l x n :
  seg h 0 (l ++ [x]) n -> (length l < fuel)%nat -> getHeadLoop fuel h x = Some (List.hd x l).
Proof.
  revert x n fuel. induction l as [|y l IH] using rev_ind; intros x n fuel Hs Hf; (destruct fuel as [|fuel]; [lia|]); simpl.
  - rewrite (load_seg h 0 [] x [] n Hs). done.
  - rewrite (load_seg h 0 (l ++ [y]) x [] n Hs). simpl. rewrite lastOr_snoc.
    rewrite seg_app in Hs. destruct Hs as [Hs _]. assert (y <> 0) by (eapply seg_nonzero; [done|set_solver]).
    rewrite decide_True by done. rewrite length_app in Hf. simpl in Hf.
    rewrite (IH y _ fuel Hs) by lia. by rewrite hd_app.
Qed.

Lemma spliceImpl_spec h L l x m :
  represents h L l -> seg h 0 (x :: m) 0 -> NoDup (l ++ x :: m) ->
  exists L' h', spliceImpl L x h = Some (L', h') /\ represents h' L' (l ++ x :: m) /\ only (l ++ x :: m) h h'.
Proof.
  intros (Hnd & Hs & Hh & Ht) Hsm Hndx. pose proof Hndx as Hn. apply NoDup_app in Hn as (_ & Hd & Hnm).
  pose proof Hsm as (Hx0 & Hx & Hsm'). pose proof Hnm as Hnm'. apply NoDup_cons in Hnm' as [Hxm Hnm2]. unfold spliceImpl.
  destruct (list_last_cases l) as [->|(l0 & y & ->)].
  - rewrite decide_True by done. rewrite (setPrev_some h x _ 0 Hx0 Hx). cbn [mbind option_bind next].
    assert (seg (<[x := mkNode 0 (List.hd 0 m)]> h) 0 (x :: m) 0) as Hs' by (by apply seg_relink_first with 0).
    rewrite (getTail_spec _ _ _ _ Hs') by done. cbn [mbind option_bind]. do 2 eexists. split; [done|]. split.
    + split_and!; [done|done|done|]. simpl. by rewrite lastOr_cons.
    + apply only_insert; [by left|apply only_refl].
  - rewrite lastOr_snoc in Ht. pose proof (seg_lookup _ _ _ _ _ _ Hs) as [Hy0 Hy]. simpl in Hy.
    rewrite Ht. rewrite decide_False by done. rewrite (setNext_some h y _ x Hy0 Hy). cbn [mbind option_bind prev].
    assert (x <> y) as Hxy by (intros ->; apply (Hd y); set_solver).
    rewrite (setPrev_some _ x (mkNode 0 (List.hd 0 m))) by (done || by rewrite lookup_insert_ne by done). cbn [mbind option_bind next].
    assert (y ∉ l0) as Hyl by (apply NoDup_app in Hnd as (_ & Hd' & _); set_solver).
    assert (y ∉ x :: m) as Hym by (apply Hd; set_solver).
    pose proof (seg_relink_last h 0 l0 y 0 x Hyl Hs) as Hs1.
    set (h1 := <[y := _]> h) in *.
    assert (seg h1 0 (x :: m) 0) as Hsm1 by (by apply seg_insert).
    pose proof (seg_relink_first h1 0 y x m 0 Hxm Hsm1) as Hsm2. set (h2 := <[x := _]> h1) in *.
    assert (seg h2 0 (l0 ++ [y]) x) as Hs2.
    { apply seg_insert; [|done]. intros Hin. apply (Hd x Hin). by left. }
    rewrite (getTail_spec h2 _ _ _ Hsm2) by done. cbn [mbind option_bind]. do 2 eexists. split; [done|]. split.
    + split_and!; [done| |by rewrite Hh, !hd_app|].
      * rewrite seg_app. rewrite lastOr_snoc. by split.
      * cbn [tail]. by rewrite lastOr_app.
    + apply only_insert; [set_solver|]. apply only_insert; [set_solver|apply only_refl].
Qed.

(** ** Node operations *)

(** Breaking a chain after a node and linking two chains: the two moves that
    the node operations are made of. *)
Lemma seg_break h l1 x l2 :
  NoDup (l1 ++ x :: l2) -> seg h 0 (l1 ++ x :: l2) 0 ->
  seg h 0 (l1 ++ [x]) (List.hd 0 l2) /\ seg h x l2 0 /\ x ∉ l1 /\ x ∉ l2 /\ (forall z, z ∈ l2 -> z ∉ l1 ++ [x]).
Proof.
  intros Hnd Hs. rewrite (app_assoc l1 [x] l2 : l1 ++ x :: l2 = (l1 ++ [x]) ++ l2) in *.
  rewrite seg_app, lastOr_snoc in Hs. destruct Hs as [H1 H2].
  apply NoDup_app in Hnd as (Hn1 & Hd & Hn2). apply NoDup_app in Hn1 as (_ & Hd1 & _).
  split_and!; try done; [set_solver|apply Hd; set_solver|]. intros z Hz Hz1. by apply (Hd z Hz1).
Qed.

Lemma insertOneNext_spec h l1 x l2 nd :
  NoDup (l1 ++ x :: l2) -> seg h 0 (l1 ++ x :: l2) 0 -> nd <> 0 -> nd ∉ l1 ++ x :: l2 -> is_Some (h !! nd) ->
  exists h', insertOneNext x nd h = Some h' /\ seg h' 0 (l1 ++ x :: nd :: l2) 0.
Proof.
  intros Hnd Hs Hn0 Hnn [nn Hnn2]. destruct (seg_break h l1 x l2 Hnd Hs) as (H1 & H2 & Hx1 & Hx2 & Hsep).
  pose proof (seg_lookup _ _ _ _ _ _ Hs) as [Hx0 Hx]. unfold insertOneNext. rewrite (load_some h x _ Hx0 Hx).
  cbn [mbind option_bind prev next]. rewrite (setNext_some h nd nn _ Hn0 Hnn2). cbn [mbind option_bind].
  assert (x <> nd) as Hxn by set_solver. set (h1 := <[nd := mkNode (prev nn) (List.hd 0 l2)]> h).
  assert (exists h2, (if decide (List.hd 0 l2 <> 0) then setPrev (List.hd 0 l2) nd h1 else Some h1) = Some h2 /\
    seg h2 nd l2 0 /\ h2 !! nd = h1 !! nd /\ (forall z, z ∉ l2 -> h2 !! z = h1 !! z)) as (h2 & -> & G1 & G2 & G3).
  { destruct l2 as [|y l2]; simpl; [exists h1; by split_and!|]. destruct H2 as (Hy0 & Hy & H2).
    rewrite decide_True by done. assert (y <> nd) as Hyn by set_solver.
    assert (h1 !! y = Some (mkNode x (List.hd 0 l2))) as Hy1 by (unfold h1; by rewrite lookup_insert_ne).
    rewrite (setPrev_some h1 y _ nd Hy0 Hy1). eexists. split; [done|].
    assert (y ∉ l2) as Hyl. { apply NoDup_app in Hnd as (_ & _ & Hnd). apply NoDup_cons in Hnd as [_ Hnd]. by apply NoDup_cons in Hnd as [? _]. }
    split_and!; [done|by rewrite lookup_insert_eq| | |].
    - apply seg_insert; [done|]. apply seg_insert; [set_solver|done].
    - by rewrite lookup_insert_ne.
    - intros z Hz. apply lookup_insert_ne. set_solver. }
  cbn [mbind option_bind]. assert (h2 !! nd = Some (mkNode (prev nn) (List.hd 0 l2))) as Hnd2 by (rewrite G2; unfold h1; by rewrite lookup_insert_eq).
  rewrite (setPrev_some h2 nd _ x Hn0 Hnd2). cbn [mbind option_bind next].
  assert (<[nd := mkNode x (List.hd 0 l2)]> h2 !! x = Some (mkNode (lastOr 0 l1) (List.hd 0 l2))) as Hx3.
  { rewrite lookup_insert_ne by done. rewrite G3 by done. unfold h1. by rewrite lookup_insert_ne. }
  rewrite (setNext_some _ x _ nd Hx0 Hx3). eexists. split; [done|]. cbn [prev].
  rewrite (app_assoc l1 [x] (nd :: l2) : l1 ++ x :: nd :: l2 = (l1 ++ [x]) ++ nd :: l2). rewrite seg_app, lastOr_snoc. split.
  - apply seg_relink_last with (List.hd 0 l2); [done|]. apply seg_insert; [set_solver|].
    eapply seg_frame; [|exact H1]. intros z Hz. rewrite G3 by (intros Hz2; by apply (Hsep z)). unfold h1.
    apply lookup_insert_ne. set_solver.
  - simpl. split_and!; [done| |].
    + rewrite lookup_insert_ne by done. by rewrite lookup_insert_eq.
    + apply seg_insert; [done|]. apply seg_insert; [set_solver|done].
Qed.

Lemma slice_spec h l1 x l2 :
  NoDup (l1 ++ x :: l2) -> seg h 0 (l1 ++ x :: l2) 0 ->
  exists h', slice x h = Some (List.hd 0 l2, h') /\ seg h' 0 (l1 ++ [x]) 0 /\ seg h' 0 l2 0.
Proof.
  intros Hnd Hs. destruct (seg_break h l1 x l2 Hnd Hs) as (H1 & H2 & Hx1 & Hx2 & Hsep).
  pose proof (seg_lookup _ _ _ _ _ _ Hs) as [Hx0 Hx]. unfold slice. rewrite (load_some h x _ Hx0 Hx).
  cbn [mbind option_bind next]. rewrite (setNext_some h x _ 0 Hx0 Hx). cbn [mbind option_bind prev].
  pose proof (seg_relink_last h 0 l1 x _ 0 Hx1 H1) as H1'. set (h1 := <[x := _]> h) in *.
  assert (seg h1 x l2 0) as H2' by (by apply seg_insert). destruct l2 as [|y l2]; simpl.
  - eexists. by split_and!.
  - destruct H2' as (Hy0 & Hy & H2'). rewrite decide_True by done. rewrite (setPrev_some h1 y _ 0 Hy0 Hy).
    cbn [mbind option_bind next]. eexists. split; [done|].
    assert (y ∉ l2) as Hyl. { apply NoDup_app in Hnd as (_ & _ & Hnd). apply NoDup_cons in Hnd as [_ Hnd]. by apply NoDup_cons in Hnd as [? _]. }
    split; [apply seg_insert; [apply Hsep; by left|done]|].
    split_and!; [done|by rewrite lookup_insert_eq|by apply seg_insert].
Qed.

Lemma deleteNextLoop_spec fuel h p l :
  seg h p l 0 -> NoDup l -> (length l <= fuel)%nat ->
  exists h', deleteNextLoop fuel (List.hd 0 l) h = Some h' /\ (forall z, h' !! z = if decide (z ∈ l) then None else h !! z).
Proof.
  revert h p fuel. induction l as [|x l IH]; intros h p fuel Hs Hnd Hf.
  - exists h. split; [by destruct fuel|]. intros z. rewrite decide_False; [done|]. by apply not_elem_of_nil.
  - destruct fuel as [|fuel]; simpl in Hf; [lia|]. destruct Hs as (Hx0 & Hx & Hs). apply NoDup_cons in Hnd as [Hxl Hnd].
    cbn [deleteNextLoop List.hd]. rewrite decide_False by done. rewrite (load_some h x _ Hx0 Hx). cbn [mbind option_bind next].
    destruct (IH (delete x h) x fuel) as (h' & Hd & Hl); [by apply seg_delete|done|lia|].
    exists h'. split; [done|]. intros z. rewrite Hl. destruct (decide (z = x)) as [->|Hne].
    + rewrite decide_False by done. rewrite decide_True by (by left). by rewrite lookup_delete_eq.
    + rewrite lookup_delete_ne by done. destruct (decide (z ∈ l)); [rewrite decide_True by (by right)|rewrite decide_False by set_solver]; done.
Qed.

(** The destructor of an owning list deletes exactly the nodes it holds. *)
Lemma cleanup_spec h L l :
  represents h L l ->
  exists h', cleanup L h = Some h' /\ (forall z, h' !! z = if decide (z ∈ l) then None else h !! z).
Proof.
  intros (Hnd & Hs & Hh & Ht). unfold cleanup. rewrite Hh. destruct l as [|x l]; simpl.
  { eexists. split; [done|]. intros z. done. }
  pose proof Hs as (Hx0 & Hx & Hs'). apply NoDup_cons in Hnd as [Hxl Hnd]. rewrite decide_False by done.
  unfold deleteThisAndAllNext. rewrite (load_some h x _ Hx0 Hx). cbn [mbind option_bind prev next].
  destruct (deleteNextLoop_spec (size h) h x l) as (h1 & -> & Hl); [done|done|by eapply seg_length|].
  cbn [mbind option_bind]. rewrite decide_False by (intros Hn; by apply Hn). cbn [mbind option_bind].
  assert (h1 !! x = Some (mkNode 0 (List.hd 0 l))) as Hx1 by (rewrite Hl; by rewrite decide_False by done).
  rewrite (setNext_some h1 x _ 0 Hx0 Hx1). cbn [mbind option_bind]. eexists. split; [done|].
  intros z. destruct (decide (z = x)) as [->|Hne].
  - rewrite lookup_delete_eq. by rewrite decide_True by (by left).
  - rewrite lookup_delete_ne, lookup_insert_ne, Hl by done.
    destruct (decide (z ∈ l)); [rewrite decide_True by (by right)|rewrite decide_False by set_solver]; done.
Qed.

(** ** Properties *)

(** C17: an [IDList] behaves as the sequence of its nodes.  On a
    well-formed list, and with nodes that are not in it yet, pushing at the
    front or at the tail, removing a node, removing the front, detaching a run
    of nodes, splicing a chain and testing membership all run without
    following a bad pointer, end within the fuel, and give the list object of
    the corresponding sequence; a detached run is a chain of its own, and no
    node outside the ones named is written. *)
Theorem idlist_refines_sequence h L l :
  represents h L l ->
  (forall x, x <> 0 -> x ∉ l -> is_Some (h !! x) ->
     (exists L' h', pushFrontOneImpl L x h = Some (L', h') /\ represents h' L' (x :: l) /\ only (x :: l) h h') /\
     (exists L' h', pushTailOneImpl L x h = Some (L', h') /\ represents h' L' (l ++ [x]) /\ only (x :: l) h h')) /\
  (forall l1 m l2, l = l1 ++ m ++ l2 -> m <> [] ->
     exists L' h', detachSequenceImpl L (List.hd 0 m) (lastOr 0 m) h = Some (L', h') /\
       represents h' L' (l1 ++ l2) /\ seg h' 0 m 0 /\ only l h h') /\
  (forall l1 x l2, l = l1 ++ x :: l2 ->
     exists L' h', removeOneImpl L x h = Some (L', h') /\ represents h' L' (l1 ++ l2) /\
       h' !! x = Some (mkNode 0 0) /\ only l h h') /\
  (exists L' h', removeFrontOneImpl L h = Some (List.hd 0 l, L', h') /\ represents h' L' (List.tl l)) /\
  (forall x m, seg h 0 (x :: m) 0 -> NoDup (l ++ x :: m) ->
     exists L' h', spliceImpl L x h = Some (L', h') /\ represents h' L' (l ++ x :: m)) /\
  (forall x, peekContainsImpl L x h = Some (bool_decide (x ∈ l))) /\
  peekIsEmpty L = bool_decide (l = []) /\
  detachNodesImpl L = (List.hd 0 l, mkIDList 0 0).
Proof.
  intros Hrep. pose proof Hrep as (Hnd & Hs & Hh & Ht). split_and!.
  - intros x H0 Hx Hd. split; [by apply pushFrontOneImpl_spec|by apply pushTailOneImpl_spec].
  - intros l1 m l2 -> Hm. by apply detach_spec.
  - intros l1 x l2 ->. by apply removeOneImpl_spec.
  - unfold removeFrontOneImpl. rewrite Hh. destruct l as [|x l]; simpl; [by exists L, h|].
    rewrite decide_False by apply Hs. destruct (removeOneImpl_spec h L [] x l Hrep) as (L' & h' & -> & Hr & _).
    cbn. eauto.
  - intros x m Hsm Hndm. destruct (spliceImpl_spec h L l x m Hrep Hsm Hndm) as (L' & h' & ? & ? & _). eauto.
  - intros x. unfold peekContainsImpl. rewrite Hh. by rewrite (successors_spec _ _ _ _ Hs) by (by eapply seg_length).
  - unfold peekIsEmpty. rewrite Hh. apply bool_decide_ext. destruct l as [|x l]; [done|]. simpl.
    split; [intros ->; by destruct Hs|done].
  - unfold detachNodesImpl. by rewrite Hh.
Qed.

(** Three nodes and an empty list; two of them pushed. *)
Definition demo_nodes : heap := {[1 := mkNode 0 0; 2 := mkNode 0 0; 3 := mkNode 0 0]}.
Definition demo_pushed : IDList * heap :=
  default (mkIDList 0 0, demo_nodes)
    ('(L, h) ← pushTailOneImpl (mkIDList 0 0) 1 demo_nodes; pushTailOneImpl L 2 h).

Lemma demo_represents : represents demo_pushed.2 demo_pushed.1 [1; 2].
Proof.
  split; [eval_decide|]. split; [|split; vm_compute; reflexivity].
  split_and!; first [vm_compute; reflexivity|done].
Defined.

Example idlist_refines_sequence_witness :
  exists L' h', pushFrontOneImpl demo_pushed.1 3 demo_pushed.2 = Some (L', h') /\ represents h' L' [3; 1; 2].
Proof.
  destruct (idlist_refines_sequence demo_pushed.2 demo_pushed.1 [1; 2] demo_represents) as [H _].
  destruct (H 3) as [(L' & h' & H1 & H2 & _) _]; [done|eval_decide|by eexists|].
  exists L', h'. by split.
Defined.

(** on a chain of nodes, inserting a node after another and cutting
    the chain after a node rewire exactly the links they should, [getTail] and
    [getHead] reach the ends of the chain, [countSuccessors] and
    [isPredecessorOf] agree with the positions in it, and the destructor of an
    owning list deletes its nodes and nothing else. *)
Theorem idnode_chain_ops h l1 x l2 :
  NoDup (l1 ++ x :: l2) -> seg h 0 (l1 ++ x :: l2) 0 ->
  (forall nd, nd <> 0 -> nd ∉ l1 ++ x :: l2 -> is_Some (h !! nd) ->
     exists h', insertOneNext x nd h = Some h' /\ seg h' 0 (l1 ++ x :: nd :: l2) 0) /\
  (exists h', slice x h = Some (List.hd 0 l2, h') /\ seg h' 0 (l1 ++ [x]) 0 /\ seg h' 0 l2 0) /\
  getTail h x = Some (lastOr x l2) /\ getHead h x = Some (List.hd x l1) /\
  countSuccessors h x = Some (length l2) /\
  (forall y, isPredecessorOf h x y = Some (bool_decide (y ∈ l2))) /\
  (exists h', cleanup (mkIDList (List.hd x l1) (lastOr x l2)) h = Some h' /\
     forall z, h' !! z = if decide (z ∈ l1 ++ x :: l2) then None else h !! z).
Proof.
  intros Hnd Hs. destruct (seg_break h l1 x l2 Hnd Hs) as (H1 & H2 & Hx1 & Hx2 & Hsep).
  pose proof (seg_lookup _ _ _ _ _ _ Hs) as [Hx0 Hx].
  assert (NoDup (x :: l2)) as Hnd2 by (by apply NoDup_app in Hnd as (_ & _ & ?)).
  assert (NoDup l2) as Hnd3 by (by apply NoDup_cons in Hnd2 as [_ ?]).
  assert (NoDup (l1 ++ [x])) as Hnd1.
  { rewrite (app_assoc l1 [x] l2 : l1 ++ x :: l2 = (l1 ++ [x]) ++ l2) in Hnd. by apply NoDup_app in Hnd as (? & _). }
  split_and!.
  - intros nd H0 Hn Hd. by apply insertOneNext_spec.
  - by apply slice_spec.
  - eapply getTail_spec; [|done]. split_and!; done.
  - unfold getHead. apply (getHeadLoop_spec _ h l1 x (List.hd 0 l2)); [done|].
    pose proof (seg_length _ _ _ _ H1 Hnd1) as Hl. rewrite length_app in Hl. simpl in Hl. lia.
  - unfold countSuccessors. rewrite (load_some h x _ Hx0 Hx). cbn [mbind option_bind next].
    by rewrite (successors_spec _ _ _ _ H2) by (by eapply seg_length).
  - intros y. unfold isPredecessorOf. rewrite (load_some h x _ Hx0 Hx). cbn [mbind option_bind next].
    by rewrite (successors_spec _ _ _ _ H2) by (by eapply seg_length).
  - apply cleanup_spec. split_and!; [done|done| |].
    + cbn [head]. by rewrite hd_app.
    + cbn [tail]. by rewrite lastOr_app.
Qed.

Example idnode_chain_ops_witness :
  getTail demo_pushed.2 1 = Some 2 /\ countSuccessors demo_pushed.2 1 = Some 1%nat /\
  exists h', cleanup (mkIDList 1 2) demo_pushed.2 = Some h' /\
     forall z, h' !! z = if decide (z ∈ [1; 2]) then None else demo_pushed.2 !! z.
Proof.
  destruct (idnode_chain_ops demo_pushed.2 [] 1 [2]) as (_ & _ & H1 & _ & H2 & _ & H3);
    [eval_decide|apply demo_represents|]. split; [exact H1|]. split; [exact H2|exact H3].
Defined.
