(* ===== verification/StackVec.v ===== *)
(** * Small-buffer vector

    Model of [runtime/utilities/stackvec.h].  A [StackVec] keeps up to
    [onStackCaps] objects in a buffer inside the object and moves them to a
    heap-allocated [std::vector] when they no longer fit.  The buffer is a
    finite map from slots to the objects constructed there, so a read of a slot
    that holds no object, a construction over a live object or outside the
    buffer, a second destruction and the abort of [UNRECOVERABLE_IF] are all
    [None].  [std::vector] is a list; [capacity] and [reserve]'s growth of the
    vector, which no content depends on, are not modelled.

    A [const DataType &] is a reference ([Ref]), to an object elsewhere or to an
    element of the vector itself, and is read where the code reads it: after the
    elements have moved to the heap, a reference into the buffer is dead.  The
    functions of [std::vector] accept references to their own elements.  The two
    assignment operators work on a store of vectors so that [v = v] is the
    aliased call of the code.

    The theorem states that every operation acts on the sequence of elements and
    leaves no object behind in the buffer, and exactly when it is undefined: when
    a reference into a buffer that is about to be left is passed. *)

From S2P Require Import Prelude.

Section StackVec.
Context {A : Type} `{EqDecision A} (onStackCaps : nat).

Record StackVec := mkStackVec {
  onStackMem : gmap nat A;
  dynamicMem : option (list A);
  onStackSize : nat }.

Definition newStackVec : StackVec := mkStackVec ∅ None 0.

(** What a reference to an object of the elements' type refers to: an object
    outside the vector, a slot of its buffer, an element of [*dynamicMem]. *)
Inductive Ref :=
  | Outside (v : A)
  | ToSlot (i : nat)
  | ToElement (i : nat).

(** The object a reference refers to now; [None] if there is none any more. *)
Definition readRef (s : StackVec) (r : Ref) : option A :=
  match r with
  | Outside v => Some v
  | ToSlot i => onStackMem s !! i
  | ToElement i => d ← dynamicMem s; d !! i
  end.

(** Placement new at [onStackMem + i]. *)
Definition construct (i : nat) (v : A) (m : gmap nat A) : option (gmap nat A) :=
  if decide (i < onStackCaps)%nat then
    match m !! i with None => Some (<[i := v]> m) | Some _ => None end
  else None.

(** [it->~DataType()] for [count] slots from [it]. *)
Fixpoint destroy (it count : nat) (m : gmap nat A) : option (gmap nat A) :=
  match count with
  | O => Some m
  | S count' => _ ← m !! it; destroy (S it) count' (delete it m)
  end.

Definition clearStackObjectsRange (offset count : nat) (s : StackVec) : option StackVec :=
  if decide (onStackSize s < offset + count)%nat then None
  else m ← destroy offset count (onStackMem s); Some (mkStackVec m (dynamicMem s) (onStackSize s)).

Definition clearStackObjects (s : StackVec) : option StackVec :=
  s ← clearStackObjectsRange 0 (onStackSize s) s;
  Some (mkStackVec (onStackMem s) (dynamicMem s) 0).

(** The objects of the slots [it, it + count), as a loop reads them. *)
Fixpoint readSlots (m : gmap nat A) (it count : nat) : option (list A) :=
  match count with
  | O => Some []
  | S count' => v ← m !! it; vs ← readSlots m (S it) count'; Some (v :: vs)
  end.

Definition ensureDynamicMem (s : StackVec) : option StackVec :=
  match dynamicMem s with
  | Some _ => Some s
  | None =>
      if decide (0 < onStackSize s)%nat then
        vs ← readSlots (onStackMem s) 0 (onStackSize s);
        clearStackObjects (mkStackVec (onStackMem s) (Some vs) (onStackSize s))
      else Some (mkStackVec (onStackMem s) (Some []) (onStackSize s))
  end.

Definition size (s : StackVec) : nat :=
  match dynamicMem s with Some d => length d | None => onStackSize s end.

Definition reserve (newCapacity : nat) (s : StackVec) : option StackVec :=
  if decide (onStackCaps < newCapacity)%nat then ensureDynamicMem s else Some s.

Definition clear (s : StackVec) : option StackVec :=
  match dynamicMem s with
  | Some _ => Some (mkStackVec (onStackMem s) (Some []) (onStackSize s))
  | None => clearStackObjects s
  end.

Definition push_back (v : Ref) (s : StackVec) : option StackVec :=
  s ← (if decide (onStackSize s = onStackCaps) then ensureDynamicMem s else Some s);
  match dynamicMem s with
  | Some d =>
      v ← readRef s v;
      Some (mkStackVec (onStackMem s) (Some (d ++ [v])) (onStackSize s))
  | None =>
      v ← readRef s v;
      m ← construct (onStackSize s) v (onStackMem s);
      Some (mkStackVec m None (S (onStackSize s)))
  end.

(** The reference that [operator[]] returns. *)
Definition operator_index (s : StackVec) (idx : nat) : Ref :=
  match dynamicMem s with Some _ => ToElement idx | None => ToSlot idx end.

(** The values a loop from [begin()] to [end()] sees. *)
Definition iterate (s : StackVec) : option (list A) :=
  match dynamicMem s with
  | Some d => Some d
  | None => readSlots (onStackMem s) 0 (onStackSize s)
  end.

(** Pushing the elements of another object one by one. *)
Fixpoint pushAll (vs : list A) (s : StackVec) : option StackVec :=
  match vs with
  | [] => Some s
  | v :: vs => s ← push_back (Outside v) s; pushAll vs s
  end.

(** [std::vector::resize]; the value is read only when the vector grows. *)
Definition vectorResize (newSize : nat) (value : option A) (d : list A) : option (list A) :=
  if decide (newSize <= length d)%nat then Some (take newSize d)
  else v ← value; Some (d ++ replicate (newSize - length d) v).

(** [value] is [None] for the overload that default-constructs; [dflt] is the
    default-constructed object. *)
Definition readValue (dflt : A) (value : option Ref) (s : StackVec) : option A :=
  match value with Some r => readRef s r | None => Some dflt end.

Fixpoint constructLoop (dflt : A) (count : nat) (value : option Ref) (s : StackVec) : option StackVec :=
  match count with
  | O => Some s
  | S count' =>
      v ← readValue dflt value s;
      m ← construct (onStackSize s) v (onStackMem s);
      constructLoop dflt count' value (mkStackVec m (dynamicMem s) (S (onStackSize s)))
  end.

Definition resizeImpl (dflt : A) (newSize : nat) (value : option Ref) (s : StackVec) : option StackVec :=
  s ← (if decide (onStackCaps < newSize)%nat then ensureDynamicMem s else Some s);
  match dynamicMem s with
  | Some d =>
      d ← vectorResize newSize (readValue dflt value s) d;
      Some (mkStackVec (onStackMem s) (Some d) (onStackSize s))
  | None =>
      if decide (newSize <= onStackSize s)%nat then
        s ← clearStackObjectsRange newSize (onStackSize s - newSize) s;
        Some (mkStackVec (onStackMem s) (dynamicMem s) newSize)
      else constructLoop dflt (newSize - onStackSize s) value s
  end.

Definition fromRange (vs : list A) : option StackVec :=
  if decide (onStackCaps < length vs)%nat then Some (mkStackVec ∅ (Some vs) 0)
  else
    s ← pushAll vs newStackVec;
    Some (mkStackVec (onStackMem s) (dynamicMem s) (length vs)).

Definition copyConstruct (rhs : StackVec) : option StackVec :=
  vs ← iterate rhs;
  if decide (onStackCaps < size rhs)%nat then Some (mkStackVec ∅ (Some vs) 0)
  else pushAll vs newStackVec.

Definition fromSize (dflt : A) (initialSize : nat) : option StackVec := resizeImpl dflt initialSize None newStackVec.

Definition fromInitializerList (init : list A) : option StackVec :=
  s ← reserve (length init) newStackVec; pushAll init s.

(** The new vector and what is left of the one moved from. *)
Definition moveConstruct (rhs : StackVec) : option (StackVec * StackVec) :=
  match dynamicMem rhs with
  | Some d => Some (mkStackVec ∅ (Some d) 0, mkStackVec (onStackMem rhs) None (onStackSize rhs))
  | None => vs ← iterate rhs; s ← pushAll vs newStackVec; Some (s, rhs)
  end.

(** Copy assignment to [this] from [rhs] in a store of vectors. *)
Definition copyAssign (this rhs : Z) (σ : gmap Z StackVec) : option (gmap Z StackVec) :=
  s ← σ !! this; s ← clear s;
  let σ := <[this := s]> σ in
  r ← σ !! rhs; vs ← iterate r;
  match dynamicMem s with
  | Some d => Some (<[this := mkStackVec (onStackMem s) (Some (d ++ vs)) (onStackSize s)]> σ)
  | None =>
      if decide (onStackCaps < size r)%nat then
        Some (<[this := mkStackVec (onStackMem s) (Some vs) (onStackSize s)]> σ)
      else s ← pushAll vs s; Some (<[this := s]> σ)
  end.

(** Move assignment to [this] from [rhs] in a store of vectors. *)
Definition moveAssign (this rhs : Z) (σ : gmap Z StackVec) : option (gmap Z StackVec) :=
  s ← σ !! this; s ← clear s;
  let σ := <[this := s]> σ in
  r ← σ !! rhs;
  match dynamicMem r with
  | Some d =>
      let σ := <[rhs := mkStackVec (onStackMem r) (dynamicMem s) (onStackSize r)]> σ in
      s' ← σ !! this;
      Some (<[this := mkStackVec (onStackMem s') (Some d) (onStackSize s')]> σ)
  | None =>
      vs ← iterate r;
      match dynamicMem s with
      | Some d => Some (<[this := mkStackVec (onStackMem s) (Some (d ++ vs)) (onStackSize s)]> σ)
      | None => s ← pushAll vs s; Some (<[this := s]> σ)
      end
  end.

(** The objects still alive in the buffer after the destructor. *)
Definition destructor (s : StackVec) : option (gmap nat A) :=
  match dynamicMem s with
  | Some _ => Some (onStackMem s)
  | None => s ← clear s; Some (onStackMem s)
  end.

Fixpoint sameElements (lhs rhs : list A) : bool :=
  match lhs, rhs with
  | x :: lhs, y :: rhs => if decide (x <> y) then false else sameElements lhs rhs
  | _, _ => true
  end.

Definition operator_eq (lhs rhs : StackVec) : option bool :=
  if decide (size lhs <> size rhs) then Some false
  else l ← iterate lhs; r ← iterate rhs; Some (sameElements l r).

(** ** The sequence a vector represents *)

Definition repr (s : StackVec) (l : list A) : Prop :=
  match dynamicMem s with
  | Some d => d = l /\ onStackMem s = ∅ /\ onStackSize s = O
  | None => onStackMem s = map_seq 0 l /\ onStackSize s = length l /\ (length l <= onStackCaps)%nat
  end.

(** ** Lemmas *)

Lemma readSlots_spec m k l :
  (forall i, (i < length l)%nat -> m !! (k + i)%nat = l !! i) -> readSlots m k (length l) = Some l.
Proof.
  revert k. induction l as [|x l IH]; intros k H; [done|]. simpl.
  pose proof (H O ltac:(simpl; lia)) as H0. rewrite Nat.add_0_r in H0. rewrite H0. cbn.
  rewrite IH; [done|]. intros i Hi. rewrite Nat.add_succ_comm. apply (H (S i)). simpl. lia.
Qed.

Lemma destroy_spec k n m :
  (forall i, (k <= i < k + n)%nat -> is_Some (m !! i)) ->
  exists m', destroy k n m = Some m' /\
    forall i, m' !! i = if decide (k <= i < k + n)%nat then None else m !! i.
Proof.
  revert k m. induction n as [|n IH]; intros k m H; simpl.
  { exists m. split; [done|]. intros i. rewrite decide_False by lia. done. }
  destruct (H k ltac:(lia)) as [x ->]. cbn.
  destruct (IH (S k) (delete k m)) as (m' & -> & Hm').
  { intros i Hi. rewrite lookup_delete_ne by lia. apply H. lia. }
  exists m'. split; [done|]. intros i. rewrite Hm'.
  destruct (decide (i = k)) as [->|Hne].
  - rewrite decide_False, decide_True by lia. apply lookup_delete_eq.
  - rewrite lookup_delete_ne by lia. repeat case_decide; try done; lia.
Qed.

Lemma repr_iterate s l : repr s l -> iterate s = Some l /\ size s = length l.
Proof.
  unfold repr, iterate, size. destruct (dynamicMem s) as [d|]; [by intros (-> & _)|].
  intros (-> & -> & _). split; [|done]. apply readSlots_spec.
  intros i Hi. by rewrite lookup_map_seq_0.
Qed.

Lemma repr_onStack s l : repr s l -> dynamicMem s = None -> onStackSize s = length l.
Proof. unfold repr. intros H Hd. rewrite Hd in H. naive_solver. Qed.

Lemma clearRange_spec s l n :
  dynamicMem s = None -> repr s l -> (n <= length l)%nat ->
  clearStackObjectsRange n (length l - n) s = Some (mkStackVec (map_seq 0 (take n l)) None (length l)).
Proof.
  intros Hd H Hn. unfold repr in H. rewrite Hd in H. destruct H as (Hm & Hs & Hc).
  unfold clearStackObjectsRange. rewrite Hs, Hd, Hm. rewrite decide_False by lia.
  destruct (destroy_spec n (length l - n) (map_seq 0 l)) as (m' & -> & Hm').
  { intros i Hi. rewrite lookup_map_seq_0. apply lookup_lt_is_Some. lia. }
  cbn. do 2 f_equal. apply map_eq. intros i. rewrite Hm', !lookup_map_seq_0.
  case_decide as Hi.
  - symmetry. apply lookup_ge_None. rewrite length_take. lia.
  - destruct (decide (i < n)%nat).
    + by rewrite lookup_take_lt.
    + rewrite lookup_take_ge by lia. apply lookup_ge_None. lia.
Qed.

Lemma clearStackObjects_spec m d l :
  m = map_seq 0 l -> clearStackObjects (mkStackVec m d (length l)) = Some (mkStackVec ∅ d 0).
Proof.
  intros ->. unfold clearStackObjects, clearStackObjectsRange. simpl. rewrite decide_False by lia.
  destruct (destroy_spec 0 (length l) (map_seq 0 l)) as (m' & -> & Hm').
  { intros i Hi. rewrite lookup_map_seq_0. apply lookup_lt_is_Some. lia. }
  cbn. do 2 f_equal. apply map_eq. intros i. rewrite Hm', lookup_map_seq_0, lookup_empty.
  case_decide; [done|]. apply lookup_ge_None. lia.
Qed.

Lemma ensureDynamicMem_spec s l :
  repr s l -> ensureDynamicMem s = Some (mkStackVec ∅ (Some l) 0).
Proof.
  intros H. pose proof (repr_iterate s l H) as [Hit _]. unfold repr, ensureDynamicMem, iterate in *.
  destruct s as [m [d|] k]; simpl in *.
  - destruct H as (-> & -> & ->). done.
  - destruct H as (Hm & -> & _). rewrite Hit. destruct l as [|x l]; simpl in *; [by subst|].
    by apply (clearStackObjects_spec m (Some (x :: l)) (x :: l)).
Qed.

Lemma clear_spec s l :
  repr s l -> exists s', clear s = Some s' /\ repr s' [] /\ (dynamicMem s' = None <-> dynamicMem s = None).
Proof.
  intros H. unfold repr, clear in *. destruct s as [m [d|] k]; simpl in *.
  - eexists. split; [done|]. simpl. naive_solver.
  - destruct H as (Hm & -> & ?). rewrite (clearStackObjects_spec m None l Hm).
    eexists. split; [done|]. simpl. split; [|done]. split_and!; [done|done|lia].
Qed.

Lemma construct_spec s l v :
  dynamicMem s = None -> repr s l -> (length l < onStackCaps)%nat ->
  construct (onStackSize s) v (onStackMem s) = Some (map_seq 0 (l ++ [v])).
Proof.
  intros Hd H Hl. unfold repr in H. rewrite Hd in H. destruct H as (-> & -> & _).
  unfold construct. rewrite decide_True by done.
  rewrite lookup_map_seq_0, lookup_ge_None_2 by lia. f_equal. by rewrite map_seq_snoc.
Qed.

Lemma repr_dynamic l : repr (mkStackVec ∅ (Some l) 0) l.
Proof. done. Qed.

(** A reference into the buffer does not survive the move to the heap. *)
Definition inBuffer (r : Ref) : Prop := match r with ToSlot _ => True | _ => False end.
#[global] Instance inBuffer_dec r : Decision (inBuffer r).
Proof. destruct r; simpl; apply _. Defined.

Lemma readRef_moved s l r v : repr s l -> readRef s r = Some v ->
  readRef (mkStackVec ∅ (Some l) 0) r = if decide (inBuffer r) then None else Some v.
Proof.
  unfold repr. intros H Hr. case_decide as Hb; destruct r as [w|i|i]; simpl in *; try done.
  destruct (dynamicMem s); [|done]. by destruct H as (-> & _).
Qed.

Lemma readRef_grown s s' r v : dynamicMem s' = dynamicMem s -> onStackMem s ⊆ onStackMem s' ->
  readRef s r = Some v -> readRef s' r = Some v.
Proof.
  intros Hd Hm. destruct r as [w|i|i]; simpl; [done| |by rewrite Hd]. intros H. by eapply lookup_weaken.
Qed.

Lemma buffer_is_inline s l r v : repr s l -> readRef s r = Some v -> inBuffer r -> dynamicMem s = None.
Proof.
  destruct r as [|i|]; intros H Hr Hb; [done| |done]. unfold repr in H. destruct (dynamicMem s); [|done].
  destruct H as (_ & Hm & _). simpl in Hr. by rewrite Hm, lookup_empty in Hr.
Qed.

Lemma push_back_spec s l r v : repr s l -> readRef s r = Some v ->
  if decide (inBuffer r /\ length l = onStackCaps) then push_back r s = None
  else exists s', push_back r s = Some s' /\ repr s' (l ++ [v]).
Proof.
  intros H Hr. unfold push_back. destruct (decide (onStackSize s = onStackCaps)) as [Hc|Hc].
  - rewrite (ensureDynamicMem_spec s l H). cbn -[readRef]. rewrite (readRef_moved s l r v H Hr).
    destruct (decide (inBuffer r)) as [Hb|Hb]; [|rewrite decide_False by tauto; simpl; eauto using repr_dynamic].
    rewrite decide_True; [done|]. split; [done|]. rewrite <- (repr_onStack s l H); [done|].
    by eapply buffer_is_inline.
  - cbn -[readRef]. rewrite Hr. rewrite decide_False.
    2:{ intros [Hb Hl]. apply Hc. rewrite <- Hl. apply repr_onStack; [done|]. by eapply buffer_is_inline. }
    destruct (dynamicMem s) as [d|] eqn:Hd.
    + eexists. split; [done|]. unfold repr in *. rewrite Hd in H. simpl. naive_solver.
    + pose proof H as Hr'. unfold repr in H. rewrite Hd in H. destruct H as (Hm & Hs & Hle).
      cbn. rewrite (construct_spec s l v Hd Hr') by lia. cbn. eexists. split; [done|].
      unfold repr. simpl. rewrite length_app. simpl. split_and!; [done|lia|lia].
Qed.

Lemma push_outside_spec s l v : repr s l -> exists s', push_back (Outside v) s = Some s' /\ repr s' (l ++ [v]).
Proof. intros H. apply (push_back_spec s l (Outside v) v H eq_refl). Qed.

Lemma pushAll_spec vs s l : repr s l -> exists s', pushAll vs s = Some s' /\ repr s' (l ++ vs).
Proof.
  revert s l. induction vs as [|v vs IH]; intros s l H; simpl.
  { exists s. by rewrite app_nil_r. }
  destruct (push_outside_spec s l v H) as (s1 & -> & H1). cbn.
  destruct (IH s1 _ H1) as (s2 & -> & H2). exists s2. split; [done|]. by rewrite <- app_assoc in H2.
Qed.

Lemma pushAll_inline vs s l s' :
  repr s l -> dynamicMem s = None -> (length l + length vs <= onStackCaps)%nat ->
  pushAll vs s = Some s' -> dynamicMem s' = None.
Proof.
  revert s l. induction vs as [|v vs IH]; intros s l H Hd Hc Hp; simplify_eq/=; [done|].
  pose proof (repr_onStack s l H Hd) as Hs. destruct (push_outside_spec s l v H) as (s1 & E & H1).
  rewrite E in Hp. apply (IH s1 (l ++ [v]) H1); [|rewrite length_app; simpl; lia|done].
  unfold push_back in E. rewrite decide_False in E by lia. cbn in E. rewrite Hd in E. cbn in E.
  destruct (construct _ _ _); naive_solver.
Qed.

Lemma repr_new : repr newStackVec [].
Proof. unfold repr. simpl. split_and!; [done|done|lia]. Qed.

Lemma pushAll_new vs : exists s', pushAll vs newStackVec = Some s' /\ repr s' vs.
Proof. apply (pushAll_spec vs newStackVec [] repr_new). Qed.

Lemma repr_spill s l l' : repr s l -> onStackSize s = O -> repr (mkStackVec (onStackMem s) (Some l') (onStackSize s)) l'.
Proof.
  unfold repr. simpl. intros H Hs. split; [done|]. rewrite Hs. split; [|done].
  destruct (dynamicMem s); [naive_solver|]. destruct H as (-> & Hl & _). destruct l; [done|]. simpl in Hl. lia.
Qed.

Lemma constructLoop_spec dflt n value v s l :
  dynamicMem s = None -> repr s l -> readValue dflt value s = Some v -> (length l + n <= onStackCaps)%nat ->
  exists s', constructLoop dflt n value s = Some s' /\ repr s' (l ++ replicate n v).
Proof.
  revert s l. induction n as [|n IH]; intros s l Hd H Hv Hn; simpl.
  { exists s. by rewrite app_nil_r. }
  rewrite Hv. cbn. rewrite (construct_spec s l v Hd H) by lia. cbn. rewrite Hd.
  destruct (IH (mkStackVec (map_seq 0 (l ++ [v])) None (S (onStackSize s))) (l ++ [v])) as (s' & -> & H').
  - done.
  - unfold repr. simpl. rewrite length_app. simpl. rewrite (repr_onStack s l H Hd). split_and!; [done|lia|lia].
  - destruct value as [r|]; [|done]. simpl in *. apply (readRef_grown s); [done| |done].
    unfold repr in H. rewrite Hd in H. destruct H as (-> & _). simpl. rewrite map_seq_snoc.
    apply insert_subseteq. rewrite lookup_map_seq_0. apply lookup_ge_None. lia.
  - rewrite length_app. simpl. lia.
  - exists s'. split; [done|]. by rewrite <- app_assoc in H'.
Qed.

Lemma vectorResize_spec n v d : vectorResize n (Some v) d = Some (take n d ++ replicate (n - length d) v).
Proof.
  unfold vectorResize. case_decide.
  - replace (n - length d)%nat with O by lia. by rewrite app_nil_r.
  - cbn. by rewrite take_ge by lia.
Qed.

Definition valueInBuffer (value : option Ref) : Prop := match value with Some r => inBuffer r | None => False end.
#[global] Instance valueInBuffer_dec value : Decision (valueInBuffer value).
Proof. destruct value; simpl; apply _. Defined.

Lemma readValue_moved dflt value s l v : repr s l -> readValue dflt value s = Some v ->
  readValue dflt value (mkStackVec ∅ (Some l) 0) = if decide (valueInBuffer value) then None else Some v.
Proof. intros H Hv. destruct value as [r|]; [exact (readRef_moved s l r v H Hv)|]. case_decide; [done|exact Hv]. Qed.

Lemma resizeImpl_spec dflt n value v s l :
  repr s l -> readValue dflt value s = Some v ->
  if decide (valueInBuffer value /\ onStackCaps < n)%nat then resizeImpl dflt n value s = None
  else exists s', resizeImpl dflt n value s = Some s' /\ repr s' (take n l ++ replicate (n - length l) v).
Proof.
  intros H Hv. unfold resizeImpl. destruct (decide (onStackCaps < n)%nat) as [Hc|Hc].
  - rewrite (ensureDynamicMem_spec s l H). cbn -[readValue]. rewrite (readValue_moved dflt value s l v H Hv).
    destruct (decide (valueInBuffer value)) as [Hb|Hb].
    + rewrite decide_True by done. unfold vectorResize. rewrite decide_False; [done|].
      destruct value as [r|]; [|done]. pose proof (buffer_is_inline s l r v H Hv Hb) as Hd.
      unfold repr in H. rewrite Hd in H. lia.
    + rewrite decide_False by tauto. rewrite vectorResize_spec. cbn. eauto using repr_dynamic.
  - rewrite decide_False by tauto. cbn -[readValue]. destruct (dynamicMem s) as [d|] eqn:Hd.
    + rewrite Hv, vectorResize_spec. cbn. eexists. split; [done|].
      unfold repr in *. rewrite Hd in H. simpl. naive_solver.
    + pose proof (repr_onStack s l H Hd) as Hs. case_decide as Hle.
      * rewrite Hs in *. rewrite (clearRange_spec s l n Hd H Hle). cbn. eexists. split; [done|].
        replace (n - length l)%nat with O by lia. simpl. rewrite app_nil_r.
        unfold repr. simpl. rewrite length_take. split_and!; [done|lia|lia].
      * rewrite Hs in *. rewrite take_ge by lia. apply constructLoop_spec; [done|done|done|].
        unfold repr in H. rewrite Hd in H. lia.
Qed.

Lemma sameElements_spec l r : length l = length r -> sameElements l r = bool_decide (l = r).
Proof.
  revert r. induction l as [|x l IH]; intros [|y r] H; simplify_eq/=; [done|].
  case_decide as Hxy.
  - symmetry. apply bool_decide_eq_false. naive_solver.
  - rewrite IH by done. apply bool_decide_ext. naive_solver.
Qed.

Lemma copyAssign_spec σ this rhs s r l lr :
  σ !! this = Some s -> σ !! rhs = Some r -> repr s l -> repr r lr ->
  exists σ' s', copyAssign this rhs σ = Some σ' /\ σ' = <[this := s']> σ /\
    repr s' (if decide (this = rhs) then [] else lr).
Proof.
  intros Hs Hr Hl Hlr. unfold copyAssign. rewrite Hs. cbn.
  destruct (clear_spec s l Hl) as (s1 & -> & H1 & _). cbn.
  set (lr' := if decide (this = rhs) then [] else lr).
  assert (exists r', <[this := s1]> σ !! rhs = Some r' /\ repr r' lr') as (r' & -> & Hr').
  { unfold lr'. case_decide as Heq.
    - subst. rewrite lookup_insert_eq. eauto.
    - rewrite lookup_insert_ne by done. eauto. }
  cbn. destruct (repr_iterate r' lr' Hr') as [-> Hsz]. cbn.
  destruct (dynamicMem s1) as [d|] eqn:Hd.
  - unfold repr in H1. rewrite Hd in H1. destruct H1 as (-> & -> & ->). simpl.
    rewrite insert_insert_eq. eauto 10 using repr_dynamic.
  - pose proof (repr_onStack s1 [] H1 Hd) as H0. case_decide.
    + rewrite insert_insert_eq. do 2 eexists. split_and!; [done|done|]. by eapply repr_spill.
    + destruct (pushAll_spec lr' s1 [] H1) as (s2 & -> & H2). cbn. rewrite insert_insert_eq. eauto.
Qed.

Lemma moveAssign_spec σ this rhs s r l lr :
  this <> rhs -> σ !! this = Some s -> σ !! rhs = Some r -> repr s l -> repr r lr ->
  exists σ' s' r', moveAssign this rhs σ = Some σ' /\ σ' !! this = Some s' /\ σ' !! rhs = Some r' /\
    repr s' lr /\ (repr r' lr \/ repr r' []) /\ forall p, p <> this -> p <> rhs -> σ' !! p = σ !! p.
Proof.
  intros Hne Hs Hr Hl Hlr. unfold moveAssign. rewrite Hs. cbn.
  destruct (clear_spec s l Hl) as (s1 & -> & H1 & _). cbn. rewrite lookup_insert_ne, Hr by done. cbn.
  destruct (dynamicMem r) as [d|] eqn:Hdr.
  - rewrite lookup_insert_ne, lookup_insert_eq by done. cbn.
    unfold repr in Hlr. rewrite Hdr in Hlr. destruct Hlr as (-> & Hm & H0).
    do 3 eexists. split; [done|]. rewrite lookup_insert_eq. rewrite lookup_insert_ne, lookup_insert_eq by done.
    split_and!; [done|done| | |].
    + unfold repr in H1 |- *. simpl. destruct (dynamicMem s1); naive_solver.
    + right. rewrite Hm, H0. unfold repr in H1 |- *. simpl. destruct (dynamicMem s1); [naive_solver|].
      split_and!; [done|done|lia].
    + intros p ? ?. by rewrite !lookup_insert_ne by done.
  - destruct (repr_iterate r lr Hlr) as [-> _]. cbn.
    destruct (dynamicMem s1) as [d|] eqn:Hd; [|destruct (pushAll_spec lr s1 [] H1) as (s2 & -> & H2); cbn];
      do 3 eexists; (split; [done|]); rewrite lookup_insert_eq; rewrite !lookup_insert_ne by done;
      (split_and!; [done|done| |by left|intros p ? ?; by rewrite !lookup_insert_ne by done]).
    + unfold repr in H1. rewrite Hd in H1. destruct H1 as (-> & -> & ->). done.
    + done.
Qed.

(** C18: every operation of the small-buffer vector is the operation on
    the sequence it holds, whether the elements are in the buffer or on the
    heap: pushing, resizing, reserving, clearing, indexing, iterating,
    comparing, the constructors, copy and move assignment from another vector,
    and the destructor (which leaves no object alive in the buffer).

    Two cases are not the operation on the sequence, and the theorem says what
    happens in them.  Pushing, or growing to, a value given as a reference to an
    element in the buffer reads a destroyed object exactly when the call moves
    the elements to the heap; a reference to an object elsewhere or to an element
    on the heap is always fine.  Copy assignment of a vector to itself leaves it
    empty. *)
Theorem stackvec_refines_list s l :
  repr s l ->
  size s = length l /\ iterate s = Some l /\
  (forall i, (i < length l)%nat -> readRef s (operator_index s i) = l !! i) /\
  (forall r v, readRef s r = Some v ->
     if decide (inBuffer r /\ length l = onStackCaps) then push_back r s = None
     else exists s', push_back r s = Some s' /\ repr s' (l ++ [v])) /\
  (forall n, exists s', reserve n s = Some s' /\ repr s' l) /\
  (exists s', clear s = Some s' /\ repr s' []) /\
  (forall dflt n value v, readValue dflt value s = Some v ->
     if decide (valueInBuffer value /\ onStackCaps < n)%nat then resizeImpl dflt n value s = None
     else exists s', resizeImpl dflt n value s = Some s' /\
       repr s' (take n l ++ replicate (n - length l) v)) /\
  (forall dflt n, exists s', fromSize dflt n = Some s' /\ repr s' (replicate n dflt)) /\
  (exists s', fromRange l = Some s' /\ repr s' l) /\
  (exists s', fromInitializerList l = Some s' /\ repr s' l) /\
  (exists s', copyConstruct s = Some s' /\ repr s' l) /\
  (exists s' r', moveConstruct s = Some (s', r') /\ repr s' l /\ (repr r' l \/ repr r' [])) /\
  destructor s = Some ∅ /\
  (forall r lr, repr r lr -> operator_eq s r = Some (bool_decide (l = lr))) /\
  (forall σ this rhs r lr, σ !! this = Some r -> σ !! rhs = Some s -> repr r lr ->
     exists s', copyAssign this rhs σ = Some (<[this := s']> σ) /\
       repr s' (if decide (this = rhs) then [] else l)) /\
  (forall σ this rhs r lr, this <> rhs -> σ !! this = Some r -> σ !! rhs = Some s -> repr r lr ->
     exists σ' s' r', moveAssign this rhs σ = Some σ' /\ σ' !! this = Some s' /\ σ' !! rhs = Some r' /\
       repr s' l /\ (repr r' l \/ repr r' [])).
Proof.
  intros H. destruct (repr_iterate s l H) as [Hit Hsz]. split_and!; try done.
  - intros i Hi. unfold operator_index, repr in *. destruct (dynamicMem s) eqn:Hd; simpl; [rewrite Hd; naive_solver|].
    destruct H as (-> & _). by rewrite lookup_map_seq_0.
  - intros r v. by apply push_back_spec.
  - intros n. unfold reserve. case_decide; [|eauto]. rewrite (ensureDynamicMem_spec s l H). eauto using repr_dynamic.
  - destruct (clear_spec s l H) as (s' & ? & ? & _). eauto.
  - intros dflt n value v. by apply resizeImpl_spec.
  - intros dflt n. destruct (resizeImpl_spec dflt n None dflt newStackVec [] repr_new eq_refl) as (s' & ? & Hs').
    exists s'. split; [done|]. by rewrite take_nil, Nat.sub_0_r in Hs'.
  - unfold fromRange. case_decide as Hc; [eauto using repr_dynamic|].
    destruct (pushAll_new l) as (s' & Hp & Hs'). rewrite Hp. cbn. eexists. split; [done|].
    pose proof (pushAll_inline l _ [] s' repr_new eq_refl ltac:(simpl; lia) Hp) as Hd.
    unfold repr in *. simpl. rewrite Hd in *. naive_solver.
  - unfold fromInitializerList, reserve. case_decide.
    + rewrite (ensureDynamicMem_spec _ [] repr_new). cbn. by apply (pushAll_spec l _ []).
    + cbn. apply pushAll_new.
  - unfold copyConstruct. rewrite Hit. cbn. case_decide; [eauto using repr_dynamic|apply pushAll_new].
  - unfold moveConstruct. destruct (dynamicMem s) as [d|] eqn:Hd.
    + do 2 eexists. split; [done|]. unfold repr in *. rewrite Hd in H. destruct H as (-> & -> & ->). simpl.
      split; [done|]. right. split_and!; [done|done|lia].
    + rewrite Hit. cbn. destruct (pushAll_new l) as (s' & -> & Hs'). cbn. exists s', s. eauto.
  - unfold destructor. destruct (dynamicMem s) as [d|] eqn:Hd.
    + unfold repr in H. rewrite Hd in H. by destruct H as (_ & -> & _).
    + destruct (clear_spec s l H) as (s' & -> & Hs' & Hd'). cbn. unfold repr in Hs'.
      rewrite (proj2 Hd' Hd) in Hs'. by destruct Hs' as (-> & _).
  - intros r lr Hr. destruct (repr_iterate r lr Hr) as [Hrit Hrsz]. unfold operator_eq.
    rewrite Hsz, Hrsz, Hit, Hrit. case_decide as Hl.
    + f_equal. symmetry. apply bool_decide_eq_false. naive_solver.
    + cbn. by rewrite sameElements_spec.
  - intros σ this rhs r lr Hr Hs Hlr.
    destruct (copyAssign_spec σ this rhs r s lr l Hr Hs Hlr H) as (σ' & s' & -> & -> & ?). eauto.
  - intros σ this rhs r lr Hne Hr Hs Hlr.
    destruct (moveAssign_spec σ this rhs r s lr l Hne Hr Hs Hlr H) as (σ' & s' & r' & ? & ? & ? & ? & ? & _). eauto 10.
Qed.

End StackVec.

(** Three elements in a buffer of three.  The fourth moves them to the heap; if
    it is the vector's own first element, pushed as [v.push_back(v[0])], the
    vector reads it after its destruction.  In a buffer of four the same push is
    fine.  Assigning the vector to itself empties it. *)
Example stackvec_refines_list_witness :
  let s := mkStackVec (map_seq 0 [10; 20; 30]) None 3 in
  let σ := <[1 := s]> ∅ in
  repr 3 s [10; 20; 30] /\ size s = 3%nat /\
  push_back 3 (Outside 40) s = Some (mkStackVec ∅ (Some [10; 20; 30; 40]) 0) /\
  push_back 3 (operator_index s 0) s = None /\
  (exists s', push_back 4 (operator_index s 0) s = Some s' /\ repr 4 s' [10; 20; 30; 10]) /\
  resizeImpl 3 0 4 (Some (operator_index s 2)) s = None /\
  (exists s', copyAssign 3 1 1 σ = Some (<[1 := s']> σ) /\ repr 3 s' []).
Proof.
  intros s σ. assert (forall n, (3 <= n)%nat -> repr n s [10; 20; 30]) as H by (intros n Hn; split_and!; [done|done|done]).
  destruct (stackvec_refines_list 3 s _ (H 3%nat ltac:(lia))) as (Hsz & _ & _ & Hp & _ & _ & Hr & _ & _ & _ & _ & _ & _ & _ & Hcp & _).
  destruct (stackvec_refines_list 4 s _ (H 4%nat ltac:(lia))) as (_ & _ & _ & Hp' & _).
  split_and!; [by apply H|exact Hsz|reflexivity|..].
  - apply (Hp (operator_index s 0) 10). reflexivity.
  - apply (Hp' (operator_index s 0) 10). reflexivity.
  - apply (Hr 0 4%nat (Some (operator_index s 2)) 30). reflexivity.
  - apply (Hcp σ 1 1 s [10; 20; 30]); [done|done|by apply H].
Defined.
