(* ===== verification/LocalWorkSize.v ===== *)
(** * Work-group size deduction

    Model of [runtime/command_queue/local_work_size.cpp] with the
    [WorkSizeInfo] of [runtime/program/kernel_info.cpp] and [Vec3] of
    [runtime/utilities/vec.h]: how the driver picks a local work size when the
    application gives none.  Arrays of three are [Vec3]; the factor tables are
    lists, and a theorem shows that they fit the 1024-entry arrays of the code.
    Halving loops run on 32-bit values, which are 0 after 32 halvings.
    Division by zero and [UNRECOVERABLE_IF] are [None].  The floating-point
    ratio only ranks candidates; its operations are parameters. *)

From S2P Require Import Prelude.
From S2P Require Import BasicMath.
Import Math.

Record Vec3 := mkVec3 { x : Z; y : Z; z : Z }.

#[export] Instance Vec3_eq_dec : EqDecision Vec3.
Proof. solve_decision. Defined.

(** The first [workDim] components from [a], the others from [b]. *)
Definition firstDims (workDim : Z) (a b : Vec3) : Vec3 :=
  mkVec3 (if decide (0 < workDim) then x a else x b)
         (if decide (1 < workDim) then y a else y b)
         (if decide (2 < workDim) then z a else z b).

Definition cdiv (a b : Z) : option Z := if decide (b = 0) then None else Some (a / b).

Definition getSimplifiedDim (v : Vec3) : Z :=
  if decide (1 < z v) then 3 else if decide (1 < y v) then 2 else if decide (1 <= x v) then 1 else 0.

(** ** WorkSizeInfo *)

Record WorkSizeInfo (F : Type) := mkWorkSizeInfo {
  maxWorkGroupSize : Z; minWorkGroupSize : Z; hasBarriers : bool; simdSize : Z; slmTotalSize : Z;
  gen9OrLater : bool; numThreadsPerSubSlice : Z; localMemSize : Z;
  imgUsed : bool; yTiledSurfaces : bool; useRatio : bool; useStrictRatio : bool; targetRatio : F }.
Arguments mkWorkSizeInfo {F}. Arguments maxWorkGroupSize {F}. Arguments minWorkGroupSize {F}.
Arguments hasBarriers {F}. Arguments simdSize {F}. Arguments slmTotalSize {F}. Arguments gen9OrLater {F}.
Arguments numThreadsPerSubSlice {F}. Arguments localMemSize {F}. Arguments imgUsed {F}.
Arguments yTiledSurfaces {F}. Arguments useRatio {F}. Arguments useStrictRatio {F}. Arguments targetRatio {F}.

Section WorkSize.
(** Single-precision floats: [logRatio x y] is [log((float)x) - log((float)y)],
    [distance a b] is [fabs(a - b)], [fltb] is [<]; the constants are
    [float(0xffffffff)], [0] and [YTilingRatioValue]. *)
Context {F : Type} (logRatio : Z -> Z -> F) (distance : F -> F -> F) (fltb : F -> F -> bool)
  (fmaxRatio fzero YTilingRatioValue : F).

Definition setMinWorkGroupSize (w : WorkSizeInfo F) : option Z :=
  let minWorkGroupSize := 0 in
  let minWorkGroupSize :=
    if hasBarriers w then
      let maxBarriersPerHSlice := if gen9OrLater w then 32 else 16 in
      w32 (numThreadsPerSubSlice w * simdSize w) / maxBarriersPerHSlice
    else minWorkGroupSize in
  if decide (0 < slmTotalSize w) then
    q ← cdiv (localMemSize w) (slmTotalSize w);
    m ← cdiv (maxWorkGroupSize w) q;
    Some (Z.max m minWorkGroupSize)
  else Some minWorkGroupSize.

Definition withMin (w : WorkSizeInfo F) (m : Z) : WorkSizeInfo F :=
  mkWorkSizeInfo (maxWorkGroupSize w) m (hasBarriers w) (simdSize w) (slmTotalSize w) (gen9OrLater w)
    (numThreadsPerSubSlice w) (localMemSize w) (imgUsed w) (yTiledSurfaces w)
    (useRatio w) (useStrictRatio w) (targetRatio w).

Definition newWorkSizeInfo (maxWorkGroupSize : Z) (hasBarriers : bool) (simdSize slmTotalSize : Z)
    (gen9OrLater : bool) (numThreadsPerSubSlice localMemSize : Z) (imgUsed yTiledSurface : bool)
    : option (WorkSizeInfo F) :=
  let w := mkWorkSizeInfo maxWorkGroupSize 0 hasBarriers simdSize slmTotalSize gen9OrLater
    numThreadsPerSubSlice localMemSize imgUsed yTiledSurface false false fzero in
  m ← setMinWorkGroupSize w; Some (withMin w m).

Definition withRatio (w : WorkSizeInfo F) (use strict : bool) (target : F) : WorkSizeInfo F :=
  mkWorkSizeInfo (maxWorkGroupSize w) (minWorkGroupSize w) (hasBarriers w) (simdSize w) (slmTotalSize w)
    (gen9OrLater w) (numThreadsPerSubSlice w) (localMemSize w) (imgUsed w) (yTiledSurfaces w) use strict target.

Definition checkRatio (w : WorkSizeInfo F) (workItems : Vec3) : WorkSizeInfo F :=
  if decide (0 < slmTotalSize w) then
    withRatio w true false (logRatio (x workItems) (y workItems))
  else if yTiledSurfaces w then withRatio w true true YTilingRatioValue
  else w.

(** ** Prime factors *)

Definition optimalHardwareThreadCountGeneric : list Z := [32; 16; 8; 4; 2; 1].

Definition primeNumbers : list Z :=
  [251; 241; 239; 233; 229; 227; 223; 211; 199; 197; 193; 191; 181; 179; 173; 167; 163; 157; 151;
   149; 139; 137; 131; 127; 113; 109; 107; 103; 101; 97; 89; 83; 79; 73; 71; 67; 61; 59; 53; 47;
   43; 41; 37; 31; 29; 23; 19; 17; 13; 11; 7; 5; 3; 2].

(** The [while] of [factor]; [workSize] at least doubles, so 32 turns reach
    [maxWorkGroupSize]. *)
Fixpoint factorLoop (fuel : nat) (primeNumber workItems workSize maxWorkGroupSize : Z) : Z :=
  match fuel with
  | O => workSize
  | S fuel' =>
      let newWorkSize := w32 (workSize * primeNumber) in
      if decide (newWorkSize <= maxWorkGroupSize) then
        if decide (workItems mod newWorkSize = 0) then
          factorLoop fuel' primeNumber workItems newWorkSize maxWorkGroupSize
        else workSize
      else workSize
  end.

(** [factor<primeIndex>] on the primes from [primeIndex] down to 0. *)
Fixpoint factor (primes : list Z) (workItems workSize maxWorkGroupSize : Z) : Z :=
  match primes with
  | [] => workSize
  | primeNumber :: rest =>
      let newWorkSize := w32 (workSize * primeNumber) in
      if decide (newWorkSize <= workItems) then
        let workSize := factorLoop 32 primeNumber workItems workSize maxWorkGroupSize in
        factor rest workItems workSize maxWorkGroupSize
      else workSize
  end.

(** ** Powers of two *)

Definition highThreadCountThreshold : Z := 56.

(** [while (cond) v = v >> 1] on a 32-bit value. *)
Fixpoint halveWhile (fuel : nat) (cond : Z -> bool) (v : Z) : Z :=
  match fuel with
  | O => v
  | S fuel' => if cond v then halveWhile fuel' cond (Z.shiftr v 1) else v
  end.

Definition halveDownTo (limit v : Z) : Z := halveWhile 32 (fun v => bool_decide (limit < v)) v.

(** The first entry that the [while] on [targetIndex] stops at. *)
Fixpoint pickThreads (counts : list Z) (maxWorkGroupSize simdSize : Z) : Z :=
  match counts with
  | [] => 0
  | c :: rest =>
      if decide (1 < c /\ maxWorkGroupSize < w32 (c * simdSize)) then pickThreads rest maxWorkGroupSize simdSize
      else c
  end.

Definition computePowerOfTwoLWS (workItems : Vec3) (w : WorkSizeInfo F) (workGroupSize : Vec3)
    (workDim : Z) (canUseNx4 : bool) : option Vec3 :=
  let targetIndex := if canUseNx4 || bool_decide (numThreadsPerSubSlice w < highThreadCountThreshold) then 2%nat else 0%nat in
  let simdSize := simdSize w in
  let optimalLocalThreads :=
    pickThreads (drop targetIndex optimalHardwareThreadCountGeneric) (maxWorkGroupSize w) simdSize in
  let total := w32 (optimalLocalThreads * simdSize) in
  if decide (workDim = 2) then
    let xDim := total / (if canUseNx4 then 4 else 1) in
    let xDim := halveDownTo (x workItems) xDim in
    yDim ← (if canUseNx4 then Some 4 else cdiv total xDim);
    Some (mkVec3 xDim yDim (z workGroupSize))
  else
    let xDim := halveDownTo (x workItems) total in
    yDim ← cdiv total xDim;
    let yDim := halveDownTo (y workItems) yDim in
    if decide (w32 (xDim * yDim) = 0) then None
    else
      zDim ← cdiv total (w32 (xDim * yDim));
      Some (mkVec3 xDim yDim zDim).

(** [while (required > 1 && !isDivisable(item, required)) required >>= 1] *)
Definition powerOfTwoDivisor (workItem required : Z) : Z :=
  halveWhile 32 (fun v => bool_decide (1 < v) && negb (isDivisableByPowerOfTwoDivisor (w32 workItem) v)) required.

Definition powerOfTwoDivisors (workDim required : Z) (workItems : Vec3) : Vec3 :=
  firstDims workDim
    (mkVec3 (powerOfTwoDivisor (x workItems) required) (powerOfTwoDivisor (y workItems) required)
            (powerOfTwoDivisor (z workItems) required))
    (mkVec3 1 1 1).

(** ** Choice among all divisors *)

(** The state of the search: the best size and what it costs. *)
Definition workGroupsCount (workItem dim : Z) : Z := (workItem ⊞ dim ⊟ 1) / dim.

Record RatioBest := mkRatioBest { rbSize : Vec3; localRatio : F; localWkgs : Z }.

Definition ratioStep (w : WorkSizeInfo F) (workItems : Vec3) (Xdim Ydim : Z) (b : RatioBest) : RatioBest :=
  let workGroups := workGroupsCount (x workItems) Xdim ⊠ workGroupsCount (y workItems) Ydim in
  let ratioDiff := distance (targetRatio w) (logRatio Xdim Ydim) in
  let better :=
    if useStrictRatio w then fltb ratioDiff (localRatio b)
    else bool_decide (workGroups < localWkgs b)
         || (bool_decide (workGroups = localWkgs b) && fltb ratioDiff (localRatio b)) in
  if better then mkRatioBest (mkVec3 Xdim Ydim (z (rbSize b))) ratioDiff workGroups else b.

Fixpoint ratioInner (w : WorkSizeInfo F) (workItems : Vec3) (Xdim : Z) (ys : list Z) (b : RatioBest) : RatioBest :=
  match ys with
  | [] => b
  | Ydim :: ys =>
      if decide (maxWorkGroupSize w < w32 (Xdim * Ydim)) then b
      else if decide (w32 (Xdim * Ydim) < minWorkGroupSize w) then ratioInner w workItems Xdim ys b
      else ratioInner w workItems Xdim ys (ratioStep w workItems Xdim Ydim b)
  end.

Fixpoint ratioOuter (w : WorkSizeInfo F) (workItems : Vec3) (xs ys : list Z) (b : RatioBest) : RatioBest :=
  match xs with
  | [] => b
  | Xdim :: xs => ratioOuter w workItems xs ys (ratioInner w workItems Xdim ys b)
  end.

Definition choosePreferredWorkGroupSizeWithRatio (xs ys : list Z) (workGroupSize workItems : Vec3)
    (w : WorkSizeInfo F) : Vec3 :=
  rbSize (ratioOuter w workItems (rev xs) ys (mkRatioBest workGroupSize fmaxRatio 0xffffffff)).

Record ThreadBest := mkThreadBest { tbSize : Vec3; localEuThrdsDispatched : Z }.

Definition euThrdsDispatched (simd : Z) (workItems : Vec3) (Xdim Ydim Zdim : Z) : Z :=
  (w32 (w32 (w32 (Xdim * Ydim) * Zdim) + simd - 1) / simd) ⊠
  (workGroupsCount (x workItems) Xdim ⊠ workGroupsCount (y workItems) Ydim ⊠ workGroupsCount (z workItems) Zdim).

Definition threadStep (w : WorkSizeInfo F) (workItems : Vec3) (Xdim Ydim Zdim : Z) (b : ThreadBest) : ThreadBest :=
  let e := euThrdsDispatched (simdSize w) workItems Xdim Ydim Zdim in
  if decide (e < localEuThrdsDispatched b) then mkThreadBest (mkVec3 Xdim Ydim Zdim) e else b.

Fixpoint threadInner (w : WorkSizeInfo F) (workItems : Vec3) (Xdim Zdim : Z) (ys : list Z) (b : ThreadBest) : ThreadBest :=
  match ys with
  | [] => b
  | Ydim :: ys =>
      let items := w32 (w32 (Xdim * Ydim) * Zdim) in
      if decide (maxWorkGroupSize w < items) then b
      else if decide (items < minWorkGroupSize w) then threadInner w workItems Xdim Zdim ys b
      else threadInner w workItems Xdim Zdim ys (threadStep w workItems Xdim Ydim Zdim b)
  end.

Fixpoint threadMiddle (w : WorkSizeInfo F) (workItems : Vec3) (Zdim : Z) (xs ys : list Z) (b : ThreadBest) : ThreadBest :=
  match xs with
  | [] => b
  | Xdim :: xs => threadMiddle w workItems Zdim xs ys (threadInner w workItems Xdim Zdim ys b)
  end.

Fixpoint threadOuter (w : WorkSizeInfo F) (workItems : Vec3) (zs xs ys : list Z) (b : ThreadBest) : ThreadBest :=
  match zs with
  | [] => b
  | Zdim :: zs => threadOuter w workItems zs xs ys (threadMiddle w workItems Zdim xs ys b)
  end.

Definition choosePreferredWorkGroupSizeWithOutRatio (xs ys zs : list Z) (workGroupSize workItems : Vec3)
    (w : WorkSizeInfo F) : Vec3 :=
  tbSize (threadOuter w workItems zs (rev xs) ys (mkThreadBest workGroupSize 0xffffffff)).

(** ** One and two dimensions *)

Definition computeWorkgroupSize1D (maxWorkGroupSize : Z) (workItems : Vec3) : Vec3 :=
  let items := x workItems in
  let numBits := getMinLsbSet (w32 items) in
  let workSize := w32 (Z.shiftl 1 numBits) in
  let workSize := Z.min workSize maxWorkGroupSize in
  let workSize := factor (rev primeNumbers) items workSize maxWorkGroupSize in
  mkVec3 workSize 1 1.

(** The divisors of [item] among [count] numbers from [start]. *)
Definition factorsOf (item start count : Z) : list Z :=
  filter (fun i => item mod i = 0) (seqZ start count).

Record WasteBest := mkWasteBest { wbSize : Vec3; wbThreads : Z; localWSWaste : Z }.

Definition wasteStep (simdSize : Z) (workItems : Vec3) (xDim yDim : Z) (b : WasteBest) : WasteBest :=
  let workGroups := workGroupsCount (x workItems) xDim ⊠ workGroupsCount (y workItems) yDim in
  let euThrds := ((w32 (xDim * yDim) ⊞ simdSize ⊟ 1) / simdSize) ⊠ workGroups in
  let waste := (simdSize ⊟ Z.land (w32 (w32 (xDim * yDim) - 1)) (simdSize ⊟ 1)) ⊠ workGroups in
  if decide (euThrds < wbThreads b \/ (euThrds = wbThreads b /\ waste < localWSWaste b)) then
    mkWasteBest (mkVec3 xDim yDim (z (wbSize b))) euThrds waste
  else b.

Fixpoint wasteInner (maxWorkGroupSize simdSize : Z) (workItems : Vec3) (xDim : Z) (ys : list Z) (b : WasteBest) : WasteBest :=
  match ys with
  | [] => b
  | yDim :: ys =>
      if decide (maxWorkGroupSize < w32 (xDim * yDim)) then b
      else wasteInner maxWorkGroupSize simdSize workItems xDim ys (wasteStep simdSize workItems xDim yDim b)
  end.

Fixpoint wasteOuter (maxWorkGroupSize simdSize : Z) (workItems : Vec3) (xs ys : list Z) (b : WasteBest) : WasteBest :=
  match xs with
  | [] => b
  | xDim :: xs => wasteOuter maxWorkGroupSize simdSize workItems xs ys (wasteInner maxWorkGroupSize simdSize workItems xDim ys b)
  end.

Definition computeWorkgroupSize2D (maxWorkGroupSize : Z) (workItems : Vec3) (simdSize : Z) : Vec3 :=
  let xFactors := factorsOf (x workItems) 2 (maxWorkGroupSize - 1) in
  let yFactors := factorsOf (y workItems) 2 (maxWorkGroupSize - 1) in
  wbSize (wasteOuter maxWorkGroupSize simdSize workItems (rev xFactors) yFactors
            (mkWasteBest (mkVec3 1 1 1) 0xffffffff 0xffffffff)).

(** The loop that halves the larger of two powers of two. *)
Fixpoint shrinkPair (fuel : nat) (maxWorkGroupSize a b : Z) : Z * Z :=
  match fuel with
  | O => (a, b)
  | S fuel' =>
      if decide (maxWorkGroupSize < a ⊠ b) then
        if decide (b < a) then shrinkPair fuel' maxWorkGroupSize (Z.shiftr a 1) b
        else shrinkPair fuel' maxWorkGroupSize a (Z.shiftr b 1)
      else (a, b)
  end.

Definition computeWorkgroupSizeSquared (maxWorkGroupSize : Z) (workItems : Vec3) (simdSize workDim : Z) : Vec3 :=
  let d := powerOfTwoDivisors workDim maxWorkGroupSize workItems in
  if decide (maxWorkGroupSize <= x d ⊠ y d) then
    let '(a, b) := shrinkPair 64 maxWorkGroupSize (x d) (y d) in
    mkVec3 a b (z d)
  else if decide (maxWorkGroupSize < x workItems ⊠ y workItems) then
    computeWorkgroupSize2D maxWorkGroupSize workItems simdSize
  else firstDims workDim workItems (mkVec3 1 1 1).

(** ** Any number of dimensions *)

(** [EnableComputeWorkSizeSquared], a debug flag, is an argument. *)
Definition computeWorkgroupSizeND (enableSquared : bool) (w : WorkSizeInfo F) (workItems : Vec3) (workDim : Z) : option Vec3 :=
  let workGroupSize := mkVec3 1 1 1 in
  let totalNuberOfItems := x workItems ⊠ y workItems ⊠ z workItems in
  if decide (simdSize w = 0) then None
  else
  let rest :=
    if decide (totalNuberOfItems <= maxWorkGroupSize w) then Some (firstDims workDim workItems workGroupSize)
    else if decide (workDim = 1) then Some (computeWorkgroupSize1D (maxWorkGroupSize w) workItems)
    else
      let w := checkRatio w workItems in
      let factors i item :=
        1 :: (if decide (i < workDim) then factorsOf item 2 (maxWorkGroupSize w - 2) else []) in
      let xs := factors 0 (x workItems) in
      let ys := factors 1 (y workItems) in
      let zs := factors 2 (z workItems) in
      if useRatio w then
        let s := choosePreferredWorkGroupSizeWithRatio xs ys workGroupSize workItems w in
        if useStrictRatio w && bool_decide (x s ⊠ y s ⊠ 2 <= simdSize w) then
          Some (choosePreferredWorkGroupSizeWithRatio xs ys s workItems (withRatio w (useRatio w) false (targetRatio w)))
        else Some s
      else Some (choosePreferredWorkGroupSizeWithOutRatio xs ys zs workGroupSize workItems w) in
  if bool_decide (slmTotalSize w = 0) && negb (hasBarriers w) then
    if enableSquared && bool_decide (workDim = 2) && negb (imgUsed w) then
      Some (computeWorkgroupSizeSquared (maxWorkGroupSize w) workItems (simdSize w) workDim)
    else
      let d := powerOfTwoDivisors workDim (w32 (simdSize w * 32)) workItems in
      let canUseNx4 := imgUsed w &&
        (bool_decide (4 <= x d) || (bool_decide (2 <= x d) && bool_decide (simdSize w = 8))) &&
        bool_decide (4 <= y d) in
      let allItems := x d ⊠ y d ⊠ z d in
      if decide (simdSize w < allItems /\ (maxWorkGroupSize w < allItems \/ w32 (simdSize w * 32) < allItems)) then
        computePowerOfTwoLWS d w workGroupSize workDim canUseNx4
      else if decide (simdSize w <= allItems) then
        Some (firstDims workDim (mkVec3 (x d) (if canUseNx4 then 4 else y d) (z d)) workGroupSize)
      else rest
  else rest.

(** What [computeWorkgroupSize] reads of a kernel, its [WorkSizeInfo]; [None]
    for a null kernel.  Both debug flags are arguments. *)
Definition computeWorkgroupSize (enableND enableSquared : bool) (kernel : option (WorkSizeInfo F))
    (gws : Vec3) (dim : Z) : option Vec3 :=
  match kernel with
  | None => Some (mkVec3 0 0 0)
  | Some w =>
      if enableND then computeWorkgroupSizeND enableSquared w gws dim
      else if decide (dim = 1) then Some (computeWorkgroupSize1D (maxWorkGroupSize w) gws)
      else if enableSquared && bool_decide (dim = 2) then
        Some (computeWorkgroupSizeSquared (maxWorkGroupSize w) gws (simdSize w) dim)
      else Some (computeWorkgroupSize2D (maxWorkGroupSize w) gws (simdSize w))
  end.

End WorkSize.

(** ** Numbers of work groups *)

Definition computeWorkgroupsNumber (gws lws : Vec3) : option Vec3 :=
  a ← cdiv (x gws) (x lws); b ← cdiv (y gws) (y lws); c ← cdiv (z gws) (z lws);
  Some (mkVec3 (a + if decide (x gws mod x lws <> 0) then 1 else 0)
               (b + if decide (y gws mod y lws <> 0) then 1 else 0)
               (c + if decide (z gws mod z lws <> 0) then 1 else 0)).

Definition generateWorkgroupsNumber (gws lws : Vec3) : option Vec3 :=
  if decide (0 < x lws) then computeWorkgroupsNumber gws lws else Some (mkVec3 0 0 0).

Definition canonizeWorkgroup (workgroup : Vec3) : Vec3 :=
  if decide (0 < x workgroup) then mkVec3 (x workgroup) (Z.max (y workgroup) 1) (Z.max (z workgroup) 1)
  else mkVec3 0 0 0.

(** [generateWorkgroupSize]: the enqueued size, or the deduced one. *)
Definition generateWorkgroupSize (elws : Vec3) (computed : option Vec3) : option Vec3 :=
  if decide (x elws = 0) then computed else Some elws.

(** ** Lemmas on halving *)

Lemma shiftr_pow2 k : 0 < k -> Z.shiftr (2 ^ k) 1 = 2 ^ (k - 1).
Proof. intros Hk. rewrite Z.shiftr_div_pow2 by lia. rewrite <- Z.pow_sub_r by lia. done. Qed.

Lemma halveWhile_pow2 cond k n :
  0 <= k <= Z.of_nat n -> cond 1 = false ->
  exists j, 0 <= j <= k /\ halveWhile n cond (2 ^ k) = 2 ^ j /\ cond (2 ^ j) = false.
Proof.
  intros Hk H1. revert k Hk. induction n as [|n IH]; intros k Hk; simpl.
  { replace k with 0 by lia. by exists 0. }
  destruct (cond (2 ^ k)) eqn:Hc; [|exists k; split_and!; [lia|lia|done|done]].
  destruct (decide (k = 0)) as [->|Hne]; [change (2 ^ 0) with 1 in Hc; congruence|].
  rewrite shiftr_pow2 by lia. destruct (IH (k - 1) ltac:(lia)) as (j & ? & ? & ?). exists j. split_and!; [lia|lia|done|done].
Qed.

Lemma halveDownTo_pow2 i k : 0 <= i -> 0 <= k <= 32 -> halveDownTo (2 ^ i) (2 ^ k) = 2 ^ (Z.min i k).
Proof.
  intros Hi Hk. unfold halveDownTo. change 32 with (Z.of_nat 32) in Hk. revert k Hk.
  generalize 32%nat as n. induction n as [|n IH]; intros k Hk; simpl.
  { replace k with 0 by lia. by rewrite Z.min_r by lia. }
  case_bool_decide as Hc.
  - apply Z.pow_lt_mono_r_iff in Hc; [|lia|lia]. rewrite shiftr_pow2, IH by lia. f_equal. lia.
  - f_equal. assert (k <= i); [|lia]. apply Z.nlt_ge. intros Hlt. apply Hc, Z.pow_lt_mono_r; lia.
Qed.

Lemma powerOfTwoDivisor_spec item k :
  0 <= item -> 0 <= k < 32 ->
  exists j, 0 <= j <= k /\ powerOfTwoDivisor item (2 ^ k) = 2 ^ j /\ (2 ^ j | item).
Proof.
  intros Hi Hk. unfold powerOfTwoDivisor.
  edestruct (halveWhile_pow2 (fun v => bool_decide (1 < v) && negb (isDivisableByPowerOfTwoDivisor (w32 item) v)) k 32)
    as (j & Hj & -> & Hc); [lia|done|].
  exists j. split_and!; [lia|lia|done|]. destruct (decide (j = 0)) as [->|Hne]; [apply Z.divide_1_l|].
  rewrite bool_decide_true in Hc by (apply Z.pow_gt_1; lia). simpl in Hc. apply negb_false_iff in Hc.
  rewrite isDivisable_spec in Hc by (auto with words || lia). apply bool_decide_eq_true in Hc.
  apply Z.mod_divide; [lia|]. rewrite <- Hc. unfold wrap. rewrite Z.mod_mod_divide; [done|].
  exists (2 ^ (32 - j)). rewrite <- Z.pow_add_r by lia. f_equal. lia.
Qed.

Lemma pow2_divide a b : 0 <= a <= b -> (2 ^ a | 2 ^ b).
Proof. intros H. exists (2 ^ (b - a)). rewrite <- Z.pow_add_r by lia. f_equal. lia. Qed.

(** ** Valid work-group sizes *)

(** Every dimension of [s] is positive and divides the global size, and the
    group has at most [max] items. *)
Record valid_lws (max : Z) (workItems s : Vec3) : Prop := {
  vl_x : 0 < x s; vl_y : 0 < y s; vl_z : 0 < z s;
  vl_dx : (x s | x workItems); vl_dy : (y s | y workItems); vl_dz : (z s | z workItems);
  vl_max : x s * y s * z s <= max }.

Lemma valid_ones max items : 1 <= max -> valid_lws max items (mkVec3 1 1 1).
Proof. intros H. split; simpl; try lia; apply Z.divide_1_l. Qed.

Lemma valid_trans max d items s :
  valid_lws max d s -> (x d | x items) -> (y d | y items) -> (z d | z items) -> valid_lws max items s.
Proof. intros [] ???. split; try done; by etrans. Qed.

Lemma valid_pow2 max a b c a' b' c' :
  0 <= a <= a' -> 0 <= b <= b' -> 0 <= c <= c' -> 2 ^ (a + b + c) <= max ->
  valid_lws max (mkVec3 (2 ^ a') (2 ^ b') (2 ^ c')) (mkVec3 (2 ^ a) (2 ^ b) (2 ^ c)).
Proof.
  intros Ha Hb Hc Hm. rewrite !Z.pow_add_r in Hm by lia.
  split; simpl; try lia; by apply pow2_divide.
Qed.

(** ** The power-of-two choice *)

Lemma pickThreads_spec s m n :
  3 <= s <= 5 -> s <= m <= 10 -> (n = 0 \/ n = 2)%nat ->
  exists o, 0 <= o <= 5 /\ o + s <= m /\
    pickThreads (drop n optimalHardwareThreadCountGeneric) (2 ^ m) (2 ^ s) = 2 ^ o.
Proof.
  intros Hs Hm Hn. exists (Z.log2 (pickThreads (drop n optimalHardwareThreadCountGeneric) (2 ^ m) (2 ^ s))).
  assert (s = 3 \/ s = 4 \/ s = 5) as Hs' by lia.
  assert (m = 3 \/ m = 4 \/ m = 5 \/ m = 6 \/ m = 7 \/ m = 8 \/ m = 9 \/ m = 10) as Hm' by lia.
  clear Hs. destruct_or!; subst; try lia; clear Hm; by vm_compute.
Qed.

Lemma cdiv_pow2 a b : 0 <= b <= a -> cdiv (2 ^ a) (2 ^ b) = Some (2 ^ (a - b)).
Proof.
  intros H. unfold cdiv. rewrite decide_False by lia. f_equal. symmetry. apply Z.pow_sub_r; lia.
Qed.

Section valid.
Context {F : Type}.
Implicit Types w : WorkSizeInfo F.

Lemma computePowerOfTwoLWS_spec w a b c s m workDim nx4 :
  simdSize w = 2 ^ s -> maxWorkGroupSize w = 2 ^ m -> 3 <= s <= 5 -> s <= m <= 10 ->
  0 <= a -> 0 <= b -> 0 <= c -> (workDim = 2 -> c = 0) -> (nx4 = true -> 2 <= b) ->
  m < a + b + c \/ s + 5 < a + b + c ->
  let d := mkVec3 (2 ^ a) (2 ^ b) (2 ^ c) in
  exists r, computePowerOfTwoLWS d w (mkVec3 1 1 1) workDim nx4 = Some r /\ valid_lws (maxWorkGroupSize w) d r.
Proof.
  intros Hsimd Hmax Hs Hm Ha Hb Hc Hdim Hnx Hall d. unfold computePowerOfTwoLWS. rewrite Hsimd, Hmax.
  set (n := if nx4 || _ then 2%nat else 0%nat).
  destruct (pickThreads_spec s m n Hs Hm) as (o & Ho & Hos & ->); [subst n; destruct (_ || _); auto|].
  rewrite <- Z.pow_add_r by lia. set (t := o + s).
  assert (2 ^ t <= 2 ^ m) as Ht by (apply Z.pow_le_mono_r; lia).
  assert (2 ^ m <= 2 ^ 10) as Hm10 by (apply Z.pow_le_mono_r; lia).
  rewrite wrap_small by (unfold uint; lia). simpl.
  case_decide as Hd.
  - rewrite (Hdim Hd) in *. destruct nx4.
    + change 4 with (2 ^ 2). rewrite <- Z.pow_sub_r by lia. rewrite halveDownTo_pow2 by lia. cbn [mbind option_bind].
      eexists. split; [done|]. apply (valid_pow2 _ _ 2 0); [lia| |lia|].
      * specialize (Hnx eq_refl). lia.
      * apply Z.pow_le_mono_r; lia.
    + rewrite Z.div_1_r. rewrite halveDownTo_pow2 by lia. rewrite cdiv_pow2 by lia. cbn [mbind option_bind].
      eexists. split; [done|]. apply (valid_pow2 _ _ _ 0); [lia|lia|lia|]. apply Z.pow_le_mono_r; lia.
  - rewrite halveDownTo_pow2 by lia. rewrite cdiv_pow2 by lia. cbn [mbind option_bind].
    rewrite halveDownTo_pow2 by lia. rewrite <- Z.pow_add_r by lia.
    set (e := Z.min a t + Z.min b (t - Z.min a t)).
    assert (2 ^ e <= 2 ^ t) by (apply Z.pow_le_mono_r; lia).
    rewrite wrap_small by (unfold uint; lia). rewrite decide_False by lia.
    rewrite cdiv_pow2 by lia. cbn [mbind option_bind]. eexists. split; [done|].
    apply valid_pow2; [lia|lia|lia|]. apply Z.pow_le_mono_r; lia.
Qed.

(** ** Searches keep a valid size *)

Lemma elem_of_rev {A} (a : A) l : a ∈ rev l <-> a ∈ l.
Proof. by rewrite !list_elem_of_In, <- in_rev. Qed.

Lemma mul_w32 a b : 0 < a <= 1024 -> 0 < b <= 1024 -> w32 (a * b) = a * b.
Proof. intros Ha Hb. apply wrap_small. unfold uint. nia. Qed.

Lemma mul3_w32 a b c : 0 < a <= 1024 -> 0 < b <= 1024 -> 0 < c <= 1024 -> w32 (a * b * c) = a * b * c.
Proof.
  intros Ha Hb Hc. apply wrap_small. assert (0 < a * b <= 1024 * 1024) by nia. unfold uint. nia.
Qed.

Section ratio.
Context (logRatio : Z -> Z -> F) (distance : F -> F -> F) (fltb : F -> F -> bool) (fmaxRatio YTilingRatioValue : F).

Lemma ratioInner_spec w items X ys b :
  0 < X <= 1024 -> (X | x items) -> 0 < maxWorkGroupSize w ->
  (forall Y, Y ∈ ys -> 0 < Y <= 1024 /\ (Y | y items)) ->
  valid_lws (maxWorkGroupSize w) items (rbSize b) -> z (rbSize b) = 1 ->
  let b' := ratioInner logRatio distance fltb w items X ys b in
  valid_lws (maxWorkGroupSize w) items (rbSize b') /\ z (rbSize b') = 1.
Proof.
  intros HX Hdx Hmax Hys. revert b. induction ys as [|Y ys IH]; intros b Hv Hz; simpl; [done|].
  destruct (Hys Y ltac:(set_solver)) as [HY Hdy]. rewrite mul_w32 by lia.
  case_decide; [done|]. case_decide; [apply IH; [set_solver|done|done]|].
  assert (valid_lws (maxWorkGroupSize w) items (rbSize (ratioStep logRatio distance fltb w items X Y b)) /\
          z (rbSize (ratioStep logRatio distance fltb w items X Y b)) = 1) as [Hv' Hz'].
  { unfold ratioStep. destruct (if useStrictRatio w then _ else _); [|done]. simpl. rewrite Hz.
    split; [|done]. split; simpl; try lia; try done. apply Z.divide_1_l. }
  apply IH; [set_solver|done|done].
Qed.

Lemma ratio_spec w items xs ys s :
  0 < maxWorkGroupSize w ->
  (forall X, X ∈ xs -> 0 < X <= 1024 /\ (X | x items)) ->
  (forall Y, Y ∈ ys -> 0 < Y <= 1024 /\ (Y | y items)) ->
  valid_lws (maxWorkGroupSize w) items s -> z s = 1 ->
  let s' := choosePreferredWorkGroupSizeWithRatio logRatio distance fltb fmaxRatio xs ys s items w in
  valid_lws (maxWorkGroupSize w) items s' /\ z s' = 1.
Proof.
  intros Hmax Hxs Hys Hv Hz. unfold choosePreferredWorkGroupSizeWithRatio. simpl.
  set (b := mkRatioBest s fmaxRatio _).
  assert (valid_lws (maxWorkGroupSize w) items (rbSize b)) as Hb by done.
  assert (z (rbSize b) = 1) as Hbz by done. clearbody b.
  assert (forall X, X ∈ rev xs -> 0 < X <= 1024 /\ (X | x items)) as Hr by (intros X HX; by apply Hxs, elem_of_rev).
  revert b Hb Hbz. induction (rev xs) as [|X l IH]; intros b Hb Hbz; simpl; [done|].
  destruct (Hr X ltac:(set_solver)) as [HX Hdx].
  destruct (ratioInner_spec w items X ys b HX Hdx Hmax Hys Hb Hbz). apply IH; [set_solver|done|done].
Qed.

End ratio.

Lemma threadInner_valid w items X Zd ys b :
  0 < X <= 1024 -> 0 < Zd <= 1024 -> (X | x items) -> (Zd | z items) -> 0 < maxWorkGroupSize w ->
  (forall Y, Y ∈ ys -> 0 < Y <= 1024 /\ (Y | y items)) ->
  valid_lws (maxWorkGroupSize w) items (tbSize b) ->
  valid_lws (maxWorkGroupSize w) items (tbSize (threadInner w items X Zd ys b)).
Proof.
  intros HX HZ Hdx Hdz Hmax Hys. revert b. induction ys as [|Y ys IH]; intros b Hv; simpl; [done|].
  destruct (Hys Y ltac:(set_solver)) as [HY Hdy]. rewrite (mul_w32 X Y) by lia.
  rewrite mul3_w32 by done.
  case_decide; [done|]. case_decide; [apply IH; [set_solver|done]|].
  apply IH; [set_solver|]. unfold threadStep. case_decide; [|done]. split; simpl; try lia; done.
Qed.

Lemma threadMiddle_valid w items Zd xs ys b :
  0 < Zd <= 1024 -> (Zd | z items) -> 0 < maxWorkGroupSize w ->
  (forall X, X ∈ xs -> 0 < X <= 1024 /\ (X | x items)) ->
  (forall Y, Y ∈ ys -> 0 < Y <= 1024 /\ (Y | y items)) ->
  valid_lws (maxWorkGroupSize w) items (tbSize b) ->
  valid_lws (maxWorkGroupSize w) items (tbSize (threadMiddle w items Zd xs ys b)).
Proof.
  intros HZ Hdz Hmax Hxs Hys. revert b. induction xs as [|X xs IH]; intros b Hv; simpl; [done|].
  destruct (Hxs X ltac:(set_solver)). apply IH; [set_solver|]. by apply threadInner_valid.
Qed.

Lemma thread_valid w items xs ys zs s :
  0 < maxWorkGroupSize w ->
  (forall X, X ∈ xs -> 0 < X <= 1024 /\ (X | x items)) ->
  (forall Y, Y ∈ ys -> 0 < Y <= 1024 /\ (Y | y items)) ->
  (forall Zd, Zd ∈ zs -> 0 < Zd <= 1024 /\ (Zd | z items)) ->
  valid_lws (maxWorkGroupSize w) items s ->
  valid_lws (maxWorkGroupSize w) items (choosePreferredWorkGroupSizeWithOutRatio xs ys zs s items w).
Proof.
  intros Hmax Hxs Hys Hzs Hv. unfold choosePreferredWorkGroupSizeWithOutRatio.
  set (b := mkThreadBest s _). assert (valid_lws (maxWorkGroupSize w) items (tbSize b)) as Hb by done. clearbody b.
  assert (forall X, X ∈ rev xs -> 0 < X <= 1024 /\ (X | x items)) as Hr by (intros X HX; by apply Hxs, elem_of_rev).
  revert b Hb. induction zs as [|Zd zs IH]; intros b Hb; simpl; [done|].
  destruct (Hzs Zd ltac:(set_solver)). apply IH; [set_solver|]. by apply threadMiddle_valid.
Qed.

Lemma wasteInner_valid max simd items X ys b :
  0 < X <= 1024 -> (X | x items) ->
  (forall Y, Y ∈ ys -> 0 < Y <= 1024 /\ (Y | y items)) ->
  valid_lws max items (wbSize b) -> z (wbSize b) = 1 ->
  let b' := wasteInner max simd items X ys b in
  valid_lws max items (wbSize b') /\ z (wbSize b') = 1.
Proof.
  intros HX Hdx Hys. revert b. induction ys as [|Y ys IH]; intros b Hv Hz; simpl; [done|].
  destruct (Hys Y ltac:(set_solver)) as [HY Hdy]. rewrite mul_w32 by lia.
  case_decide; [done|]. set (b' := wasteStep _ _ _ _ _).
  assert (valid_lws max items (wbSize b') /\ z (wbSize b') = 1) as [Hv' Hz'].
  { subst b'. unfold wasteStep. case_decide; [|done]. simpl. rewrite Hz. split; [|done].
    split; simpl; try lia; try done. apply Z.divide_1_l. }
  apply IH; [set_solver|done|done].
Qed.

Lemma factorsOf_elem item start count i :
  i ∈ factorsOf item start count <-> start <= i < start + count /\ item mod i = 0.
Proof. unfold factorsOf. rewrite list_elem_of_filter, elem_of_seqZ. naive_solver. Qed.

Lemma factorsOf_spec item start count i :
  0 < start -> start + count <= 1025 -> i ∈ factorsOf item start count -> 0 < i <= 1024 /\ (i | item).
Proof.
  intros Hs Hc Hi. apply factorsOf_elem in Hi as [? Hm]. split; [lia|]. apply Z.mod_divide; [lia|done].
Qed.

Lemma compute2D_valid max items simd :
  1 <= max <= 1024 -> valid_lws max items (computeWorkgroupSize2D max items simd).
Proof.
  intros Hmax. unfold computeWorkgroupSize2D. set (b := mkWasteBest _ _ _).
  assert (valid_lws max items (wbSize b)) as Hb by (apply valid_ones; lia).
  assert (z (wbSize b) = 1) as Hz by done. clearbody b.
  pose proof (fun Y => factorsOf_spec (y items) 2 (max - 1) Y ltac:(lia) ltac:(lia)) as Hys.
  assert (forall X, X ∈ rev (factorsOf (x items) 2 (max - 1)) -> 0 < X <= 1024 /\ (X | x items)) as Hr.
  { intros X HX. eapply (factorsOf_spec _ 2 (max - 1)); [lia|lia|by rewrite <- elem_of_rev]. }
  revert b Hb Hz. induction (rev (factorsOf (x items) 2 (max - 1))) as [|X l IH]; intros b Hb Hz; simpl; [done|].
  destruct (Hr X ltac:(set_solver)) as [HX Hdx].
  destruct (wasteInner_valid max simd items X _ b HX Hdx Hys Hb Hz). apply IH; [set_solver|done|done].
Qed.

(** ** One dimension, and the squared choice *)

Lemma factorLoop_valid n p items s max :
  0 < p <= 251 -> 0 < s <= 1024 -> (s | items) -> s <= max <= 1024 ->
  let s' := factorLoop n p items s max in 0 < s' <= max /\ (s' | items).
Proof.
  intros Hp. revert s. induction n as [|n IH]; intros s Hs Hd Hm; simpl; [split; [lia|done]|].
  rewrite (wrap_small 32 (s * p)) by (unfold uint; nia).
  case_decide as Hc; [|split; [lia|done]]. case_decide as Hmod; [|split; [lia|done]].
  apply IH; [nia|apply Z.mod_divide; [nia|done]|lia].
Qed.

Lemma factor_valid primes items s max :
  Forall (fun p => 0 < p <= 251) primes -> 0 < s <= max -> max <= 1024 -> (s | items) ->
  let s' := factor primes items s max in 0 < s' <= max /\ (s' | items).
Proof.
  intros Hp. revert s. induction Hp as [|p primes Hp _ IH]; intros s Hs Hm Hd; [done|]. cbn [factor].
  case_decide; [|done]. destruct (factorLoop_valid 32 p items s max) as [? ?]; [lia|lia|done|lia|]. by apply IH.
Qed.

Lemma getMinLsbSet_divides items : 0 <= items -> (w32 (Z.shiftl 1 (getMinLsbSet (w32 items))) | items) /\
  exists k, 0 <= k < 32 /\ w32 (Z.shiftl 1 (getMinLsbSet (w32 items))) = 2 ^ k.
Proof.
  intros Hi. destruct (decide (w32 items = 0)) as [->|Hne].
  { split; [apply Z.divide_1_l|]. by exists 0. }
  destruct (odd_part (w32 items)) as (k & m & Hk & Hm & He).
  { pose proof (w32_range items). unfold uint in *. lia. }
  assert (2 ^ k < 2 ^ 32) as Hlt.
  { pose proof (w32_range items) as [_ Hr]. rewrite He in Hr. nia. }
  assert (k < 32) by (apply Z.pow_lt_mono_r_iff in Hlt; lia).
  rewrite He. rewrite getMinLsbSet_spec by (try (rewrite <- He; apply w32_range); lia).
  rewrite Z.shiftl_1_l, wrap_small by (unfold uint; lia). split; [|exists k; lia].
  apply Z.mod_divide; [lia|]. rewrite <- (Z.mod_mod_divide items (2 ^ 32) (2 ^ k)) by (apply pow2_divide; lia).
  fold (wrap 32 items). rewrite He. rewrite Z.mul_comm. apply Z.mod_mul. lia.
Qed.

Lemma compute1D_valid m items :
  0 <= m <= 10 -> 0 <= x items -> y items = 1 -> z items = 1 ->
  valid_lws (2 ^ m) items (computeWorkgroupSize1D (2 ^ m) items).
Proof.
  intros Hm Hx Hy Hz. unfold computeWorkgroupSize1D.
  destruct (getMinLsbSet_divides (x items) Hx) as [Hd (k & Hk & E)]. rewrite E in *.
  assert (0 < 2 ^ k) by lia. assert (0 < 2 ^ m <= 2 ^ 10) by (split; [lia|apply Z.pow_le_mono_r; lia]).
  assert ((Z.min (2 ^ k) (2 ^ m) | x items)) as Hd'.
  { destruct (Z.min_spec (2 ^ k) (2 ^ m)) as [[? ->]|[Hle ->]]; [done|].
    etrans; [|exact Hd]. apply pow2_divide. split; [lia|]. apply Z.pow_le_mono_r_iff in Hle; lia. }
  destruct (factor_valid (rev primeNumbers) (x items) (Z.min (2 ^ k) (2 ^ m)) (2 ^ m)) as [? ?]; [|lia|lia|done|].
  { eval_decide. }
  split; cbn [x y z]; try lia; try done; try apply Z.divide_1_l.
Qed.

Lemma shrinkPair_valid n m a b :
  0 <= m <= 10 -> 0 <= a <= 10 -> 0 <= b <= 10 -> a + b - m <= Z.of_nat n ->
  exists a' b', shrinkPair n (2 ^ m) (2 ^ a) (2 ^ b) = (2 ^ a', 2 ^ b') /\
    0 <= a' <= a /\ 0 <= b' <= b /\ 2 ^ a' * 2 ^ b' <= 2 ^ m.
Proof.
  intros Hm. revert a b. induction n as [|n IH]; intros a b Ha Hb Hn; simpl.
  { exists a, b. split_and!; [done|lia..|]. rewrite <- Z.pow_add_r by lia. apply Z.pow_le_mono_r; lia. }
  rewrite <- Z.pow_add_r by lia.
  assert (2 ^ (a + b) <= 2 ^ 20) by (apply Z.pow_le_mono_r; lia).
  rewrite wrap_small by (unfold uint; lia). case_decide as Hc.
  - apply Z.pow_lt_mono_r_iff in Hc; [|lia|lia]. case_decide as Hab.
    + apply Z.pow_lt_mono_r_iff in Hab; [|lia|lia]. rewrite shiftr_pow2 by lia.
      destruct (IH (a - 1) b) as (a' & b' & -> & ? & ? & ?); [lia..|]. exists a', b'. split_and!; [done|lia..].
    + assert (a <= b) by (apply Z.nlt_ge; intros ?; apply Hab, Z.pow_lt_mono_r; lia). rewrite shiftr_pow2 by lia.
      destruct (IH a (b - 1)) as (a' & b' & -> & ? & ? & ?); [lia..|]. exists a', b'. split_and!; [done|lia..].
  - exists a, b. split_and!; [done|lia..|]. rewrite <- Z.pow_add_r by lia. lia.
Qed.

(** ** Power-of-two divisors of the global size *)

Lemma powerOfTwoDivisors_spec workDim k items :
  0 <= k < 32 -> 0 <= x items -> 0 <= y items -> 0 <= z items ->
  exists a b c, powerOfTwoDivisors workDim (2 ^ k) items = mkVec3 (2 ^ a) (2 ^ b) (2 ^ c) /\
    0 <= a <= k /\ 0 <= b <= k /\ 0 <= c <= k /\ (workDim <= 2 -> c = 0) /\
    (2 ^ a | x items) /\ (2 ^ b | y items) /\ (2 ^ c | z items).
Proof.
  intros Hk Hx Hy Hz. unfold powerOfTwoDivisors, firstDims. cbn [x y z].
  destruct (powerOfTwoDivisor_spec (x items) k Hx Hk) as (a & Ha & -> & Hda).
  destruct (powerOfTwoDivisor_spec (y items) k Hy Hk) as (b & Hb & -> & Hdb).
  destruct (powerOfTwoDivisor_spec (z items) k Hz Hk) as (c & Hc & -> & Hdc).
  exists (if decide (0 < workDim) then a else 0), (if decide (1 < workDim) then b else 0), (if decide (2 < workDim) then c else 0).
  repeat case_decide; (split_and!; [done|lia..| | | ]); first [lia|done|apply Z.divide_1_l|idtac].
Qed.

Lemma squared_valid m items simd workDim :
  0 <= m <= 10 -> 0 < x items -> 0 < y items -> 0 < z items -> x items * y items < 2 ^ 64 ->
  (workDim <= 2 -> z items = 1) -> (workDim <= 1 -> y items = 1) -> workDim <= 2 ->
  valid_lws (2 ^ m) items (computeWorkgroupSizeSquared (2 ^ m) items simd workDim).
Proof.
  intros Hm Hx Hy Hz Hxy Hdz Hdy Hdim. unfold computeWorkgroupSizeSquared.
  destruct (powerOfTwoDivisors_spec workDim m items) as (a & b & c & -> & Ha & Hb & Hc & Hc0 & Hda & Hdb & Hdc); [lia..|].
  cbn [x y z]. rewrite (Hc0 Hdim) in *. assert (0 < 2 ^ m <= 2 ^ 10) by (split; [lia|apply Z.pow_le_mono_r; lia]).
  case_decide.
  - destruct (shrinkPair_valid 64 m a b) as (a' & b' & -> & Ha' & Hb' & Hle); [lia..|].
    apply (valid_trans _ (mkVec3 (2 ^ a) (2 ^ b) (2 ^ 0))); [|done..].
    apply valid_pow2; [lia..|]. rewrite Z.add_0_r, Z.pow_add_r by lia. done.
  - rewrite wrap_small by (unfold uint; nia). case_decide; [apply compute2D_valid; lia|].
    unfold firstDims. cbn [x y z]. rewrite (decide_False (P := 2 < workDim)) by lia.
    rewrite (Hdz Hdim) in *.
    assert ((if decide (1 < workDim) then y items else 1) = y items) as ->.
    { case_decide; [done|]. rewrite Hdy; lia. }
    assert (0 < (if decide (0 < workDim) then x items else 1) <= x items) by (case_decide; lia).
    split; cbn [x y z]; try lia; try done; try apply Z.divide_1_l; [|nia].
    case_decide; [done|apply Z.divide_1_l].
Qed.

(** ** The deduced size is valid *)

(** A kernel and device the driver can meet: a SIMD width of 8, 16 or 32 and a
    power-of-two limit on the group size, at most 1024 and at least the SIMD
    width. *)
Definition wsi_ok w : Prop :=
  (simdSize w = 8 \/ simdSize w = 16 \/ simdSize w = 32) /\ simdSize w <= maxWorkGroupSize w /\
  exists m, 0 <= m <= 10 /\ maxWorkGroupSize w = 2 ^ m.

(** A global size of [workDim] dimensions; the others are 1. *)
Definition gws_ok (workDim : Z) (items : Vec3) : Prop :=
  1 <= workDim <= 3 /\ 0 < x items /\ 0 < y items /\ 0 < z items /\ x items * y items * z items < 2 ^ 64 /\
  (workDim <= 1 -> y items = 1) /\ (workDim <= 2 -> z items = 1).

Lemma wsi_pow2 w : wsi_ok w -> exists s m, 3 <= s <= 5 /\ s <= m <= 10 /\ simdSize w = 2 ^ s /\ maxWorkGroupSize w = 2 ^ m.
Proof.
  intros (Hs & Hle & m & Hm & HM).
  assert (exists s, 3 <= s <= 5 /\ simdSize w = 2 ^ s) as (s & Hs' & E).
  { destruct Hs as [->|[->| ->]]; [by exists 3|by exists 4|by exists 5]. }
  exists s, m. split_and!; try done; try lia. rewrite E, HM in Hle. apply Z.pow_le_mono_r_iff in Hle; lia.
Qed.

Lemma gws_items workDim items : gws_ok workDim items ->
  x items ⊠ y items ⊠ z items = x items * y items * z items /\ x items * y items < 2 ^ 64.
Proof.
  intros (_ & Hx & Hy & Hz & H & _). assert (x items * y items < 2 ^ 64) by nia.
  split; [|done]. rewrite (wrap_small 64 (x items * y items)) by (unfold uint; nia).
  apply wrap_small. unfold uint. nia.
Qed.

Lemma firstDims_items workDim items max :
  gws_ok workDim items -> x items * y items * z items <= max -> valid_lws max items (firstDims workDim items (mkVec3 1 1 1)).
Proof.
  intros (Hd & Hx & Hy & Hz & _ & H1 & H2) Hmax.
  assert (firstDims workDim items (mkVec3 1 1 1) = items) as ->.
  { unfold firstDims. destruct items as [a b c]. simpl in *. rewrite decide_True by lia. f_equal; case_decide; lia. }
  split; done.
Qed.

Lemma factors_ok w (i workDim item f : Z) :
  0 < maxWorkGroupSize w <= 1024 ->
  f ∈ 1 :: (if decide (i < workDim) then factorsOf item 2 (maxWorkGroupSize w - 2) else []) ->
  0 < f <= 1024 /\ (f | item).
Proof.
  intros Hm Hf. apply elem_of_cons in Hf as [->|Hf]; [split; [lia|apply Z.divide_1_l]|].
  case_decide; [|by apply elem_of_nil in Hf]. eapply factorsOf_spec; [| |done]; lia.
Qed.

Section nd.
Context (logRatio : Z -> Z -> F) (distance : F -> F -> F) (fltb : F -> F -> bool) (fmaxRatio YTilingRatioValue : F).

Lemma checkRatio_same w items :
  let w' := checkRatio logRatio YTilingRatioValue w items in
  maxWorkGroupSize w' = maxWorkGroupSize w /\ simdSize w' = simdSize w.
Proof. unfold checkRatio. case_decide; [done|]. by destruct (yTiledSurfaces w). Qed.

Lemma computeND_valid enableSquared w items workDim :
  wsi_ok w -> gws_ok workDim items ->
  exists s, computeWorkgroupSizeND logRatio distance fltb fmaxRatio YTilingRatioValue enableSquared w items workDim = Some s /\
    valid_lws (maxWorkGroupSize w) items s.
Proof.
  intros Hw Hg. pose proof (wsi_pow2 w Hw) as (s & m & Hs & Hm & Es & Em).
  destruct (gws_items workDim items Hg) as [Htot Hxy].
  assert (2 ^ s <= 2 ^ 5) by (apply Z.pow_le_mono_r; lia).
  assert (0 < 2 ^ m <= 2 ^ 10) by (split; [lia|apply Z.pow_le_mono_r; lia]).
  unfold computeWorkgroupSizeND. cbv zeta. rewrite Htot.
  rewrite decide_False by (rewrite Es; lia).
  match goal with |- context [if _ && negb (hasBarriers w) then _ else ?r] => set (rest := r) end.
  assert (exists r, rest = Some r /\ valid_lws (maxWorkGroupSize w) items r) as Hrest.
  { subst rest. case_decide; [eexists; split; [done|by apply firstDims_items]|].
    case_decide as Hd1.
    { eexists. split; [done|]. rewrite Em. destruct Hg as (_ & ? & ? & ? & _ & Hy1 & Hz1).
      apply compute1D_valid; [lia|lia|apply Hy1; lia|apply Hz1; lia]. }
    destruct (checkRatio_same w items) as [Hmx _]. rewrite <- Hmx in *.
    set (w' := checkRatio _ _ w items) in *. rewrite Em in Hmx.
    assert (0 < maxWorkGroupSize w' <= 1024) as Hmax by lia.
    assert (valid_lws (maxWorkGroupSize w') items (mkVec3 1 1 1)) as Hone by (apply valid_ones; lia).
    destruct (useRatio w').
    - destruct (ratio_spec logRatio distance fltb fmaxRatio w' items _ _ (mkVec3 1 1 1) ltac:(lia) (fun f => factors_ok w' 0 workDim (x items) f Hmax)
                  (fun f => factors_ok w' 1 workDim (y items) f Hmax) Hone eq_refl) as [Hv Hz].
      destruct (_ && _); [|eexists; split; [done|exact Hv]].
      eexists. split; [done|].
      by apply (ratio_spec _ _ _ _ (withRatio w' true false (targetRatio w')) items); [simpl; lia| | |exact Hv|exact Hz]; [intros f; apply factors_ok..].
    - eexists. split; [done|]. apply thread_valid; [lia| | | |done]; intros f; by apply factors_ok. }
  clearbody rest. destruct (_ && negb (hasBarriers w)); [|done].
  destruct Hg as (Hd & Hx & Hy & Hz & Hp & Hy1 & Hz1).
  destruct (enableSquared && bool_decide (workDim = 2) && negb (imgUsed w)) eqn:Hsq.
  { apply andb_prop in Hsq as [[_ Hsq]%andb_prop _]. apply bool_decide_eq_true in Hsq.
    eexists. split; [done|]. rewrite Em. apply squared_valid; [lia|lia|lia|lia|done|done|done|lia]. }
  rewrite Es. replace (2 ^ s * 32) with (2 ^ (s + 5)) by (rewrite Z.pow_add_r by lia; done).
  assert (2 ^ (s + 5) <= 2 ^ 10) by (apply Z.pow_le_mono_r; lia).
  rewrite (wrap_small 32 (2 ^ (s + 5))) by (unfold uint; lia).
  destruct (powerOfTwoDivisors_spec workDim (s + 5) items) as (a & b & c & -> & Ha & Hb & Hc & Hc0 & Hda & Hdb & Hdc); [lia..|].
  cbn [x y z]. set (nx4 := imgUsed w && _ && _).
  assert (nx4 = true -> 2 <= b) as Hnx.
  { subst nx4. intros [_ Hb4]%andb_prop. apply bool_decide_eq_true in Hb4. change 4 with (2 ^ 2) in Hb4.
    apply Z.pow_le_mono_r_iff in Hb4; lia. }
  assert (2 ^ (a + b + c) <= 2 ^ 30) by (apply Z.pow_le_mono_r; lia).
  assert (2 ^ (a + b) <= 2 ^ 20) by (apply Z.pow_le_mono_r; lia).
  rewrite <- (Z.pow_add_r 2 a b), (wrap_small 64 (2 ^ (a + b))) by (unfold uint; lia).
  rewrite <- (Z.pow_add_r 2 (a + b) c), (wrap_small 64 (2 ^ (a + b + c))) by (unfold uint; lia).
  rewrite Em. clear Hsq. clearbody nx4. case_decide as Hbig.
  - destruct (computePowerOfTwoLWS_spec w a b c s m workDim nx4) as (r & -> & Hr); [done..|lia|lia|lia|lia|lia|done| |].
    + destruct Hbig as [_ [Hb'|Hb']]; apply Z.pow_lt_mono_r_iff in Hb'; lia.
    + exists r. split; [done|]. rewrite <- Em. by eapply valid_trans.
  - case_decide as Hge; [|by rewrite <- Em]. eexists. split; [done|].
    assert (2 ^ (a + b + c) <= 2 ^ m) as Hle.
    { assert (2 ^ s <= 2 ^ m) by (apply Z.pow_le_mono_r; lia).
      destruct (decide (2 ^ s < 2 ^ (a + b + c))); [|lia]. apply Z.nlt_ge. intros ?. apply Hbig. auto. }
    apply (valid_trans _ (mkVec3 (2 ^ a) (2 ^ b) (2 ^ c))); [|done..].
    set (b' := if nx4 then 2 else b). assert (0 <= b' <= b) as Hb' by (subst b'; destruct nx4; [specialize (Hnx eq_refl)|]; lia).
    replace (if nx4 then 4 else 2 ^ b) with (2 ^ b') by (subst b'; by destruct nx4).
    assert (firstDims workDim (mkVec3 (2 ^ a) (2 ^ b') (2 ^ c)) (mkVec3 1 1 1) =
            mkVec3 (2 ^ a) (2 ^ (if decide (1 < workDim) then b' else 0)) (2 ^ (if decide (2 < workDim) then c else 0))) as ->.
    { unfold firstDims. cbn [x y z]. rewrite decide_True by lia. f_equal; by case_decide. }
    apply valid_pow2; [lia|case_decide; lia|case_decide; lia|].
    etrans; [|exact Hle]. apply Z.pow_le_mono_r; [lia|]. repeat case_decide; lia.
Qed.

End nd.

(** ** The search without a ratio is optimal *)

Lemma factorsOf_sorted item start count : StronglySorted Z.lt (factorsOf item start count).
Proof.
  unfold factorsOf. destruct (decide (0 <= count)) as [Hc|Hc].
  2: { rewrite seqZ_nil by lia. constructor. }
  revert start. pattern count. apply natlike_ind; [|clear; intros n Hn IH start|done].
  { intros start. rewrite seqZ_nil by lia. constructor. }
  rewrite seqZ_cons by lia. rewrite filter_cons. specialize (IH (Z.succ start)). rewrite Z.pred_succ.
  case_decide; [|done]. apply StronglySorted_cons. split; [|done]. apply Forall_forall.
  intros i Hi. apply list_elem_of_filter in Hi as [_ Hi]. apply elem_of_seqZ in Hi. lia.
Qed.

(** [(X, Y, Zd)] is within the limits of the kernel. *)
Definition within w (X Y Zd : Z) : Prop := minWorkGroupSize w <= X * Y * Zd <= maxWorkGroupSize w.

(** The best size after a search that started from [b]: no worse than [b] or
    any candidate of [P], and either [b] or one of the candidates. *)
Definition best_of w items (P : Z -> Z -> Z -> Prop) (b b' : ThreadBest) : Prop :=
  localEuThrdsDispatched b' <= localEuThrdsDispatched b /\
  (forall X Y Zd, P X Y Zd -> localEuThrdsDispatched b' <= euThrdsDispatched (simdSize w) items X Y Zd) /\
  (b' = b \/ exists X Y Zd, P X Y Zd /\ b' = mkThreadBest (mkVec3 X Y Zd) (euThrdsDispatched (simdSize w) items X Y Zd)).

Lemma best_of_trans w items (P Q : Z -> Z -> Z -> Prop) b b1 b2 :
  best_of w items P b b1 -> best_of w items Q b1 b2 -> best_of w items (fun X Y Zd => P X Y Zd \/ Q X Y Zd) b b2.
Proof.
  intros (H1 & H2 & H3) (J1 & J2 & J3). split_and!.
  - lia.
  - intros X Y Zd [H|H]; [specialize (H2 _ _ _ H)|specialize (J2 _ _ _ H)]; lia.
  - destruct J3 as [->|(X & Y & Zd & ? & ->)]; [|right; eauto 10].
    destruct H3 as [->|(X & Y & Zd & ? & ->)]; [by left|right; eauto 10].
Qed.

Lemma best_of_ext w items (P Q : Z -> Z -> Z -> Prop) b b' :
  (forall X Y Zd, P X Y Zd <-> Q X Y Zd) -> best_of w items P b b' -> best_of w items Q b b'.
Proof.
  intros H (H1 & H2 & H3). split_and!; [done|intros X Y Zd HQ; by apply H2, H|].
  destruct H3 as [->|(X & Y & Zd & ? & ->)]; [by left|right]. exists X, Y, Zd. by rewrite <- H.
Qed.

Lemma best_of_none w items (P : Z -> Z -> Z -> Prop) b : (forall X Y Zd, ~ P X Y Zd) -> best_of w items P b b.
Proof. intros H. split_and!; [lia|intros X Y Zd HP; by destruct (H X Y Zd)|by left]. Qed.

Lemma threadInner_best w items X Zd ys b :
  0 < X <= 1024 -> 0 < Zd <= 1024 -> StronglySorted Z.lt ys -> (forall Y, Y ∈ ys -> 0 < Y <= 1024) ->
  best_of w items (fun X' Y Zd' => X' = X /\ Zd' = Zd /\ Y ∈ ys /\ within w X Y Zd) b (threadInner w items X Zd ys b).
Proof.
  intros HX HZ Hso Hys. revert b. induction ys as [|Y ys IH]; intros b; simpl.
  { apply best_of_none. intros ??? (_ & _ & H & _). by apply elem_of_nil in H. }
  apply StronglySorted_cons in Hso as [Hlt Hso]. rewrite Forall_forall in Hlt.
  pose proof (Hys Y ltac:(set_solver)) as HY. rewrite (mul_w32 X Y), mul3_w32 by lia.
  case_decide as Hc.
  { apply best_of_none. intros ? Y' ? (-> & -> & Hin & Hw). unfold within in Hw.
    apply elem_of_cons in Hin as [->|Hin]; [lia|]. specialize (Hlt Y' Hin).
    assert (X * Y * Zd <= X * Y' * Zd) by (apply Z.mul_le_mono_nonneg_r; nia). lia. }
  assert (forall b, best_of w items (fun X' Y Zd' => X' = X /\ Zd' = Zd /\ Y ∈ ys /\ within w X Y Zd) b (threadInner w items X Zd ys b)) as IH'.
  { intros b0. apply IH; [done|set_solver]. }
  case_decide as Hm.
  { eapply best_of_ext; [|apply IH']. intros X' Y' Z'. rewrite elem_of_cons. unfold within.
    split; [naive_solver|]. intros (-> & -> & [->|?] & ?); [lia|done]. }
  eapply best_of_ext; [|eapply (best_of_trans _ _ (fun X' Y' Zd' => X' = X /\ Zd' = Zd /\ Y' = Y)); [|apply IH']].
  - intros X' Y' Z'. rewrite elem_of_cons. unfold within. split; [|naive_solver].
    intros [(-> & -> & ->)|(-> & -> & ? & ?)]; split_and!; auto; lia.
  - unfold threadStep. case_decide.
    + split_and!; simpl; [lia|by intros ??? (-> & -> & ->)|right; eauto 10].
    + split_and!; [lia|intros ??? (-> & -> & ->); lia|by left].
Qed.

Lemma threadMiddle_best w items Zd xs ys b :
  0 < Zd <= 1024 -> StronglySorted Z.lt ys -> (forall Y, Y ∈ ys -> 0 < Y <= 1024) -> (forall X, X ∈ xs -> 0 < X <= 1024) ->
  best_of w items (fun X Y Zd' => X ∈ xs /\ Zd' = Zd /\ Y ∈ ys /\ within w X Y Zd) b (threadMiddle w items Zd xs ys b).
Proof.
  intros HZ Hso Hys Hxs. revert b. induction xs as [|X xs IH]; intros b; simpl.
  { apply best_of_none. intros ??? (H & _). by apply elem_of_nil in H. }
  eapply best_of_ext; [|eapply best_of_trans; [eapply (threadInner_best _ _ X Zd ys)|apply IH]]; try done; set_solver.
Qed.

Lemma thread_best w items xs ys zs b :
  StronglySorted Z.lt ys -> (forall Y, Y ∈ ys -> 0 < Y <= 1024) ->
  (forall X, X ∈ xs -> 0 < X <= 1024) -> (forall Zd, Zd ∈ zs -> 0 < Zd <= 1024) ->
  best_of w items (fun X Y Zd => X ∈ xs /\ Zd ∈ zs /\ Y ∈ ys /\ within w X Y Zd) b (threadOuter w items zs xs ys b).
Proof.
  intros Hso Hys Hxs Hzs. revert b. induction zs as [|Zd zs IH]; intros b; simpl.
  { apply best_of_none. intros ??? (_ & H & _). by apply elem_of_nil in H. }
  eapply best_of_ext; [|eapply best_of_trans; [eapply (threadMiddle_best _ _ Zd xs ys)|apply IH]]; try done; set_solver.
Qed.

End valid.

(** ** Results *)

(** A division by zero when a kernel asks for more local memory than the
    device has: the quotient [localMemSize / slmTotalSize] is then 0. *)
Lemma setMinWorkGroupSize_fails {F} (w : WorkSizeInfo F) :
  0 <= localMemSize w ->
  setMinWorkGroupSize w = None <-> localMemSize w < slmTotalSize w.
Proof.
  intros H. unfold setMinWorkGroupSize, cdiv. case_decide; [|split; [done|lia]].
  rewrite decide_False by lia. cbn.
  pose proof (Z.div_small_iff (localMemSize w) (slmTotalSize w) ltac:(lia)) as Hq.
  destruct (decide (localMemSize w / slmTotalSize w = 0)) as [E|E]; cbn; split; try done; intros ?; [|exfalso]; lia.
Qed.

Lemma groups_exact gws s max :
  0 < x gws -> 0 < y gws -> 0 < z gws -> valid_lws max gws s ->
  exists n, computeWorkgroupsNumber gws s = Some n /\ x n * x s = x gws /\ y n * y s = y gws /\ z n * z s = z gws.
Proof.
  intros _ _ _ [Hx Hy Hz [a Ha] [b Hb] [c Hc] _]. unfold computeWorkgroupsNumber, cdiv.
  rewrite Ha, Hb, Hc. rewrite !Z.mod_mul, !Z.div_mul by lia.
  rewrite !decide_False by lia. cbn.
  eexists. split; [done|]. simpl. lia.
Qed.

Lemma computeWorkgroupSize_valid {F} (logRatio : Z -> Z -> F) distance fltb fmaxRatio tiling
    enableND enableSquared (w : WorkSizeInfo F) gws dim :
  wsi_ok w -> gws_ok dim gws ->
  exists s, computeWorkgroupSize logRatio distance fltb fmaxRatio tiling enableND enableSquared (Some w) gws dim = Some s /\
    valid_lws (maxWorkGroupSize w) gws s.
Proof.
  intros Hw Hg. pose proof (wsi_pow2 w Hw) as (k & m & Hk & Hm & Es & Em).
  assert (0 < 2 ^ m <= 2 ^ 10) by (split; [lia|apply Z.pow_le_mono_r; lia]).
  unfold computeWorkgroupSize. destruct enableND; [by apply computeND_valid|].
  destruct (gws_items dim gws Hg) as [_ Hxy]. destruct Hg as (Hd & Hx & Hy & Hz & _ & Hy1 & Hz1). rewrite Em.
  case_decide; [eexists; split; [done|apply compute1D_valid; [lia|lia|apply Hy1; lia|apply Hz1; lia]]|].
  destruct (enableSquared && bool_decide (dim = 2)) eqn:Hsq; (eexists; split; [done|]).
  - apply andb_prop in Hsq as [_ Hsq]. apply bool_decide_eq_true in Hsq. apply squared_valid; try done; lia.
  - apply compute2D_valid. lia.
Qed.

(** C19: the local work size the driver deduces is usable, whichever of
    the algorithms the flags select: each dimension is at least 1 and divides
    the global size, the group does not exceed the device limit, the number of
    work groups covers the global size exactly, and the factor tables stay
    within their 1024 entries.  Kernels have a SIMD width of 8, 16 or 32 and
    the device limit is a power of two up to 1024. *)
Theorem deduced_work_size_valid {F} (logRatio : Z -> Z -> F) distance fltb fmaxRatio tiling
    enableND enableSquared (w : WorkSizeInfo F) gws dim :
  wsi_ok w -> gws_ok dim gws ->
  exists s n, computeWorkgroupSize logRatio distance fltb fmaxRatio tiling enableND enableSquared (Some w) gws dim = Some s /\
    valid_lws (maxWorkGroupSize w) gws s /\
    generateWorkgroupsNumber gws s = Some n /\ x n * x s = x gws /\ y n * y s = y gws /\ z n * z s = z gws /\
    (forall item, length (factorsOf item 2 (maxWorkGroupSize w - 1)) <= 1024 /\
                  length (1%Z :: factorsOf item 2 (maxWorkGroupSize w - 2)) <= 1024)%nat.
Proof.
  intros Hw Hg. pose proof (wsi_pow2 w Hw) as (k & m & Hk & Hm & Es & Em).
  assert (0 < 2 ^ m <= 2 ^ 10) by (split; [lia|apply Z.pow_le_mono_r; lia]).
  destruct (computeWorkgroupSize_valid logRatio distance fltb fmaxRatio tiling enableND enableSquared w gws dim Hw Hg) as (s & Hs & Hv).
  destruct Hg as (_ & Hx & Hy & Hz & _).
  destruct (groups_exact gws s _ Hx Hy Hz Hv) as (n & Hn & ?). exists s, n. split; [done|]. split; [done|].
  split. { unfold generateWorkgroupsNumber. rewrite decide_True by apply Hv. done. }
  split_and!; try naive_solver. intros item. unfold factorsOf. simpl.
  pose proof (length_filter (fun i => item mod i = 0) (seqZ 2 (maxWorkGroupSize w - 1))) as H1.
  pose proof (length_filter (fun i => item mod i = 0) (seqZ 2 (maxWorkGroupSize w - 2))) as H2.
  rewrite length_seqZ in H1, H2. lia.
Qed.

Definition demo_wsi (slm : Z) (img : bool) : WorkSizeInfo Z :=
  mkWorkSizeInfo 256 0 false 16 slm true 56 65536 img img false false 0.

(** A 2-D image kernel on 96 x 36 items, and a 1-D kernel on 500 items. *)
Example deduced_work_size_valid_witness :
  wsi_ok (demo_wsi 0 true) /\ gws_ok 2 (mkVec3 96 36 1) /\
  computeWorkgroupSize Z.sub Z.sub Z.ltb 100 1 true false (Some (demo_wsi 0 true)) (mkVec3 96 36 1) 2 = Some (mkVec3 32 4 1) /\
  computeWorkgroupSize Z.sub Z.sub Z.ltb 100 1 true false (Some (demo_wsi 0 false)) (mkVec3 500 1 1) 1 = Some (mkVec3 100 1 1) /\
  exists s, computeWorkgroupSize Z.sub Z.sub Z.ltb 100 1 true false (Some (demo_wsi 0 true)) (mkVec3 96 36 1) 2 = Some s /\
    valid_lws 256 (mkVec3 96 36 1) s.
Proof.
  assert (wsi_ok (demo_wsi 0 true)) as Hw.
  { split_and!; [by right; left|by vm_compute|]. exists 8. split; [lia|done]. }
  assert (gws_ok 2 (mkVec3 96 36 1)) as Hg by (unfold gws_ok; simpl; lia).
  split_and!; [exact Hw|exact Hg|by vm_compute|by vm_compute|].
  destruct (deduced_work_size_valid Z.sub Z.sub Z.ltb 100 1 true false _ _ _ Hw Hg) as (s & n & Hs & Hv & _).
  exists s. split; [exact Hs|exact Hv].
Defined.

(** when no ratio is used, the driver's search over the divisors of
    the global size returns, among all triples of divisors within the limits
    of the kernel, one with the fewest hardware threads dispatched, provided
    some such triple dispatches fewer than [0xffffffff]. *)
Theorem preferred_size_fewest_threads {F} (w : WorkSizeInfo F) gws X Y Zd :
  let divisors item := 1 :: factorsOf item 2 (maxWorkGroupSize w - 2) in
  let candidate a b c :=
    a ∈ divisors (x gws) /\ b ∈ divisors (y gws) /\ c ∈ divisors (z gws) /\
    minWorkGroupSize w <= a * b * c <= maxWorkGroupSize w in
  let threads a b c := euThrdsDispatched (simdSize w) gws a b c in
  let s := choosePreferredWorkGroupSizeWithOutRatio (divisors (x gws)) (divisors (y gws)) (divisors (z gws)) (mkVec3 1 1 1) gws w in
  1 <= maxWorkGroupSize w <= 1024 -> candidate X Y Zd -> threads X Y Zd < 0xffffffff ->
  candidate (x s) (y s) (z s) /\
  forall a b c, candidate a b c -> threads (x s) (y s) (z s) <= threads a b c.
Proof.
  intros divisors candidate threads s Hmax Hc Ht.
  assert (forall item f, f ∈ divisors item -> 0 < f <= 1024) as Hdiv.
  { intros item f Hf. apply elem_of_cons in Hf as [->|Hf]; [lia|]. apply factorsOf_elem in Hf. lia. }
  set (b0 := mkThreadBest (mkVec3 1 1 1) 0xffffffff).
  assert (StronglySorted Z.lt (divisors (y gws))) as Hso.
  { constructor; [apply factorsOf_sorted|]. apply Forall_forall. intros i Hi. apply factorsOf_elem in Hi. lia. }
  destruct (thread_best w gws (rev (divisors (x gws))) (divisors (y gws)) (divisors (z gws)) b0 Hso
              (Hdiv (y gws)) (fun f Hf => Hdiv (x gws) f (proj1 (elem_of_rev f _) Hf)) (Hdiv (z gws))) as (_ & Hle & Hor).
  assert (forall a b c, candidate a b c ->
    a ∈ rev (divisors (x gws)) /\ c ∈ divisors (z gws) /\ b ∈ divisors (y gws) /\ within w a b c) as Hcand.
  { intros a b c (? & ? & ? & ?). rewrite elem_of_rev. done. }
  destruct Hor as [Hb|(a & b & c & (Ha & Hcz & Hb & Hw) & E)].
  { exfalso. specialize (Hle X Y Zd (Hcand _ _ _ Hc)). rewrite Hb in Hle. simpl in Hle. unfold threads in Ht. lia. }
  assert (s = mkVec3 a b c) as ->.
  { subst s. unfold choosePreferredWorkGroupSizeWithOutRatio. fold b0. by rewrite E. }
  rewrite elem_of_rev in Ha. split; [done|]. intros a' b' c' Hc'. specialize (Hle _ _ _ (Hcand _ _ _ Hc')).
  rewrite E in Hle. done.
Qed.

(** 48 x 30 x 7 items: groups of 48 x 1 x 1 fill every thread. *)
Example preferred_size_fewest_threads_witness :
  let w := demo_wsi 0 false in
  let gws := mkVec3 48 30 7 in
  let divisors item := 1 :: factorsOf item 2 (maxWorkGroupSize w - 2) in
  let s := choosePreferredWorkGroupSizeWithOutRatio (divisors (x gws)) (divisors (y gws)) (divisors (z gws)) (mkVec3 1 1 1) gws w in
  s = mkVec3 48 1 1 /\ euThrdsDispatched 16 gws (x s) (y s) (z s) <= euThrdsDispatched 16 gws 16 15 1.
Proof.
  intros w gws divisors s. split; [by vm_compute|].
  apply (preferred_size_fewest_threads w gws 16 15 1).
  - simpl. lia.
  - split_and!; eval_decide.
  - by vm_compute.
  - split_and!; eval_decide.
Defined.
