(* ===== verification/Dispatch.v ===== *)
(** * Dispatching an ND range

    Model of [runtime/command_queue/enqueue_kernel.h] (the checks of
    [enqueueKernel] and the sizes it passes on), of the dispatch builder of
    [runtime/helpers/dispatch_info_builder.h] and of the part of
    [enqueueHandler] ([runtime/command_queue/enqueue_common.h]) that runs it.
    A non-uniform range is split into up to eight walkers.  [None] is undefined
    behaviour: a division by zero, or an index past an array of three.

    The deduction of a local size is used through the class
    [WorkSizeDeduction]; the model of local_work_size.cpp is an instance. *)

From S2P Require Import Prelude.
From S2P Require Import LocalWorkSize.

Class WorkSizeDeduction (K : Type) := {
  deduceLws : option K -> Vec3 -> Z -> option Vec3;
  kernel_ok : K -> Prop;
  deduce_valid : forall k gws dim, kernel_ok k -> gws_ok dim gws ->
    exists s max, deduceLws (Some k) gws dim = Some s /\ valid_lws max gws s }.

Definition driverDeduction {F} (logRatio : Z -> Z -> F) (distance : F -> F -> F) (fltb : F -> F -> bool)
    (fmaxRatio tiling : F) (enableND enableSquared : bool) : WorkSizeDeduction (WorkSizeInfo F).
Proof.
  refine {| deduceLws := computeWorkgroupSize logRatio distance fltb fmaxRatio tiling enableND enableSquared;
            kernel_ok := wsi_ok |}.
  intros k gws dim Hk Hg.
  destruct (computeWorkgroupSize_valid logRatio distance fltb fmaxRatio tiling enableND enableSquared k gws dim Hk Hg)
    as (s & Hs & Hv). eauto.
Defined.

Definition zero3 : Vec3 := mkVec3 0 0 0.

Inductive SplitMode := NoSplit | WalkerSplit | KernelSplit.
Definition modeValue (m : SplitMode) : Z := match m with NoSplit => 0 | WalkerSplit => 1 | KernelSplit => 2 end.
Inductive RegionCoord := First | Middle | Last.
Definition coordValue (c : RegionCoord) : Z := match c with First => 0 | Middle => 1 | Last => 2 end.

Section Dispatch.
Context {K : Type} `{WorkSizeDeduction K}.

Record DispatchInfo := mkDispatchInfo {
  kernel : option K; dim : Z; gws : Vec3; elws : Vec3; offset : Vec3; agws : Vec3; lws : Vec3;
  twgs : Vec3; nwgs : Vec3; swgs : Vec3 }.

Definition newDispatchInfo : DispatchInfo := mkDispatchInfo None 0 zero3 zero3 zero3 zero3 zero3 zero3 zero3 zero3.

Definition setKernelInfo (k : option K) (d : DispatchInfo) : DispatchInfo :=
  mkDispatchInfo k (dim d) (gws d) (elws d) (offset d) (agws d) (lws d) (twgs d) (nwgs d) (swgs d).

Definition calculateDispatchDim (dispatchSize dispatchOffset : Vec3) : Z :=
  Z.max 1 (Z.max (getSimplifiedDim dispatchSize) (getSimplifiedDim dispatchOffset)).

(** ** The builder: an array of dispatch infos *)

Fixpoint powConst (base : Z) (currExp : nat) : Z :=
  match currExp with O => base | S O => base | S e => base * powConst base e end.

(** [Dim] is 0, 1 or 2 for one, two or three dimensions. *)
Definition numDispatches (mode : SplitMode) (Dim : nat) : nat :=
  match mode with WalkerSplit => 1%nat | _ => Z.to_nat (powConst (modeValue mode + 1) (Dim + 1)) end.

Definition newBuilder (mode : SplitMode) (Dim : nat) : list DispatchInfo := replicate (numDispatches mode Dim) newDispatchInfo.

Definition setKernel (k : option K) (b : list DispatchInfo) : list DispatchInfo := setKernelInfo k <$> b.

Definition getDispatchId (mode : SplitMode) (x y z : RegionCoord) : nat :=
  Z.to_nat (coordValue x + coordValue y * (modeValue mode + 1) + coordValue z * (modeValue mode + 1) * (modeValue mode + 1)).

Definition setDispatchGeometry (id : nat) (dim : Z) (gws elws offset agws lws twgs nwgs swgs : Vec3)
    (b : list DispatchInfo) : list DispatchInfo :=
  alter (fun d => mkDispatchInfo (kernel d) dim gws elws offset agws lws twgs nwgs swgs) id b.

(** ** bake *)

(** Some work in each of the first [d] dimensions. *)
Definition nonEmpty (d : Z) (v : Vec3) : bool :=
  (bool_decide (d = 1) && bool_decide (0 < x v)) ||
  (bool_decide (d = 2) && bool_decide (0 < x v) && bool_decide (0 < y v)) ||
  (bool_decide (d = 3) && bool_decide (0 < x v) && bool_decide (0 < y v) && bool_decide (0 < z v)).

(** One turn of [bake]; [pushSplit] is [None] when the mode does not split. *)
Definition bakeInfo (pushSplit : option (DispatchInfo -> option (list DispatchInfo))) (d : DispatchInfo)
    : option (list DispatchInfo) :=
  if nonEmpty (dim d) (gws d) then
    let dim' := calculateDispatchDim (gws d) (offset d) in
    let gws' := canonizeWorkgroup (gws d) in
    let agws' := if decide (agws d = zero3) then gws' else agws d in
    if nonEmpty dim' agws' then
      let elws' := canonizeWorkgroup (elws d) in
      lws' ← (if decide (x (lws d) = 0) then generateWorkgroupSize elws' (deduceLws (kernel d) gws' dim') else Some (lws d));
      let lws' := canonizeWorkgroup lws' in
      twgs' ← (if decide (x (twgs d) = 0) then generateWorkgroupsNumber gws' lws' else Some (twgs d));
      let twgs' := canonizeWorkgroup twgs' in
      let nwgs' := if decide (x (nwgs d) = 0) then twgs' else nwgs d in
      let d' := mkDispatchInfo (kernel d) dim' gws' elws' (offset d) agws' lws' twgs' nwgs' (swgs d) in
      match pushSplit with
      | Some split =>
          if decide (x lws' = 0 \/ y lws' = 0 \/ z lws' = 0) then None
          else if decide (x gws' mod x lws' ⊞ y gws' mod y lws' ⊞ z gws' mod z lws' <> 0) then split d'
          else Some [d']
      | None => Some [d']
      end
    else Some []
  else Some [].

Fixpoint bakeAll (pushSplit : option (DispatchInfo -> option (list DispatchInfo))) (b : list DispatchInfo)
    : option (list DispatchInfo) :=
  match b with
  | [] => Some []
  | d :: b => out ← bakeInfo pushSplit d; outs ← bakeAll pushSplit b; Some (out ++ outs)
  end.

Definition alignDownTo (x y : Z) : Z := x ⊟ x mod y.
Definition isIndivisible (x y : Z) : Z := if decide (x mod y <> 0) then 1 else 0.

Definition region (d : DispatchInfo) (Dim : nat) (px py pz : RegionCoord) (rGWS rLWS rNWGS rSWGS : Vec3)
    (b : list DispatchInfo) : list DispatchInfo :=
  setDispatchGeometry (getDispatchId KernelSplit px py pz) (Z.of_nat Dim + 1) (gws d) (elws d) (offset d)
    rGWS rLWS (twgs d) rNWGS rSWGS b.

Definition pushSplit1 (d : DispatchInfo) : option (list DispatchInfo) :=
  let g := gws d in let l := lws d in
  let mainLWS := mkVec3 (x l) 1 1 in
  let rightLWS := mkVec3 (x g mod x l) 1 1 in
  let mainGWS := mkVec3 (alignDownTo (x g) (x mainLWS)) 1 1 in
  let rightGWS := mkVec3 (x g mod x mainLWS) 1 1 in
  let mainNWGS := mkVec3 (x mainGWS / x mainLWS) 1 1 in
  let rightNWGS := mkVec3 (x mainNWGS ⊞ isIndivisible (x rightGWS) (x mainLWS)) 1 1 in
  let mainSWGS := zero3 in
  let rightSWGS := mkVec3 (x mainNWGS) 0 0 in
  let b := setKernel (kernel d) (newBuilder KernelSplit 0) in
  let b := region d 0 First First First mainGWS mainLWS mainNWGS mainSWGS b in
  let b := region d 0 Middle First First rightGWS rightLWS rightNWGS rightSWGS b in
  bakeAll None b.

Definition pushSplit2 (d : DispatchInfo) : option (list DispatchInfo) :=
  let g := gws d in let l := lws d in
  let mainLWS := mkVec3 (x l) (y l) 1 in
  let rightLWS := mkVec3 (x g mod x l) (y l) 1 in
  let bottomLWS := mkVec3 (x l) (y g mod y l) 1 in
  let rightbottomLWS := mkVec3 (x g mod x l) (y g mod y l) 1 in
  let mainGWS := mkVec3 (alignDownTo (x g) (x mainLWS)) (alignDownTo (y g) (y mainLWS)) 1 in
  let rightGWS := mkVec3 (x g mod x mainLWS) (alignDownTo (y g) (y mainLWS)) 1 in
  let bottomGWS := mkVec3 (alignDownTo (x g) (x mainLWS)) (y g mod y mainLWS) 1 in
  let rightbottomGWS := mkVec3 (x g mod x mainLWS) (y g mod y mainLWS) 1 in
  let mainNWGS := mkVec3 (x mainGWS / x mainLWS) (y mainGWS / y mainLWS) 1 in
  let rightNWGS := mkVec3 (x mainNWGS ⊞ isIndivisible (x rightGWS) (x mainLWS)) (y mainGWS / y mainLWS) 1 in
  let bottomNWGS := mkVec3 (x mainGWS / x mainLWS) (y mainNWGS ⊞ isIndivisible (y bottomGWS) (y mainLWS)) 1 in
  let rightbottomNWGS := mkVec3 (x mainNWGS ⊞ isIndivisible (x rightGWS) (x mainLWS))
                                (y mainNWGS ⊞ isIndivisible (y bottomGWS) (y mainLWS)) 1 in
  let mainSWGS := zero3 in
  let rightSWGS := mkVec3 (x mainNWGS) 0 0 in
  let bottomSWGS := mkVec3 0 (y mainNWGS) 0 in
  let rightbottomSWGS := mkVec3 (x mainNWGS) (y mainNWGS) 0 in
  let b := setKernel (kernel d) (newBuilder KernelSplit 1) in
  let b := region d 1 First First First mainGWS mainLWS mainNWGS mainSWGS b in
  let b := region d 1 Middle First First rightGWS rightLWS rightNWGS rightSWGS b in
  let b := region d 1 First Middle First bottomGWS bottomLWS bottomNWGS bottomSWGS b in
  let b := region d 1 Middle Middle First rightbottomGWS rightbottomLWS rightbottomNWGS rightbottomSWGS b in
  bakeAll None b.

Definition pushSplit3 (d : DispatchInfo) : option (list DispatchInfo) :=
  let g := gws d in let l := lws d in
  let mainLWS := l in
  let rightLWS := mkVec3 (x g mod x l) (y l) (z l) in
  let bottomLWS := mkVec3 (x l) (y g mod y l) (z l) in
  let rightbottomLWS := mkVec3 (x g mod x l) (y g mod y l) (z l) in
  let mainbackLWS := mkVec3 (x l) (y l) (z g mod z l) in
  let rightbackLWS := mkVec3 (x g mod x l) (y l) (z g mod z l) in
  let bottombackLWS := mkVec3 (x l) (y g mod y l) (z g mod z l) in
  let rightbottombackLWS := mkVec3 (x g mod x l) (y g mod y l) (z g mod z l) in
  let mainGWS := mkVec3 (alignDownTo (x g) (x mainLWS)) (alignDownTo (y g) (y mainLWS)) (alignDownTo (z g) (z mainLWS)) in
  let rightGWS := mkVec3 (x g mod x mainLWS) (alignDownTo (y g) (y mainLWS)) (alignDownTo (z g) (z mainLWS)) in
  let bottomGWS := mkVec3 (alignDownTo (x g) (x mainLWS)) (y g mod y mainLWS) (alignDownTo (z g) (z mainLWS)) in
  let rightbottomGWS := mkVec3 (x g mod x mainLWS) (y g mod y mainLWS) (alignDownTo (z g) (z mainLWS)) in
  let mainbackGWS := mkVec3 (alignDownTo (x g) (x mainLWS)) (alignDownTo (y g) (y mainLWS)) (z g mod z mainLWS) in
  let rightbackGWS := mkVec3 (x g mod x mainLWS) (alignDownTo (y g) (y mainLWS)) (z g mod z mainLWS) in
  let bottombackGWS := mkVec3 (alignDownTo (x g) (x mainLWS)) (y g mod y mainLWS) (z g mod z mainLWS) in
  let rightbottombackGWS := mkVec3 (x g mod x mainLWS) (y g mod y mainLWS) (z g mod z mainLWS) in
  let mainNWGS := mkVec3 (x mainGWS / x mainLWS) (y mainGWS / y mainLWS) (z mainGWS / z mainLWS ⊞ isIndivisible (z mainGWS) (z mainLWS)) in
  let rightNWGS := mkVec3 (x mainNWGS ⊞ isIndivisible (x rightGWS) (x mainLWS)) (y mainGWS / y mainLWS) (z mainGWS / z mainLWS) in
  let bottomNWGS := mkVec3 (x mainGWS / x mainLWS) (y mainNWGS ⊞ isIndivisible (y bottomGWS) (y mainLWS)) (z mainGWS / z mainLWS) in
  let rightbottomNWGS := mkVec3 (x mainNWGS ⊞ isIndivisible (x rightGWS) (x mainLWS))
                                (y mainNWGS ⊞ isIndivisible (y bottomGWS) (y mainLWS)) (z mainGWS / z mainLWS) in
  let mainbackNWGS := mkVec3 (x mainGWS / x mainLWS) (y mainGWS / y mainLWS) (z mainNWGS ⊞ isIndivisible (z mainbackGWS) (z mainLWS)) in
  let rightbackNWGS := mkVec3 (x mainNWGS ⊞ isIndivisible (x rightGWS) (x mainLWS)) (y mainGWS / y mainLWS)
                              (z mainNWGS ⊞ isIndivisible (z rightbackGWS) (z mainLWS)) in
  let bottombackNWGS := mkVec3 (x mainGWS / x mainLWS) (y mainNWGS ⊞ isIndivisible (y bottomGWS) (y mainLWS))
                               (z mainNWGS ⊞ isIndivisible (z bottombackGWS) (z mainLWS)) in
  let rightbottombackNWGS := mkVec3 (x mainNWGS ⊞ isIndivisible (x rightGWS) (x mainLWS))
                                    (y mainNWGS ⊞ isIndivisible (y bottomGWS) (y mainLWS))
                                    (z mainNWGS ⊞ isIndivisible (z rightbottombackGWS) (z mainLWS)) in
  let mainSWGS := zero3 in
  let rightSWGS := mkVec3 (x mainNWGS) 0 0 in
  let bottomSWGS := mkVec3 0 (y mainNWGS) 0 in
  let rightbottomSWGS := mkVec3 (x mainNWGS) (y mainNWGS) 0 in
  let mainbackSWGS := mkVec3 0 0 (z mainNWGS) in
  let rightbackSWGS := mkVec3 (x mainNWGS) 0 (z mainNWGS) in
  let bottombackSWGS := mkVec3 0 (y mainNWGS) (z mainNWGS) in
  let rightbottombackSWGS := mkVec3 (x mainNWGS) (y mainNWGS) (z mainNWGS) in
  let b := setKernel (kernel d) (newBuilder KernelSplit 2) in
  let b := region d 2 First First First mainGWS mainLWS mainNWGS mainSWGS b in
  let b := region d 2 Middle First First rightGWS rightLWS rightNWGS rightSWGS b in
  let b := region d 2 First Middle First bottomGWS bottomLWS bottomNWGS bottomSWGS b in
  let b := region d 2 Middle Middle First rightbottomGWS rightbottomLWS rightbottomNWGS rightbottomSWGS b in
  let b := region d 2 First First Middle mainbackGWS mainbackLWS mainbackNWGS mainbackSWGS b in
  let b := region d 2 Middle First Middle rightbackGWS rightbackLWS rightbackNWGS rightbackSWGS b in
  let b := region d 2 First Middle Middle bottombackGWS bottombackLWS bottombackNWGS bottombackSWGS b in
  let b := region d 2 Middle Middle Middle rightbottombackGWS rightbottombackLWS rightbottombackNWGS rightbottombackSWGS b in
  bakeAll None b.

Definition pushSplit (d : DispatchInfo) : option (list DispatchInfo) :=
  if decide (dim d = 1) then pushSplit1 d
  else if decide (dim d = 2) then pushSplit2 d
  else if decide (dim d = 3) then pushSplit3 d
  else Some [].

Definition bake (mode : SplitMode) (b : list DispatchInfo) : option (list DispatchInfo) :=
  bakeAll (match mode with WalkerSplit => Some pushSplit | _ => None end) b.

(** The builder calls of [enqueueHandler] for a kernel that is not built in;
    a null [localWorkSizesIn] makes a zero [Vec3]. *)
Definition buildWalkers (k : K) (workDim : Z) (globalOffsets workItems : Vec3)
    (localWorkSizesIn : option Vec3) (enqueuedWorkSizes : Vec3) : option (list DispatchInfo) :=
  let builder := newBuilder WalkerSplit 2 in
  let builder := setDispatchGeometry 0 workDim workItems enqueuedWorkSizes globalOffsets zero3
                   (default zero3 localWorkSizesIn) zero3 zero3 zero3 builder in
  let builder := setKernel (Some k) builder in
  bake WalkerSplit builder.
End Dispatch.

(** ** enqueueKernel *)

Definition CL_INVALID_KERNEL_ARGS : Z := -52.
Definition CL_INVALID_WORK_GROUP_SIZE : Z := -54.
Definition undefinedOffset : Z := 0xffffffff.

(** What [enqueueKernel] reads of the kernel and its device; the validation of
    a built-in kernel's dispatch builder is a function, absent for others. *)
Record EnqueuedKernel := mkEnqueuedKernel {
  isPatched : bool; reqdWorkGroupSize : Vec3; allowNonUniform : bool; deviceMaxWorkGroupSize : Z;
  validateDispatch : option (Z -> Vec3 -> Vec3 -> Vec3 -> Z) }.

Definition vget (v : Vec3) (i : Z) : option Z :=
  if decide (i = 0) then Some (x v) else if decide (i = 1) then Some (y v) else if decide (i = 2) then Some (z v) else None.
Definition vset (i a : Z) (v : Vec3) : option Vec3 :=
  if decide (i = 0) then Some (mkVec3 a (y v) (z v))
  else if decide (i = 1) then Some (mkVec3 (x v) a (z v))
  else if decide (i = 2) then Some (mkVec3 (x v) (y v) a) else None.

Record ArgState := mkArgState {
  asRegion : Vec3; asOffset : Vec3; asGroup : Vec3; asEnqueued : Vec3; asRemainder : Z; asTotal : Z }.

Definition haveRequiredWorkGroupSize (k : EnqueuedKernel) : bool := bool_decide (x (reqdWorkGroupSize k) <> undefinedOffset).

(** One turn of the loop over the dimensions: an error code or the new state. *)
Definition argsTurn (k : EnqueuedKernel) (globalWorkOffsetIn globalWorkSizeIn localWorkSizeIn : option Vec3)
    (i : Z) (st : ArgState) : option (Z + ArgState) :=
  r ← (match globalWorkSizeIn with Some g => vget g i | None => Some 0 end);
  region ← vset i r (asRegion st);
  o ← (match globalWorkOffsetIn with Some o => vget o i | None => Some 0 end);
  offset ← vset i o (asOffset st);
  sizes ← (match localWorkSizeIn with
    | Some l =>
        li ← vget l i; reqd ← vget (reqdWorkGroupSize k) i;
        if haveRequiredWorkGroupSize k && bool_decide (reqd <> li) then Some (inl CL_INVALID_WORK_GROUP_SIZE)
        else if decide (li = 0) then Some (inl CL_INVALID_WORK_GROUP_SIZE)
        else
          wg ← (if allowNonUniform k then g ← globalWorkSizeIn; gi ← vget g i; Some (Z.min li gi) else Some li);
          group ← vset i wg (asGroup st);
          enqueued ← vset i li (asEnqueued st);
          Some (inr (group, enqueued, asTotal st ⊠ li))
    | None => Some (inr (asGroup st, asEnqueued st, asTotal st))
    end);
  match sizes with
  | inl err => Some (inl err)
  | inr (group, enqueued, total) =>
      wg ← vget group i;
      if decide (wg = 0) then None
      else Some (inr (mkArgState region offset group enqueued (asRemainder st ⊞ r mod wg) total))
  end.

Fixpoint argsLoop (k : EnqueuedKernel) (globalWorkOffsetIn globalWorkSizeIn localWorkSizeIn : option Vec3)
    (n : nat) (i : Z) (st : ArgState) : option (Z + ArgState) :=
  match n with
  | O => Some (inr st)
  | S n =>
      r ← argsTurn k globalWorkOffsetIn globalWorkSizeIn localWorkSizeIn i st;
      match r with
      | inl err => Some (inl err)
      | inr st => argsLoop k globalWorkOffsetIn globalWorkSizeIn localWorkSizeIn n (i + 1) st
      end
  end.

(** The arguments passed to [enqueueHandler]. *)
Record HandlerArgs := mkHandlerArgs {
  haDim : Z; haOffset : Vec3; haRegion : Vec3; haLocal : option Vec3; haEnqueued : Vec3 }.

Definition enqueueKernel (k : EnqueuedKernel) (workDim : Z)
    (globalWorkOffsetIn globalWorkSizeIn localWorkSizeIn : option Vec3) : option (Z + HandlerArgs) :=
  if negb (isPatched k) then Some (inl CL_INVALID_KERNEL_ARGS)
  else
    r ← argsLoop k globalWorkOffsetIn globalWorkSizeIn localWorkSizeIn (Z.to_nat workDim) 0
          (mkArgState (mkVec3 1 1 1) (mkVec3 0 0 0) (mkVec3 1 1 1) (mkVec3 0 0 0) 0 1);
    match r with
    | inl err => Some (inl err)
    | inr st =>
        if bool_decide (asRemainder st <> 0) && negb (allowNonUniform k) then Some (inl CL_INVALID_WORK_GROUP_SIZE)
        else
          let localWkgSizeToPass :=
            if haveRequiredWorkGroupSize k then Some (reqdWorkGroupSize k)
            else match localWorkSizeIn with Some _ => Some (asGroup st) | None => None end in
          let err := match validateDispatch k with
            | Some validate => validate workDim (asRegion st) (asGroup st) (asOffset st) | None => 0 end in
          if decide (err <> 0) then Some (inl err)
          else if decide (deviceMaxWorkGroupSize k < asTotal st) then Some (inl CL_INVALID_WORK_GROUP_SIZE)
          else Some (inr (mkHandlerArgs workDim (asOffset st) (asRegion st) localWkgSizeToPass (asEnqueued st)))
    end.

(** ** Which walker runs an item

    Groups are numbered over the whole range, [L] items apart, so the item at
    [p] is local item [p mod L] of group [p / L].  A walker runs the groups
    from [swgs] up to [nwgs], each of [lws] items. *)
Definition runs1 (L start stop size p : Z) : bool :=
  bool_decide (start <= p / L) && bool_decide (p / L < stop) && bool_decide (p mod L < size).

Definition runs {K} (L p : Vec3) (d : @DispatchInfo K) : bool :=
  runs1 (x L) (x (swgs d)) (x (nwgs d)) (x (lws d)) (x p) &&
  runs1 (y L) (y (swgs d)) (y (nwgs d)) (y (lws d)) (y p) &&
  runs1 (z L) (z (swgs d)) (z (nwgs d)) (z (lws d)) (z p).

Definition timesRun {K} (L p : Vec3) (out : list (@DispatchInfo K)) : Z :=
  Z.of_nat (length (filter (fun d => runs L p d = true) out)).

Definition inRange (g p : Vec3) : bool := bool_decide (x p < x g) && bool_decide (y p < y g) && bool_decide (z p < z g).

(** ** Splitting one dimension

    The whole groups and the remainder of [g] items in groups of [l]: actual
    size, group size, first group and end of the groups. *)
Record Seg := mkSeg { sgAg : Z; sgSz : Z; sgSt : Z; sgEn : Z }.

Definition seg (rest : bool) (g l : Z) : Seg :=
  if rest then mkSeg (g mod l) (g mod l) (g / l) (g / l + isIndivisible g l)
  else mkSeg (g - g mod l) l 0 (g / l).

Definition segRuns (L : Z) (s : Seg) (p : Z) : Z := Z.b2z (runs1 L (sgSt s) (sgEn s) (sgSz s) p).

Lemma bd_b2z (P : Prop) `{Decision P} : Z.b2z (bool_decide P) = if decide P then 1 else 0.
Proof. case_bool_decide; case_decide; done. Qed.

Lemma runs1_decide L a b s p : Z.b2z (runs1 L a b s p) = if decide (a <= p / L /\ p / L < b /\ p mod L < s) then 1 else 0.
Proof. unfold runs1. repeat case_bool_decide; case_decide; simpl; try done; lia. Qed.

Lemma div_lt_iff p g l : 0 < l -> g mod l = 0 -> p / l < g / l <-> p < g.
Proof. intros Hl Hg. Z.div_mod_to_equations. nia. Qed.

Lemma seg_sum g l p :
  0 < l -> 0 <= g -> 0 <= p ->
  segRuns l (seg false g l) p + segRuns l (seg true g l) p = Z.b2z (bool_decide (p < g)).
Proof.
  intros Hl Hg Hp. unfold segRuns. rewrite !runs1_decide, bd_b2z. simpl. unfold isIndivisible.
  pose proof (Z.mod_pos_bound p l Hl). pose proof (Z.mod_pos_bound g l Hl).
  pose proof (Z.div_mod p l ltac:(lia)). pose proof (Z.div_mod g l ltac:(lia)).
  pose proof (Z.div_pos p l Hp Hl).
  destruct (decide (p / l < g / l)) as [Hlt|Hge].
  - rewrite decide_True by lia. rewrite (decide_False (P := g / l <= _ /\ _)) by lia.
    rewrite decide_True by nia. done.
  - rewrite decide_False by lia. destruct (decide (p / l = g / l)) as [E|E].
    + destruct (decide (p mod l < g mod l)).
      * rewrite (decide_True (P := g mod l <> 0)) by lia. rewrite !decide_True by nia. done.
      * rewrite !(decide_False (P := _ /\ _)) by lia. rewrite decide_False by nia. done.
    + rewrite (decide_False (P := g / l <= _ /\ _)) by (destruct (decide (g mod l <> 0)); lia).
      rewrite decide_False by nia. done.
Qed.

Lemma seg_cases r g l :
  0 < l -> 0 <= g ->
  0 <= sgAg (seg r g l) /\
  (sgAg (seg r g l) = 0 -> forall p, 0 <= p -> segRuns l (seg r g l) p = 0) /\
  (0 < sgAg (seg r g l) -> 0 < sgSz (seg r g l) /\ 0 < sgEn (seg r g l)).
Proof.
  intros Hl Hg. pose proof (Z.mod_pos_bound g l Hl). pose proof (Z.div_mod g l ltac:(lia)).
  pose proof (Z.div_pos g l Hg Hl). destruct r; simpl; unfold segRuns; simpl; (split; [nia|split]).
  - intros Hag p Hp. rewrite runs1_decide, decide_False; [done|]. pose proof (Z.mod_pos_bound p l Hl). lia.
  - intros Hag. split; [lia|]. unfold isIndivisible. rewrite decide_True by lia. lia.
  - intros Hag p Hp. rewrite runs1_decide, decide_False; [done|]. pose proof (Z.div_pos p l Hp Hl). nia.
  - intros Hag. split; [lia|nia].
Qed.

Lemma alignDownTo_eq g l : 0 < l -> u64 g -> alignDownTo g l = g - g mod l.
Proof.
  intros Hl Hg. unfold alignDownTo. pose proof (Z.mod_pos_bound g l Hl). apply wrap_small. unfold uint in *.
  pose proof (Z.mod_le g l ltac:(lia) Hl). lia.
Qed.

Lemma alignDownTo_div g l : 0 < l -> u64 g -> alignDownTo g l / l = g / l.
Proof.
  intros Hl Hg. rewrite alignDownTo_eq by done. pose proof (Z.div_mod g l ltac:(lia)) as E.
  replace (g - g mod l) with (g / l * l) by lia. apply Z.div_mul. lia.
Qed.

Lemma isIndivisible_mod g l : 0 < l -> isIndivisible (g mod l) l = isIndivisible g l.
Proof. intros Hl. unfold isIndivisible. by rewrite Z.mod_mod by lia. Qed.

Lemma isIndivisible_aligned g l : 0 < l -> u64 g -> isIndivisible (alignDownTo g l) l = 0.
Proof.
  intros Hl Hg. rewrite alignDownTo_eq by done. unfold isIndivisible. rewrite decide_False; [done|].
  rewrite Zminus_mod_idemp_r, Z.sub_diag. intros Hn. by rewrite Z.mod_0_l in Hn by lia.
Qed.

Lemma count_groups g l : 0 < l -> u64 g -> g / l ⊞ isIndivisible g l = g / l + isIndivisible g l.
Proof.
  intros Hl [H0 Hg]. pose proof (Z.div_mod g l ltac:(lia)). pose proof (Z.mod_pos_bound g l Hl).
  pose proof (Z.div_pos g l H0 Hl). unfold isIndivisible. apply wrap_small. unfold uint. destruct (decide _); nia.
Qed.

Lemma count_whole_groups g l : 0 < l -> u64 g -> g / l ⊞ 0 = g / l.
Proof.
  intros Hl [H0 Hg]. pose proof (Z.div_mod g l ltac:(lia)). pose proof (Z.mod_pos_bound g l Hl).
  pose proof (Z.div_pos g l H0 Hl). rewrite Z.add_0_r. apply wrap_small. unfold uint. nia.
Qed.

(** ** Baking the regions *)

Section regions.
Context {K : Type} `{WorkSizeDeduction K}.
Implicit Types d : @DispatchInfo K.

Lemma timesRun_app L p (a b : list (@DispatchInfo K)) : timesRun L p (a ++ b) = timesRun L p a + timesRun L p b.
Proof. unfold timesRun. rewrite filter_app, length_app. lia. Qed.

Lemma timesRun_one L p d : timesRun L p [d] = Z.b2z (runs L p d).
Proof. unfold timesRun. rewrite filter_cons, filter_nil. case_decide as E; [by rewrite E|]. by destruct (runs L p d). Qed.

Lemma runs_product L p d :
  Z.b2z (runs L p d) = Z.b2z (runs1 (x L) (x (swgs d)) (x (nwgs d)) (x (lws d)) (x p)) *
                       Z.b2z (runs1 (y L) (y (swgs d)) (y (nwgs d)) (y (lws d)) (y p)) *
                       Z.b2z (runs1 (z L) (z (swgs d)) (z (nwgs d)) (z (lws d)) (z p)).
Proof. unfold runs. do 3 destruct (runs1 _ _ _ _ _); done. Qed.

Lemma vec3_eta v : mkVec3 (x v) (y v) (z v) = v.
Proof. by destruct v. Qed.

Definition pos3 (v : Vec3) : Prop := 0 < x v /\ 0 < y v /\ 0 < z v.
Definition nonneg3 (v : Vec3) : Prop := 0 <= x v /\ 0 <= y v /\ 0 <= z v.
Definition u64_3 (v : Vec3) : Prop := u64 (x v) /\ u64 (y v) /\ u64 (z v).

Lemma canonize_pos v : pos3 v -> canonizeWorkgroup v = v.
Proof.
  intros (? & ? & ?). unfold canonizeWorkgroup. rewrite decide_True by done. destruct v as [a b c]. simpl in *.
  f_equal; lia.
Qed.

(** [dim d] is the dimension that [bake] computes, and the group size fits. *)
Record split_ok d : Prop := {
  so_g : pos3 (gws d); so_u : u64_3 (gws d); so_l : pos3 (lws d);
  so_x : x (lws d) <= x (gws d); so_y : y (lws d) <= y (gws d); so_z : z (lws d) <= z (gws d);
  so_dim : dim d = calculateDispatchDim (gws d) (offset d);
  so_twgs : 0 < x (twgs d) }.

Lemma dispatchDim_range g o : pos3 g ->
  1 <= calculateDispatchDim g o <= 3 /\ (calculateDispatchDim g o <= 1 -> y g = 1 /\ z g = 1) /\
  (calculateDispatchDim g o <= 2 -> z g = 1).
Proof. intros (? & ? & ?). unfold calculateDispatchDim, getSimplifiedDim. repeat case_decide; lia. Qed.

Lemma nonEmpty_pos dm v : 1 <= dm <= 3 -> pos3 v -> nonEmpty dm v = true.
Proof.
  intros Hd (? & ? & ?). unfold nonEmpty. rewrite !(bool_decide_true (0 < _)) by done.
  assert (dm = 1 \/ dm = 2 \/ dm = 3) as [->|[->| ->]] by lia; done.
Qed.

Lemma nonEmpty_false dm v : 1 <= dm <= 3 -> nonEmpty dm v = false ->
  x v <= 0 \/ (2 <= dm /\ y v <= 0) \/ (3 <= dm /\ z v <= 0).
Proof.
  intros Hd. unfold nonEmpty. assert (dm = 1 \/ dm = 2 \/ dm = 3) as [->|[->| ->]] by lia;
    repeat case_bool_decide; simpl; try done; lia.
Qed.

Lemma nonEmpty_true dm v : nonEmpty dm v = true -> 0 < x v /\ (2 <= dm -> 0 < y v) /\ (3 <= dm -> 0 < z v).
Proof. unfold nonEmpty. repeat case_bool_decide; simpl; try done; intros _; lia. Qed.

Definition regionInfo d (sx sy sz : Seg) : DispatchInfo :=
  mkDispatchInfo (kernel d) (dim d) (gws d) (elws d) (offset d) (mkVec3 (sgAg sx) (sgAg sy) (sgAg sz))
    (mkVec3 (sgSz sx) (sgSz sy) (sgSz sz)) (twgs d) (mkVec3 (sgEn sx) (sgEn sy) (sgEn sz))
    (mkVec3 (sgSt sx) (sgSt sy) (sgSt sz)).

(** What a dispatch info contributes to the number of times an item runs. *)
Definition bakes L d (f : Vec3 -> Z) : Prop :=
  exists out, bakeInfo None d = Some out /\ forall p, nonneg3 p -> timesRun L p out = f p.

Lemma bake_region d rx ry rz :
  split_ok d -> (dim d <= 1 -> ry = false) -> (dim d <= 2 -> rz = false) ->
  let sx := seg rx (x (gws d)) (x (lws d)) in
  let sy := seg ry (y (gws d)) (y (lws d)) in
  let sz := seg rz (z (gws d)) (z (lws d)) in
  mkVec3 (sgAg sx) (sgAg sy) (sgAg sz) <> zero3 ->
  bakes (lws d) (regionInfo d sx sy sz)
    (fun p => segRuns (x (lws d)) sx (x p) * segRuns (y (lws d)) sy (y p) * segRuns (z (lws d)) sz (z p)).
Proof.
  intros [Hg Hu Hl Hx Hy Hz Hdim Ht] Hry Hrz sx sy sz Hne. unfold bakes, bakeInfo. simpl.
  destruct (dispatchDim_range (gws d) (offset d) Hg) as (HD & HD1 & HD2). rewrite <- Hdim in HD, HD1, HD2.
  rewrite (nonEmpty_pos (dim d)) by done. rewrite (canonize_pos (gws d)) by done. rewrite <- Hdim.
  rewrite (decide_False (P := _ = zero3)) by done.
  pose proof Hg as (? & ? & ?). pose proof Hl as (? & ? & ?).
  destruct (seg_cases rx (x (gws d)) (x (lws d))) as (Hax & Hex & Hpx); [lia..|]. fold sx in Hax, Hex, Hpx.
  destruct (seg_cases ry (y (gws d)) (y (lws d))) as (Hay & Hey & Hpy); [lia..|]. fold sy in Hay, Hey, Hpy.
  destruct (seg_cases rz (z (gws d)) (z (lws d))) as (Haz & Hez & Hpz); [lia..|]. fold sz in Haz, Hez, Hpz.
  destruct (nonEmpty _ _) eqn:Hn.
  - apply nonEmpty_true in Hn. simpl in Hn. destruct Hn as (Hnx & Hny & Hnz).
    assert (0 < sgAg sy) as Hy0.
    { destruct (decide (2 <= dim d)); [auto|]. destruct HD1 as [E _]; [lia|]. subst sy. rewrite Hry by lia.
      rewrite E in *. replace (y (lws d)) with 1 by lia. done. }
    assert (0 < sgAg sz) as Hz0.
    { destruct (decide (3 <= dim d)); [auto|]. specialize (HD2 ltac:(lia)). subst sz. rewrite Hrz by lia.
      rewrite HD2 in *. replace (z (lws d)) with 1 by lia. done. }
    destruct (Hpx Hnx), (Hpy Hy0), (Hpz Hz0). rewrite decide_False by lia. cbn [mbind option_bind].
    rewrite (canonize_pos (mkVec3 _ _ _)) by (unfold pos3; simpl; lia). rewrite decide_False by lia. cbn [mbind option_bind]. rewrite decide_False by lia.
    eexists. split; [done|]. intros p _. by rewrite timesRun_one, runs_product.
  - apply nonEmpty_false in Hn; [|done]. simpl in Hn. eexists. split; [done|]. intros p (? & ? & ?).
    unfold timesRun. simpl. destruct Hn as [Hn|[[_ Hn]|[_ Hn]]].
    + rewrite Hex by lia. lia.
    + rewrite Hey by lia. lia.
    + rewrite Hez by lia. lia.
Qed.

Lemma bakeAll_sum L b fs :
  Forall2 (bakes L) b fs ->
  exists out, bakeAll None b = Some out /\ forall p, nonneg3 p -> timesRun L p out = foldr (fun f a => f p + a) 0 fs.
Proof.
  induction 1 as [|d f b fs (o & E & Ho) _ (out & E' & Hout)]; simpl; [by eexists|].
  rewrite E, E'. cbn. eexists. split; [done|]. intros p Hp. by rewrite timesRun_app, Ho, Hout.
Qed.

Lemma bakes_empty L k : bakes L (setKernelInfo k newDispatchInfo) (fun _ => 0).
Proof. eexists. by split. Qed.

Lemma seg_main_pos g l : 0 < l <= g -> 0 < sgAg (seg false g l).
Proof.
  intros Hl. simpl. pose proof (Z.div_mod g l ltac:(lia)). pose proof (Z.div_str_pos g l ltac:(lia)). nia.
Qed.

(** The product that [bake_region] gives for a region. *)
Definition regionRuns d (rx ry rz : bool) (p : Vec3) : Z :=
  segRuns (x (lws d)) (seg rx (x (gws d)) (x (lws d))) (x p) *
  segRuns (y (lws d)) (seg ry (y (gws d)) (y (lws d))) (y p) *
  segRuns (z (lws d)) (seg rz (z (gws d)) (z (lws d))) (z p).

Lemma seg_one l p : l = 1 -> 0 <= p -> segRuns l (seg true 1 l) p = 0.
Proof. intros -> Hp. unfold segRuns. rewrite runs1_decide, decide_False; [done|]. simpl. rewrite !Z.mod_1_r. lia. Qed.

(** All eight regions together run each item of the range once; in one or two
    dimensions the regions beyond do not exist and would run nothing. *)
Lemma regionRuns_sum d p :
  split_ok d -> nonneg3 p ->
  regionRuns d false false false p + regionRuns d true false false p +
  regionRuns d false true false p + regionRuns d true true false p +
  regionRuns d false false true p + regionRuns d true false true p +
  regionRuns d false true true p + regionRuns d true true true p = Z.b2z (inRange (gws d) p).
Proof.
  intros [Hg Hu Hl _ _ _ _ _] (? & ? & ?). destruct Hg as (? & ? & ?), Hl as (? & ? & ?). unfold regionRuns.
  transitivity (Z.b2z (bool_decide (x p < x (gws d))) * Z.b2z (bool_decide (y p < y (gws d))) * Z.b2z (bool_decide (z p < z (gws d)))).
  - rewrite <- (seg_sum (x (gws d)) (x (lws d))), <- (seg_sum (y (gws d)) (y (lws d))), <- (seg_sum (z (gws d)) (z (lws d))) by lia.
    ring.
  - unfold inRange. by repeat case_bool_decide.
Qed.

(** The remainder regions of a dimension of size 1 run nothing. *)
Lemma regionRuns_flat d rx ry rz p :
  split_ok d -> nonneg3 p ->
  (dim d <= 1 /\ ry = true) \/ (dim d <= 2 /\ rz = true) -> regionRuns d rx ry rz p = 0.
Proof.
  intros [Hg Hu Hl Hx Hy Hz Hdim _] (? & ? & ?) Hc. unfold regionRuns.
  destruct (dispatchDim_range (gws d) (offset d) Hg) as (_ & HD1 & HD2). rewrite <- Hdim in HD1, HD2.
  destruct Hg as (? & ? & ?), Hl as (? & ? & ?). destruct Hc as [[Hd ->]|[Hd ->]].
  - destruct (HD1 Hd) as [E _]. rewrite E in *. rewrite (seg_one (y (lws d))) by lia. lia.
  - specialize (HD2 Hd). rewrite HD2 in *. rewrite (seg_one (z (lws d))) by lia. lia.
Qed.

Definition splits d : Prop :=
  x (gws d) mod x (lws d) <> 0 \/ y (gws d) mod y (lws d) <> 0 \/ z (gws d) mod z (lws d) <> 0.

Lemma bake_region' d rx ry rz :
  split_ok d -> splits d -> (dim d <= 1 -> ry = false) -> (dim d <= 2 -> rz = false) ->
  bakes (lws d) (regionInfo d (seg rx (x (gws d)) (x (lws d))) (seg ry (y (gws d)) (y (lws d)))
                              (seg rz (z (gws d)) (z (lws d)))) (regionRuns d rx ry rz).
Proof.
  intros Hs Hsp Hy Hz. apply bake_region; [done..|]. intros E. inversion E as [[Ex Ey Ez]].
  destruct Hs as [(? & ? & ?) _ (? & ? & ?) ? ? ? _ _].
  destruct rx; [|pose proof (seg_main_pos (x (gws d)) (x (lws d))); simpl in *; lia].
  destruct ry; [|pose proof (seg_main_pos (y (gws d)) (y (lws d))); simpl in *; lia].
  destruct rz; [|pose proof (seg_main_pos (z (gws d)) (z (lws d))); simpl in *; lia].
  simpl in *. unfold splits in Hsp. lia.
Qed.

(** Rewrites the region arithmetic of the code to the segments. *)
Ltac to_segments Hs :=
  let Hu := fresh in let Hl := fresh in
  destruct Hs as [_ Hu Hl _ _ _ _ _]; destruct Hu as (? & ? & ?); destruct Hl as (? & ? & ?);
  rewrite ?alignDownTo_div, ?isIndivisible_mod, ?isIndivisible_aligned by done;
  rewrite ?count_whole_groups, ?count_groups by done;
  rewrite ?alignDownTo_eq by done.

Lemma pushSplit1_spec d :
  split_ok d -> splits d -> dim d = 1 ->
  exists out, pushSplit1 d = Some out /\ forall p, nonneg3 p -> timesRun (lws d) p out = Z.b2z (inRange (gws d) p).
Proof.
  intros Hs Hsp Hd. pose proof Hs as Hs'.
  destruct (dispatchDim_range (gws d) (offset d) (so_g d Hs)) as (_ & HD1 & _). rewrite <- (so_dim d Hs) in HD1.
  destruct (HD1 ltac:(lia)) as [Ey Ez]. assert (y (lws d) = 1 /\ z (lws d) = 1) as [Ly Lz].
  { destruct Hs as [_ _ (? & ? & ?) ? ? ? _ _]. lia. }
  unfold pushSplit1. cbv zeta. cbn [x y z].
  pose proof (bake_region' d false false false Hs Hsp ltac:(done) ltac:(done)) as B0.
  pose proof (bake_region' d true false false Hs Hsp ltac:(done) ltac:(done)) as B1.
  unfold regionInfo in B0, B1. rewrite Hd, Ey, Ez, Ly, Lz in B0, B1.
  to_segments Hs'.
  edestruct (bakeAll_sum (lws d)) as (out & E & Hout).
  2: { exists out. split; [exact E|]. intros p Hp. rewrite (Hout p Hp).
       rewrite <- (regionRuns_sum d p Hs Hp).
       rewrite (regionRuns_flat d false true false), (regionRuns_flat d true true false), (regionRuns_flat d false false true),
         (regionRuns_flat d true false true), (regionRuns_flat d false true true), (regionRuns_flat d true true true) by (done || lia).
       instantiate (1 := [regionRuns d false false false; regionRuns d true false false; fun _ => 0]). simpl. ring. }
  constructor; [exact B0|]. constructor; [exact B1|]. constructor; [apply bakes_empty|constructor].
Qed.

Lemma pushSplit2_spec d :
  split_ok d -> splits d -> dim d = 2 ->
  exists out, pushSplit2 d = Some out /\ forall p, nonneg3 p -> timesRun (lws d) p out = Z.b2z (inRange (gws d) p).
Proof.
  intros Hs Hsp Hd. pose proof Hs as Hs'.
  destruct (dispatchDim_range (gws d) (offset d) (so_g d Hs)) as (_ & _ & HD2). rewrite <- (so_dim d Hs) in HD2.
  pose proof (HD2 ltac:(lia)) as Ez. assert (z (lws d) = 1) as Lz.
  { destruct Hs as [_ _ (? & ? & ?) ? ? ? _ _]. lia. }
  unfold pushSplit2. cbv zeta. cbn [x y z].
  pose proof (fun rx ry => bake_region' d rx ry false Hs Hsp ltac:(lia) ltac:(done)) as B.
  unfold regionInfo in B. rewrite Hd, Ez, Lz in B.
  to_segments Hs'.
  set (f := fun rx ry => regionRuns d rx ry false) in *. set (e := fun _ : Vec3 => 0).
  edestruct (bakeAll_sum (lws d)) as (out & E & Hout).
  2: { exists out. split; [exact E|]. intros p Hp. rewrite (Hout p Hp).
       rewrite <- (regionRuns_sum d p Hs Hp).
       rewrite (regionRuns_flat d false false true), (regionRuns_flat d true false true), (regionRuns_flat d false true true),
         (regionRuns_flat d true true true) by (done || lia).
       instantiate (1 := [f false false; f true false; e; f false true; f true true; e; e; e; e]). unfold f, e. simpl. ring. }
  constructor; [exact (B false false)|]. constructor; [exact (B true false)|]. constructor; [apply bakes_empty|].
  constructor; [exact (B false true)|]. constructor; [exact (B true true)|].
  repeat (constructor; [apply bakes_empty|]). constructor.
Qed.

Lemma pushSplit3_spec d :
  split_ok d -> splits d -> dim d = 3 ->
  exists out, pushSplit3 d = Some out /\ forall p, nonneg3 p -> timesRun (lws d) p out = Z.b2z (inRange (gws d) p).
Proof.
  intros Hs Hsp Hd. pose proof Hs as Hs'. unfold pushSplit3. cbv zeta. cbn [x y z].
  pose proof (fun rx ry rz => bake_region' d rx ry rz Hs Hsp ltac:(lia) ltac:(lia)) as B.
  unfold regionInfo in B. rewrite Hd in B.
  to_segments Hs'.
  set (f := regionRuns d) in *. set (e := fun _ : Vec3 => 0).
  edestruct (bakeAll_sum (lws d)) as (out & E & Hout).
  2: { exists out. split; [exact E|]. intros p Hp. rewrite (Hout p Hp).
       rewrite <- (regionRuns_sum d p Hs Hp).
       instantiate (1 := [f false false false; f true false false; e; f false true false; f true true false; e; e; e; e;
                          f false false true; f true false true; e; f false true true; f true true true; e; e; e; e;
                          e; e; e; e; e; e; e; e; e]). unfold f, e. simpl. ring. }
  pose proof (B false false false) as B0. cbn [seg sgAg sgSz sgSt sgEn] in B0. rewrite (vec3_eta (lws d)) in B0.
  constructor; [exact B0|]. constructor; [exact (B true false false)|]. constructor; [apply bakes_empty|].
  constructor; [exact (B false true false)|]. constructor; [exact (B true true false)|].
  do 4 (constructor; [apply bakes_empty|]).
  constructor; [exact (B false false true)|]. constructor; [exact (B true false true)|]. constructor; [apply bakes_empty|].
  constructor; [exact (B false true true)|]. constructor; [exact (B true true true)|].
  repeat (constructor; [apply bakes_empty|]). constructor.
Qed.

Lemma pushSplit_spec d :
  split_ok d -> splits d ->
  exists out, pushSplit d = Some out /\ forall p, nonneg3 p -> timesRun (lws d) p out = Z.b2z (inRange (gws d) p).
Proof.
  intros Hs Hsp. unfold pushSplit.
  pose proof (dispatchDim_range (gws d) (offset d) (so_g d Hs)) as [HD _]. rewrite <- (so_dim d Hs) in HD.
  case_decide; [by apply pushSplit1_spec|]. case_decide; [by apply pushSplit2_spec|].
  rewrite decide_True by lia. apply pushSplit3_spec; [done..|lia].
Qed.

(** ** One walker builder *)

Lemma bakeInfo_walker d l :
  1 <= dim d <= 3 -> pos3 (gws d) -> u64_3 (gws d) ->
  agws d = zero3 -> twgs d = zero3 -> nwgs d = zero3 -> swgs d = zero3 ->
  (x (lws d) = 0 /\ x (elws d) = 0 /\
     deduceLws (kernel d) (gws d) (calculateDispatchDim (gws d) (offset d)) = Some l \/ lws d = l) ->
  pos3 l -> x l <= x (gws d) -> y l <= y (gws d) -> z l <= z (gws d) ->
  x (gws d) mod x l + y (gws d) mod y l + z (gws d) mod z l < 2 ^ 64 ->
  exists out, bakeInfo (Some pushSplit) d = Some out /\ forall p, nonneg3 p -> timesRun l p out = Z.b2z (inRange (gws d) p).
Proof.
  intros Hd Hg Hu Ha Ht Hn Hsw Hl Hlp Hx Hy Hz Hsum. unfold bakeInfo.
  rewrite (nonEmpty_pos (dim d)) by done. rewrite Ha, decide_True by done. cbv zeta. rewrite (canonize_pos (gws d)) by done.
  destruct (dispatchDim_range (gws d) (offset d) Hg) as (HD & HD1 & HD2).
  rewrite nonEmpty_pos by done.
  match goal with |- context [?m ≫= _] => assert (m = Some l) as -> end.
  { destruct Hl as [(-> & He & Hde)| ->].
    - rewrite decide_True by done. unfold generateWorkgroupSize. rewrite decide_True; [done|].
      unfold canonizeWorkgroup. rewrite decide_False by lia. done.
    - rewrite decide_False by (destruct Hlp; lia). done. }
  cbn [mbind option_bind]. rewrite (canonize_pos l) by done. rewrite Ht, decide_True by done.
  pose proof Hg as (? & ? & ?). pose proof Hlp as (? & ? & ?).
  set (n := mkVec3 (x (gws d) / x l + isIndivisible (x (gws d)) (x l)) (y (gws d) / y l + isIndivisible (y (gws d)) (y l))
                   (z (gws d) / z l + isIndivisible (z (gws d)) (z l))).
  assert (generateWorkgroupsNumber (gws d) l = Some n) as ->.
  { unfold generateWorkgroupsNumber, computeWorkgroupsNumber, cdiv. rewrite decide_True by lia.
    rewrite !(decide_False (P := _ = 0)) by lia. done. }
  cbn [mbind option_bind].
  assert (pos3 n) as Hnp.
  { assert (forall a b, 0 < b <= a -> 0 < a / b + isIndivisible a b) as Hq.
    { intros a b Hb. pose proof (Z.div_str_pos a b ltac:(lia)). unfold isIndivisible. destruct (decide _); lia. }
    split_and!; simpl; apply Hq; lia. }
  rewrite (canonize_pos n) by done. rewrite Hn, (decide_True (P := x zero3 = 0)) by done.
  rewrite decide_False by lia.
  pose proof (Z.mod_pos_bound (x (gws d)) (x l) ltac:(lia)). pose proof (Z.mod_pos_bound (y (gws d)) (y l) ltac:(lia)).
  pose proof (Z.mod_pos_bound (z (gws d)) (z l) ltac:(lia)).
  rewrite (wrap_small 64 (x (gws d) mod x l + y (gws d) mod y l)) by (unfold uint; lia).
  rewrite wrap_small by (unfold uint; lia).
  case_decide as Hsplit.
  - apply (pushSplit_spec (mkDispatchInfo _ _ _ _ _ _ l _ _ _)); [|unfold splits; simpl; lia].
    split; simpl; try done. apply Hnp.
  - eexists. split; [done|]. intros p (? & ? & ?). rewrite timesRun_one, runs_product, Hsw. simpl.
    assert (forall q g k, 0 <= q -> 0 < k -> g mod k = 0 ->
      Z.b2z (runs1 k 0 (g / k + isIndivisible g k) k q) = Z.b2z (bool_decide (q < g))) as Hr.
    { intros q g k Hq Hk Hm. rewrite runs1_decide, bd_b2z. unfold isIndivisible. rewrite (decide_False (P := g mod k <> 0)) by lia.
      rewrite Z.add_0_r. pose proof (Z.mod_pos_bound q k Hk). pose proof (Z.div_pos q k Hq Hk).
      pose proof (div_lt_iff q g k Hk Hm). apply decide_ext. lia. }
    rewrite !Hr by lia. unfold inRange. by repeat case_bool_decide.
Qed.

Lemma buildWalkers_spec (k : K) workDim offset g local enq l :
  1 <= workDim <= 3 -> pos3 g -> u64_3 g ->
  (local = None /\ x enq = 0 /\ deduceLws (Some k) g (calculateDispatchDim g offset) = Some l \/ local = Some l) ->
  pos3 l -> x l <= x g -> y l <= y g -> z l <= z g -> x g mod x l + y g mod y l + z g mod z l < 2 ^ 64 ->
  exists out, buildWalkers k workDim offset g local enq = Some out /\
    forall p, nonneg3 p -> timesRun l p out = Z.b2z (inRange g p).
Proof.
  intros Hd Hg Hu Hl Hlp Hx Hy Hz Hsum.
  destruct (bakeInfo_walker (mkDispatchInfo (Some k) workDim g enq offset zero3 (default zero3 local) zero3 zero3 zero3) l)
    as (out & E & Hout); try done.
  { destruct Hl as [(-> & ? & ?)| ->]; [by left|by right]. }
  exists (out ++ []). split; [|by rewrite app_nil_r].
  unfold buildWalkers, bake. cbv zeta. simpl. unfold setKernelInfo. simpl. by rewrite E.
Qed.
End regions.

(** ** What enqueueKernel passes on *)

Definition ones : Vec3 := mkVec3 1 1 1.
Definition groupOf (k : EnqueuedKernel) (g l : Vec3) : Vec3 :=
  if allowNonUniform k then mkVec3 (Z.min (x l) (x g)) (Z.min (y l) (y g)) (Z.min (z l) (z g)) else l.

Lemma argsTurn_local k o g l i st st' gi li :
  argsTurn k o (Some g) (Some l) i st = Some (inr st') -> vget g i = Some gi -> vget l i = Some li ->
  let wg := if allowNonUniform k then Z.min li gi else li in
  li <> 0 /\ wg <> 0 /\ vset i gi (asRegion st) = Some (asRegion st') /\ vset i wg (asGroup st) = Some (asGroup st') /\
  vset i li (asEnqueued st) = Some (asEnqueued st') /\
  asRemainder st' = asRemainder st ⊞ gi mod wg /\ asTotal st' = asTotal st ⊠ li.
Proof.
  intros H Hg Hl wg. unfold argsTurn in H. rewrite Hg, Hl in H. cbn [mbind option_bind] in H.
  destruct (vset i gi _) as [r|] eqn:Er; [|done]. cbn [mbind option_bind] in H.
  destruct (match o with Some o => vget o i | None => Some 0 end) as [ov|]; [|done]. cbn [mbind option_bind] in H.
  destruct (vset i ov _) as [ofs|] eqn:Eo; [|done]. cbn [mbind option_bind] in H.
  destruct (vget (reqdWorkGroupSize k) i) as [rq|]; [|done]. cbn [mbind option_bind] in H.
  destruct (haveRequiredWorkGroupSize k && _); [done|]. destruct (decide (li = 0)) as [|Hli]; [done|].
  assert ((if allowNonUniform k then Some (Z.min li gi) else Some li) = Some wg) as E by (subst wg; by destruct (allowNonUniform k)).
  rewrite Hg in H. cbn [mbind option_bind] in H. rewrite E in H. clear E. cbn [mbind option_bind] in H.
  destruct (vset i wg _) as [gr|] eqn:Eg; [|done]. cbn [mbind option_bind] in H.
  destruct (vset i li _) as [en|] eqn:Ee; [|done]. cbn [mbind option_bind] in H.
  assert (vget gr i = Some wg) as Ew.
  { revert Eg. unfold vget, vset. repeat case_decide; intros ?; simplify_eq; done. }
  rewrite Ew in H. cbn [mbind option_bind] in H. destruct (decide (wg = 0)); [done|]. by simplify_eq.
Qed.

Lemma argsTurn_null k o g i st st' gi :
  argsTurn k o (Some g) None i st = Some (inr st') -> vget g i = Some gi ->
  vset i gi (asRegion st) = Some (asRegion st') /\ asEnqueued st' = asEnqueued st.
Proof.
  intros H Hg. unfold argsTurn in H. rewrite Hg in H. cbn [mbind option_bind] in H.
  destruct (vset i gi _) as [r|] eqn:Er; [|done]. cbn [mbind option_bind] in H.
  destruct (match o with Some o => vget o i | None => Some 0 end) as [ov|]; [|done]. cbn [mbind option_bind] in H.
  destruct (vset i ov _) as [ofs|] eqn:Eo; [|done]. cbn [mbind option_bind] in H.
  destruct (vget (asGroup st) i) as [w|]; [|done]. cbn [mbind option_bind] in H. destruct (decide (w = 0)); [done|]. by simplify_eq.
Qed.

Definition argsInit : ArgState := mkArgState (mkVec3 1 1 1) (mkVec3 0 0 0) (mkVec3 1 1 1) (mkVec3 0 0 0) 0 1.

Lemma argsLoop_S k o g l n i st st' :
  argsLoop k o g l (S n) i st = Some (inr st') ->
  exists st1, argsTurn k o g l i st = Some (inr st1) /\ argsLoop k o g l n (i + 1) st1 = Some (inr st').
Proof. simpl. destruct (argsTurn _ _ _ _ _ _) as [[e|st1]|]; [done| |done]. cbn. eauto. Qed.

Lemma vset_0 a v : vset 0 a v = Some (mkVec3 a (y v) (z v)). Proof. done. Qed.
Lemma vset_1 a v : vset 1 a v = Some (mkVec3 (x v) a (z v)). Proof. done. Qed.
Lemma vset_2 a v : vset 2 a v = Some (mkVec3 (x v) (y v) a). Proof. done. Qed.

Lemma wrap_add_l a b : w64 (w64 a + b) = w64 (a + b).
Proof. apply Zplus_mod_idemp_l. Qed.
Lemma wrap_mul_l a b : w64 (w64 a * b) = w64 (a * b).
Proof. apply Zmult_mod_idemp_l. Qed.

(** Takes one turn of the argument loop apart. *)
Ltac tidy_turn H st1 :=
  rewrite ?vset_0, ?vset_1, ?vset_2 in *;
  destruct st1; cbn [asRegion asOffset asGroup asEnqueued asRemainder asTotal argsInit] in *; simplify_eq;
  change (0 + 1) with 1 in H; change (1 + 1) with 2 in H.

Ltac turn H st1 :=
  apply argsLoop_S in H as (st1 & ?HT & H);
  eapply argsTurn_local in HT; [|reflexivity|reflexivity];
  destruct HT as (?Hl & ?Hw & ?HR & ?HG & ?HE & ?HM & ?HT); tidy_turn H st1.

Ltac turn_null H st1 :=
  apply argsLoop_S in H as (st1 & ?HT & H);
  eapply argsTurn_null in HT; [|reflexivity]; destruct HT as (?HR & ?HE); tidy_turn H st1.

Ltac finish_turns k :=
  unfold firstDims; simpl; destruct (allowNonUniform k); simpl in *;
  split_and!; try done; rewrite ?Z.add_0_l, ?Z.mul_1_l;
  rewrite ?(wrap_add_l (_ mod _)), ?(wrap_mul_l (x _)), ?wrap_add_l, ?wrap_mul_l, ?Z.mod_1_r; f_equal; ring.

Lemma argsLoop_local k o g l workDim st :
  1 <= workDim <= 3 -> argsLoop k o (Some g) (Some l) (Z.to_nat workDim) 0 argsInit = Some (inr st) ->
  let L := firstDims workDim (groupOf k g l) ones in
  let R := firstDims workDim g ones in
  let l1 := firstDims workDim l ones in
  asRegion st = R /\ asGroup st = L /\ asEnqueued st = firstDims workDim l zero3 /\
  x l1 <> 0 /\ y l1 <> 0 /\ z l1 <> 0 /\ x L <> 0 /\ y L <> 0 /\ z L <> 0 /\
  asRemainder st = x R mod x L ⊞ y R mod y L ⊞ z R mod z L /\ asTotal st = x l1 ⊠ y l1 ⊠ z l1.
Proof.
  intros Hd H. unfold groupOf.
  assert (workDim = 1 \/ workDim = 2 \/ workDim = 3) as [->|[->| ->]] by lia.
  - change (Z.to_nat 1) with 1%nat in H. turn H st1. simplify_eq/=. finish_turns k.
  - change (Z.to_nat 2) with 2%nat in H. turn H st1.
    turn H st2. simplify_eq/=. finish_turns k.
  - change (Z.to_nat 3) with 3%nat in H. turn H st1.
    turn H st2. turn H st3. simplify_eq/=. finish_turns k.
Qed.

Lemma argsLoop_null k o g workDim st :
  1 <= workDim <= 3 -> argsLoop k o (Some g) None (Z.to_nat workDim) 0 argsInit = Some (inr st) ->
  asRegion st = firstDims workDim g ones /\ asEnqueued st = zero3.
Proof.
  intros Hd H. assert (workDim = 1 \/ workDim = 2 \/ workDim = 3) as [->|[->| ->]] by lia.
  - change (Z.to_nat 1) with 1%nat in H. turn_null H st1. by simplify_eq/=.
  - change (Z.to_nat 2) with 2%nat in H. turn_null H st1.
    turn_null H st2. by simplify_eq/=.
  - change (Z.to_nat 3) with 3%nat in H. turn_null H st1.
    turn_null H st2. turn_null H st3. by simplify_eq/=.
Qed.

(** ** From enqueueKernel to the walkers *)

Lemma groupOf_dims k g l workDim :
  firstDims workDim (groupOf k g l) ones =
  if allowNonUniform k then
    let l1 := firstDims workDim l ones in let R := firstDims workDim g ones in
    mkVec3 (Z.min (x l1) (x R)) (Z.min (y l1) (y R)) (Z.min (z l1) (z R))
  else firstDims workDim l ones.
Proof.
  unfold groupOf, firstDims. destruct (allowNonUniform k); [|done]. simpl. by repeat case_decide.
Qed.

Lemma mod_0_le a b : 0 < a -> 0 < b -> a mod b = 0 -> b <= a.
Proof. intros Ha Hb H. pose proof (Z.mod_small a b). lia. Qed.

(** The size of the groups fits the range: it was clamped to the range, or it
    divides the range because the remainder is 0. *)
Lemma group_fits k workDim g l :
  let R := firstDims workDim g ones in
  let l1 := firstDims workDim l ones in
  let L := firstDims workDim (groupOf k g l) ones in
  pos3 R -> pos3 l1 -> x l1 <= 1024 -> y l1 <= 1024 -> z l1 <= 1024 ->
  (allowNonUniform k = false -> x R mod x L ⊞ y R mod y L ⊞ z R mod z L = 0) ->
  pos3 L /\ x L <= x R /\ y L <= y R /\ z L <= z R /\ x R mod x L + y R mod y L + z R mod z L < 2 ^ 64.
Proof.
  intros R l1 L. unfold L. rewrite groupOf_dims. fold R l1. clearbody R l1.
  intros (HRx & HRy & HRz) (Hlx & Hly & Hlz) Hx Hy Hz Hrem. unfold pos3.
  assert (forall a b, 0 < b <= 1024 -> 0 <= a mod b < 1024) as Hmod.
  { intros a b Hb. pose proof (Z.mod_pos_bound a b). lia. }
  destruct (allowNonUniform k); cbn [x y z] in *.
  - pose proof (Hmod (x R) (Z.min (x l1) (x R)) ltac:(lia)). pose proof (Hmod (y R) (Z.min (y l1) (y R)) ltac:(lia)).
    pose proof (Hmod (z R) (Z.min (z l1) (z R)) ltac:(lia)). lia.
  - pose proof (Hmod (x R) (x l1) ltac:(lia)). pose proof (Hmod (y R) (y l1) ltac:(lia)).
    pose proof (Hmod (z R) (z l1) ltac:(lia)). specialize (Hrem eq_refl).
    rewrite (wrap_small 64 (x R mod x l1 + y R mod y l1)) in Hrem by (unfold uint; lia).
    rewrite wrap_small in Hrem by (unfold uint; lia).
    pose proof (mod_0_le (x R) (x l1)). pose proof (mod_0_le (y R) (y l1)). pose proof (mod_0_le (z R) (z l1)). lia.
Qed.

Lemma enqueue_sizes k workDim o g l a :
  1 <= workDim <= 3 -> haveRequiredWorkGroupSize k = false -> deviceMaxWorkGroupSize k <= 1024 ->
  let R := firstDims workDim g ones in
  let l1 := firstDims workDim l ones in
  let L := firstDims workDim (groupOf k g l) ones in
  pos3 R -> nonneg3 l1 -> x l1 * y l1 * z l1 < 2 ^ 64 ->
  enqueueKernel k workDim o (Some g) (Some l) = Some (inr a) ->
  haDim a = workDim /\ haRegion a = R /\ haLocal a = Some L /\ haEnqueued a = firstDims workDim l zero3 /\
  pos3 L /\ x L <= x R /\ y L <= y R /\ z L <= z R /\ x R mod x L + y R mod y L + z R mod z L < 2 ^ 64.
Proof.
  intros Hd Hreq Hmax R l1 L HR (Hlx & Hly & Hlz) Hl He. unfold enqueueKernel in He. fold argsInit in He.
  destruct (negb (isPatched k)); [done|].
  destruct (argsLoop _ _ _ _ _ _ _) as [[e|st]|] eqn:Hloop; [done| |done]. cbn [mbind option_bind] in He.
  apply argsLoop_local in Hloop as (E1 & E2 & E3 & N1 & N2 & N3 & M1 & M2 & M3 & Erem & Etot); [|done].
  fold R l1 L in E1, E2, E3, N1, N2, N3, M1, M2, M3, Erem, Etot.
  rewrite Hreq, E1, E2, E3 in He.
  destruct (bool_decide (asRemainder st <> 0) && negb (allowNonUniform k)) eqn:Hrem; [done|].
  cbv zeta in He. destruct (decide (_ <> 0)); [done|]. destruct (decide (_ < asTotal st)) as [|Htot]; [done|].
  assert (asTotal st = x l1 * y l1 * z l1) as E.
  { rewrite Etot. rewrite (wrap_small 64 (x l1 * y l1)) by (unfold uint; nia). apply wrap_small; unfold uint; nia. }
  assert (1 <= x l1 <= 1024 /\ 1 <= y l1 <= 1024 /\ 1 <= z l1 <= 1024) as (Hx & Hy & Hz) by nia.
  assert (pos3 l1) as Hl1 by (unfold pos3; lia).
  assert (allowNonUniform k = false -> x R mod x L ⊞ y R mod y L ⊞ z R mod z L = 0) as Hun.
  { intros Hu. rewrite Hu, andb_true_r in Hrem. apply bool_decide_eq_false, dec_stable in Hrem. by rewrite <- Erem. }
  destruct (group_fits k workDim g l HR Hl1 (proj2 Hx) (proj2 Hy) (proj2 Hz) Hun) as (? & ? & ? & ? & ?).
  assert (a = mkHandlerArgs workDim (asOffset st) R (Some L) (firstDims workDim l zero3)) as -> by congruence. done.
Qed.

Lemma enqueue_sizes_null k workDim o g a :
  1 <= workDim <= 3 -> haveRequiredWorkGroupSize k = false ->
  enqueueKernel k workDim o (Some g) None = Some (inr a) ->
  haDim a = workDim /\ haRegion a = firstDims workDim g ones /\ haLocal a = None /\ haEnqueued a = zero3.
Proof.
  intros Hd Hreq He. unfold enqueueKernel in He. fold argsInit in He.
  destruct (negb (isPatched k)); [done|].
  destruct (argsLoop _ _ _ _ _ _ _) as [[e|st]|] eqn:Hloop; [done| |done]. cbn [mbind option_bind] in He.
  apply argsLoop_null in Hloop as (E1 & E2); [|done]. rewrite Hreq, E1, E2 in He.
  destruct (_ && negb (allowNonUniform k)); [done|]. cbv zeta in He.
  destruct (decide (_ <> 0)); [done|]. destruct (decide (_ < asTotal st)); [done|]. by simplify_eq.
Qed.

(** C3: when [enqueueKernel] accepts an ND range, the walkers built for
    it run every work item of the range exactly once and no item outside,
    whether the application gives a local size (uniform or not, of one to
    three dimensions) or the driver deduces one.  The kernel has no required
    work-group size, the global size is positive and its item count fits 64
    bits, the product of the local sizes does not wrap, and the device limit
    is at most 1024. *)
Theorem nd_range_runs_once {K} `{WorkSizeDeduction K} (kern : K) k workDim o g lo a :
  let R := firstDims workDim g ones in
  1 <= workDim <= 3 -> kernel_ok kern ->
  haveRequiredWorkGroupSize k = false -> deviceMaxWorkGroupSize k <= 1024 ->
  0 < x R -> 0 < y R -> 0 < z R -> x R * y R * z R < 2 ^ 64 ->
  (forall l, lo = Some l -> let l1 := firstDims workDim l ones in
     0 <= x l1 /\ 0 <= y l1 /\ 0 <= z l1 /\ x l1 * y l1 * z l1 < 2 ^ 64) ->
  enqueueKernel k workDim o (Some g) lo = Some (inr a) ->
  exists L out, buildWalkers kern (haDim a) (haOffset a) (haRegion a) (haLocal a) (haEnqueued a) = Some out /\
    (forall l, lo = Some l -> L = firstDims workDim (groupOf k g l) ones) /\
    forall px py pz, 0 <= px -> 0 <= py -> 0 <= pz ->
      timesRun L (mkVec3 px py pz) out = if inRange R (mkVec3 px py pz) then 1 else 0.
Proof.
  intros R Hd Hk Hreq Hmax Hx Hy Hz Hprod Hlo He.
  assert (pos3 R) as HR by done. assert (u64_3 R) as Hu by (unfold u64_3, uint; nia).
  assert (forall L (out : list (@DispatchInfo K)), (forall p, nonneg3 p -> timesRun L p out = Z.b2z (inRange R p)) ->
    forall px py pz, 0 <= px -> 0 <= py -> 0 <= pz ->
      timesRun L (mkVec3 px py pz) out = if inRange R (mkVec3 px py pz) then 1 else 0) as Hfin.
  { intros L out Hp px py pz ? ? ?. by rewrite Hp. }
  destruct lo as [l|].
  - destruct (Hlo l eq_refl) as (? & ? & ? & ?).
    destruct (enqueue_sizes k workDim o g l a) as (-> & -> & -> & -> & HL & ? & ? & ? & ?); try done.
    set (L := firstDims workDim (groupOf k g l) ones) in *.
    destruct (buildWalkers_spec kern workDim (haOffset a) R (Some L) (firstDims workDim l zero3) L) as (out & E & Ho); try done.
    { by right. }
    exists L, out. split; [exact E|]. split; [|by apply Hfin]. by intros ? [= <-].
  - destruct (enqueue_sizes_null k workDim o g a) as (-> & -> & -> & ->); try done. fold R.
    pose proof (dispatchDim_range R (haOffset a) HR) as (HD & HD1 & HD2).
    destruct (deduce_valid kern R (calculateDispatchDim R (haOffset a)) Hk) as (L & mx & E & [? ? ? Dx Dy Dz _]).
    { unfold gws_ok. naive_solver. }
    destruct (buildWalkers_spec kern workDim (haOffset a) R None zero3 L) as (out & E' & Ho); try done.
    { by left. }
    { by apply Z.divide_pos_le. } { by apply Z.divide_pos_le. } { by apply Z.divide_pos_le. }
    { apply Z.mod_divide in Dx, Dy, Dz; lia. }
    exists L, out. split; [exact E'|]. split; [done|by apply Hfin].
Qed.

(** A kernel of SIMD 16 on a device with groups of up to 256 items. *)
Definition demo_kernel : WorkSizeInfo Z := mkWorkSizeInfo 256 0 false 16 0 true 56 65536 false false false false 0.
Definition demo_deduction : WorkSizeDeduction (WorkSizeInfo Z) := driverDeduction Z.sub Z.sub Z.ltb 100 1 true false.
Definition demo_enqueued (reqd : Vec3) (nonUniform : bool) : EnqueuedKernel := mkEnqueuedKernel true reqd nonUniform 256 None.
Definition noRequired : Vec3 := mkVec3 undefinedOffset undefinedOffset undefinedOffset.

(** 10 x 7 x 3 items in groups of 4 x 4 x 2: eight walkers. *)
Example nd_range_runs_once_witness :
  let k := demo_enqueued noRequired true in
  let g := mkVec3 10 7 3 in
  exists a L out, enqueueKernel k 3 None (Some g) (Some (mkVec3 4 4 2)) = Some (inr a) /\
    @buildWalkers _ demo_deduction demo_kernel (haDim a) (haOffset a) (haRegion a) (haLocal a) (haEnqueued a) = Some out /\
    length out = 8%nat /\ timesRun L (mkVec3 9 6 2) out = 1 /\ timesRun L (mkVec3 10 0 0) out = 0.
Proof.
  intros k g. exists (mkHandlerArgs 3 zero3 g (Some (mkVec3 4 4 2)) (mkVec3 4 4 2)).
  destruct (@nd_range_runs_once _ demo_deduction demo_kernel k 3 None g (Some (mkVec3 4 4 2))
    (mkHandlerArgs 3 zero3 g (Some (mkVec3 4 4 2)) (mkVec3 4 4 2))) as (L & out & E & HL & Hruns).
  - lia.
  - split_and!; [by right; left|by vm_compute|]. exists 8. split; [lia|done].
  - reflexivity.
  - by vm_compute.
  - reflexivity.
  - reflexivity.
  - reflexivity.
  - reflexivity.
  - intros l [= <-]. by vm_compute.
  - vm_compute. reflexivity.
  - exists L, out. split; [vm_compute; reflexivity|]. split; [exact E|].
    split; [|split; [exact (Hruns 9 6 2 ltac:(lia) ltac:(lia) ltac:(lia))|exact (Hruns 10 0 0 ltac:(lia) ltac:(lia) ltac:(lia))]].
    vm_compute in E. injection E as <-. reflexivity.
Defined.

(** a kernel compiled with a required group size of 4 x 4 x 4 and
    enqueued with no local size on 3 x 3 x 3 items is accepted although the
    required size does not divide the range, and the first of the walkers built
    for it, whose size is zero in every dimension, is taken to cover the whole
    range: item (0, 0, 0) runs twice, and item (3, 3, 3), outside the range,
    runs too. *)
Theorem required_size_runs_twice :
  match enqueueKernel (demo_enqueued (mkVec3 4 4 4) true) 3 None (Some (mkVec3 3 3 3)) None with
  | Some (inr a) =>
      match @buildWalkers _ demo_deduction demo_kernel (haDim a) (haOffset a) (haRegion a) (haLocal a) (haEnqueued a) with
      | Some out => timesRun (mkVec3 4 4 4) (mkVec3 0 0 0) out = 2 /\ timesRun (mkVec3 4 4 4) (mkVec3 3 3 3) out = 1
      | None => False
      end
  | _ => False
  end.
Proof. vm_compute. by split. Qed.

(** With an empty range and a local size, a non-uniform program divides by zero. *)
Lemma empty_range_divides_by_zero :
  enqueueKernel (demo_enqueued noRequired true) 1 None (Some (mkVec3 0 0 0)) (Some (mkVec3 1 1 1)) = None.
Proof. vm_compute. reflexivity. Qed.
