(* ===== verification/Event.v ===== *)
(** * Events

    Model of [runtime/event/event.cpp], [event.h] and [user_event.cpp]: the
    execution status of an event, its command, its callbacks, and the graph of
    events that wait for one another.  A world is a store of events and the log
    of what happened outside (commands submitted, callbacks called).  The
    device and the command stream receiver are code of other components: what
    they answer is a function of the log.  Completing an event unblocks its
    children, which may complete and unblock theirs, so the operations are
    mutually recursive; they take fuel, and a theorem shows how much is enough
    for an acyclic graph.  [None] is an access to an event that does not exist,
    a null command queue, or too little fuel.

    Not modelled: profiling timestamps, performance counters, and the deletion
    of an event when its reference count reaches zero. *)

From S2P Require Import Prelude.

Definition CL_COMPLETE : Z := 0.
Definition CL_RUNNING : Z := 1.
Definition CL_SUBMITTED : Z := 2.
Definition CL_QUEUED : Z := 3.
Definition eventNotReady : Z := 0xFFFFFFF0.

Inductive ECallbackTarget := Queued | Submitted | Running | Completed.
Definition targetIndex (t : ECallbackTarget) : nat :=
  match t with Queued => 0 | Submitted => 1 | Running => 2 | Completed => 3 end.

(** [None] is [ECallbackTarget::Invalid]. *)
Definition translateToCallbackTarget (execStatus : Z) : option ECallbackTarget :=
  if decide (execStatus = CL_QUEUED) then Some Queued
  else if decide (execStatus = CL_SUBMITTED) then Some Submitted
  else if decide (execStatus = CL_RUNNING) then Some Running
  else if decide (execStatus = CL_COMPLETE) then Some Completed
  else None.

Record Callback := mkCallback { callbackFunction : Z; callbackExecutionStatusTarget : Z }.

(** The classes [Event], [UserEvent] and [VirtualEvent]. *)
Inductive Kind := BaseEvent | UserEvent | VirtualEvent.
#[export] Instance Kind_eq_dec : EqDecision Kind. Proof. solve_decision. Defined.

Record Event := mkEvent {
  kind : Kind; hasQueue : bool; taskLevel : Z; taskCount : Z; executionStatus : Z; parentCount : Z;
  cmdToSubmit : option Z; submittedCmd : option Z; eventWithoutCommand : bool;
  childEventsToNotify : list Z; callbacks : list (list Callback); refInternal : Z }.

Inductive Action :=
  | Ran (event : Z) (function : Z) (status : Z)
  | Submit (event : Z) (command : Z) (level : Z) (abortTasks : bool)
  | Clean (event : Z) (upTo : Z)
  | RegisterAsync (event : Z).

Record World := mkWorld { events : gmap Z Event; log : list Action }.

(** ** Fields *)

Definition setLevel (v : Z) (e : Event) : Event :=
  mkEvent (kind e) (hasQueue e) v (taskCount e) (executionStatus e) (parentCount e) (cmdToSubmit e) (submittedCmd e)
    (eventWithoutCommand e) (childEventsToNotify e) (callbacks e) (refInternal e).
Definition setTaskCount (v : Z) (e : Event) : Event :=
  mkEvent (kind e) (hasQueue e) (taskLevel e) v (executionStatus e) (parentCount e) (cmdToSubmit e) (submittedCmd e)
    (eventWithoutCommand e) (childEventsToNotify e) (callbacks e) (refInternal e).
Definition setExecution (v : Z) (e : Event) : Event :=
  mkEvent (kind e) (hasQueue e) (taskLevel e) (taskCount e) v (parentCount e) (cmdToSubmit e) (submittedCmd e)
    (eventWithoutCommand e) (childEventsToNotify e) (callbacks e) (refInternal e).
Definition setParents (v : Z) (e : Event) : Event :=
  mkEvent (kind e) (hasQueue e) (taskLevel e) (taskCount e) (executionStatus e) v (cmdToSubmit e) (submittedCmd e)
    (eventWithoutCommand e) (childEventsToNotify e) (callbacks e) (refInternal e).
Definition setCommands (c s : option Z) (e : Event) : Event :=
  mkEvent (kind e) (hasQueue e) (taskLevel e) (taskCount e) (executionStatus e) (parentCount e) c s
    (eventWithoutCommand e) (childEventsToNotify e) (callbacks e) (refInternal e).
Definition setChildren (v : list Z) (e : Event) : Event :=
  mkEvent (kind e) (hasQueue e) (taskLevel e) (taskCount e) (executionStatus e) (parentCount e) (cmdToSubmit e) (submittedCmd e)
    (eventWithoutCommand e) v (callbacks e) (refInternal e).
Definition setCallbacks (v : list (list Callback)) (e : Event) : Event :=
  mkEvent (kind e) (hasQueue e) (taskLevel e) (taskCount e) (executionStatus e) (parentCount e) (cmdToSubmit e) (submittedCmd e)
    (eventWithoutCommand e) (childEventsToNotify e) v (refInternal e).
Definition addRef (v : Z) (e : Event) : Event :=
  mkEvent (kind e) (hasQueue e) (taskLevel e) (taskCount e) (executionStatus e) (parentCount e) (cmdToSubmit e) (submittedCmd e)
    (eventWithoutCommand e) (childEventsToNotify e) (callbacks e) (refInternal e + v).

(** [f] applied to the fields of an event that must exist. *)
Definition modify (id : Z) (f : Event -> Event) (w : World) : option World :=
  e ← events w !! id; Some (mkWorld (<[id := f e]> (events w)) (log w)).
Definition record (a : Action) (w : World) : World := mkWorld (events w) (log w ++ [a]).

Definition isStatusCompleted (status : Z) : bool := bool_decide (status = CL_COMPLETE) || bool_decide (status < 0).
Definition isStatusCompletedByTermination (status : Z) : bool := bool_decide (status < 0).
Definition peekIsBlocked (e : Event) : bool := bool_decide (0 < parentCount e).
Definition isReadyForSubmission (e : Event) : bool := bool_decide (taskLevel e <> eventNotReady).

(** The compare-exchange loop run by one thread. *)
Definition transitionExecutionStatus (newExecutionStatus : Z) (e : Event) : Event :=
  if decide (newExecutionStatus < executionStatus e) then setExecution newExecutionStatus e else e.

Definition updateTaskCount (v : Z) (e : Event) : Event :=
  if decide (v = eventNotReady) then e
  else
    let prevTaskCount := taskCount e in
    let e := setTaskCount v e in
    if decide (prevTaskCount <> eventNotReady /\ v < prevTaskCount) then setTaskCount prevTaskCount e else e.

(** The difference of two timestamps of 32 bits. *)
Definition getDelta (startTime endTime : Z) : Z :=
  let Max := Z.shiftl 1 32 - 1 in
  let startTime := Z.land startTime Max in
  let endTime := Z.land endTime Max in
  if decide (endTime < startTime) then (Max ⊟ startTime) ⊞ endTime else endTime ⊟ startTime.

(** ** Operations *)

Section Operations.
(** What the device and the command stream receiver answer: whether a task
    count is completed, the current task level and task count, and the task
    count that submitting a command returns. *)
Context (isCompleted : list Action -> Z -> bool) (csrTaskLevel csrTaskCount : list Action -> Z)
  (submit : list Action -> Z -> Z -> bool -> Z) (enableAsyncEventsHandler : bool).

Definition getTaskLevel (w : World) (e : Event) : Z :=
  match kind e with
  | BaseEvent => taskLevel e
  | UserEvent => if decide (executionStatus e = CL_COMPLETE) then 0 else eventNotReady
  | VirtualEvent => if hasQueue e then csrTaskLevel (log w) else 0
  end.

Definition submitCommand (id : Z) (abortTasks : bool) (w : World) : option World :=
  e ← events w !! id;
  w ← (match cmdToSubmit e with
    | Some c =>
        let stamp := submit (log w) c (taskLevel e) abortTasks in
        let w := record (Submit id c (taskLevel e) abortTasks) w in
        modify id (fun e => setCommands None (Some c) (updateTaskCount stamp e)) w
    | None => Some w
    end);
  e ← events w !! id;
  if bool_decide (taskCount e = eventNotReady) && bool_decide (kind e <> UserEvent) && eventWithoutCommand e && hasQueue e then
    modify id (updateTaskCount (csrTaskCount (log w))) w
  else Some w.

(** Calls the callbacks of one detached list, front first. *)
Fixpoint runCallbacks (id : Z) (terminated : bool) (execStatus : Z) (cbs : list Callback) (w : World) : option World :=
  match cbs with
  | [] => Some w
  | cb :: cbs =>
      let target := if terminated then execStatus else callbackExecutionStatusTarget cb in
      w ← modify id (addRef (-1)) (record (Ran id (callbackFunction cb) target) w);
      runCallbacks id terminated execStatus cbs w
  end.

Fixpoint executeTargets (id : Z) (terminated : bool) (execStatus : Z) (n : nat) (i : nat) (w : World) : option World :=
  match n with
  | O => Some w
  | S n =>
      e ← events w !! id;
      cbs ← callbacks e !! i;
      w ← modify id (fun e => setCallbacks (<[i := []]> (callbacks e)) e) w;
      w ← runCallbacks id terminated execStatus cbs w;
      executeTargets id terminated execStatus n (S i) w
  end.

Definition executeCallbacks (id : Z) (execStatus : Z) (w : World) : option World :=
  let terminated := isStatusCompletedByTermination execStatus in
  match (if terminated then Some Completed else translateToCallbackTarget execStatus) with
  | Some target => executeTargets id terminated execStatus (S (targetIndex target)) 0 w
  | None => Some w
  end.

(** The loop of [unblockEventsBlockedByThis] over the detached children. *)
Fixpoint notifyChildren (unblock : Z -> World -> option World) (children : list Z) (w : World) : option World :=
  match children with
  | [] => Some w
  | c :: children =>
      w ← unblock c w;
      w ← modify c (addRef (-1)) w;
      notifyChildren unblock children w
  end.

Fixpoint setStatus (fuel : nat) (id status : Z) (w : World) : option (bool * World) :=
  match fuel with
  | O => None
  | S fuel =>
      e ← events w !! id;
      (* VirtualEvent::setStatus *)
      let status :=
        if bool_decide (kind e = VirtualEvent) && negb (isStatusCompletedByTermination status) then CL_COMPLETE else status in
      let prevStatus := executionStatus e in
      if isStatusCompleted prevStatus then Some (false, w)
      else if decide (status = prevStatus) then Some (false, w)
      else if peekIsBlocked e && negb (isStatusCompletedByTermination status) then Some (false, w)
      else
        w ← (if bool_decide (status = CL_SUBMITTED) || isStatusCompleted status then
               submitCommand id (isStatusCompletedByTermination status) w
             else Some w);
        w ← modify id (addRef 1) w;
        w ← modify id (transitionExecutionStatus status) w;
        w ← (if isStatusCompleted status || bool_decide (status = CL_SUBMITTED) then
               unblockEventsBlockedByThis fuel id status w
             else Some w);
        w ← executeCallbacks id status w;
        w ← modify id (addRef (-1)) w;
        Some (true, w)
  end
with unblockEventsBlockedByThis (fuel : nat) (id transitionStatus : Z) (w : World) : option World :=
  match fuel with
  | O => None
  | S fuel =>
      e ← events w !! id;
      let '(level, propagate) :=
        if negb (isStatusCompletedByTermination transitionStatus) then
          if decide (taskLevel e = eventNotReady) then (getTaskLevel w e, getTaskLevel w e)
          else (taskLevel e, w32 (taskLevel e + 1))
        else (taskLevel e, eventNotReady) in
      let children := childEventsToNotify e in
      w ← modify id (fun e => setChildren [] (setLevel level e)) w;
      notifyChildren (fun c => unblockEventBy fuel c propagate transitionStatus) children w
  end
with unblockEventBy (fuel : nat) (id level transitionStatus : Z) (w : World) : option World :=
  match fuel with
  | O => None
  | S fuel =>
      w ← modify id (fun e => setParents (parentCount e - 1) e) w;
      e ← events w !! id;
      if bool_decide (0 < parentCount e) && negb (isStatusCompletedByTermination transitionStatus) then Some w
      else
        newLevel ← (if decide (taskLevel e = eventNotReady) then
                      if hasQueue e then Some (Z.max (csrTaskLevel (log w)) level) else None
                    else Some (Z.max (taskLevel e) level));
        w ← modify id (setLevel newLevel) w;
        let statusToPropagate := if isStatusCompletedByTermination transitionStatus then transitionStatus else CL_SUBMITTED in
        '(_, w) ← setStatus fuel id statusToPropagate w;
        updateExecutionStatus fuel id w
  end
with updateExecutionStatus (fuel : nat) (id : Z) (w : World) : option World :=
  match fuel with
  | O => None
  | S fuel =>
      e ← events w !! id;
      (* UserEvent and VirtualEvent override it with an empty body *)
      if bool_decide (kind e <> BaseEvent) then Some w
      else if decide (taskLevel e = eventNotReady) then Some w
      else
        let statusSnapshot := executionStatus e in
        if isStatusCompleted statusSnapshot then executeCallbacks id statusSnapshot w
        else if peekIsBlocked e then
          w ← modify id (transitionExecutionStatus CL_QUEUED) w;
          executeCallbacks id CL_QUEUED w
        else
          w ← (if decide (statusSnapshot = CL_QUEUED) then
                 w ← submitCommand id (isStatusCompletedByTermination statusSnapshot) w;
                 w ← modify id (transitionExecutionStatus CL_SUBMITTED) w;
                 w ← executeCallbacks id CL_SUBMITTED w;
                 unblockEventsBlockedByThis fuel id CL_SUBMITTED w
               else Some w);
          e ← events w !! id;
          if hasQueue e && isCompleted (log w) (taskCount e) then
            w ← modify id (transitionExecutionStatus CL_COMPLETE) w;
            w ← executeCallbacks id CL_COMPLETE w;
            w ← unblockEventsBlockedByThis fuel id CL_COMPLETE w;
            e ← events w !! id;
            Some (record (Clean id (taskCount e)) w)
          else modify id (transitionExecutionStatus CL_SUBMITTED) w
  end.

Definition updateStatusAndCheckCompletion (fuel : nat) (id : Z) (w : World) : option (bool * World) :=
  w ← updateExecutionStatus fuel id w;
  e ← events w !! id;
  Some (isStatusCompleted (executionStatus e), w).

Definition addChild (fuel : nat) (id child : Z) (w : World) : option World :=
  w ← modify child (fun e => addRef 1 (setParents (parentCount e + 1) e)) w;
  w ← modify id (fun e => setChildren (child :: childEventsToNotify e) e) w;
  e ← events w !! id;
  if decide (executionStatus e = CL_COMPLETE) then unblockEventsBlockedByThis fuel id CL_COMPLETE w else Some w.

Definition peekHasCallbacks (e : Event) : bool := existsb (fun l => match l with [] => false | _ => true end) (callbacks e).

Definition addCallback (fuel : nat) (id fn type : Z) (w : World) : option World :=
  match translateToCallbackTarget type with
  | None => Some w
  | Some target =>
      w ← modify id (addRef 1) w;
      w ← modify id (addRef 1) w;
      w ← modify id (fun e => setCallbacks (alter (cons (mkCallback fn type)) (targetIndex target) (callbacks e)) e) w;
      '(completed, w) ← updateStatusAndCheckCompletion fuel id w;
      e ← events w !! id;
      w ← (if (completed : bool) then executeCallbacks id (executionStatus e) w else Some w);
      e ← events w !! id;
      let w := if peekHasCallbacks e && bool_decide (kind e <> UserEvent) && enableAsyncEventsHandler
               then record (RegisterAsync id) w else w in
      modify id (addRef (-1)) w
  end.

(** Setting a command twice is [UNRECOVERABLE_IF]. *)
Definition setCommand (id newCmd : Z) (w : World) : option World :=
  e ← events w !! id;
  match cmdToSubmit e with
  | Some _ => None
  | None =>
      Some (mkWorld (<[id := mkEvent (kind e) (hasQueue e) (taskLevel e) (taskCount e) (executionStatus e) (parentCount e)
        (Some newCmd) (submittedCmd e) false (childEventsToNotify e) (callbacks e) (refInternal e)]> (events w)) (log w))
  end.

Fixpoint checkUserEventDependencies (eventWaitList : list Z) (w : World) : option bool :=
  match eventWaitList with
  | [] => Some false
  | id :: rest =>
      e ← events w !! id;
      if negb (isReadyForSubmission e) then Some true else checkUserEventDependencies rest w
  end.
End Operations.

(** The constructors; the three kinds start queued. *)
Definition newEvent (k : Kind) (queue : bool) (level count : Z) : Event :=
  mkEvent k queue level count CL_QUEUED 0 None None true [] [[]; []; []; []] 1.
Definition newUserEvent : Event := newEvent UserEvent false eventNotReady eventNotReady.
Definition newVirtualEvent (queue : bool) : Event := newEvent VirtualEvent queue eventNotReady eventNotReady.

(** ** What every operation preserves *)

Definition cbIds (e : Event) : list Z := callbackFunction <$> concat (callbacks e).

Definition ranIn (id : Z) (l : list Action) : list Z :=
  omap (fun a => match a with Ran i f _ => if decide (i = id) then Some f else None | _ => None end) l.

Definition submittedIn (id : Z) (l : list Action) : list Z :=
  omap (fun a => match a with Submit i c _ _ => if decide (i = id) then Some c else None | _ => None end) l.

Definition occurrences (c : Z) (l : list Z) : Z := Z.of_nat (length (filter (fun x => x = c) l)).

(** How often [c] waits in the child lists of the store. *)
Definition pending (c : Z) (m : gmap Z Event) : Z :=
  map_fold (fun _ e a => occurrences c (childEventsToNotify e) + a) 0 m.

(** The references to an event that neither a callback nor a parent holds. *)
Definition held (id : Z) (e : Event) (m : gmap Z Event) : Z :=
  refInternal e - Z.of_nat (length (cbIds e)) - pending id m.

(** One event from before to after, [l] being what happened meanwhile. *)
Record stepE (id : Z) (l : list Action) (e e' : Event) : Prop := {
  se_kind : kind e' = kind e;
  se_queue : hasQueue e' = hasQueue e;
  se_status : executionStatus e' <= executionStatus e;
  se_done : executionStatus e <= 0 -> executionStatus e' = executionStatus e;
  se_parents : parentCount e' <= parentCount e;
  se_children : childEventsToNotify e' = childEventsToNotify e \/ childEventsToNotify e' = [];
  se_targets : length (callbacks e') = length (callbacks e);
  se_callbacks : cbIds e ≡ₚ cbIds e' ++ ranIn id l;
  se_command : option_list (cmdToSubmit e) ≡ₚ option_list (cmdToSubmit e') ++ submittedIn id l }.

(** [d id] is what the event [id] gains in held references. *)
Definition evolves (d : Z -> Z) (w w' : World) : Prop :=
  exists l, log w' = log w ++ l /\
  forall id, match events w !! id, events w' !! id with
  | Some e, Some e' => stepE id l e e' /\ held id e' (events w') = held id e (events w) + d id
  | None, None => True
  | _, _ => False
  end.

Lemma ranIn_app id a b : ranIn id (a ++ b) = ranIn id a ++ ranIn id b.
Proof. apply omap_app. Qed.
Lemma submittedIn_app id a b : submittedIn id (a ++ b) = submittedIn id a ++ submittedIn id b.
Proof. apply omap_app. Qed.

Lemma stepE_refl id e : stepE id [] e e.
Proof. split; try done; [by left|..]; by rewrite app_nil_r. Qed.

Lemma stepE_trans id a b e1 e2 e3 : stepE id a e1 e2 -> stepE id b e2 e3 -> stepE id (a ++ b) e1 e3.
Proof.
  intros H1 H2. split.
  - by rewrite (se_kind _ _ _ _ H2), (se_kind _ _ _ _ H1).
  - by rewrite (se_queue _ _ _ _ H2), (se_queue _ _ _ _ H1).
  - etrans; [apply (se_status _ _ _ _ H2)|apply (se_status _ _ _ _ H1)].
  - intros Hd. pose proof (se_done _ _ _ _ H1 Hd) as E. rewrite <- E. apply (se_done _ _ _ _ H2). lia.
  - etrans; [apply (se_parents _ _ _ _ H2)|apply (se_parents _ _ _ _ H1)].
  - destruct (se_children _ _ _ _ H2) as [->|?]; [apply (se_children _ _ _ _ H1)|by right].
  - by rewrite (se_targets _ _ _ _ H2), (se_targets _ _ _ _ H1).
  - rewrite (se_callbacks _ _ _ _ H1), (se_callbacks _ _ _ _ H2), ranIn_app, <- app_assoc. f_equiv. apply Permutation_app_comm.
  - rewrite (se_command _ _ _ _ H1), (se_command _ _ _ _ H2), submittedIn_app, <- app_assoc. f_equiv. apply Permutation_app_comm.
Qed.

Definition none (_ : Z) : Z := 0.

Lemma evolves_refl w : evolves none w w.
Proof.
  exists []. rewrite app_nil_r. split; [done|]. intros id. destruct (events w !! id); [|done].
  split; [apply stepE_refl|unfold none; lia].
Qed.

Lemma evolves_trans d1 d2 w1 w2 w3 :
  evolves d1 w1 w2 -> evolves d2 w2 w3 -> evolves (fun c => d1 c + d2 c) w1 w3.
Proof.
  intros (a & Ea & Ha) (b & Eb & Hb). exists (a ++ b). rewrite Eb, Ea, app_assoc. split; [done|].
  intros id. specialize (Ha id). specialize (Hb id).
  destruct (events w1 !! id), (events w2 !! id), (events w3 !! id); try done.
  destruct Ha as [Sa Qa], Hb as [Sb Qb]. split; [by eapply stepE_trans|lia].
Qed.

Lemma evolves_ext d1 d2 w w' : (forall c, d1 c = d2 c) -> evolves d1 w w' -> evolves d2 w w'.
Proof.
  intros Hd (l & E & H). exists l. split; [done|]. intros id. specialize (H id). rewrite <- Hd. done.
Qed.

Lemma evolves_then w1 w2 w3 : evolves none w1 w2 -> evolves none w2 w3 -> evolves none w1 w3.
Proof. intros H1 H2. eapply evolves_ext; [|eapply evolves_trans; [exact H1|exact H2]]. done. Qed.

(** ** Pending children *)

Lemma occurrences_app c a b : occurrences c (a ++ b) = occurrences c a + occurrences c b.
Proof. unfold occurrences. rewrite filter_app, length_app. lia. Qed.

Lemma occurrences_cons c x l : occurrences c (x :: l) = (if decide (x = c) then 1 else 0) + occurrences c l.
Proof. unfold occurrences. rewrite filter_cons. case_decide; simpl; lia. Qed.

Lemma pending_insert c id e e' m :
  m !! id = Some e ->
  pending c (<[id := e']> m) = pending c m - occurrences c (childEventsToNotify e) + occurrences c (childEventsToNotify e').
Proof.
  intros H. unfold pending. rewrite <- insert_delete_eq.
  rewrite map_fold_insert_L; [|intros; lia|apply lookup_delete_eq].
  rewrite (map_fold_delete_L _ _ id e m); [lia|intros; lia|done].
Qed.

(** A change of one event, with the actions [l] that are its own. *)
Lemma evolves_one δ w id e e' l :
  events w !! id = Some e -> stepE id l e e' ->
  (forall j, j <> id -> ranIn j l = [] /\ submittedIn j l = []) ->
  childEventsToNotify e' = childEventsToNotify e ->
  refInternal e' - Z.of_nat (length (cbIds e')) = refInternal e - Z.of_nat (length (cbIds e)) + δ ->
  evolves (fun c => if decide (c = id) then δ else 0) w (mkWorld (<[id := e']> (events w)) (log w ++ l)).
Proof.
  intros He Hs Hl Hc Hr. exists l. split; [done|]. intros j. simpl.
  assert (forall c, pending c (<[id := e']> (events w)) = pending c (events w)) as Hp.
  { intros c. rewrite (pending_insert c id e e' _ He), Hc. lia. }
  destruct (decide (j = id)) as [->|Hne].
  - rewrite lookup_insert_eq, He. split; [done|]. unfold held. rewrite Hp. lia.
  - rewrite lookup_insert_ne by done. destruct (events w !! j); [|done].
    destruct (Hl j Hne) as [Hra Hsu]. split.
    + split; try done; [by left|by rewrite Hra, app_nil_r|by rewrite Hsu, app_nil_r].
    + unfold held. rewrite Hp. lia.
Qed.

Lemma evolves_one0 w id e e' l :
  events w !! id = Some e -> stepE id l e e' ->
  (forall j, j <> id -> ranIn j l = [] /\ submittedIn j l = []) ->
  childEventsToNotify e' = childEventsToNotify e ->
  refInternal e' - Z.of_nat (length (cbIds e')) = refInternal e - Z.of_nat (length (cbIds e)) ->
  evolves none w (mkWorld (<[id := e']> (events w)) (log w ++ l)).
Proof.
  intros He Hs Hl Hc Hr. eapply evolves_ext; [|eapply (evolves_one 0); [exact He|exact Hs|exact Hl|exact Hc|lia]].
  intros c. unfold none. by case_decide.
Qed.

(** The same without actions, by [modify]. *)
Lemma evolves_modify δ w w' id f :
  modify id f w = Some w' ->
  (forall e, events w !! id = Some e -> stepE id [] e (f e)) ->
  (forall e, childEventsToNotify (f e) = childEventsToNotify e) ->
  (forall e, refInternal (f e) - Z.of_nat (length (cbIds (f e))) = refInternal e - Z.of_nat (length (cbIds e)) + δ) ->
  evolves (fun c => if decide (c = id) then δ else 0) w w'.
Proof.
  unfold modify. destruct (events w !! id) as [e|] eqn:He; [|done]. cbn. intros [= <-] Hs Hc Hr.
  rewrite <- (app_nil_r (log w)). by eapply evolves_one; eauto.
Qed.

Lemma evolves_modify0 w w' id f :
  modify id f w = Some w' ->
  (forall e, events w !! id = Some e -> stepE id [] e (f e)) ->
  (forall e, childEventsToNotify (f e) = childEventsToNotify e) ->
  (forall e, refInternal (f e) - Z.of_nat (length (cbIds (f e))) = refInternal e - Z.of_nat (length (cbIds e))) ->
  evolves none w w'.
Proof.
  intros H Hs Hc Hr. eapply evolves_ext; [|eapply (evolves_modify 0); eauto].
  - intros c. unfold none. by case_decide.
  - intros e. rewrite Hr. lia.
Qed.

(** ** Each operation *)

Section preservation.
Context (isCompleted : list Action -> Z -> bool) (csrTaskLevel csrTaskCount : list Action -> Z)
  (submit : list Action -> Z -> Z -> bool -> Z).

(** Closes [stepE] for a change that touches none of the fields it is about. *)
Ltac quiet := intros ? _; split; simpl; try done; [by left|by rewrite app_nil_r|by rewrite app_nil_r].

Lemma transition_stepE id n e : stepE id [] e (transitionExecutionStatus n e) \/ n < 0.
Proof.
  destruct (decide (n < 0)); [by right|left]. unfold transitionExecutionStatus. case_decide; [|apply stepE_refl].
  split; simpl; try done; try lia; [by left|by rewrite app_nil_r|by rewrite app_nil_r].
Qed.

Lemma transition_evolves w w' id n :
  modify id (transitionExecutionStatus n) w = Some w' ->
  (n < 0 -> forall e, events w !! id = Some e -> 0 < executionStatus e) -> evolves none w w'.
Proof.
  intros H Hn. eapply evolves_modify0; [exact H|..].
  - intros e He. unfold transitionExecutionStatus. case_decide as Hlt; [|apply stepE_refl].
    split; simpl; try done; try lia; [|by left|by rewrite app_nil_r|by rewrite app_nil_r].
    intros Hd. destruct (decide (n < 0)) as [Hneg|]; [|lia]. specialize (Hn Hneg e He). lia.
  - intros e. unfold transitionExecutionStatus. by case_decide.
  - intros e. unfold transitionExecutionStatus. by case_decide.
Qed.

Lemma addRef_evolves w w' id v : modify id (addRef v) w = Some w' -> evolves (fun c => if decide (c = id) then v else 0) w w'.
Proof. intros H. eapply evolves_modify; [exact H|quiet|done|]. intros e. unfold cbIds. simpl. lia. Qed.

Lemma updateTaskCount_same v e :
  let e' := updateTaskCount v e in
  kind e' = kind e /\ hasQueue e' = hasQueue e /\ executionStatus e' = executionStatus e /\
  childEventsToNotify e' = childEventsToNotify e /\ callbacks e' = callbacks e /\ cmdToSubmit e' = cmdToSubmit e /\
  submittedCmd e' = submittedCmd e /\ refInternal e' = refInternal e /\ parentCount e' = parentCount e.
Proof. unfold updateTaskCount. by repeat case_decide. Qed.

Lemma submitCommand_evolves id abort w w' :
  submitCommand csrTaskCount submit id abort w = Some w' -> evolves none w w'.
Proof.
  unfold submitCommand. intros H. destruct (events w !! id) as [e|] eqn:He; [|done]. cbn [mbind option_bind] in H.
  assert (forall w1 w2, (e1 ← events w1 !! id;
      if bool_decide (taskCount e1 = eventNotReady) && bool_decide (kind e1 <> UserEvent) && eventWithoutCommand e1 && hasQueue e1 then
      modify id (updateTaskCount (csrTaskCount (log w1))) w1 else Some w1) = Some w2 -> evolves none w1 w2) as Htail.
  { intros w1 w2 Hw. destruct (events w1 !! id) as [e1|]; [|done]. cbn [mbind option_bind] in Hw.
    destruct (_ && hasQueue e1); [|simplify_eq; apply evolves_refl].
    eapply evolves_modify0; [exact Hw|..]; intros e2; destruct (updateTaskCount_same (csrTaskCount (log w1)) e2)
      as (E1 & E2 & E3 & E4 & E5 & E6 & E7 & E8 & E9); try done.
    - intros _. split; unfold cbIds; rewrite ?E1, ?E2, ?E3, ?E4, ?E5, ?E6, ?E9, ?app_nil_r; try done; by left.
    - unfold cbIds. by rewrite E5, E8. }
  destruct (cmdToSubmit e) as [c|] eqn:Hc; cbn [mbind option_bind] in H; [|by apply Htail].
  set (stamp := submit _ _ _ _) in H.
  destruct (modify id _ (record _ w)) as [w1|] eqn:Hm; [|done]. cbn [mbind option_bind] in H.
  eapply evolves_then; [|by apply Htail].
  unfold modify, record in Hm. simpl in Hm. rewrite He in Hm. cbn in Hm. simplify_eq.
  eapply evolves_one0; [exact He|..];
    destruct (updateTaskCount_same stamp e) as (E1 & E2 & E3 & E4 & E5 & E6 & E7 & E8 & E9).
  - split; unfold cbIds; simpl; rewrite ?E1, ?E2, ?E3, ?E4, ?E5, ?E9, ?app_nil_r; try done; [by left|].
    unfold submittedIn. simpl. rewrite Hc. by rewrite decide_True by done.
  - intros j Hj. unfold ranIn, submittedIn. simpl. by rewrite decide_False by done.
  - done.
  - unfold cbIds. simpl. rewrite E5, E8. lia.
Qed.

(** What running a detached list of callbacks does. *)
Definition ranLog (id : Z) (terminated : bool) (execStatus : Z) (cbs : list Callback) : list Action :=
  (fun cb => Ran id (callbackFunction cb) (if terminated then execStatus else callbackExecutionStatusTarget cb)) <$> cbs.

Lemma runCallbacks_spec id terminated st cbs w e :
  events w !! id = Some e ->
  runCallbacks id terminated st cbs w =
    Some (mkWorld (<[id := addRef (- Z.of_nat (length cbs)) e]> (events w)) (log w ++ ranLog id terminated st cbs)).
Proof.
  revert w e. induction cbs as [|cb cbs IH]; intros w e He; simpl.
  - rewrite app_nil_r. f_equal. destruct w as [m l]. simpl in *. f_equal. rewrite insert_id; [done|].
    rewrite He. f_equal. destruct e. unfold addRef. simpl. f_equal. lia.
  - unfold modify, record. simpl. rewrite He. cbn [mbind option_bind].
    rewrite (IH _ (addRef (-1) e)) by (simpl; apply lookup_insert_eq). f_equal. simpl. f_equal.
    + rewrite insert_insert_eq. f_equal. unfold addRef. simpl. f_equal. lia.
    + by rewrite <- app_assoc.
Qed.

Lemma ranLog_cons id t st cb cbs :
  ranLog id t st (cb :: cbs) = [Ran id (callbackFunction cb) (if t then st else callbackExecutionStatusTarget cb)] ++ ranLog id t st cbs.
Proof. done. Qed.

Lemma ranIn_log id t st cbs : ranIn id (ranLog id t st cbs) = callbackFunction <$> cbs.
Proof.
  induction cbs as [|cb cbs IH]; [done|]. rewrite ranLog_cons, ranIn_app, IH. unfold ranIn. simpl.
  by rewrite decide_True by done.
Qed.

Lemma ranIn_other id j t st cbs : j <> id -> ranIn j (ranLog id t st cbs) = [] /\ submittedIn j (ranLog id t st cbs) = [].
Proof.
  intros Hj. induction cbs as [|cb cbs [IH1 IH2]]; [done|].
  rewrite ranLog_cons, ranIn_app, submittedIn_app, IH1, IH2. unfold ranIn, submittedIn. simpl.
  by rewrite decide_False by done.
Qed.

Lemma submittedIn_log id j t st cbs : submittedIn j (ranLog id t st cbs) = [].
Proof. by induction cbs. Qed.

Lemma concat_clear (L : list (list Callback)) i cbs : L !! i = Some cbs -> concat L ≡ₚ concat (<[i := []]> L) ++ cbs.
Proof.
  revert i. induction L as [|l L IH]; intros [|i] H; simplify_eq/=; [apply Permutation_app_comm|].
  rewrite (IH i H). by rewrite app_assoc.
Qed.

Lemma executeTargets_evolves id terminated st n i w w' :
  executeTargets id terminated st n i w = Some w' -> evolves none w w'.
Proof.
  revert i w. induction n as [|n IH]; intros i w H; simpl in H; [simplify_eq; apply evolves_refl|].
  destruct (events w !! id) as [e|] eqn:He; [|done]. cbn [mbind option_bind] in H.
  destruct (callbacks e !! i) as [cbs|] eqn:Hi; [|done]. cbn [mbind option_bind] in H.
  unfold modify in H at 1. rewrite He in H. cbn [mbind option_bind] in H.
  erewrite runCallbacks_spec in H by (simpl; apply lookup_insert_eq). cbn [mbind option_bind] in H.
  eapply evolves_then; [|by eapply IH].
  simpl. rewrite insert_insert_eq.
  eapply evolves_one0; [exact He|..].
  - split; simpl; try done; [by left|by rewrite length_insert|..].
    + rewrite ranIn_log. unfold cbIds. simpl. rewrite <- fmap_app. by apply fmap_Permutation, concat_clear.
    + by rewrite submittedIn_log, app_nil_r.
  - intros j Hj. by apply ranIn_other.
  - done.
  - unfold cbIds. simpl. rewrite !length_fmap. pose proof (Permutation_length (concat_clear _ _ _ Hi)) as Hp.
    rewrite length_app in Hp. lia.
Qed.

Lemma executeCallbacks_evolves id st w w' : executeCallbacks id st w = Some w' -> evolves none w w'.
Proof.
  unfold executeCallbacks. intros H. destruct (if _ : bool then _ else _); [|simplify_eq; apply evolves_refl].
  by eapply executeTargets_evolves.
Qed.

Lemma modify_lookup id f w w' : modify id f w = Some w' ->
  exists e, events w !! id = Some e /\ events w' !! id = Some (f e) /\ log w' = log w.
Proof.
  unfold modify. destruct (events w !! id) as [e|]; [|done]. intros [= <-]. exists e. simpl.
  by rewrite lookup_insert_eq.
Qed.

Lemma submitCommand_status id abort w w' e :
  submitCommand csrTaskCount submit id abort w = Some w' -> events w !! id = Some e ->
  exists e', events w' !! id = Some e' /\ executionStatus e' = executionStatus e.
Proof.
  unfold submitCommand. intros H He. rewrite He in H. cbn [mbind option_bind] in H.
  assert (forall w1 w2 e1, (e1 ← events w1 !! id;
      if bool_decide (taskCount e1 = eventNotReady) && bool_decide (kind e1 <> UserEvent) && eventWithoutCommand e1 && hasQueue e1 then
      modify id (updateTaskCount (csrTaskCount (log w1))) w1 else Some w1) = Some w2 -> events w1 !! id = Some e1 ->
      exists e', events w2 !! id = Some e' /\ executionStatus e' = executionStatus e1) as Htail.
  { intros w1 w2 e1 Hw He1. rewrite He1 in Hw. cbn [mbind option_bind] in Hw.
    destruct (_ && hasQueue e1); [|simplify_eq; eauto].
    apply modify_lookup in Hw as (e2 & ? & ? & _). simplify_eq. eexists. split; [done|]. apply updateTaskCount_same. }
  destruct (cmdToSubmit e) as [c|] eqn:Hc; cbn [mbind option_bind] in H; [|by eapply Htail].
  destruct (modify id _ (record _ w)) as [w1|] eqn:Hm; [|done]. cbn [mbind option_bind] in H.
  apply modify_lookup in Hm as (e2 & He2 & He3 & _). simpl in He2. rewrite He in He2. simplify_eq.
  destruct (Htail _ _ _ H He3) as (e' & ? & Est). eexists. split; [done|]. rewrite Est. simpl. apply updateTaskCount_same.
Qed.

Lemma detach_evolves id level w w' e :
  events w !! id = Some e ->
  modify id (fun e => setChildren [] (setLevel level e)) w = Some w' ->
  evolves (fun c => occurrences c (childEventsToNotify e)) w w'.
Proof.
  unfold modify. intros He. rewrite He. cbn. intros [= <-]. exists []. rewrite app_nil_r. split; [done|].
  intros j. simpl. unfold held. rewrite (pending_insert j id e _ _ He). simpl.
  change (occurrences j []) with 0. destruct (decide (j = id)) as [->|Hne].
  - rewrite lookup_insert_eq, He. split; [|unfold cbIds; simpl; lia].
    split; simpl; try done; [by right|by rewrite app_nil_r|by rewrite app_nil_r].
  - rewrite lookup_insert_ne by done. destruct (events w !! j); [|done]. split; [apply stepE_refl|lia].
Qed.

Lemma notifyChildren_evolves unblock children w w' :
  (forall c w w', unblock c w = Some w' -> evolves none w w') ->
  notifyChildren unblock children w = Some w' -> evolves (fun c => - occurrences c children) w w'.
Proof.
  intros Hu. revert w. induction children as [|c children IH]; intros w H; simpl in H.
  { simplify_eq. eapply evolves_ext; [|apply evolves_refl]. done. }
  destruct (unblock c w) as [w1|] eqn:H1; [|done]. cbn [mbind option_bind] in H.
  destruct (modify c (addRef (-1)) w1) as [w2|] eqn:H2; [|done]. cbn [mbind option_bind] in H.
  pose proof (Hu _ _ _ H1) as D1. pose proof (addRef_evolves _ _ _ _ H2) as D2. pose proof (IH _ H) as D3.
  eapply evolves_ext; [|exact (evolves_trans _ _ _ _ _ (evolves_trans _ _ _ _ _ D1 D2) D3)].
  intros j. cbv beta. rewrite occurrences_cons. unfold none. repeat case_decide; subst; try done; lia.
Qed.

(** One equation of each monadic step. *)
Ltac stepin H :=
  match type of H with
  | ?m ≫= _ = Some _ =>
      let w := fresh "w" in let E := fresh "E" in
      destruct m as [w|] eqn:E; [cbn [mbind option_bind] in H|done]
  end.


(** Chains the steps: every hypothesis that says how a world changed is turned
    into [evolves none]. *)
Lemma addRef_pair id w1 w2 w3 w4 :
  modify id (addRef 1) w1 = Some w2 -> evolves none w2 w3 -> modify id (addRef (-1)) w3 = Some w4 -> evolves none w1 w4.
Proof.
  intros H1 H2 H3. pose proof (addRef_evolves _ _ _ _ H1) as D1. pose proof (addRef_evolves _ _ _ _ H3) as D3.
  eapply evolves_ext; [|exact (evolves_trans _ _ _ _ _ (evolves_trans _ _ _ _ _ D1 H2) D3)].
  intros c. unfold none. case_decide; lia.
Qed.

Lemma setLevel_evolves id v w w' : modify id (setLevel v) w = Some w' -> evolves none w w'.
Proof. intros H. eapply evolves_modify0; [exact H|quiet|done|done]. Qed.
Lemma dropParent_evolves id w w' : modify id (fun e => setParents (parentCount e - 1) e) w = Some w' -> evolves none w w'.
Proof.
  intros H. eapply evolves_modify0; [exact H| |done|done].
  intros e _. split; simpl; try done; [lia|by left|by rewrite app_nil_r|by rewrite app_nil_r].
Qed.
Lemma clean_evolves id v w : evolves none w (record (Clean id v) w).
Proof.
  exists [Clean id v]. split; [done|]. intros j. simpl. destruct (events w !! j); [|done].
  split; [split; try done; [by left|by rewrite app_nil_r|by rewrite app_nil_r]|unfold none; lia].
Qed.

Lemma operations_evolve fuel :
  (forall id st w b w', setStatus isCompleted csrTaskLevel csrTaskCount submit fuel id st w = Some (b, w') -> evolves none w w') /\
  (forall id st w w', unblockEventsBlockedByThis isCompleted csrTaskLevel csrTaskCount submit fuel id st w = Some w' -> evolves none w w') /\
  (forall id lv st w w', unblockEventBy isCompleted csrTaskLevel csrTaskCount submit fuel id lv st w = Some w' -> evolves none w w') /\
  (forall id w w', updateExecutionStatus isCompleted csrTaskLevel csrTaskCount submit fuel id w = Some w' -> evolves none w w').
Proof.
  induction fuel as [|fuel (IHs & IHu & IHb & IHe)]; [done|].
  split_and!; cbn [setStatus unblockEventsBlockedByThis unblockEventBy updateExecutionStatus].
  - intros id st w b w' H. stepin H. rename w0 into e.
    set (st' := if _ : bool then CL_COMPLETE else st) in H.
    destruct (isStatusCompleted (executionStatus e)) eqn:Hdone; [simplify_eq; apply evolves_refl|].
    destruct (decide (st' = executionStatus e)); [simplify_eq; apply evolves_refl|].
    destruct (peekIsBlocked e && _); [simplify_eq; apply evolves_refl|].
    stepin H. stepin H. stepin H. stepin H. stepin H. stepin H. simplify_eq.
    assert (evolves none w w0 /\ exists e0, events w0 !! id = Some e0 /\ executionStatus e0 = executionStatus e) as [D0 (e0 & He0 & S0)].
    { destruct (bool_decide _ || _); [|simplify_eq; split; [apply evolves_refl|eauto]].
      split; [by eapply submitCommand_evolves|by eapply submitCommand_status]. }
    eapply evolves_then; [exact D0|]. eapply addRef_pair; [done| |done].
    eapply evolves_then; [eapply transition_evolves; [done|]|].
    { intros _ e1 He1. apply modify_lookup in E1 as (e2 & ? & ? & _). simplify_eq. simpl. rewrite S0.
      unfold isStatusCompleted in Hdone. apply orb_false_iff in Hdone as [H1 H2].
      apply bool_decide_eq_false in H1, H2. unfold CL_COMPLETE in H1. lia. }
    eapply evolves_then; [|by eapply executeCallbacks_evolves].
    destruct (isStatusCompleted st' || _); [by eapply IHu|]. simplify_eq. apply evolves_refl.
  - intros id st w w' H. stepin H. rename w0 into e. destruct (if _ : bool then _ else _) as [level propagate].
    stepin H. pose proof (detach_evolves _ _ _ _ _ E E0) as D1.
    pose proof (notifyChildren_evolves _ _ _ _ (fun c w1 w2 Hc => IHb c propagate st w1 w2 Hc) H) as D2.
    eapply evolves_ext; [|exact (evolves_trans _ _ _ _ _ D1 D2)]. intros c. unfold none. lia.
  - intros id lv st w w' H. stepin H. stepin H. apply dropParent_evolves in E. eapply evolves_then; [exact E|].
    destruct (bool_decide _ && _); [simplify_eq; apply evolves_refl|]. stepin H. stepin H.
    eapply evolves_then; [by eapply setLevel_evolves|]. stepin H. destruct w4 as [b w4]. 
    eapply evolves_then; [by eapply IHs|by eapply IHe].
  - intros id w w' H. stepin H. rename w0 into e. destruct (bool_decide _); [simplify_eq; apply evolves_refl|].
    destruct (decide (taskLevel e = eventNotReady)); [simplify_eq; apply evolves_refl|].
    destruct (isStatusCompleted _); [by eapply executeCallbacks_evolves|].
    destruct (peekIsBlocked e).
    { stepin H. eapply evolves_then; [eapply transition_evolves; [done|by unfold CL_QUEUED]|by eapply executeCallbacks_evolves]. }
    stepin H. eapply (evolves_then _ w0).
    { destruct (decide _); [|simplify_eq; apply evolves_refl]. stepin E0. stepin E0. stepin E0.
      eapply evolves_then; [by eapply submitCommand_evolves|].
      eapply evolves_then; [eapply transition_evolves; [done|by unfold CL_SUBMITTED]|].
      eapply evolves_then; [by eapply executeCallbacks_evolves|by eapply IHu]. }
    stepin H. destruct (hasQueue _ && _); [|eapply transition_evolves; [done|by unfold CL_SUBMITTED]].
    stepin H. stepin H. stepin H. stepin H. simplify_eq.
    eapply evolves_then; [eapply transition_evolves; [done|by unfold CL_COMPLETE]|].
    eapply evolves_then; [by eapply executeCallbacks_evolves|].
    eapply evolves_then; [by eapply IHu|apply clean_evolves].
Qed.

(** ** Registering children and callbacks *)

Lemma record_evolves a w : (forall j, ranIn j [a] = [] /\ submittedIn j [a] = []) -> evolves none w (record a w).
Proof.
  intros Ha. exists [a]. split; [done|]. intros j. simpl. destruct (events w !! j); [|done]. destruct (Ha j) as [E1 E2].
  split; [split; try done; [by left|by rewrite E1, app_nil_r|by rewrite E2, app_nil_r]|unfold none; lia].
Qed.

Lemma updateStatus_evolves fuel id w b w' :
  updateStatusAndCheckCompletion isCompleted csrTaskLevel csrTaskCount submit fuel id w = Some (b, w') -> evolves none w w'.
Proof.
  unfold updateStatusAndCheckCompletion. intros H. stepin H. stepin H. simplify_eq. by eapply operations_evolve.
Qed.

(** The world once the callback is registered and its reference taken. *)
Definition withCallback (id fn type : Z) (target : ECallbackTarget) (e : Event) (w : World) : World :=
  mkWorld (<[id := addRef 1 (setCallbacks (alter (cons (mkCallback fn type)) (targetIndex target) (callbacks e)) e)]> (events w)) (log w).

Lemma modify_inv id f w w' : modify id f w = Some w' ->
  exists e, events w !! id = Some e /\ w' = mkWorld (<[id := f e]> (events w)) (log w).
Proof. unfold modify. destruct (events w !! id) as [e|]; [|done]. intros [= <-]. eauto. Qed.

Lemma addCallback_evolves async fuel id fn type target w w' :
  addCallback isCompleted csrTaskLevel csrTaskCount submit async fuel id fn type w = Some w' ->
  translateToCallbackTarget type = Some target ->
  exists e, events w !! id = Some e /\ evolves none (withCallback id fn type target e w) w'.
Proof.
  unfold addCallback. intros H Ht. rewrite Ht in H. stepin H. stepin H. stepin H. stepin H. destruct w3 as [b w3].
  stepin H. stepin H. stepin H.
  apply modify_inv in E as (e & He & ->). exists e. split; [done|].
  eapply (addRef_pair id _ w2); [| |exact H].
  - apply modify_inv in E0 as (e0 & He0 & ->). apply modify_inv in E1 as (e1 & He1 & ->). simpl in *.
    rewrite lookup_insert_eq in He0. simplify_eq. rewrite lookup_insert_eq in He1. simplify_eq.
    unfold modify, withCallback. simpl. rewrite lookup_insert_eq. cbn. by rewrite !insert_insert_eq.
  - eapply evolves_then; [by eapply updateStatus_evolves|]. eapply (evolves_then _ w5).
    + destruct b; [by eapply executeCallbacks_evolves|]. simplify_eq. apply evolves_refl.
    + destruct (peekHasCallbacks _ && _ && _); [|apply evolves_refl]. apply record_evolves. done.
Qed.

(** The world once the child is registered. *)
Definition withChild (id child : Z) (w : World) : option World :=
  w ← modify child (fun e => addRef 1 (setParents (parentCount e + 1) e)) w;
  modify id (fun e => setChildren (child :: childEventsToNotify e) e) w.

Lemma addChild_evolves fuel id child w w' :
  addChild isCompleted csrTaskLevel csrTaskCount submit fuel id child w = Some w' ->
  exists w0, withChild id child w = Some w0 /\ evolves none w0 w'.
Proof.
  unfold addChild, withChild. intros H. stepin H. stepin H. stepin H. cbn [mbind option_bind]. exists w1. split; [done|].
  destruct (decide (_ = CL_COMPLETE)); [by apply (proj1 (proj2 (operations_evolve fuel))) in H|]. simplify_eq. apply evolves_refl.
Qed.

(** ** Termination *)

(** An event graph without cycles: [h] decreases along the edges, children
    exist and have a queue, and every event has its four callback lists. *)
Definition acyclic (h : Z -> nat) (w : World) : Prop :=
  forall id e, events w !! id = Some e -> length (callbacks e) = 4%nat /\
    forall c, c ∈ childEventsToNotify e -> exists ec, events w !! c = Some ec /\ hasQueue ec = true /\ (h c < h id)%nat.

Lemma evolves_lookup d w w' id e : evolves d w w' -> events w !! id = Some e ->
  exists l e', events w' !! id = Some e' /\ stepE id l e e'.
Proof.
  intros (l & _ & H) He. specialize (H id). rewrite He in H. destruct (events w' !! id) as [e'|]; [|done].
  destruct H as [H _]. eauto.
Qed.

Lemma evolves_acyclic d h w w' : evolves d w w' -> acyclic h w -> acyclic h w'.
Proof.
  intros Hev Hw id e' He'. pose proof Hev as (l & _ & H). specialize (H id). rewrite He' in H.
  destruct (events w !! id) as [e|] eqn:He; [|done]. destruct H as [Hs _]. destruct (Hw id e He) as [Hl Hc].
  split; [by rewrite (se_targets _ _ _ _ Hs)|]. intros c Hin.
  destruct (se_children _ _ _ _ Hs) as [E|E]; rewrite E in Hin; [|by apply elem_of_nil in Hin].
  destruct (Hc c Hin) as (ec & Hec & Hq & Hh). destruct (evolves_lookup _ _ _ _ _ Hev Hec) as (l' & ec' & Hec' & Hs').
  exists ec'. by rewrite (se_queue _ _ _ _ Hs').
Qed.

Lemma modify_ok id f w e : events w !! id = Some e -> exists w', modify id f w = Some w'.
Proof. intros He. unfold modify. rewrite He. cbn. eauto. Qed.

Lemma executeTargets_ok id t st n i w e :
  events w !! id = Some e -> length (callbacks e) = 4%nat -> (i + n <= 4)%nat ->
  exists w', executeTargets id t st n i w = Some w'.
Proof.
  revert i w e. induction n as [|n IH]; intros i w e He Hl Hi; simpl; [eauto|].
  rewrite He. cbn [mbind option_bind]. destruct (lookup_lt_is_Some_2 (callbacks e) i) as [cbs Hcbs]; [lia|].
  rewrite Hcbs. cbn [mbind option_bind]. unfold modify at 1. rewrite He. cbn [mbind option_bind].
  erewrite runCallbacks_spec by (simpl; apply lookup_insert_eq). cbn [mbind option_bind].
  eapply IH; [simpl; apply lookup_insert_eq|simpl; by rewrite length_insert|lia].
Qed.

Lemma executeCallbacks_ok id st w e :
  events w !! id = Some e -> length (callbacks e) = 4%nat -> exists w', executeCallbacks id st w = Some w'.
Proof.
  intros He Hl. unfold executeCallbacks. destruct (if _ : bool then _ else _) as [t|]; [|eauto].
  eapply executeTargets_ok; [done|done|]. destruct t; simpl; lia.
Qed.

Lemma submitCommand_ok id abort w e :
  events w !! id = Some e -> exists w', submitCommand csrTaskCount submit id abort w = Some w'.
Proof.
  intros He. unfold submitCommand. rewrite He. cbn [mbind option_bind].
  assert (forall w1 e1, events w1 !! id = Some e1 -> exists w2, (e1 ← events w1 !! id;
      if bool_decide (taskCount e1 = eventNotReady) && bool_decide (kind e1 <> UserEvent) && eventWithoutCommand e1 && hasQueue e1 then
      modify id (updateTaskCount (csrTaskCount (log w1))) w1 else Some w1) = Some w2) as Htail.
  { intros w1 e1 He1. rewrite He1. cbn [mbind option_bind]. destruct (_ && hasQueue e1); [|eauto]. by eapply modify_ok. }
  destruct (cmdToSubmit e) as [c|]; cbn [mbind option_bind]; [|by eapply Htail].
  cbv zeta. match goal with |- context [modify id ?f ?w1] => destruct (modify_ok id f w1 e He) as (w2 & E) end.
  rewrite E. cbn [mbind option_bind]. apply modify_inv in E as (e1 & _ & ->). eapply Htail. simpl. apply lookup_insert_eq.
Qed.

Lemma carry d h w w' id e :
  evolves d w w' -> acyclic h w -> events w !! id = Some e ->
  acyclic h w' /\ exists e', events w' !! id = Some e' /\ length (callbacks e') = 4%nat /\ kind e' = kind e /\ hasQueue e' = hasQueue e.
Proof.
  intros Hev Ha He. destruct (evolves_lookup _ _ _ _ _ Hev He) as (l & e' & He' & Hs).
  split; [by eapply evolves_acyclic|]. exists e'. destruct (Ha id e He) as [Hl _].
  rewrite (se_targets _ _ _ _ Hs), (se_kind _ _ _ _ Hs), (se_queue _ _ _ _ Hs). done.
Qed.

Lemma notifyChildren_ok h (unblock : Z -> World -> option World) children w :
  acyclic h w -> (forall c, c ∈ children -> exists ec, events w !! c = Some ec /\ hasQueue ec = true) ->
  (forall c w w', unblock c w = Some w' -> evolves none w w') ->
  (forall c w ec, c ∈ children -> acyclic h w -> events w !! c = Some ec -> hasQueue ec = true -> exists w', unblock c w = Some w') ->
  exists w', notifyChildren unblock children w = Some w'.
Proof.
  intros Ha Hc Hev Hok. revert w Ha Hc. induction children as [|c children IH]; intros w Ha Hc; simpl; [eauto|].
  destruct (Hc c ltac:(set_solver)) as (ec & Hec & Hq).
  destruct (Hok c w ec ltac:(set_solver) Ha Hec Hq) as (w1 & E1). rewrite E1. cbn [mbind option_bind].
  pose proof (Hev _ _ _ E1) as D1. destruct (carry _ _ _ _ _ _ D1 Ha Hec) as (Ha1 & ec1 & Hec1 & _).
  destruct (modify_ok c (addRef (-1)) w1 ec1 Hec1) as (w2 & E2). rewrite E2. cbn [mbind option_bind].
  pose proof (addRef_evolves _ _ _ _ E2) as D2. apply IH.
  - intros c' w' ec' Hin. apply Hok. set_solver.
  - by eapply evolves_acyclic.
  - intros c' Hin. destruct (Hc c' ltac:(set_solver)) as (e0 & He0 & Hq0).
    destruct (carry _ _ _ _ _ _ D1 Ha He0) as (_ & e1 & He1 & _ & _ & Q1).
    destruct (carry _ _ _ _ _ _ D2 Ha1 He1) as (_ & e2 & He2 & _ & _ & Q2). exists e2. split; [done|congruence].
Qed.

(** A computation that succeeds and evolves; [ready] worlds are those in which
    the operations on [id] find what they need. *)
Definition leadsTo {A} (out : A -> World) (w : World) (m : option A) : Prop := exists a d, m = Some a /\ evolves d w (out a).
Abbreviation leads := (leadsTo (fun w : World => w)).
Definition ready (h : Z -> nat) (id : Z) (queue : bool) (w : World) : Prop :=
  acyclic h w /\ exists e, events w !! id = Some e /\ hasQueue e = queue.

Lemma ready_evolves d h id q w w' : evolves d w w' -> ready h id q w -> ready h id q w'.
Proof.
  intros Hev (Ha & e & He & Hq). destruct (carry _ _ _ _ _ _ Hev Ha He) as (Ha' & e' & He' & _ & _ & Q).
  split; [done|]. exists e'. by rewrite Q.
Qed.

Lemma leads_here w : leads w (Some w).
Proof. exists w, none. split; [done|apply evolves_refl]. Qed.

Lemma leads_bind {A} (out : A -> World) h id q w m (k : World -> option A) :
  ready h id q w -> leads w m -> (forall w', ready h id q w' -> m = Some w' -> leadsTo out w' (k w')) -> leadsTo out w (m ≫= k).
Proof.
  intros Hr (w1 & d1 & -> & D1) Hk. cbn [mbind option_bind].
  destruct (Hk w1) as (w2 & d2 & -> & D2); [by eapply ready_evolves|done|].
  exists w2, (fun c => d1 c + d2 c). split; [done|by eapply evolves_trans].
Qed.

Lemma leads_look {A} (out : A -> World) h id q w (k : Event -> option A) :
  ready h id q w -> (forall e, events w !! id = Some e -> hasQueue e = q -> leadsTo out w (k e)) ->
  leadsTo out w (e ← events w !! id; k e).
Proof. intros (_ & e & He & Hq) Hk. rewrite He. by apply Hk. Qed.

Lemma leads_modify h id q w f d : ready h id q w ->
  (forall w', modify id f w = Some w' -> evolves d w w') -> leads w (modify id f w).
Proof. intros (_ & e & He & _) Hev. destruct (modify_ok id f w e He) as (w' & E). exists w', d. eauto. Qed.

Lemma leads_addRef h id q v w : ready h id q w -> leads w (modify id (addRef v) w).
Proof. intros Hr. eapply leads_modify; [done|]. intros w'. apply addRef_evolves. Qed.

Lemma leads_transition h id q n w : ready h id q w ->
  (n < 0 -> forall e, events w !! id = Some e -> 0 < executionStatus e) -> leads w (modify id (transitionExecutionStatus n) w).
Proof. intros Hr Hn. eapply leads_modify; [done|]. intros w' E. by eapply transition_evolves. Qed.

Lemma leads_submit h id q a w : ready h id q w -> leads w (submitCommand csrTaskCount submit id a w).
Proof.
  intros (_ & e & He & _). destruct (submitCommand_ok id a w e He) as (w' & E). exists w', none.
  split; [done|by eapply submitCommand_evolves].
Qed.

Lemma leads_callbacks h id q st w : ready h id q w -> leads w (executeCallbacks id st w).
Proof.
  intros (Ha & e & He & _). destruct (executeCallbacks_ok id st w e He) as (w' & E); [by apply (Ha id e)|].
  exists w', none. split; [done|by eapply executeCallbacks_evolves].
Qed.
#[local] Hint Resolve leads_here leads_addRef leads_submit leads_callbacks : core.
#[local] Hint Extern 4 (leads _ (modify _ (transitionExecutionStatus _) _)) =>
  eapply leads_transition; [eassumption|by unfold CL_QUEUED, CL_SUBMITTED, CL_COMPLETE] : core.

Ltac step := eapply leads_bind; [eassumption|eauto|let w := fresh "w" in let E := fresh "E" in intros w ? E].
Ltac look := eapply leads_look; [eassumption|let e := fresh "e" in let He := fresh "He" in let Hq := fresh "Hq" in intros e He Hq].

Lemma setStatus_leads h id q fuel st w :
  ready h id q w -> (forall st w, ready h id q w ->
    leads w (unblockEventsBlockedByThis isCompleted csrTaskLevel csrTaskCount submit fuel id st w)) ->
  leadsTo snd w (setStatus isCompleted csrTaskLevel csrTaskCount submit (S fuel) id st w).
Proof.
  intros Hr Hu. cbn [setStatus unblockEventsBlockedByThis unblockEventBy updateExecutionStatus]. look.
  set (st' := if _ : bool then CL_COMPLETE else st).
  assert (forall b : bool, leadsTo snd w (Some (b, w))) as Hstay.
  { intros b. exists (b, w), none. split; [done|apply evolves_refl]. }
  destruct (isStatusCompleted (executionStatus e)) eqn:Hdone; [done|].
  destruct (decide (st' = executionStatus e)); [done|]. destruct (peekIsBlocked e && _); [done|].
  apply orb_false_iff in Hdone as [Hc Hn]. apply bool_decide_eq_false in Hc, Hn. unfold CL_COMPLETE in Hc.
  eapply leads_bind; [done|destruct (_ || _); eauto|intros w1 R1 E1].
  assert (exists e1, events w1 !! id = Some e1 /\ executionStatus e1 = executionStatus e) as (e1 & He1 & S1).
  { destruct (_ || _); [by eapply submitCommand_status|simplify_eq; eauto]. }
  step. apply modify_lookup in E as (e0 & He0 & He2 & _). simplify_eq.
  eapply leads_bind; [done|eapply leads_transition; [done|]|intros w3 R3 _].
  { intros _ e2 He2'. simplify_eq. simpl. lia. }
  eapply leads_bind; [done|destruct (isStatusCompleted st' || bool_decide (st' = CL_SUBMITTED)); [by apply Hu|apply leads_here]|intros w4 R4 _].
  step. step. exists (true, w5), none. split; [done|apply evolves_refl].
Qed.

Lemma updateStatus_leads h id q fuel w :
  ready h id q w -> (forall st w, ready h id q w ->
    leads w (unblockEventsBlockedByThis isCompleted csrTaskLevel csrTaskCount submit fuel id st w)) ->
  leads w (updateExecutionStatus isCompleted csrTaskLevel csrTaskCount submit (S fuel) id w).
Proof.
  intros Hr Hu. cbn [setStatus unblockEventsBlockedByThis unblockEventBy updateExecutionStatus]. look.
  destruct (bool_decide _); [eauto|]. destruct (decide (taskLevel e = eventNotReady)); [eauto|].
  destruct (isStatusCompleted _); [eauto|]. destruct (peekIsBlocked e).
  { eapply leads_bind; [done|eauto|]. intros w1 R1 _. eauto. }
  eapply leads_bind; [done| |].
  { destruct (decide _); [|eauto]. step. step. step. by apply Hu. }
  intros w1 R1 _. look. destruct (hasQueue e0 && _); [|eauto].
  step. step. eapply leads_bind; [done|by apply Hu|intros w4 R4 _]. look. eexists _, none. split; [done|apply clean_evolves].
Qed.

Lemma then_update h id q w m (k : World -> option World) :
  ready h id q w -> leadsTo snd w m -> (forall w', ready h id q w' -> leads w' (k w')) ->
  leads w ('((_, w) : bool * World) ← m; k w).
Proof.
  intros Hr ([b w1] & d1 & -> & D1) Hk. cbn. destruct (Hk w1) as (w2 & d2 & -> & D2); [by eapply ready_evolves|].
  exists w2, (fun c => d1 c + d2 c). split; [done|by eapply evolves_trans].
Qed.

Lemma operations_terminate h fuel :
  (forall id q st w, ready h id q w -> (3 * h id + 2 <= fuel)%nat ->
     leadsTo snd w (setStatus isCompleted csrTaskLevel csrTaskCount submit fuel id st w)) /\
  (forall id q st w, ready h id q w -> (3 * h id + 1 <= fuel)%nat ->
     leads w (unblockEventsBlockedByThis isCompleted csrTaskLevel csrTaskCount submit fuel id st w)) /\
  (forall id lv st w, ready h id true w -> (3 * h id + 3 <= fuel)%nat ->
     leads w (unblockEventBy isCompleted csrTaskLevel csrTaskCount submit fuel id lv st w)) /\
  (forall id q w, ready h id q w -> (3 * h id + 2 <= fuel)%nat ->
     leads w (updateExecutionStatus isCompleted csrTaskLevel csrTaskCount submit fuel id w)).
Proof.
  induction fuel as [|fuel (IHs & IHu & IHb & IHe)]; [split_and!; intros; lia|].
  split_and!.
  - intros id q st w Hr Hf. eapply setStatus_leads; [done|]. intros; eapply IHu; [eassumption|lia].
  - intros id q st w Hr Hf. destruct (operations_evolve (S fuel)) as (_ & Eu & _ & _).
    destruct (operations_evolve fuel) as (_ & _ & Eb & _).
    assert (exists w', unblockEventsBlockedByThis isCompleted csrTaskLevel csrTaskCount submit (S fuel) id st w = Some w')
      as (w' & E); [|exists w', none; split; [done|by eapply Eu]].
    cbn [setStatus unblockEventsBlockedByThis unblockEventBy updateExecutionStatus]. pose proof Hr as (Ha & e & He & Hq). rewrite He. cbn [mbind option_bind].
    destruct (if _ : bool then _ else _) as [level propagate].
    destruct (modify_ok id (fun e => setChildren [] (setLevel level e)) w e He) as (w1 & E1). rewrite E1. cbn [mbind option_bind].
    pose proof (detach_evolves _ _ _ _ _ He E1) as D1. destruct (Ha id e He) as [_ Hch].
    eapply (notifyChildren_ok h); [by eapply evolves_acyclic|..].
    + intros c Hin. destruct (Hch c Hin) as (ec & Hec & Hqc & _).
      destruct (carry _ _ _ _ _ _ D1 Ha Hec) as (_ & e' & He' & _ & _ & Q). exists e'. by rewrite Q.
    + intros c w2 w3. apply Eb.
    + intros c w2 ec Hin Ha2 Hec Hqc. destruct (Hch c Hin) as (_ & _ & _ & Hlt).
      destruct (IHb c propagate st w2) as (w3 & d & E3 & _); [split; [done|by exists ec]|lia|]. by exists w3.
  - intros id lv st w Hr Hf. cbn [setStatus unblockEventsBlockedByThis unblockEventBy updateExecutionStatus].
    eapply leads_bind; [done|eapply leads_modify; [done|]; intros w'; apply dropParent_evolves|intros w1 R1 _].
    look. destruct (bool_decide _ && _); [eauto|].
    destruct (decide (taskLevel e = eventNotReady)); [rewrite Hq|]; cbn [mbind option_bind];
      (eapply leads_bind; [done|eapply leads_modify; [done|]; intros w'; apply setLevel_evolves|intros w2 R2 _];
      eapply then_update; [done|by apply (IHs _ true); [|lia]|intros w3 R3; by apply (IHe _ true); [|lia]]).
  - intros id q w Hr Hf. eapply updateStatus_leads; [done|]. intros; eapply IHu; [eassumption|lia].
Qed.
(** ** What setting a status achieves *)

(** Whether reaching a status calls the callbacks of the list [j]. *)
Definition reachedTarget (st : Z) (j : nat) : bool :=
  match (if isStatusCompletedByTermination st then Some Completed else translateToCallbackTarget st) with
  | Some target => bool_decide (j <= targetIndex target)%nat
  | None => false
  end.

(** The statuses with which the command is submitted and the children are told. *)
Definition proceeds (st : Z) : bool := isStatusCompleted st || bool_decide (st = CL_SUBMITTED).

Lemma isStatusCompleted_spec v : isStatusCompleted v = true <-> v <= 0.
Proof.
  unfold isStatusCompleted, CL_COMPLETE. rewrite orb_true_iff, !bool_decide_eq_true. lia.
Qed.

Lemma addRef_0 e : setCallbacks (callbacks e) (addRef 0 e) = e.
Proof. destruct e. unfold setCallbacks, addRef. simpl. f_equal. lia. Qed.

(** Calling callbacks changes the lists and the references of the event only. *)
Lemma executeTargets_frame id t st n i w w' e :
  events w !! id = Some e -> executeTargets id t st n i w = Some w' ->
  exists cs r, events w' = <[id := setCallbacks cs (addRef r e)]> (events w) /\
    forall j, cs !! j = if decide (i <= j < i + n)%nat then (fun _ => []) <$> callbacks e !! j else callbacks e !! j.
Proof.
  revert i w e. induction n as [|n IH]; intros i w e He H; simpl in H.
  { simplify_eq. exists (callbacks e), 0. split; [by rewrite addRef_0, insert_id|]. intros j. by rewrite decide_False by lia. }
  rewrite He in H. cbn [mbind option_bind] in H.
  destruct (callbacks e !! i) as [cbs|] eqn:Hi; [|done]. cbn [mbind option_bind] in H.
  unfold modify in H at 1. rewrite He in H. cbn [mbind option_bind] in H.
  erewrite runCallbacks_spec in H by (simpl; apply lookup_insert_eq). cbn [mbind option_bind] in H.
  eapply IH in H as (cs & r & Ev & Hj); [|simpl; apply lookup_insert_eq].
  exists cs, (r - Z.of_nat (length cbs)). split.
  - rewrite Ev. simpl. rewrite !insert_insert_eq. f_equal. unfold setCallbacks, addRef. simpl. f_equal. lia.
  - intros j. rewrite Hj. simpl. destruct (decide (j = i)) as [->|Hne].
    + rewrite list_lookup_insert_eq by (by eapply lookup_lt_Some). rewrite decide_False by lia. rewrite decide_True by lia. by rewrite Hi.
    + rewrite list_lookup_insert_ne by done. repeat case_decide; try done; lia.
Qed.

Lemma executeCallbacks_frame id st w w' e :
  events w !! id = Some e -> executeCallbacks id st w = Some w' ->
  exists cs r, events w' = <[id := setCallbacks cs (addRef r e)]> (events w) /\
    forall j, cs !! j = if reachedTarget st j then (fun _ => []) <$> callbacks e !! j else callbacks e !! j.
Proof.
  unfold executeCallbacks, reachedTarget. intros He H. destruct (if isStatusCompletedByTermination st then _ else _) as [target|].
  - eapply executeTargets_frame in H as (cs & r & Ev & Hj); [|done]. exists cs, r. split; [done|]. intros j. rewrite Hj.
    case_bool_decide; [rewrite decide_True by lia|rewrite decide_False by lia]; done.
  - simplify_eq. exists (callbacks e), 0. by rewrite addRef_0, insert_id.
Qed.

(** All four lists are called at the end. *)
Lemma reachedTarget_completed st j : isStatusCompleted st = true -> (j < 4)%nat -> reachedTarget st j = true.
Proof.
  intros Hst Hj. apply isStatusCompleted_spec in Hst. unfold reachedTarget, isStatusCompletedByTermination.
  destruct (decide (st < 0)); [rewrite bool_decide_eq_true_2 by done|rewrite bool_decide_eq_false_2 by done; assert (st = 0) as -> by lia];
    apply bool_decide_eq_true; simpl; lia.
Qed.

Lemma submitCommand_none id abort w w' e :
  submitCommand csrTaskCount submit id abort w = Some w' -> events w !! id = Some e ->
  exists e', events w' !! id = Some e' /\ cmdToSubmit e' = None.
Proof.
  unfold submitCommand. intros H He. rewrite He in H. cbn [mbind option_bind] in H.
  assert (forall w1 w2 e1, (e1 ← events w1 !! id;
      if bool_decide (taskCount e1 = eventNotReady) && bool_decide (kind e1 <> UserEvent) && eventWithoutCommand e1 && hasQueue e1 then
      modify id (updateTaskCount (csrTaskCount (log w1))) w1 else Some w1) = Some w2 -> events w1 !! id = Some e1 ->
      exists e', events w2 !! id = Some e' /\ cmdToSubmit e' = cmdToSubmit e1) as Htail.
  { intros w1 w2 e1 Hw He1. rewrite He1 in Hw. cbn [mbind option_bind] in Hw.
    destruct (_ && hasQueue e1); [|simplify_eq; eauto].
    apply modify_lookup in Hw as (e2 & ? & ? & _). simplify_eq. eexists. split; [done|]. apply updateTaskCount_same. }
  destruct (cmdToSubmit e) as [c|] eqn:Hc; cbn [mbind option_bind] in H; [|destruct (Htail _ _ _ H He) as (e' & ? & ?); exists e'; split; [done|congruence]].
  destruct (modify id _ (record _ w)) as [w1|] eqn:Hm; [|done]. cbn [mbind option_bind] in H.
  apply modify_lookup in Hm as (e2 & He2 & He3 & _). destruct (Htail _ _ _ H He3) as (e' & ? & E').
  exists e'. split; [done|]. by rewrite E'.
Qed.

Lemma submitCommand_children id abort w w' e :
  submitCommand csrTaskCount submit id abort w = Some w' -> events w !! id = Some e ->
  exists e', events w' !! id = Some e' /\ childEventsToNotify e' = childEventsToNotify e.
Proof.
  unfold submitCommand. intros H He. rewrite He in H. cbn [mbind option_bind] in H.
  destruct (cmdToSubmit e) as [c|]; cbn [mbind option_bind] in H.
  - stepin H. apply modify_lookup in E as (e0 & He0 & He1 & _). simpl in He0. assert (e0 = e) as -> by congruence.
    rewrite He1 in H. cbn [mbind option_bind] in H. destruct (_ && hasQueue _).
    + apply modify_lookup in H as (e2 & He2 & He3 & _). simplify_eq. eexists. split; [done|].
      etrans; [apply updateTaskCount_same|]. simpl. apply updateTaskCount_same.
    + simplify_eq. eexists. split; [done|]. simpl. apply updateTaskCount_same.
  - rewrite He in H. cbn [mbind option_bind] in H. destruct (_ && hasQueue e); [|simplify_eq; eauto].
    apply modify_lookup in H as (e2 & He2 & He3 & _). simplify_eq. eexists. split; [done|]. apply updateTaskCount_same.
Qed.

Lemma unblock_detaches fuel id st w w' :
  unblockEventsBlockedByThis isCompleted csrTaskLevel csrTaskCount submit fuel id st w = Some w' ->
  exists e', events w' !! id = Some e' /\ childEventsToNotify e' = [].
Proof.
  destruct fuel as [|fuel]; [done|]. cbn [setStatus unblockEventsBlockedByThis unblockEventBy updateExecutionStatus].
  intros H. stepin H. destruct (if _ : bool then _ else _) as [level propagate]. stepin H.
  apply modify_lookup in E0 as (e2 & _ & He & _).
  pose proof (notifyChildren_evolves _ _ _ _ (fun c w1 w2 Hc => proj1 (proj2 (proj2 (operations_evolve fuel))) c propagate st w1 w2 Hc) H) as D.
  destruct (evolves_lookup _ _ _ _ _ D He) as (l & e' & He' & Hs). exists e'. split; [done|].
  by destruct (se_children _ _ _ _ Hs) as [->| ->].
Qed.

(** [settled]: nothing is left to do for a completed event. *)
Definition settled (status : Z) (e : Event) : Prop :=
  executionStatus e = status /\ cbIds e = [] /\ childEventsToNotify e = [] /\ cmdToSubmit e = None.

(** The event and its children after the command and the status, but for the
    children that get unblocked. *)
Record transitioned (st : Z) (w1 w' : World) (id : Z) (e1 e' : Event) : Prop := {
  tr_status : executionStatus e' <= st;
  tr_completed : isStatusCompleted st = true -> executionStatus e' = st;
  tr_callbacks : forall j cbs, callbacks e' !! j = Some cbs -> reachedTarget st j = true -> cbs = [];
  tr_command : cmdToSubmit e1 = None -> cmdToSubmit e' = None;
  tr_children : proceeds st = true -> childEventsToNotify e' = [];
  tr_only : proceeds st = false -> exists cs r,
    events w' = <[id := setCallbacks cs (addRef r (setExecution (Z.min st (executionStatus e1)) e1))]> (events w1) /\
    forall j, cs !! j = if reachedTarget st j then (fun _ => []) <$> callbacks e1 !! j else callbacks e1 !! j }.

Lemma transition_min st r e : transitionExecutionStatus st (addRef r e) = addRef r (setExecution (Z.min st (executionStatus e)) e).
Proof.
  unfold transitionExecutionStatus. destruct (decide _) as [Hlt|Hge]; simpl in *; destruct e; unfold setExecution, addRef; simpl in *; f_equal; lia.
Qed.

Lemma transition_settles fuel id st w1 e1 b w' :
  events w1 !! id = Some e1 -> 0 < executionStatus e1 ->
  (w ← modify id (addRef 1) w1;
   w ← modify id (transitionExecutionStatus st) w;
   w ← (if isStatusCompleted st || bool_decide (st = CL_SUBMITTED) then
          unblockEventsBlockedByThis isCompleted csrTaskLevel csrTaskCount submit fuel id st w else Some w);
   w ← executeCallbacks id st w;
   w ← modify id (addRef (-1)) w;
   Some (true, w)) = Some (b, w') ->
  b = true /\ exists e', events w' !! id = Some e' /\ transitioned st w1 w' id e1 e'.
Proof.
  intros He1 Hpos H. stepin H. rename w into w2. stepin H. rename w into w3. stepin H. rename w into w4.
  stepin H. rename w into w5. stepin H. rename w into w6. simplify_eq. split; [done|].
  apply modify_inv in E as (x2 & Hx2 & ->). assert (x2 = e1) as -> by congruence.
  apply modify_inv in E0 as (x3 & Hx3 & ->). simpl in *. rewrite lookup_insert_eq in Hx3. simplify_eq.
  rewrite transition_min, insert_insert_eq in E1. set (e3 := addRef 1 _) in E1.
  apply modify_inv in E3 as (e5 & He5 & ->). simpl. fold (proceeds st) in E1.
  assert (exists e4, events w4 !! id = Some e4 /\ exists l, stepE id l e3 e4) as (e4 & He4 & l & T).
  { destruct (proceeds st); [|simplify_eq; exists e3; split; [apply lookup_insert_eq|exists []; apply stepE_refl]].
    eapply (proj1 (proj2 (operations_evolve fuel))) in E1. destruct (evolves_lookup _ _ _ id e3 E1) as (l & e4 & ? & ?); [apply lookup_insert_eq|]. eauto. }
  destruct (executeCallbacks_frame _ _ _ _ _ He4 E2) as (cs & r & Ev & Hcs). rewrite Ev, lookup_insert_eq in He5. simplify_eq.
  rewrite Ev, insert_insert_eq, lookup_insert_eq. eexists. split; [done|].
  pose proof (se_status _ _ _ _ T) as T1. simpl in T1. split; simpl.
  - lia.
  - intros Hst%isStatusCompleted_spec. rewrite (se_done _ _ _ _ T); simpl; lia.
  - intros j cbs Hj Hr. rewrite Hcs, Hr in Hj. destruct (callbacks e4 !! j); [by simplify_eq/=|done].
  - intros Hc. pose proof (se_command _ _ _ _ T) as P. simpl in P. rewrite Hc in P. symmetry in P.
    apply Permutation_nil_r in P. apply app_eq_nil in P as [P _]. by destruct (cmdToSubmit e4).
  - intros Hp. rewrite Hp in E1. destruct (unblock_detaches _ _ _ _ _ E1) as (e4' & ? & ?). by simplify_eq.
  - intros Hp. rewrite Hp in E1. simplify_eq/=. rewrite lookup_insert_eq in He4. simplify_eq. exists cs, r. split; [|exact Hcs].
    rewrite insert_insert_eq. f_equal. unfold addRef, setCallbacks. simpl. f_equal. lia.
Qed.

(** The status a call asks for: a virtual event has no other than complete or
    terminated. *)
Definition statusFor (e : Event) (st : Z) : Z :=
  if bool_decide (kind e = VirtualEvent) && negb (isStatusCompletedByTermination st) then CL_COMPLETE else st.
(** Whether the call changes nothing. *)
Definition refuses (e : Event) (st : Z) : bool :=
  isStatusCompleted (executionStatus e) || bool_decide (st = executionStatus e) ||
    (peekIsBlocked e && negb (isStatusCompletedByTermination st)).

(** The whole call, up to the unblocked children. *)
Lemma setStatus_transitions fuel id st w b w' e :
  events w !! id = Some e ->
  setStatus isCompleted csrTaskLevel csrTaskCount submit fuel id st w = Some (b, w') ->
  let st' := statusFor e st in
  if refuses e st' then b = false /\ w' = w
  else b = true /\ 0 < executionStatus e /\ exists fuel' w1 e1 e',
    fuel = S fuel' /\
    (w1 = w \/ proceeds st' = true) /\ evolves none w w1 /\ events w1 !! id = Some e1 /\
    executionStatus e1 = executionStatus e /\ childEventsToNotify e1 = childEventsToNotify e /\
    (proceeds st' = true -> cmdToSubmit e1 = None) /\
    events w' !! id = Some e' /\ transitioned st' w1 w' id e1 e'.
Proof.
  intros He H st'. destruct fuel as [|fuel]; [done|].
  cbn [setStatus unblockEventsBlockedByThis unblockEventBy updateExecutionStatus] in H.
  rewrite He in H. cbn [mbind option_bind] in H. fold (statusFor e st) in H. fold st' in H. unfold refuses.
  destruct (isStatusCompleted (executionStatus e)) eqn:Hdone; [by simplify_eq|]. simpl.
  rewrite bool_decide_decide. destruct (decide (st' = executionStatus e)); [by simplify_eq|]. simpl.
  destruct (peekIsBlocked e && _); [by simplify_eq|].
  assert (0 < executionStatus e) as Hpos.
  { destruct (decide (executionStatus e <= 0)) as [Hle|]; [|lia]. apply isStatusCompleted_spec in Hle. congruence. }
  stepin H. rename w0 into w1. rewrite orb_comm in E. fold (proceeds st') in E.
  assert (exists e1, events w1 !! id = Some e1 /\ executionStatus e1 = executionStatus e /\
    childEventsToNotify e1 = childEventsToNotify e /\ (proceeds st' = true -> cmdToSubmit e1 = None) /\
    evolves none w w1 /\ (w1 = w \/ proceeds st' = true)) as (e1 & He1 & S1 & C1 & K1 & D1 & Hw1).
  { destruct (proceeds st') eqn:Hp; [|simplify_eq; exists e; split_and!; [done..|apply evolves_refl|by left]].
    destruct (submitCommand_status _ _ _ _ _ E He) as (e1 & He1 & S1).
    destruct (submitCommand_none _ _ _ _ _ E He) as (x1 & ? & ?), (submitCommand_children _ _ _ _ _ E He) as (x2 & ? & ?). simplify_eq.
    exists e1. split_and!; [done..|by eapply submitCommand_evolves|by right]. }
  destruct (transition_settles fuel id st' w1 e1 b w' He1 ltac:(lia) H) as (-> & e' & He' & Ht).
  split; [done|]. split; [done|]. exists fuel, w1, e1, e'. done.
Qed.

Lemma setStatus_le fuel id st w b w' e :
  events w !! id = Some e -> setStatus isCompleted csrTaskLevel csrTaskCount submit fuel id st w = Some (b, w') ->
  st <= CL_SUBMITTED -> parentCount e <= 0 \/ st < 0 ->
  exists e', events w' !! id = Some e' /\ executionStatus e' <= Z.max 0 st /\ (st < 0 -> isStatusCompleted (executionStatus e') = true).
Proof.
  intros He H Hle Hb. pose proof (setStatus_transitions _ _ _ _ _ _ _ He H) as S. cbv zeta in S.
  assert (statusFor e st <= Z.max 0 st /\ (st < 0 -> statusFor e st = st)) as [Hs1 Hs2].
  { unfold statusFor, isStatusCompletedByTermination. destruct (bool_decide (kind e = VirtualEvent)), (decide (st < 0));
      simpl; rewrite ?bool_decide_eq_true_2, ?bool_decide_eq_false_2 by done; simpl; unfold CL_COMPLETE; lia. }
  destruct (refuses e (statusFor e st)) eqn:Hr.
  - destruct S as [_ ->]. exists e. split; [done|]. unfold refuses in Hr. apply orb_true_iff in Hr as [[Hr|Hr]%orb_true_iff|Hr].
    + split; [|done]. apply isStatusCompleted_spec in Hr. lia.
    + apply bool_decide_eq_true in Hr. rewrite isStatusCompleted_spec. lia.
    + apply andb_true_iff in Hr as [Hp Ht]. apply bool_decide_eq_true in Hp. apply negb_true_iff, bool_decide_eq_false in Ht. lia.
  - destruct S as (_ & _ & fuel' & w1 & e1 & e' & _ & _ & _ & _ & _ & _ & _ & He' & Ht). exists e'. split; [done|].
    pose proof (tr_status _ _ _ _ _ _ Ht). rewrite isStatusCompleted_spec. lia.
Qed.

(** ** Children *)

Definition completedAt (id : Z) (w : World) : Prop :=
  exists e, events w !! id = Some e /\ isStatusCompleted (executionStatus e) = true.
Definition submittedAt (id : Z) (w : World) : Prop :=
  exists e, events w !! id = Some e /\ executionStatus e <= CL_SUBMITTED.
Definition fourLists (w : World) : Prop := forall id e, events w !! id = Some e -> length (callbacks e) = 4%nat.

Lemma completedAt_evolves d id w w' : evolves d w w' -> completedAt id w -> completedAt id w'.
Proof.
  intros Hev (e & He & Hd). apply isStatusCompleted_spec in Hd.
  destruct (evolves_lookup _ _ _ _ _ Hev He) as (l & e' & He' & Hs). exists e'. split; [done|].
  apply isStatusCompleted_spec. pose proof (se_status _ _ _ _ Hs). lia.
Qed.

Lemma submittedAt_evolves d id w w' : evolves d w w' -> submittedAt id w -> submittedAt id w'.
Proof.
  intros Hev (e & He & Hd). destruct (evolves_lookup _ _ _ _ _ Hev He) as (l & e' & He' & Hs). exists e'. split; [done|].
  pose proof (se_status _ _ _ _ Hs). lia.
Qed.

Lemma fourLists_evolves d w w' : evolves d w w' -> fourLists w -> fourLists w'.
Proof.
  intros (l & _ & H) Hw id e' He'. specialize (H id). rewrite He' in H. destruct (events w !! id) as [e|] eqn:He; [|done].
  rewrite (se_targets _ _ _ _ (proj1 H)). by eapply Hw.
Qed.

(** What unblocking one child does to it: one parent fewer, and with the last
    parent gone or a parent terminated it is submitted or terminated. *)
Lemma unblockEventBy_child fuel id lv st w w' e :
  events w !! id = Some e -> unblockEventBy isCompleted csrTaskLevel csrTaskCount submit fuel id lv st w = Some w' ->
  (exists e', events w' !! id = Some e' /\ parentCount e' <= parentCount e - 1) /\
  (parentCount e <= 1 -> submittedAt id w') /\ (st < 0 -> completedAt id w').
Proof.
  intros He H. destruct fuel as [|fuel]; [done|].
  destruct (operations_evolve fuel) as (Es & _ & _ & Ee).
  cbn [setStatus unblockEventsBlockedByThis unblockEventBy updateExecutionStatus] in H.
  stepin H. stepin H. apply modify_inv in E as (x & Hx & ->). assert (x = e) as -> by congruence. simpl in *.
  rewrite lookup_insert_eq in E0. simplify_eq. simpl in *.
  set (wd := mkWorld (<[id := _]> (events w)) (log w)) in *.
  assert (forall w2, evolves none wd w2 -> exists e', events w2 !! id = Some e' /\ parentCount e' <= parentCount e - 1) as Hpar.
  { intros w2 D. destruct (evolves_lookup _ _ _ id (setParents (parentCount e - 1) e) D) as (l & e' & ? & Hs); [apply lookup_insert_eq|].
    exists e'. split; [done|]. apply (se_parents _ _ _ _ Hs). }
  destruct (bool_decide (0 < parentCount e - 1) && _) eqn:Hb.
  { simplify_eq. apply andb_true_iff in Hb as [Hb Ht]. apply bool_decide_eq_true in Hb. apply negb_true_iff, bool_decide_eq_false in Ht.
    split; [apply Hpar, evolves_refl|]. split; intros; lia. }
  stepin H. stepin H. stepin H. destruct w2 as [b w2]. pose proof (setLevel_evolves _ _ _ _ E0) as D0.
  apply modify_lookup in E0 as (y & Hy & Hy' & _). unfold wd in Hy. simpl in Hy. rewrite lookup_insert_eq in Hy. simplify_eq.
  pose proof (Es _ _ _ _ _ E1) as D1. pose proof (Ee _ _ _ H) as D2. split; [apply Hpar; eauto using evolves_then|].
  apply andb_false_iff in Hb. rewrite bool_decide_eq_false in Hb.
  pose proof (setStatus_le _ _ _ _ _ _ _ Hy' E1) as Hle. simpl in Hle. unfold isStatusCompletedByTermination in *. split.
  - intros Hp. eapply submittedAt_evolves; [exact D2|]. destruct Hle as (e' & He' & Hs & _).
    + case_bool_decide; unfold CL_SUBMITTED; lia.
    + left. lia.
    + exists e'. split; [done|]. etrans; [exact Hs|]. case_bool_decide; unfold CL_SUBMITTED; lia.
  - intros Hst. rewrite bool_decide_eq_true_2 in Hle by done. eapply completedAt_evolves; [exact D2|].
    destruct Hle as (e' & He' & _ & Hc); [unfold CL_SUBMITTED; lia|by right|]. exists e'. auto.
Qed.

Lemma notifyChildren_child unblock children c w w' e :
  (forall c w w', unblock c w = Some w' -> evolves none w w') ->
  (forall c w w' e, events w !! c = Some e -> unblock c w = Some w' ->
    (exists e', events w' !! c = Some e' /\ parentCount e' <= parentCount e - 1) /\ (parentCount e <= 1 -> submittedAt c w')) ->
  c ∈ children -> events w !! c = Some e -> notifyChildren unblock children w = Some w' ->
  (exists e', events w' !! c = Some e' /\ parentCount e' <= parentCount e - occurrences c children) /\
  (parentCount e <= occurrences c children -> submittedAt c w').
Proof.
  intros Hev Hu. revert w e. induction children as [|x children IH]; intros w e Hin He H; [by apply elem_of_nil in Hin|].
  simpl in H. stepin H. stepin H. pose proof (Hev _ _ _ E) as D1. pose proof (addRef_evolves _ _ _ _ E0) as D2.
  assert (evolves (fun c => - occurrences c children) w1 w') as D3 by (eapply notifyChildren_evolves; [exact Hev|exact H]).
  rewrite occurrences_cons. destruct (decide (x = c)) as [->|Hne].
  - destruct (Hu _ _ _ _ He E) as ((e0 & He0 & Hp) & Hs).
    destruct (evolves_lookup _ _ _ _ _ D2 He0) as (l & e1 & He1 & T). pose proof (se_parents _ _ _ _ T).
    destruct (decide (c ∈ children)) as [Hin'|Hn].
    + destruct (IH _ _ Hin' He1 H) as ((e' & He' & Hp') & Hs'). split; [exists e'; split; [done|lia]|]. intros. apply Hs'. lia.
    + assert (occurrences c children = 0) as Ho.
      { unfold occurrences. destruct (filter _ _) as [|y l'] eqn:Hf; [done|]. destruct Hn.
        assert (y ∈ filter (fun x => x = c) children) as Hy by (rewrite Hf; left). apply list_elem_of_filter in Hy as [-> ?]. done. }
      rewrite Ho. destruct (evolves_lookup _ _ _ _ _ D3 He1) as (l' & e' & He' & T'). pose proof (se_parents _ _ _ _ T').
      split; [exists e'; split; [done|lia]|]. intros Hle. eapply submittedAt_evolves; [exact D3|]. eapply submittedAt_evolves; [exact D2|]. apply Hs. lia.
  - apply elem_of_cons in Hin as [->|Hin]; [done|]. destruct (evolves_lookup _ _ _ _ _ D1 He) as (l & e0 & He0 & T).
    destruct (evolves_lookup _ _ _ _ _ D2 He0) as (l' & e1 & He1 & T'). pose proof (se_parents _ _ _ _ T). pose proof (se_parents _ _ _ _ T').
    destruct (IH _ _ Hin He1 H) as ((e' & He' & Hp') & Hs'). split; [exists e'; split; [done|lia]|]. intros. apply Hs'. lia.
Qed.

Lemma unblockBy_terminates_event fuel id lv st w w' :
  st < 0 -> unblockEventBy isCompleted csrTaskLevel csrTaskCount submit fuel id lv st w = Some w' -> completedAt id w'.
Proof.
  intros Hst H. destruct (events w !! id) as [e|] eqn:He; [by eapply unblockEventBy_child|].
  destruct fuel as [|fuel]; [done|]. cbn [setStatus unblockEventsBlockedByThis unblockEventBy updateExecutionStatus] in H.
  unfold modify in H. rewrite He in H. done.
Qed.

Lemma notifyChildren_terminates unblock children c w w' :
  (forall c w w', unblock c w = Some w' -> evolves none w w') ->
  (forall c w w', unblock c w = Some w' -> completedAt c w') ->
  c ∈ children -> notifyChildren unblock children w = Some w' -> completedAt c w'.
Proof.
  intros Hev Hc Hin H. revert w H. induction children as [|x children IH]; intros w H; [by apply elem_of_nil in Hin|].
  simpl in H. stepin H. stepin H. pose proof (addRef_evolves _ _ _ _ E0) as D2.
  apply elem_of_cons in Hin as [->|Hin]; [|by eapply (IH Hin w1)].
  eapply completedAt_evolves; [by eapply notifyChildren_evolves|]. eapply completedAt_evolves; [exact D2|]. exact (Hc _ _ _ E).
Qed.

(** What telling the children does to one of them. *)
Lemma unblockThis_child fuel id st w w' e c ec :
  events w !! id = Some e -> c ∈ childEventsToNotify e -> events w !! c = Some ec ->
  unblockEventsBlockedByThis isCompleted csrTaskLevel csrTaskCount submit fuel id st w = Some w' ->
  (exists ec', events w' !! c = Some ec' /\ parentCount ec' <= parentCount ec - occurrences c (childEventsToNotify e)) /\
  (parentCount ec <= occurrences c (childEventsToNotify e) -> submittedAt c w') /\ (st < 0 -> completedAt c w').
Proof.
  intros He Hin Hc H. destruct fuel as [|fuel]; [done|].
  cbn [setStatus unblockEventsBlockedByThis unblockEventBy updateExecutionStatus] in H. rewrite He in H. cbn [mbind option_bind] in H.
  destruct (if _ : bool then _ else _) as [level propagate]. stepin H. pose proof (detach_evolves _ _ _ _ _ He E) as D.
  destruct (evolves_lookup _ _ _ _ _ D Hc) as (l & ec1 & Hc1 & T). pose proof (se_parents _ _ _ _ T).
  assert (forall c' w1 w2, unblockEventBy isCompleted csrTaskLevel csrTaskCount submit fuel c' propagate st w1 = Some w2 -> evolves none w1 w2) as Hev.
  { intros c' w1 w2. apply (proj1 (proj2 (proj2 (operations_evolve fuel)))). }
  split.
  2: split; [|intros Hst; eapply notifyChildren_terminates; [exact Hev| |exact Hin|exact H]; intros ??? Hx; exact (unblockBy_terminates_event _ _ _ _ _ _ Hst Hx)].
  all: eapply notifyChildren_child in H as [(ec' & Hc' & Hp) Hs]; [|exact Hev| |exact Hin|exact Hc1].
  2,4: intros c' w1 w2 e1 Hc' Hu; destruct (unblockEventBy_child _ _ _ _ _ _ _ Hc' Hu) as (? & ? & _); done.
  - exists ec'. split; [done|]. lia.
  - intros Hle. apply Hs. lia.
Qed.

(** The part of [setStatus] that tells the children. *)
Lemma setStatus_unblocks fuel id st w w' e :
  events w !! id = Some e -> setStatus isCompleted csrTaskLevel csrTaskCount submit fuel id st w = Some (true, w') ->
  proceeds (statusFor e st) = true ->
  exists fuel' w3 e3 w4 d, evolves d w w3 /\ events w3 !! id = Some e3 /\ childEventsToNotify e3 = childEventsToNotify e /\
    unblockEventsBlockedByThis isCompleted csrTaskLevel csrTaskCount submit fuel' id (statusFor e st) w3 = Some w4 /\
    exists d', evolves d' w4 w'.
Proof.
  intros He H Hp. destruct fuel as [|fuel]; [done|].
  cbn [setStatus unblockEventsBlockedByThis unblockEventBy updateExecutionStatus] in H.
  rewrite He in H. cbn [mbind option_bind] in H. fold (statusFor e st) in H. set (st' := statusFor e st) in *.
  destruct (isStatusCompleted (executionStatus e)) eqn:Hd; [done|]. destruct (decide (st' = executionStatus e)); [done|].
  destruct (peekIsBlocked e && _); [done|].
  rewrite (orb_comm (bool_decide (st' = CL_SUBMITTED))) in H. fold (proceeds st') in H. rewrite Hp in H. stepin H. rename w0 into w1.
  destruct (submitCommand_children _ _ _ _ _ E He) as (e1 & He1 & C1).
  destruct (submitCommand_status _ _ _ _ _ E He) as (e1' & He1' & S1). assert (e1' = e1) as -> by congruence.
  pose proof (submitCommand_evolves _ _ _ _ E) as D1. stepin H. pose proof (addRef_evolves _ _ _ _ E0) as D2.
  apply modify_lookup in E0 as (x2 & Hx2 & He2 & _). assert (x2 = e1) as -> by congruence.
  stepin H. assert (evolves none w0 w2) as D3.
  { eapply transition_evolves; [exact E0|]. intros _ y Hy. assert (y = addRef 1 e1) as -> by congruence. simpl.
    destruct (decide (executionStatus e <= 0)) as [Hle|]; [|lia]. apply isStatusCompleted_spec in Hle. congruence. }
  apply modify_lookup in E0 as (x3 & Hx3 & He3 & _). assert (x3 = addRef 1 e1) as -> by congruence.
  stepin H. rename w3 into w4. stepin H. rename w3 into w5. stepin H. simplify_eq.
  eexists fuel, w2, _, w4, _. split; [exact (evolves_trans _ _ _ _ _ D1 (evolves_trans _ _ _ _ _ D2 D3))|].
  split; [exact He3|]. split; [unfold transitionExecutionStatus; destruct (decide (st' < _)); simpl; by rewrite C1|].
  split; [exact E0|]. eexists. eapply evolves_trans; [by eapply executeCallbacks_evolves|by eapply addRef_evolves].
Qed.

(** What a call does to one of the children. *)
Lemma setStatus_child fuel id st w w' e c ec :
  events w !! id = Some e -> setStatus isCompleted csrTaskLevel csrTaskCount submit fuel id st w = Some (true, w') ->
  proceeds (statusFor e st) = true -> c ∈ childEventsToNotify e -> events w !! c = Some ec ->
  (exists ec', events w' !! c = Some ec' /\ parentCount ec' <= parentCount ec - occurrences c (childEventsToNotify e)) /\
  (parentCount ec <= occurrences c (childEventsToNotify e) -> submittedAt c w') /\ (statusFor e st < 0 -> completedAt c w').
Proof.
  intros He H Hp Hin Hc. destruct (setStatus_unblocks _ _ _ _ _ _ He H Hp) as (fuel' & w3 & e3 & w4 & d & D & He3 & C3 & Hu & d' & D').
  destruct (evolves_lookup _ _ _ _ _ D Hc) as (l & ec3 & Hc3 & T). pose proof (se_parents _ _ _ _ T). rewrite <- C3 in *.
  destruct (unblockThis_child _ _ _ _ _ _ _ _ He3 Hin Hc3 Hu) as ((ec4 & Hc4 & Hp4) & Hs & Ht).
  destruct (evolves_lookup _ _ _ _ _ D' Hc4) as (l' & ec' & Hc' & T'). pose proof (se_parents _ _ _ _ T').
  split; [exists ec'; split; [done|lia]|]. split.
  - intros Hle. eapply submittedAt_evolves; [exact D'|]. apply Hs. lia.
  - intros Hst. eapply completedAt_evolves; [exact D'|]. by apply Ht.
Qed.

Lemma setStatus_terminates_children fuel id st w w' e c :
  st < 0 -> events w !! id = Some e -> c ∈ childEventsToNotify e ->
  setStatus isCompleted csrTaskLevel csrTaskCount submit fuel id st w = Some (true, w') -> completedAt c w'.
Proof.
  intros Hst He Hin H. assert (statusFor e st = st) as Es.
  { unfold statusFor, isStatusCompletedByTermination. rewrite (bool_decide_eq_true_2 (st < 0)) by done. by rewrite andb_false_r. }
  assert (proceeds st = true) as Hp by (apply orb_true_iff; left; apply isStatusCompleted_spec; lia).
  destruct (setStatus_unblocks _ _ _ _ _ _ He H) as (fuel' & w3 & e3 & w4 & d & D & He3 & C3 & Hu & d' & D'); [by rewrite Es|].
  rewrite Es in Hu. eapply completedAt_evolves; [exact D'|]. rewrite <- C3 in Hin.
  destruct fuel' as [|fuel']; [done|].
  cbn [setStatus unblockEventsBlockedByThis unblockEventBy updateExecutionStatus] in Hu. rewrite He3 in Hu. cbn [mbind option_bind] in Hu.
  destruct (if _ : bool then _ else _) as [level propagate]. stepin Hu.
  eapply notifyChildren_terminates; [| |exact Hin|exact Hu].
  - intros c' w1 w2. apply (proj1 (proj2 (proj2 (operations_evolve fuel')))).
  - intros c' w1 w2. by apply unblockBy_terminates_event.
Qed.

(** What a call that is not refused has done, [l] being what happened outside. *)
Record reached (id st : Z) (l : list Action) (w w' : World) (e e' : Event) : Prop := {
  rs_status : executionStatus e' <= st;
  rs_callbacks : forall j cbs, callbacks e' !! j = Some cbs -> reachedTarget st j = true -> cbs = [];
  rs_ran : cbIds e ≡ₚ cbIds e' ++ ranIn id l;
  rs_submitted : option_list (cmdToSubmit e) ≡ₚ option_list (cmdToSubmit e') ++ submittedIn id l;
  rs_proceeds : proceeds st = true -> cmdToSubmit e' = None /\ childEventsToNotify e' = [];
  rs_children : proceeds st = true -> forall c ec, c ∈ childEventsToNotify e -> events w !! c = Some ec ->
    exists ec', events w' !! c = Some ec' /\ parentCount ec' <= parentCount ec - occurrences c (childEventsToNotify e) /\
      (parentCount ec <= occurrences c (childEventsToNotify e) -> executionStatus ec' <= CL_SUBMITTED);
  rs_only : proceeds st = false -> exists cs r,
    events w' = <[id := setCallbacks cs (addRef r (setExecution (Z.min st (executionStatus e)) e))]> (events w) /\
    forall j, cs !! j = if reachedTarget st j then (fun _ => []) <$> callbacks e !! j else callbacks e !! j }.

Lemma setStatus_reaches fuel id st w b w' e :
  events w !! id = Some e -> length (callbacks e) = 4%nat ->
  setStatus isCompleted csrTaskLevel csrTaskCount submit fuel id st w = Some (b, w') ->
  if refuses e (statusFor e st) then b = false /\ w' = w
  else b = true /\ exists e' l, events w' !! id = Some e' /\ log w' = log w ++ l /\ reached id (statusFor e st) l w w' e e' /\
       (isStatusCompleted (statusFor e st) = true -> settled (statusFor e st) e').
Proof.
  intros He Hl H. pose proof (setStatus_transitions _ _ _ _ _ _ _ He H) as S. cbv zeta in S. set (st' := statusFor e st) in *.
  destruct (refuses e st'); [done|]. destruct S as (-> & Hpos & fuel' & w1 & e1 & e' & _ & Hw1 & D1 & He1 & S1 & C1 & K1 & He' & T).
  split; [done|]. destruct (proj1 (operations_evolve fuel) _ _ _ _ _ H) as (l & El & D). specialize (D id). rewrite He, He' in D. destruct D as [D _].
  exists e', l. split; [done|]. split; [done|]. split; [split|].
  - apply (tr_status _ _ _ _ _ _ T).
  - apply (tr_callbacks _ _ _ _ _ _ T).
  - apply (se_callbacks _ _ _ _ D).
  - apply (se_command _ _ _ _ D).
  - intros Hp. split; [apply (tr_command _ _ _ _ _ _ T); auto|by apply (tr_children _ _ _ _ _ _ T)].
  - intros Hp c ec Hin Hc. destruct (setStatus_child _ _ _ _ _ _ _ _ He H Hp Hin Hc) as ((ec' & Hc' & Hpc) & Hs & _).
    exists ec'. split; [done|]. split; [done|]. intros Hle. destruct (Hs Hle) as (x & Hx & Hxs). by simplify_eq.
  - intros Hp. destruct Hw1 as [->|Hp']; [|congruence]. assert (e1 = e) as -> by congruence. by apply (tr_only _ _ _ _ _ _ T).
  - intros Hst. assert (proceeds st' = true) as Hp by (unfold proceeds; by rewrite Hst).
    split_and!; [by apply (tr_completed _ _ _ _ _ _ T)| |by apply (tr_children _ _ _ _ _ _ T)|apply (tr_command _ _ _ _ _ _ T); auto].
    assert (forall cbs, cbs ∈ callbacks e' -> cbs = []) as Hall.
    { intros cbs [j Hj]%list_elem_of_lookup. apply (tr_callbacks _ _ _ _ _ _ T j cbs Hj), reachedTarget_completed; [done|].
      rewrite <- Hl, <- (se_targets _ _ _ _ D). by eapply lookup_lt_Some. }
    unfold cbIds. clear -Hall. induction (callbacks e') as [|cbs cl IH]; [done|]. simpl.
    rewrite (Hall cbs) by left. apply IH. intros c Hc. apply Hall. by right.
Qed.
End preservation.

(** ** Histories of calls *)

(** What an application and the driver call on events. *)
Inductive Call :=
  | CallSetStatus (id status : Z)
  | CallUpdateStatus (id : Z)
  | CallAddCallback (id function type : Z)
  | CallAddChild (id child : Z)
  | CallSetCommand (id command : Z).

(** The callbacks and the commands that the calls give to [id]. *)
Definition registered (id : Z) (calls : list Call) : list Z :=
  omap (fun c => match c with
    | CallAddCallback i f t => if decide (i = id) then (fun _ => f) <$> translateToCallbackTarget t else None | _ => None end) calls.
Definition given (id : Z) (calls : list Call) : list Z :=
  omap (fun c => match c with CallSetCommand i k => if decide (i = id) then Some k else None | _ => None end) calls.

Section histories.
Context (isCompleted : list Action -> Z -> bool) (csrTaskLevel csrTaskCount : list Action -> Z)
  (submit : list Action -> Z -> Z -> bool -> Z) (async : bool).

Definition runCall (fuel : nat) (c : Call) (w : World) : option World :=
  match c with
  | CallSetStatus id st => snd <$> setStatus isCompleted csrTaskLevel csrTaskCount submit fuel id st w
  | CallUpdateStatus id => snd <$> updateStatusAndCheckCompletion isCompleted csrTaskLevel csrTaskCount submit fuel id w
  | CallAddCallback id f t => addCallback isCompleted csrTaskLevel csrTaskCount submit async fuel id f t w
  | CallAddChild id child => addChild isCompleted csrTaskLevel csrTaskCount submit fuel id child w
  | CallSetCommand id k => setCommand id k w
  end.
Fixpoint runCalls (fuel : nat) (calls : list Call) (w : World) : option World :=
  match calls with
  | [] => Some w
  | c :: calls => w ← runCall fuel c w; runCalls fuel calls w
  end.

(** One event before and after [calls], [l] being the actions meanwhile: its
    status never rises and a completed one stays; every callback it was given
    has run once or still waits; every command was submitted once or still
    waits; the references it holds are its callbacks' and its parents'. *)
Record accountsFor (id : Z) (calls : list Call) (l : list Action) (w w' : World) (e e' : Event) : Prop := {
  af_status : executionStatus e' <= executionStatus e;
  af_done : executionStatus e <= 0 -> executionStatus e' = executionStatus e;
  af_targets : length (callbacks e') = length (callbacks e);
  af_callbacks : cbIds e ++ registered id calls ≡ₚ cbIds e' ++ ranIn id l;
  af_commands : option_list (cmdToSubmit e) ++ given id calls ≡ₚ option_list (cmdToSubmit e') ++ submittedIn id l;
  af_held : held id e' (events w') = held id e (events w) }.

Definition accounts (calls : list Call) (w w' : World) : Prop :=
  exists l, log w' = log w ++ l /\
  forall id, match events w !! id, events w' !! id with
  | Some e, Some e' => accountsFor id calls l w w' e e'
  | None, None => True
  | _, _ => False
  end.

Lemma accounts_quiet calls w w' :
  (forall id, registered id calls = [] /\ given id calls = []) -> evolves none w w' -> accounts calls w w'.
Proof.
  intros Hq (l & E & H). exists l. split; [done|]. intros id. specialize (H id). destruct (Hq id) as [Hr Hg].
  destruct (events w !! id), (events w' !! id); try done. destruct H as [Hs Hh].
  split; [apply (se_status _ _ _ _ Hs)|apply (se_done _ _ _ _ Hs)|apply (se_targets _ _ _ _ Hs)|..];
    rewrite ?Hr, ?Hg, ?app_nil_r; [apply (se_callbacks _ _ _ _ Hs)|apply (se_command _ _ _ _ Hs)|unfold none in Hh; lia].
Qed.

Lemma accounts_trans a b w1 w2 w3 : accounts a w1 w2 -> accounts b w2 w3 -> accounts (a ++ b) w1 w3.
Proof.
  intros (l1 & E1 & H1) (l2 & E2 & H2). exists (l1 ++ l2). rewrite E2, E1, app_assoc. split; [done|].
  intros id. specialize (H1 id). specialize (H2 id). unfold registered, given in *.
  destruct (events w1 !! id), (events w2 !! id), (events w3 !! id); try done.
  destruct H1 as [S1 D1 T1 C1 K1 R1], H2 as [S2 D2 T2 C2 K2 R2]. split.
  - lia.
  - intros Hd. rewrite D2, D1; [done|done|]. rewrite D1; done.
  - congruence.
  - unfold registered in *. rewrite omap_app, app_assoc, C1, ranIn_app, <- app_assoc,
      (Permutation_app_comm (ranIn id l1)), app_assoc, C2, <- app_assoc. f_equiv. apply Permutation_app_comm.
  - unfold given in *. rewrite omap_app, app_assoc, K1, submittedIn_app, <- app_assoc,
      (Permutation_app_comm (submittedIn id l1)), app_assoc, K2, <- app_assoc. f_equiv. apply Permutation_app_comm.
  - congruence.
Qed.

(** An event that a call does not touch. *)
Lemma untouched id calls w w' e :
  registered id calls = [] -> given id calls = [] -> (pending id (events w') = pending id (events w)) ->
  accountsFor id calls [] w w' e e.
Proof. intros Hr Hg Hp. split; rewrite ?Hr, ?Hg; try done. unfold held. lia. Qed.

Lemma withCallback_accounts id fn type target e w :
  events w !! id = Some e -> length (callbacks e) = 4%nat -> translateToCallbackTarget type = Some target ->
  accounts [CallAddCallback id fn type] w (withCallback id fn type target e w).
Proof.
  intros He Hl Ht. exists []. rewrite app_nil_r. split; [done|]. intros j. unfold withCallback. simpl.
  assert (forall c e', childEventsToNotify e' = childEventsToNotify e -> pending c (<[id := e']> (events w)) = pending c (events w)) as Hp.
  { intros c e' E. rewrite (pending_insert c id e _ _ He), E. lia. }
  destruct (decide (j = id)) as [->|Hne].
  2:{ rewrite lookup_insert_ne by done. destruct (events w !! j); [|done]. apply untouched; [|done|by apply Hp].
      unfold registered. simpl. by rewrite decide_False. }
  rewrite lookup_insert_eq, He. unfold registered, given. 
  assert (concat (alter (cons (mkCallback fn type)) (targetIndex target) (callbacks e)) ≡ₚ mkCallback fn type :: concat (callbacks e)) as HP.
  { destruct (callbacks e) as [|a [|b [|c [|d [|]]]]]; try done. destruct target; simpl; solve_Permutation. }
  split; simpl; rewrite ?decide_True, ?Ht by done; simpl; try done.
  - by rewrite length_alter.
  - unfold cbIds. simpl. rewrite HP. simpl. rewrite app_nil_r. apply Permutation_app_comm.
  - unfold held. simpl. rewrite Hp by done. unfold cbIds. simpl. rewrite !length_fmap, (Permutation_length HP). simpl. lia.
Qed.

Lemma withChild_accounts id child w w0 :
  withChild id child w = Some w0 -> accounts [CallAddChild id child] w w0.
Proof.
  unfold withChild. intros H. destruct (modify child _ w) as [w1|] eqn:E1; [|done]. cbn [mbind option_bind] in H.
  apply modify_inv in E1 as (c & Hc & ->). apply modify_inv in H as (e & He & ->). simpl in *.
  exists []. simpl. rewrite app_nil_r. split; [done|]. intros j. 
  assert (forall k, pending k (<[id := setChildren (child :: childEventsToNotify e) e]>
      (<[child := addRef 1 (setParents (parentCount c + 1) c)]> (events w))) = pending k (events w) + (if decide (child = k) then 1 else 0)) as Hp.
  { intros k. rewrite (pending_insert k id e _ _ He), (pending_insert k child c _ _ Hc). simpl. rewrite occurrences_cons. lia. }
  destruct (decide (j = id)) as [->|Hj].
  - rewrite lookup_insert_eq. destruct (decide (id = child)) as [->|Hne].
    + rewrite lookup_insert_eq in He. simplify_eq. rewrite Hc. split; try done; simpl; rewrite ?app_nil_r; try done.
      unfold held. simpl. rewrite Hp, decide_True by done. unfold cbIds. simpl. lia.
    + rewrite lookup_insert_ne in He by done. rewrite He. split; try done; simpl; rewrite ?app_nil_r; try done.
      unfold held. simpl. rewrite Hp, decide_False by done. unfold cbIds. simpl. lia.
  - rewrite lookup_insert_ne by done. destruct (decide (j = child)) as [->|Hj2].
    + rewrite lookup_insert_eq, Hc. split; try done; simpl; rewrite ?app_nil_r; try done.
      unfold held. simpl. rewrite Hp, decide_True by done. unfold cbIds. simpl. lia.
    + rewrite lookup_insert_ne by done. destruct (events w !! j); [|done]. apply untouched; try done. simpl.
      rewrite Hp, decide_False by done. lia.
Qed.

Lemma setCommand_accounts id k w w' : setCommand id k w = Some w' -> accounts [CallSetCommand id k] w w'.
Proof.
  unfold setCommand. destruct (events w !! id) as [e|] eqn:He; [|done]. cbn [mbind option_bind].
  destruct (cmdToSubmit e) eqn:Hc; [done|]. intros [= <-]. exists []. rewrite app_nil_r. split; [done|]. intros j. simpl.
  destruct (decide (j = id)) as [->|Hne].
  - rewrite lookup_insert_eq, He. unfold registered, given. split; simpl; rewrite ?Hc, ?decide_True, ?app_nil_r by done; try done.
    unfold held. simpl. rewrite (pending_insert id id e _ _ He). unfold cbIds. simpl. lia.
  - rewrite lookup_insert_ne by done. destruct (events w !! j); [|done]. apply untouched; [done| |].
    + unfold given. simpl. by rewrite decide_False.
    + simpl. rewrite (pending_insert j id e _ _ He). simpl. lia.
Qed.

Lemma call_accounts fuel c w w' : fourLists w -> runCall fuel c w = Some w' -> accounts [c] w w'.
Proof.
  intros Hl H. destruct c as [id st|id|id f t|id child|id k]; simpl in H.
  - destruct (setStatus _ _ _ _ _ _ _ _) as [[b w1]|] eqn:E; [|done]. simplify_eq/=.
    apply accounts_quiet; [done|]. exact (proj1 (operations_evolve _ _ _ _ fuel) _ _ _ _ _ E).
  - destruct (updateStatusAndCheckCompletion _ _ _ _ _ _ _) as [[b w1]|] eqn:E; [|done]. simplify_eq/=.
    apply accounts_quiet; [done|]. by eapply updateStatus_evolves.
  - destruct (translateToCallbackTarget t) as [target|] eqn:Ht.
    + destruct (addCallback_evolves _ _ _ _ _ _ _ _ _ _ _ _ H Ht) as (e & He & Hev).
      change [CallAddCallback id f t] with ([CallAddCallback id f t] ++ []).
      eapply accounts_trans; [apply (withCallback_accounts id f t target e w He); [by apply (Hl id)|done]|by apply accounts_quiet].
    + unfold addCallback in H. rewrite Ht in H. simplify_eq. apply accounts_quiet; [|apply evolves_refl].
      intros j. unfold registered. simpl. rewrite Ht. by case_decide.
  - destruct (addChild_evolves _ _ _ _ _ _ _ _ _ H) as (w0 & Hw0 & Hev).
    change [CallAddChild id child] with ([CallAddChild id child] ++ []).
    eapply accounts_trans; [by apply withChild_accounts|by apply accounts_quiet].
  - by apply setCommand_accounts.
Qed.

Lemma accounts_fourLists calls w w' : accounts calls w w' -> fourLists w -> fourLists w'.
Proof.
  intros (l & _ & H) Hw id e' He'. specialize (H id). rewrite He' in H. destruct (events w !! id) as [e|] eqn:He; [|done].
  rewrite (af_targets _ _ _ _ _ _ _ H). by eapply Hw.
Qed.

(** C7: every call on events accounts for what it was given.  Whatever
    sequence of [setStatus], [updateExecutionStatus], [addCallback], [addChild]
    and [setCommand] the application and the driver make, on any graph of
    events, the execution status of an event never rises and a completed or
    terminated status never changes; each callback an event was given has been
    called exactly once or still waits; each command was submitted exactly once
    or still waits; and the internal references to an event beyond those of its
    waiting callbacks and of the parents it waits for are as before. *)
Theorem event_calls_account fuel calls w w' :
  fourLists w -> runCalls fuel calls w = Some w' -> accounts calls w w'.
Proof.
  revert w. induction calls as [|c calls IH]; intros w Hl H; simpl in H.
  { simplify_eq. apply accounts_quiet; [done|apply evolves_refl]. }
  destruct (runCall fuel c w) as [w1|] eqn:Hc; [|done]. cbn [mbind option_bind] in H.
  pose proof (call_accounts _ _ _ _ Hl Hc) as A. change (c :: calls) with ([c] ++ calls).
  eapply accounts_trans; [done|]. apply IH; [|done]. by eapply accounts_fourLists.
Qed.

(** C20: what [setStatus] does on every branch.  A completed event, a
    status the event has already, and a blocked event asked for anything but
    termination are left alone, with answer false.  Otherwise the answer is true
    and ([reached]):
    - the status is at most the one asked for;
    - no callback registered for it or an earlier one waits any more, each
      callback that no longer waits was called once, and the command, if it no
      longer waits, was submitted once;
    - for a submitted, completed or terminated event, the command has been
      submitted and the children are detached, each with at least as many
      parents fewer as it waited for this event, and each that waited for nothing else is
      submitted, completed or terminated;
    - for any other status nothing has changed but the status, now the smaller
      of the old and the new, and the lists of called callbacks with their
      references.
    A completing status is taken exactly, and no callback of any kind waits any
    more. *)
Theorem set_status_settles fuel id st w b w' e :
  events w !! id = Some e -> length (callbacks e) = 4%nat ->
  setStatus isCompleted csrTaskLevel csrTaskCount submit fuel id st w = Some (b, w') ->
  let st' := if bool_decide (kind e = VirtualEvent) && negb (isStatusCompletedByTermination st) then CL_COMPLETE else st in
  if isStatusCompleted (executionStatus e) || bool_decide (st' = executionStatus e) ||
     (peekIsBlocked e && negb (isStatusCompletedByTermination st'))
  then b = false /\ w' = w
  else b = true /\ exists e' l, events w' !! id = Some e' /\ log w' = log w ++ l /\ reached id st' l w w' e e' /\
       (isStatusCompleted st' = true -> settled st' e').
Proof. apply setStatus_reaches. Qed.

(** C21: on an event graph without cycles, whose children exist and have
    a queue, setting a status and updating the status return: the fuel they
    need is three times the height of the event plus two. *)
Theorem event_graph_terminates h fuel id st w e :
  acyclic h w -> events w !! id = Some e -> (3 * h id + 2 <= fuel)%nat ->
  (exists b w', setStatus isCompleted csrTaskLevel csrTaskCount submit fuel id st w = Some (b, w')) /\
  (exists b w', updateStatusAndCheckCompletion isCompleted csrTaskLevel csrTaskCount submit fuel id w = Some (b, w')).
Proof.
  intros Ha He Hf. assert (ready h id (hasQueue e) w) as Hr by (split; eauto).
  destruct (operations_terminate isCompleted csrTaskLevel csrTaskCount submit h fuel) as (Ts & _ & _ & Te). split.
  - destruct (Ts _ _ st _ Hr Hf) as ([b w'] & _ & E & _). eauto.
  - destruct (Te _ _ _ Hr Hf) as (w' & d & E & D). unfold updateStatusAndCheckCompletion. rewrite E. cbn [mbind option_bind].
    destruct (evolves_lookup _ _ _ _ _ D He) as (l & e' & He' & _). rewrite He'. cbn. eauto.
Qed.

(** C22: terminating an event reaches its children: after [setStatus]
    with a negative status has taken effect, every event that waited for it is
    completed, however many other parents it still waits for. *)
Theorem termination_reaches_children fuel id st w w' e c :
  fourLists w -> st < 0 -> events w !! id = Some e -> c ∈ childEventsToNotify e ->
  setStatus isCompleted csrTaskLevel csrTaskCount submit fuel id st w = Some (true, w') ->
  exists ec, events w' !! c = Some ec /\ isStatusCompleted (executionStatus ec) = true.
Proof. intros _. apply setStatus_terminates_children. Qed.
End histories.

(** ** Timestamps *)

(** the time between two timestamps of 32 bits is their difference,
    and one less than the difference modulo 2^32 when the counter has wrapped
    in between. *)
Theorem delta_of_timestamps a b :
  let s := a mod 2 ^ 32 in let e := b mod 2 ^ 32 in
  getDelta a b = if decide (s <= e) then e - s else (e - s) mod 2 ^ 32 - 1.
Proof.
  cbv zeta. unfold getDelta. change (Z.shiftl 1 32 - 1) with (Z.ones 32). rewrite !Z.land_ones by lia.
  pose proof (Z.mod_pos_bound a (2 ^ 32) ltac:(lia)). pose proof (Z.mod_pos_bound b (2 ^ 32) ltac:(lia)).
  generalize dependent (a mod 2 ^ 32). generalize dependent (b mod 2 ^ 32). intros e He s Hs.
  change (Z.ones 32) with 4294967295. change (2 ^ 32) with 4294967296 in *.
  destruct (decide (s <= e)) as [Hle|Hgt].
  - rewrite decide_False by lia. rewrite wrap_small; [done|]. unfold uint. lia.
  - rewrite decide_True by lia. rewrite <- (Z.mod_unique (e - s) 4294967296 (-1) (e - s + 4294967296)) by lia.
    rewrite (wrap_small 64 (4294967295 - s)) by (unfold uint; lia). rewrite wrap_small; [lia|]. unfold uint. lia.
Qed.

(** ** Concrete runs *)

(** A user event and two events of a queue, of which the second also waits for
    the first. *)
Definition exampleWorld : World :=
  mkWorld {[ 1 := newUserEvent; 2 := newEvent BaseEvent true eventNotReady eventNotReady; 3 := newVirtualEvent true ]} [].
Definition exampleCalls : list Call :=
  [CallSetCommand 2 40; CallAddChild 1 2; CallAddChild 2 3; CallAddChild 1 3; CallAddCallback 2 70 CL_COMPLETE;
   CallAddCallback 2 71 CL_SUBMITTED; CallSetStatus 1 (-5); CallAddCallback 1 72 CL_COMPLETE].
Definition exampleRun := runCalls (fun _ _ => false) (fun _ => 5) (fun _ => 7) (fun _ _ _ _ => 9) true 20.
Definition connected : World := default (mkWorld ∅ []) (exampleRun (take 6 exampleCalls) exampleWorld).

(** Terminating the user event terminates the others, submits the command with
    the abort flag, and calls each callback once with the status. *)
Example example_log :
  log <$> exampleRun exampleCalls exampleWorld =
    Some [RegisterAsync 2; RegisterAsync 2; Submit 2 40 eventNotReady true; Ran 2 71 (-5); Ran 2 70 (-5); Ran 1 72 (-5)].
Proof. vm_compute. reflexivity. Qed.

Lemma fourLists_decide w : map_Forall (fun _ e => length (callbacks e) = 4%nat) (events w) -> fourLists w.
Proof. intros H id e He. by apply (H id e). Qed.

Lemma event_calls_account_witness :
  exists w', exampleRun exampleCalls exampleWorld = Some w' /\ accounts exampleCalls exampleWorld w'.
Proof.
  destruct (exampleRun exampleCalls exampleWorld) as [w'|] eqn:E; [|by vm_compute in E]. exists w'. split; [done|].
  refine (event_calls_account _ _ _ _ _ _ _ _ _ _ E). apply fourLists_decide. eval_decide.
Defined.

Definition exampleSetStatus := setStatus (fun _ _ => false) (fun _ => 5) (fun _ => 7) (fun _ _ _ _ => 9) 20.

(** Terminating the user event settles it; submitting it submits event 2, which
    waits for nothing else. *)
Lemma set_status_settles_witness :
  (exists w' e', exampleSetStatus 1 (-5) connected = Some (true, w') /\ events w' !! 1 = Some e' /\ settled (-5) e') /\
  (exists w' e2, exampleSetStatus 1 CL_SUBMITTED connected = Some (true, w') /\ events w' !! 2 = Some e2 /\
     executionStatus e2 <= CL_SUBMITTED).
Proof.
  assert (events connected !! 1 = Some (setChildren [3; 2] newUserEvent)) as He by (vm_compute; reflexivity). split.
  - destruct (exampleSetStatus 1 (-5) connected) as [[b w']|] eqn:E; [|by vm_compute in E].
    destruct (set_status_settles _ _ _ _ 20 1 (-5) connected b w' _ He eq_refl E) as (-> & e' & l & He' & _ & _ & Hs).
    exists w', e'. split; [done|]. split; [done|]. by apply Hs.
  - destruct (exampleSetStatus 1 CL_SUBMITTED connected) as [[b w']|] eqn:E; [|by vm_compute in E].
    destruct (events connected !! 2) as [e2|] eqn:He2; [|by vm_compute in He2].
    destruct (set_status_settles _ _ _ _ 20 1 CL_SUBMITTED connected b w' _ He eq_refl E) as (-> & e' & l & _ & _ & Hr & _).
    assert (2 ∈ childEventsToNotify (setChildren [3; 2] newUserEvent)) as Hin
      by exact (list_elem_of_further 2 3 [2] (list_elem_of_here 2 [])).
    destruct (rs_children _ _ _ _ _ _ _ Hr eq_refl 2 e2 Hin He2) as (e2' & He2' & _ & Hs).
    exists w', e2'. split; [done|]. split; [exact He2'|]. apply Hs. vm_compute in He2. injection He2 as <-. vm_compute. discriminate.
Defined.

Definition exampleHeight (id : Z) : nat := Z.to_nat (3 - id).
Lemma event_graph_terminates_witness :
  acyclic exampleHeight connected /\ exists b w', exampleSetStatus 1 CL_COMPLETE connected = Some (b, w').
Proof.
  assert (acyclic exampleHeight connected) as Ha.
  { intros id e He.
    assert (map_Forall (fun id e => length (callbacks e) = 4%nat /\ Forall (fun c => is_Some (ec ← events connected !! c; guard (hasQueue ec = true);; Some ()) /\
      (exampleHeight c < exampleHeight id)%nat) (childEventsToNotify e)) (events connected)) as H by eval_decide.
    destruct (H id e He) as [Hl Hc]. split; [done|]. intros c Hin. rewrite Forall_forall in Hc.
    destruct (Hc c Hin) as [[? Hq] Hlt]. destruct (events connected !! c) as [ec|]; [|done]. exists ec.
    cbn [mbind option_bind] in Hq. case_guard; [done|done]. }
  split; [done|]. assert (events connected !! 1 = Some (setChildren [3; 2] newUserEvent)) as He by (vm_compute; reflexivity).
  refine (proj1 (event_graph_terminates (fun _ _ => false) (fun _ => 5) (fun _ => 7) (fun _ _ _ _ => 9) exampleHeight 20 1 CL_COMPLETE
    connected _ Ha He _)). vm_compute. lia.
Defined.

Lemma termination_reaches_children_witness :
  exists w' ec, exampleSetStatus 1 (-5) connected = Some (true, w') /\ events w' !! 2 = Some ec /\
    isStatusCompleted (executionStatus ec) = true.
Proof.
  destruct (exampleSetStatus 1 (-5) connected) as [[b w']|] eqn:E; [|by vm_compute in E].
  assert (events connected !! 1 = Some (setChildren [3; 2] newUserEvent)) as He by (vm_compute; reflexivity).
  assert (b = true) as ->.
  { assert (fst <$> exampleSetStatus 1 (-5) connected = Some true) as Hb by (vm_compute; reflexivity).
    rewrite E in Hb. by injection Hb. }
  assert (fourLists connected) as Hl by (apply fourLists_decide; eval_decide).
  assert (2 ∈ childEventsToNotify (setChildren [3; 2] newUserEvent)) as Hin
    by exact (list_elem_of_further 2 3 [2] (list_elem_of_here 2 [])).
  exists w'. unfold exampleSetStatus in E.
  destruct (termination_reaches_children _ _ _ _ 20 1 (-5) connected w' _ 2 Hl eq_refl He Hin E) as (ec & Hec & Hd).
  exists ec. split; [reflexivity|]. split; [exact Hec|exact Hd].
Defined.
