(* ===== verification/TrimCandidates.v ===== *)
(** * Residency of allocations on Windows

    Model of [runtime/os_interface/windows/wddm_residency_controller.cpp]: the
    list of allocations that may be evicted, kept in an array with holes, and
    the operations that trim it or make allocations resident again.  One
    controller serves one OS context, so of the arrays indexed by the context
    an allocation keeps the entry of that context.  [None] is an access out of
    the bounds of the array, or too little fuel for a loop.

    The kernel-mode driver behind [Wddm] is a parameter: what it answers is a
    function of the calls made so far.  The spin locks are not modelled: every
    operation here runs under [lock], except the constructor. *)

From S2P Require Import Prelude.

Definition trimListUnusedPosition : Z := 2 ^ 64 - 1.

(** ** The list of trim candidates *)

Record TrimList := mkTrimList {
  trimCandidateList : list (option Z); trimCandidatesCount : Z;
  (** [trimCandidateListPositions] of every allocation *)
  positions : gmap Z Z }.

(** The scan reads the element before it compares the index with the size. *)
Fixpoint scanHead (l : list (option Z)) : option Z :=
  match l with
  | [] => None
  | Some a :: _ => Some a
  | None :: l => scanHead l
  end.

Definition getTrimCandidateHead (t : TrimList) : option (option Z) :=
  match trimCandidateList t with
  | [] => Some None
  | l => a ← scanHead l; Some (Some a)
  end.

Definition addToTrimCandidateList (allocation : Z) (t : TrimList) : option TrimList :=
  p ← positions t !! allocation;
  let position := Z.of_nat (length (trimCandidateList t)) in
  if decide (p = trimListUnusedPosition) then
    Some (mkTrimList (trimCandidateList t ++ [Some allocation]) (w32 (trimCandidatesCount t + 1))
           (<[allocation := position]> (positions t)))
  else Some t.

(** [while (trimCandidateList[erasePosition] == nullptr && erasePosition > 0) erasePosition--] *)
Fixpoint erasePosition (l : list (option Z)) (e : nat) : nat :=
  match e with
  | O => O
  | S e' => match l !! e with Some None => erasePosition l e' | _ => e end
  end.

Definition checkTrimCandidateListCompaction (t : TrimList) : bool :=
  bool_decide (w32 (2 * trimCandidatesCount t) <= Z.of_nat (length (trimCandidateList t))).

(** [while (freePosition < trimCandidatesCount && trimCandidateList[freePosition] != nullptr) freePosition++] *)
Fixpoint firstFree (l : list (option Z)) (count : Z) (f : nat) : nat :=
  match l with
  | Some _ :: l => if decide (Z.of_nat f < count) then firstFree l count (S f) else f
  | _ => f
  end.

(** The moving loop, from index [i] on, [n] indices being left; it may shrink
    the list when it has moved the last element. *)
Fixpoint compactLoop (size : nat) (n i free : nat) (l : list (option Z)) (pos : gmap Z Z) : option (list (option Z) * gmap Z Z) :=
  match n with
  | O => Some (l, pos)
  | S n =>
      x ← l !! i;
      match x with
      | Some a =>
          if decide (free < i)%nat then
            let l := <[i := None]> (<[free := Some a]> l) in
            let pos := <[a := Z.of_nat free]> pos in
            let free := S free in
            let l := if decide (i = size - 1)%nat then take free l else l in
            compactLoop size n (S i) free l pos
          else compactLoop size n (S i) free l pos
      | None => compactLoop size n (S i) free l pos
      end
  end.

Definition compactTrimCandidateList (t : TrimList) : option TrimList :=
  let l := trimCandidateList t in
  let size := length l in
  if bool_decide (size = 0%nat) || bool_decide (Z.of_nat size = trimCandidatesCount t) then Some t
  else
    let free := firstFree l (trimCandidatesCount t) 0 in
    '(l, pos) ← compactLoop size (size - 1) 1 free l (positions t);
    Some (mkTrimList l (trimCandidatesCount t) pos).

Definition removeFromTrimCandidateList (allocation : Z) (compactList : bool) (t : TrimList) : option TrimList :=
  p ← positions t !! allocation;
  let position := Z.to_nat p in
  let count := w32 (trimCandidatesCount t - 1) in
  _ ← trimCandidateList t !! position;
  let l := <[position := None]> (trimCandidateList t) in
  let l :=
    if decide (position = length l - 1)%nat then
      if decide (position = 0)%nat then []
      else
        let e := erasePosition l position in
        let sizeRemaining := if bool_decide (e = 0%nat) && bool_decide (l !! e = Some None) then 0%nat else S e in
        take sizeRemaining l
    else l in
  let t := mkTrimList l count (<[allocation := trimListUnusedPosition]> (positions t)) in
  if compactList && checkTrimCandidateListCompaction t then compactTrimCandidateList t else Some t.

(** The parameter [compactList] is not used. *)
Definition removeFromTrimCandidateListIfUsed (allocation : Z) (compactList : bool) (t : TrimList) : option TrimList :=
  p ← positions t !! allocation;
  if decide (p <> trimListUnusedPosition) then removeFromTrimCandidateList allocation true t else Some t.

(** ** The sequence that the array represents *)

(** The candidates, oldest first. *)
Definition candidates (l : list (option Z)) : list Z := omap (fun x => x) l.

Definition endsOccupied (l : list (option Z)) : Prop := last l <> Some None.

Record trimOk (t : TrimList) : Prop := {
  to_count : trimCandidatesCount t = Z.of_nat (length (candidates (trimCandidateList t)));
  to_size : Z.of_nat (length (trimCandidateList t)) < 2 ^ 31;
  to_listed : forall i a, trimCandidateList t !! i = Some (Some a) -> positions t !! a = Some (Z.of_nat i);
  to_unlisted : forall a p, positions t !! a = Some p -> p <> trimListUnusedPosition ->
    0 <= p /\ trimCandidateList t !! Z.to_nat p = Some (Some a);
  to_last : endsOccupied (trimCandidateList t) }.

Lemma candidates_app a b : candidates (a ++ b) = candidates a ++ candidates b.
Proof. apply omap_app. Qed.

Lemma candidates_length l : (length (candidates l) <= length l)%nat.
Proof. induction l as [|[x|] l IH]; simpl; lia. Qed.

Lemma elem_of_candidates l a : a ∈ candidates l <-> exists i, l !! i = Some (Some a).
Proof.
  unfold candidates. rewrite list_elem_of_omap. split.
  - intros (x & Hx & ->). apply list_elem_of_lookup_1 in Hx as [i Hi]. by exists i.
  - intros [i Hi]. exists (Some a). split; [by eapply list_elem_of_lookup_2|done].
Qed.

(** Holes at the end do not count. *)
Lemma candidates_holes l : Forall (fun x => x = None) l -> candidates l = [].
Proof. induction 1 as [|x l -> _ IH]; done. Qed.

Lemma candidates_take n l : (forall i x, (n <= i)%nat -> l !! i = Some x -> x = None) -> candidates (take n l) = candidates l.
Proof.
  intros H. rewrite <- (take_drop n l) at 2. rewrite candidates_app, (candidates_holes (drop n l)), app_nil_r; [done|].
  apply Forall_lookup. intros i x Hx. rewrite lookup_drop in Hx. apply (H (n + i)%nat); [lia|done].
Qed.

Lemma candidates_hole l i : l !! i = Some None -> candidates (<[i := None]> l) = candidates l.
Proof. intros H. by rewrite list_insert_id. Qed.

(** Distinct positions make the sequence duplicate free. *)
Lemma candidates_nodup l : (forall i j a, l !! i = Some (Some a) -> l !! j = Some (Some a) -> i = j) -> NoDup (candidates l).
Proof.
  induction l as [|[x|] l IH]; intros H; simpl; [constructor| |].
  - constructor.
    + rewrite elem_of_candidates. intros [i Hi]. by specialize (H 0%nat (S i) x eq_refl Hi).
    + apply IH. intros i j a Hi Hj. specialize (H (S i) (S j) a Hi Hj). lia.
  - apply IH. intros i j a Hi Hj. specialize (H (S i) (S j) a Hi Hj). lia.
Qed.

Lemma filter_notin (a : Z) (q : list Z) : a ∉ q -> filter (fun x => x <> a) q = q.
Proof.
  induction q as [|y q IH]; intros Hn; [done|]. apply not_elem_of_cons in Hn as [Hne Hn].
  rewrite filter_cons, decide_True by congruence. f_equal. by apply IH.
Qed.

Lemma filter_length (a : Z) (q : list Z) : NoDup q -> a ∈ q -> length q = S (length (filter (fun x => x <> a) q)).
Proof.
  induction q as [|y q IH]; intros Hnd Hin; [by apply elem_of_nil in Hin|].
  apply NoDup_cons in Hnd as [Hny Hnd]. rewrite filter_cons. destruct (decide (y = a)) as [->|Hya].
  - rewrite decide_False by (intros Hx; by apply Hx). by rewrite filter_notin.
  - rewrite decide_True by done. simpl. f_equal. apply IH; [done|set_solver].
Qed.

Lemma candidates_remove l i a :
  NoDup (candidates l) -> l !! i = Some (Some a) -> candidates (<[i := None]> l) = filter (fun x => x <> a) (candidates l).
Proof.
  revert i. induction l as [|x l IH]; intros [|i] Hnd Hi; simplify_eq/=.
  - apply NoDup_cons in Hnd as [Hna Hnd]. rewrite filter_cons, decide_False by naive_solver.
    by rewrite filter_notin.
  - destruct x as [x|]; simpl in *; [|by apply IH]. apply NoDup_cons in Hnd as [Hna Hnd].
    rewrite filter_cons, decide_True; [f_equal; by apply IH|]. intros ->. apply Hna, elem_of_candidates. by exists i.
Qed.

Lemma trimOk_inj t i j a : trimOk t -> trimCandidateList t !! i = Some (Some a) -> trimCandidateList t !! j = Some (Some a) -> i = j.
Proof. intros H Hi Hj. pose proof (to_listed _ H _ _ Hi). pose proof (to_listed _ H _ _ Hj). simplify_eq. done. Qed.

Lemma trimOk_nodup t : trimOk t -> NoDup (candidates (trimCandidateList t)).
Proof. intros H. apply candidates_nodup. intros i j a. by apply trimOk_inj. Qed.

(** ** The head *)

Lemma scanHead_candidates l : scanHead l = head (candidates l).
Proof. induction l as [|[x|] l IH]; done. Qed.

Lemma endsOccupied_candidates l : endsOccupied l -> l <> [] -> candidates l <> [].
Proof.
  intros He Hl. destruct (last l) as [[x|]|] eqn:E; [|done|by apply last_None in E].
  apply last_Some in E as [l' ->]. rewrite candidates_app. simpl. by intros [_ ?]%app_eq_nil.
Qed.

Lemma head_spec t : trimOk t -> getTrimCandidateHead t = Some (head (candidates (trimCandidateList t))).
Proof.
  intros H. unfold getTrimCandidateHead. destruct (trimCandidateList t) as [|x l] eqn:E; [done|].
  rewrite scanHead_candidates. pose proof (endsOccupied_candidates (x :: l)) as Hc. rewrite <- E in Hc at 1.
  specialize (Hc (to_last _ H) ltac:(done)). by destruct (candidates (x :: l)).
Qed.

(** ** Adding *)

Lemma add_spec t a p :
  trimOk t -> positions t !! a = Some p -> Z.of_nat (length (trimCandidateList t)) + 1 < 2 ^ 31 ->
  exists t', addToTrimCandidateList a t = Some t' /\ trimOk t' /\
    candidates (trimCandidateList t') =
      if decide (a ∈ candidates (trimCandidateList t)) then candidates (trimCandidateList t) else candidates (trimCandidateList t) ++ [a].
Proof.
  intros H Ha Hs. unfold addToTrimCandidateList. rewrite Ha. cbn [mbind option_bind].
  destruct (decide (p = trimListUnusedPosition)) as [->|Hp].
  - eexists. split; [done|]. simpl.
    assert (a ∉ candidates (trimCandidateList t)) as Hna.
    { rewrite elem_of_candidates. intros [i Hi]. pose proof (to_listed _ H _ _ Hi) as Hpos. apply lookup_lt_Some in Hi.
      rewrite Ha in Hpos. injection Hpos as Hpos. unfold trimListUnusedPosition in Hpos. lia. }
    rewrite candidates_app, decide_False by done. split; [|done]. pose proof (candidates_length (trimCandidateList t)).
    split; simpl.
    + rewrite candidates_app, length_app, (to_count _ H). simpl. rewrite (wrap_small 32) by (unfold uint; lia). lia.
    + rewrite length_app. simpl. lia.
    + intros i b Hi. destruct (decide (b = a)) as [->|Hne].
      * rewrite lookup_insert_eq. apply lookup_app_Some in Hi as [Hi|[Hle Hi]].
        -- exfalso. apply Hna, elem_of_candidates. by exists i.
        -- apply list_lookup_singleton_Some in Hi as [Hi _]. f_equal. lia.
      * rewrite lookup_insert_ne by done. apply lookup_app_Some in Hi as [Hi|[Hle Hi]]; [by apply (to_listed _ H)|].
        apply list_lookup_singleton_Some in Hi as [_ Hi]. by simplify_eq.
    + intros b q Hb Hq. destruct (decide (b = a)) as [->|Hne].
      * rewrite lookup_insert_eq in Hb. simplify_eq. split; [lia|]. rewrite Nat2Z.id, lookup_app_r by lia. by rewrite Nat.sub_diag.
      * rewrite lookup_insert_ne in Hb by done. destruct (to_unlisted _ H _ _ Hb Hq) as [? Hl]. split; [done|].
        by apply lookup_app_l_Some.
    + unfold endsOccupied. by rewrite last_snoc.
  - exists t. split; [done|]. split; [done|]. rewrite decide_True; [done|].
    apply elem_of_candidates. exists (Z.to_nat p). by apply (to_unlisted _ H).
Qed.

(** ** Compaction *)

(** Positions and elements agree. *)
Definition placed (l : list (option Z)) (pos : gmap Z Z) : Prop :=
  (forall i a, l !! i = Some (Some a) -> pos !! a = Some (Z.of_nat i)) /\
  (forall a p, pos !! a = Some p -> p <> trimListUnusedPosition -> 0 <= p /\ l !! Z.to_nat p = Some (Some a)).

Lemma first_candidate i l a :
  (forall j, (j < i)%nat -> l !! j = Some None) -> l !! i = Some (Some a) ->
  candidates l = a :: candidates (<[i := None]> l).
Proof.
  revert l. induction i as [|i IH]; intros [|x l] Hn Hi; simplify_eq/=; [done|].
  pose proof (Hn 0%nat ltac:(lia)) as Hx. simplify_eq/=. apply IH; [|done]. intros j Hj. apply (Hn (S j)). lia.
Qed.

(** Moving the first element after a run of holes into the first of them. *)
Lemma candidates_move f i l a :
  (f < i)%nat -> (forall j, (f <= j < i)%nat -> l !! j = Some None) -> l !! i = Some (Some a) ->
  candidates (<[i := None]> (<[f := Some a]> l)) = candidates l.
Proof.
  revert i l. induction f as [|f IH]; intros [|i] [|x l] Hlt Hn Hi; simplify_eq/=; try lia.
  - pose proof (Hn 0%nat ltac:(lia)) as Hx. simplify_eq/=. symmetry. apply first_candidate; [|done].
    intros j Hj. apply (Hn (S j)). lia.
  - assert (candidates (<[i := None]> (<[f := Some a]> l)) = candidates l) as E.
    { apply IH; [lia| |done]. intros j Hj. apply (Hn (S j)). lia. }
    destruct x; simpl; by rewrite E.
Qed.

Lemma placed_move f i l pos a :
  (f < i)%nat -> Z.of_nat (length l) < 2 ^ 31 -> l !! f = Some None -> l !! i = Some (Some a) -> placed l pos ->
  placed (<[i := None]> (<[f := Some a]> l)) (<[a := Z.of_nat f]> pos).
Proof.
  intros Hlt Hs Hf Hi [P1 P2]. pose proof (lookup_lt_Some _ _ _ Hi). pose proof (lookup_lt_Some _ _ _ Hf). split.
  - intros j b Hj. destruct (decide (j = i)) as [->|Hji].
    { by rewrite list_lookup_insert_eq in Hj by (rewrite length_insert; lia). }
    rewrite list_lookup_insert_ne in Hj by done. destruct (decide (j = f)) as [->|Hjf].
    + rewrite list_lookup_insert_eq in Hj by lia. simplify_eq. by rewrite lookup_insert_eq.
    + rewrite list_lookup_insert_ne in Hj by done. rewrite lookup_insert_ne; [by apply P1|].
      intros ->. pose proof (P1 _ _ Hi). pose proof (P1 _ _ Hj). simplify_eq.
  - intros b p Hb Hp. destruct (decide (b = a)) as [->|Hba].
    + rewrite lookup_insert_eq in Hb. simplify_eq. split; [lia|]. rewrite Nat2Z.id.
      rewrite list_lookup_insert_ne by lia. by rewrite list_lookup_insert_eq by lia.
    + rewrite lookup_insert_ne in Hb by done. destruct (P2 _ _ Hb Hp) as [Hp0 Hl]. split; [done|].
      rewrite list_lookup_insert_ne by (intros E; rewrite <- E in Hl; simplify_eq). rewrite list_lookup_insert_ne by (intros E; rewrite <- E in Hl; simplify_eq). done.
Qed.

Lemma placed_take n l pos :
  (forall j x, (n <= j)%nat -> l !! j = Some x -> x = None) -> placed l pos -> placed (take n l) pos.
Proof.
  intros Hn [P1 P2]. split.
  - intros i a Hi. apply P1. apply lookup_take_Some in Hi. tauto.
  - intros a p Ha Hp. destruct (P2 _ _ Ha Hp) as [Hp0 Hl]. split; [done|]. rewrite lookup_take_lt; [done|].
    destruct (decide (Z.to_nat p < n)%nat); [done|]. specialize (Hn (Z.to_nat p) (Some a) ltac:(lia) Hl). done.
Qed.

Definition dense (l : list (option Z)) : Prop := forall j, (j < length l)%nat -> exists a, l !! j = Some (Some a).

Lemma dense_candidates l : dense l -> length (candidates l) = length l.
Proof.
  induction l as [|[x|] l IH]; intros Hd; simpl; [done| |].
  - f_equal. apply IH. intros j Hj. apply (Hd (S j)). simpl. lia.
  - by destruct (Hd 0%nat ltac:(simpl; lia)).
Qed.

Lemma dense_ends l : dense l -> endsOccupied l.
Proof.
  intros Hd Hl. destruct l as [|x l] using rev_ind; [done|]. rewrite last_snoc in Hl. simplify_eq.
  destruct (Hd (length l)) as [a Ha]; [rewrite length_app; simpl; lia|].
  rewrite lookup_app_r, Nat.sub_diag in Ha by lia. done.
Qed.

Lemma compactLoop_spec n i free l pos :
  (0 < n)%nat -> (i + n = length l)%nat -> Z.of_nat (length l) < 2 ^ 31 -> endsOccupied l -> placed l pos ->
  (forall j, (j < free)%nat -> exists a, l !! j = Some (Some a)) -> l !! free = Some None ->
  (forall j, (free <= j < i)%nat -> l !! j = Some None) ->
  exists l' pos', compactLoop (length l) n i free l pos = Some (l', pos') /\ candidates l' = candidates l /\
    placed l' pos' /\ dense l' /\ (length l' <= length l)%nat.
Proof.
  revert i free l pos. induction n as [|n IH]; intros i free l pos Hn Hin Hs He Hp Hpre Hfree Hholes; [lia|].
  cbn [compactLoop]. destruct (lookup_lt_is_Some_2 l i) as [x Hx]; [lia|]. rewrite Hx. cbn [mbind option_bind].
  pose proof (lookup_lt_Some _ _ _ Hfree).
  assert (n = 0%nat -> exists a, x = Some a) as Hlast.
  { intros ->. unfold endsOccupied in He. rewrite last_lookup in He.
    replace (pred (length l)) with i in He by lia. rewrite Hx in He. destruct x; [eauto|congruence]. }
  destruct x as [a|].
  - destruct (decide (free < i)%nat) as [Hlt|Hge].
    + assert (candidates (<[i := None]> (<[free := Some a]> l)) = candidates l) as Hc by (apply candidates_move; done).
      pose proof (placed_move _ _ _ _ _ Hlt Hs Hfree Hx Hp) as Hp'.
      set (l1 := <[i := None]> (<[free := Some a]> l)) in *.
      assert (length l1 = length l) as Hl1 by (unfold l1; by rewrite !length_insert).
      assert (forall j, (j < S free)%nat -> exists b, l1 !! j = Some (Some b)) as Hpre1.
      { intros j Hj. unfold l1. rewrite list_lookup_insert_ne by lia. destruct (decide (j = free)) as [->|].
        - rewrite list_lookup_insert_eq by lia. eauto.
        - rewrite list_lookup_insert_ne by lia. apply Hpre. lia. }
      assert (forall j, (S free <= j < S i)%nat -> l1 !! j = Some None) as Hh1.
      { intros j Hj. unfold l1. destruct (decide (j = i)) as [->|]; [rewrite list_lookup_insert_eq; [done|rewrite length_insert; lia]|].
        rewrite list_lookup_insert_ne, list_lookup_insert_ne by lia. apply Hholes. lia. }
      destruct (decide (i = length l - 1)%nat) as [Hend|Hmid].
      * assert (n = 0%nat) as -> by lia. cbn [compactLoop].
        assert (forall j y, (S free <= j)%nat -> l1 !! j = Some y -> y = None) as Hrest.
        { intros j y Hj Hy. pose proof (lookup_lt_Some _ _ _ Hy). rewrite Hh1 in Hy by lia. by simplify_eq. }
        eexists _, _. split; [done|]. rewrite candidates_take by done. split; [done|]. split; [by apply placed_take|].
        split; [|rewrite length_take; lia]. intros j Hj. rewrite length_take in Hj. rewrite lookup_take_lt by lia. apply Hpre1. lia.
      * replace (length l) with (length l1) at 1 by done.
        destruct (IH (S i) (S free) l1 (<[a := Z.of_nat free]> pos)) as (l' & pos' & E & C & P & D & L);
          [lia|lia|lia| |done|done|apply Hh1; lia|done|].
        { unfold endsOccupied. rewrite last_lookup. unfold l1. rewrite !length_insert, !list_lookup_insert_ne by lia.
          rewrite <- last_lookup. done. }
        exists l', pos'. rewrite Hl1 in *. by rewrite C, Hc.
    + assert (i <> free) by (intros ->; congruence).
      apply IH; try done; [|lia|].
      * destruct n; [|lia]. exfalso. lia.
      * intros j Hj. lia.
  - destruct (decide (n = 0%nat)) as [->|Hn0]; [by destruct (Hlast eq_refl)|].
    apply IH; try done; try lia. intros j Hj. destruct (decide (j = i)) as [->|]; [done|]. apply Hholes. lia.
Qed.

Lemma firstFree_spec l count f0 :
  Z.of_nat f0 + Z.of_nat (length (candidates l)) <= count -> length (candidates l) <> length l -> endsOccupied l ->
  exists f, firstFree l count f0 = (f0 + f)%nat /\ (forall j, (j < f)%nat -> exists a, l !! j = Some (Some a)) /\ l !! f = Some None.
Proof.
  revert f0. induction l as [|[x|] l IH]; intros f0 Hc Hne He; simpl in *; [done| |].
  - rewrite decide_True by lia. destruct (IH (S f0)) as (f & E & Hpre & Hf); [lia|lia| |].
    { intros Hl. apply He. destruct l; [done|exact Hl]. }
    exists (S f). split; [rewrite E; lia|]. split; [|done]. intros [|j] Hj; [by exists x|]. apply Hpre. lia.
  - exists 0%nat. split; [lia|]. split; [lia|done].
Qed.

Lemma compact_spec t :
  trimOk t -> exists t', compactTrimCandidateList t = Some t' /\ trimOk t' /\
    candidates (trimCandidateList t') = candidates (trimCandidateList t) /\ length (trimCandidateList t') = length (candidates (trimCandidateList t)).
Proof.
  intros H. unfold compactTrimCandidateList. destruct t as [l count pos]; simpl in *.
  pose proof (to_count _ H) as Hc. pose proof (to_last _ H) as He. pose proof (to_size _ H) as Hs. simpl in *.
  destruct (bool_decide (length l = 0%nat) || _) eqn:Hb.
  - exists (mkTrimList l count pos). split; [done|]. split; [done|]. split; [done|]. simpl.
    apply orb_true_iff in Hb as [Hb|Hb]; apply bool_decide_eq_true in Hb; [|lia]. pose proof (candidates_length l). lia.
  - apply orb_false_iff in Hb as [Hb1 Hb2]. apply bool_decide_eq_false in Hb1, Hb2.
    destruct (firstFree_spec l count 0) as (f & Ef & Hpre & Hf); [lia|lia|done|]. rewrite Ef. simpl.
    destruct (compactLoop_spec (length l - 1) 1 f l pos) as (l' & pos' & E & C & P & D & L);
      [|lia|done|done|split; [apply (to_listed _ H)|apply (to_unlisted _ H)]|done|done| |].
    + destruct l as [|x [|y l]]; simpl in *; try lia. destruct f; simplify_eq/=; by apply He.
    + intros j Hj. replace j with f by lia. done.
    + rewrite E. cbn [mbind option_bind]. eexists. split; [done|]. simpl. split; [|split; [done|rewrite <- C; symmetry; by apply dense_candidates]].
      split; simpl; [by rewrite C|lia|apply P|apply P|by apply dense_ends].
Qed.

(** ** Removing *)

Lemma erasePosition_spec l e :
  let e' := erasePosition l e in
  (e' <= e)%nat /\ (forall j, (e' < j <= e)%nat -> l !! j = Some None) /\ (e' = 0%nat \/ l !! e' <> Some None).
Proof.
  induction e as [|e IH]; cbv zeta; cbn [erasePosition]; [split; [lia|]; split; [lia|by left]|].
  destruct (l !! S e) as [[x|]|] eqn:E.
  - split; [done|]. split; [lia|]. right. congruence.
  - cbv zeta in IH. destruct IH as (H1 & H2 & H3). split; [lia|]. split; [|done].
    intros j Hj. destruct (decide (j = S e)) as [->|]; [done|]. apply H2. lia.
  - split; [done|]. split; [lia|]. right. congruence.
Qed.

(** What is left once the end of the array is cut back to an occupied slot. *)
Definition cutEnd (position : nat) (l : list (option Z)) : list (option Z) :=
  if decide (position = length l - 1)%nat then
    if decide (position = 0)%nat then []
    else
      let e := erasePosition l position in
      take (if bool_decide (e = 0%nat) && bool_decide (l !! e = Some None) then 0%nat else S e) l
  else l.

Lemma cutEnd_spec i l pos :
  (i < length l)%nat -> l !! i = Some None -> (i <> length l - 1 -> endsOccupied l)%nat -> placed l pos ->
  candidates (cutEnd i l) = candidates l /\ placed (cutEnd i l) pos /\ endsOccupied (cutEnd i l) /\ (length (cutEnd i l) <= length l)%nat.
Proof.
  intros Hi Hn He Hp. unfold cutEnd. destruct (decide (i = length l - 1)%nat) as [Hend|Hend].
  2:{ split_and!; try done. by apply He. }
  destruct (decide (i = 0%nat)) as [->|Hi0].
  - destruct l as [|x [|y l]]; simpl in *; try lia. simplify_eq. split_and!; [done| |done|lia].
    destruct Hp as [P1 P2]. split; [done|]. intros a p Ha Hq. destruct (P2 _ _ Ha Hq) as [_ Hl].
    destruct (Z.to_nat p) as [|k]; simplify_eq/=.
  - destruct (erasePosition_spec l i) as (H1 & H2 & H3). set (e := erasePosition l i) in *.
    set (n := if _ : bool then 0%nat else S e).
    assert (forall j x, (n <= j)%nat -> l !! j = Some x -> x = None) as Hrest.
    { intros j x Hj Hx. pose proof (lookup_lt_Some _ _ _ Hx). unfold n in Hj. destruct (decide (e < j)%nat) as [Hlt|].
      - rewrite H2 in Hx by lia. by simplify_eq.
      - destruct (bool_decide (e = 0%nat)) eqn:B1; [|simpl in Hj; lia]. destruct (bool_decide (l !! e = Some None)) eqn:B2; [|simpl in Hj; lia].
        apply bool_decide_eq_true in B1, B2. assert (j = e) as -> by lia. congruence. }
    split_and!; [by apply candidates_take|by apply placed_take| |rewrite length_take; lia].
    unfold endsOccupied, n. destruct (bool_decide (e = 0%nat) && bool_decide (l !! e = Some None)) eqn:B; [done|].
    rewrite last_lookup, length_take, Nat.min_l by lia. simpl. rewrite lookup_take_lt by lia.
    destruct H3 as [H3|H3]; [|done]. rewrite bool_decide_eq_true_2 in B by done. by apply bool_decide_eq_false in B.
Qed.

Lemma remove_spec t a b :
  trimOk t -> a ∈ candidates (trimCandidateList t) ->
  exists t', removeFromTrimCandidateList a b t = Some t' /\ trimOk t' /\
    candidates (trimCandidateList t') = filter (fun x => x <> a) (candidates (trimCandidateList t)).
Proof.
  intros H Ha. destruct t as [l count pos]. pose proof (trimOk_nodup _ H) as Hnd. simpl in *.
  apply elem_of_candidates in Ha as [i Hi]. pose proof (to_listed _ H _ _ Hi) as Hpos. simpl in Hpos.
  unfold removeFromTrimCandidateList. simpl. rewrite Hpos. cbn [mbind option_bind]. rewrite Nat2Z.id, Hi. cbn [mbind option_bind].
  fold (cutEnd i (<[i := None]> l)). pose proof (lookup_lt_Some _ _ _ Hi) as Hlt. pose proof (to_size _ H) as Hs. simpl in Hs.
  pose proof (candidates_remove _ _ _ Hnd Hi) as Hc.
  destruct (cutEnd_spec i (<[i := None]> l) (<[a := trimListUnusedPosition]> pos)) as (C & P & E & L).
  - by rewrite length_insert.
  - by rewrite list_lookup_insert_eq.
  - rewrite length_insert. intros Hne. unfold endsOccupied. rewrite last_lookup, length_insert, list_lookup_insert_ne by lia.
    rewrite <- last_lookup. apply (to_last _ H).
  - split.
    + intros j x Hj. destruct (decide (j = i)) as [->|Hji]; [by rewrite list_lookup_insert_eq in Hj|].
      rewrite list_lookup_insert_ne in Hj by done. rewrite lookup_insert_ne; [by apply (to_listed _ H)|].
      intros <-. apply Hji. by eapply (trimOk_inj _ _ _ _ H).
    + intros x p Hx Hp. destruct (decide (x = a)) as [->|Hne]; [rewrite lookup_insert_eq in Hx; by simplify_eq|].
      rewrite lookup_insert_ne in Hx by done. destruct (to_unlisted _ H _ _ Hx Hp) as [? Hl]. simpl in Hl. split; [done|].
      rewrite list_lookup_insert_ne; [done|]. intros E. rewrite <- E in Hl. simplify_eq.
  - set (t' := mkTrimList _ _ _).
    assert (trimOk t') as H'.
    { split; simpl; [|rewrite length_insert in L; lia|apply P|apply P|done].
      pose proof (to_count _ H) as Hcount. simpl in Hcount. rewrite C, Hc, Hcount.
      assert (length (candidates l) = S (length (filter (fun x => x <> a) (candidates l)))) as ->.
      { apply filter_length; [done|]. apply elem_of_candidates. eauto. }
      pose proof (candidates_length l) as Hcl.
      assert (length (filter (fun x => x <> a) (candidates l)) <= length (candidates l))%nat by apply length_filter.
      rewrite wrap_small by (unfold uint; lia). lia. }
    destruct (b && _).
    + destruct (compact_spec _ H') as (t2 & E2 & H2 & C2 & _). exists t2. split; [done|]. split; [done|]. rewrite C2. simpl. by rewrite C, Hc.
    + exists t'. split; [done|]. split; [done|]. simpl. by rewrite C, Hc.
Qed.

Lemma candidate_position t a p : trimOk t -> positions t !! a = Some p ->
  (p <> trimListUnusedPosition <-> a ∈ candidates (trimCandidateList t)).
Proof.
  intros H Ha. rewrite elem_of_candidates. split.
  - intros Hp. exists (Z.to_nat p). by apply (to_unlisted _ H).
  - intros [i Hi] ->. pose proof (to_listed _ H _ _ Hi) as Hpos. rewrite Ha in Hpos. apply lookup_lt_Some in Hi.
    pose proof (to_size _ H). injection Hpos as Hpos. unfold trimListUnusedPosition in Hpos. lia.
Qed.

Lemma removeIfUsed_spec t a p b :
  trimOk t -> positions t !! a = Some p ->
  exists t', removeFromTrimCandidateListIfUsed a b t = Some t' /\ trimOk t' /\
    candidates (trimCandidateList t') = filter (fun x => x <> a) (candidates (trimCandidateList t)).
Proof.
  intros H Ha. unfold removeFromTrimCandidateListIfUsed. rewrite Ha. cbn [mbind option_bind].
  pose proof (candidate_position _ _ _ H Ha) as Hin. destruct (decide (p <> trimListUnusedPosition)) as [Hp|Hp].
  - apply remove_spec; tauto.
  - exists t. split; [done|]. split; [done|]. rewrite filter_notin; [done|tauto].
Qed.

(** C23: the array of trim candidates with its holes, its count and the
    positions stored in the allocations implements a queue without duplicates.
    The head is the oldest candidate and the scan for it stays inside the
    array; an allocation is appended unless it is there already; removing one
    takes out exactly that one, wherever it is; compaction keeps the queue and
    leaves no hole; and every operation keeps count, positions and the
    occupied last slot as they must be. *)
Theorem trim_list_refines_queue t a p b :
  trimOk t -> positions t !! a = Some p -> Z.of_nat (length (trimCandidateList t)) + 1 < 2 ^ 31 ->
  let q := candidates (trimCandidateList t) in
  NoDup q /\
  getTrimCandidateHead t = Some (head q) /\
  (exists t', addToTrimCandidateList a t = Some t' /\ trimOk t' /\
     candidates (trimCandidateList t') = if decide (a ∈ q) then q else q ++ [a]) /\
  (a ∈ q -> exists t', removeFromTrimCandidateList a b t = Some t' /\ trimOk t' /\
     candidates (trimCandidateList t') = filter (fun x => x <> a) q) /\
  (exists t', removeFromTrimCandidateListIfUsed a b t = Some t' /\ trimOk t' /\
     candidates (trimCandidateList t') = filter (fun x => x <> a) q) /\
  (exists t', compactTrimCandidateList t = Some t' /\ trimOk t' /\
     candidates (trimCandidateList t') = q /\ length (trimCandidateList t') = length q).
Proof.
  intros H Ha Hs. cbv zeta. split_and!.
  - by apply trimOk_nodup.
  - by apply head_spec.
  - by eapply add_spec.
  - by apply remove_spec.
  - by eapply removeIfUsed_spec.
  - by apply compact_spec.
Qed.

(** Three allocations of which the second has left a hole. *)
Definition exampleTrimList : TrimList :=
  mkTrimList [Some 7; None; Some 9] 2 {[ 7 := 0; 8 := trimListUnusedPosition; 9 := 2 ]}.

Lemma exampleTrimList_ok : trimOk exampleTrimList.
Proof.
  split; simpl; [done|lia| | |by intros ?].
  - intros [|[|[|i]]] a Hi; simplify_eq/=; done.
  - intros a p Ha Hp.
    apply lookup_insert_Some in Ha as [[<- <-]|[_ Ha]]; [done|].
    apply lookup_insert_Some in Ha as [[<- <-]|[_ Ha]]; [done|]. apply lookup_singleton_Some in Ha as [<- <-]. done.
Qed.

Lemma trim_list_refines_queue_witness :
  exists t', removeFromTrimCandidateList 9 true exampleTrimList = Some t' /\ candidates (trimCandidateList t') = [7].
Proof.
  destruct (trim_list_refines_queue exampleTrimList 9 2 true exampleTrimList_ok eq_refl ltac:(simpl; lia))
    as (_ & _ & _ & Hr & _). destruct Hr as (t' & E & _ & C); [by eval_decide|]. exists t'. split; [done|]. rewrite C. by vm_compute.
Defined.
