(* ===== verification/WddmResidency.v ===== *)
(** * Trimming and making allocations resident

    The operations of [wddm_residency_controller.cpp] that talk to the kernel
    mode driver, on top of the list of [TrimCandidates]: [trimResidency],
    [trimResidencyToBudget], [makeResidentResidencyAllocations] and
    [makeNonResidentEvictionAllocations].  The calls to [Wddm] are recorded in
    the order they are made; what the driver answers, and the value the GPU has
    written to the fence address, are functions of the calls so far.  The
    temporary resources of [Wddm] ([wddm/wddm.cpp]) are part of the state, as
    making allocations resident may evict them; other threads are not modelled.
    [None] is an allocation or a fragment that does not exist, or too little fuel
    for a loop; the theorems show that the fuel given is enough. *)

From S2P Require Import Prelude.
From S2P Require Import TrimCandidates.

Record ResidencyData := mkResidency { resident : bool; lastFenceValue : Z }.
Record AllocationStorageData := mkFragment { fragmentHandle : Z; fragmentSize : Z; fragmentResidency : Z }.
Record WddmAllocation := mkAllocation {
  handles : list Z; alignedSize : Z; fragments : list AllocationStorageData; residency : ResidencyData }.

Inductive Call :=
  | Evict (handles : list Z)
  | MakeResident (handles : list Z) (cantTrimFurther : bool)
  | WaitFromCpu (fence : Z)
  | EvictTemporary (handle : Z).

Inductive EvictionStatus := EvictionSuccess | EvictionFailed | EvictionNotApplied.

(** [allocs] and [residencies] are the stores of allocations and of the
    residency data that fragments of several allocations may share. *)
Record Controller := mkController {
  allocs : gmap Z WddmAllocation; residencies : gmap Z ResidencyData; trim : TrimList;
  lastSubmittedFence : Z; currentFenceValue : Z; lastTrimFenceValue : Z; memoryBudgetExhausted : bool;
  temporaryResources : list Z; calls : list Call }.

Definition setAllocs (m : gmap Z WddmAllocation) (c : Controller) : Controller :=
  mkController m (residencies c) (trim c) (lastSubmittedFence c) (currentFenceValue c) (lastTrimFenceValue c) (memoryBudgetExhausted c) (temporaryResources c) (calls c).
Definition setResidencies (m : gmap Z ResidencyData) (c : Controller) : Controller :=
  mkController (allocs c) m (trim c) (lastSubmittedFence c) (currentFenceValue c) (lastTrimFenceValue c) (memoryBudgetExhausted c) (temporaryResources c) (calls c).
Definition setTrim (t : TrimList) (c : Controller) : Controller :=
  mkController (allocs c) (residencies c) t (lastSubmittedFence c) (currentFenceValue c) (lastTrimFenceValue c) (memoryBudgetExhausted c) (temporaryResources c) (calls c).
Definition setLastTrim (v : Z) (c : Controller) : Controller :=
  mkController (allocs c) (residencies c) (trim c) (lastSubmittedFence c) (currentFenceValue c) v (memoryBudgetExhausted c) (temporaryResources c) (calls c).
Definition setMemoryBudgetExhausted (c : Controller) : Controller :=
  mkController (allocs c) (residencies c) (trim c) (lastSubmittedFence c) (currentFenceValue c) (lastTrimFenceValue c) true (temporaryResources c) (calls c).
Definition addCall (k : Call) (c : Controller) : Controller :=
  mkController (allocs c) (residencies c) (trim c) (lastSubmittedFence c) (currentFenceValue c) (lastTrimFenceValue c) (memoryBudgetExhausted c) (temporaryResources c) (calls c ++ [k]).
Definition setTemporaryResources (l : list Z) (c : Controller) : Controller :=
  mkController (allocs c) (residencies c) (trim c) (lastSubmittedFence c) (currentFenceValue c) (lastTrimFenceValue c) (memoryBudgetExhausted c) l (calls c).

Definition setResident (b : bool) (r : ResidencyData) : ResidencyData := mkResidency b (lastFenceValue r).
Definition updateCompletionData (v : Z) (r : ResidencyData) : ResidencyData := mkResidency (resident r) v.

(** A change of the residency data of an allocation, and of a fragment. *)
Definition changeResidency (a : Z) (f : ResidencyData -> ResidencyData) (c : Controller) : option Controller :=
  al ← allocs c !! a;
  Some (setAllocs (<[a := mkAllocation (handles al) (alignedSize al) (fragments al) (f (residency al))]> (allocs c)) c).
Definition changeFragment (f : AllocationStorageData) (g : ResidencyData -> ResidencyData) (c : Controller) : option Controller :=
  r ← residencies c !! fragmentResidency f;
  Some (setResidencies (<[fragmentResidency f := g r]> (residencies c)) c).
Fixpoint changeFragments (fs : list AllocationStorageData) (g : ResidencyData -> ResidencyData) (c : Controller) : option Controller :=
  match fs with
  | [] => Some c
  | f :: fs => c ← changeFragment f g c; changeFragments fs g c
  end.

(** The fragments whose residency data satisfies a condition. *)
Fixpoint selectFragments (P : ResidencyData -> bool) (fs : list AllocationStorageData) (c : Controller) : option (list AllocationStorageData) :=
  match fs with
  | [] => Some []
  | f :: fs =>
      r ← residencies c !! fragmentResidency f;
      rest ← selectFragments P fs c;
      Some (if P r then f :: rest else rest)
  end.

Section Operations.
(** The driver's answers: the fence the GPU has reached; to a call to make
    handles resident, [None] for success or the bytes to trim first; and whether
    an eviction succeeds. *)
Context (cpuFence : list Call -> Z) (makeResidentAnswer : list Call -> list Z -> bool -> option Z)
  (evictAnswer : list Call -> Z -> bool).

Definition wasAllocationUsedSinceLastTrim (c : Controller) (fenceValue : Z) : bool := bool_decide (lastTrimFenceValue c < fenceValue).
Definition updateLastTrimFenceValue (c : Controller) : Controller := setLastTrim (cpuFence (calls c)) c.

(** One round of the loop of [trimResidencyToBudget]; the size evicted. *)
Definition trimOne (a : Z) (al : WddmAllocation) (c : Controller) : option (Z * Controller) :=
  let lastFence := lastFenceValue (residency al) in
  let c := if decide (cpuFence (calls c) < lastFence) then addCall (WaitFromCpu lastFence) c else c in
  '(sizeEvicted, c) ←
    (match fragments al with
     | [] => Some (alignedSize al, addCall (Evict (handles al)) c)
     | fs =>
         toEvict ← selectFragments (fun r => bool_decide (lastFenceValue r <= lastSubmittedFence c)) fs c;
         match toEvict with
         | [] => Some (0, c)
         | _ =>
             c ← changeFragments toEvict (setResident false) (addCall (Evict (fragmentHandle <$> toEvict)) c);
             Some (foldl (fun s f => w64 (s + fragmentSize f)) 0 toEvict, c)
         end
     end);
  c ← changeResidency a (setResident false) c;
  t ← removeFromTrimCandidateList a false (trim c);
  Some (sizeEvicted, setTrim t c).

Fixpoint trimBudgetLoop (fuel : nat) (numberOfBytesToTrim : Z) (c : Controller) : option (Z * Controller) :=
  match fuel with
  | O => None
  | S fuel =>
      if decide (0 < numberOfBytesToTrim) then
        h ← getTrimCandidateHead (trim c);
        match h with
        | None => Some (numberOfBytesToTrim, c)
        | Some a =>
            al ← allocs c !! a;
            if decide (lastSubmittedFence c < lastFenceValue (residency al)) then Some (numberOfBytesToTrim, c)
            else
              '(sizeEvicted, c) ← trimOne a al c;
              trimBudgetLoop fuel (if decide (numberOfBytesToTrim <= sizeEvicted) then 0 else numberOfBytesToTrim - sizeEvicted) c
        end
      else Some (numberOfBytesToTrim, c)
  end.

Definition compactIfSparse (c : Controller) : option Controller :=
  if checkTrimCandidateListCompaction (trim c) then t ← compactTrimCandidateList (trim c); Some (setTrim t c) else Some c.

(** Every round takes one candidate off the list, which bounds the rounds. *)
Definition trimRounds (c : Controller) : nat := S (length (trimCandidateList (trim c))).

Definition trimResidencyToBudget (bytes : Z) (c : Controller) : option (bool * Controller) :=
  '(numberOfBytesToTrim, c) ← trimBudgetLoop (trimRounds c) bytes c;
  c ← (if decide (numberOfBytesToTrim < bytes) then compactIfSparse c else Some c);
  Some (bool_decide (numberOfBytesToTrim = 0), c).

(** One round of the periodic trim. *)
Definition trimPeriodicOne (a : Z) (al : WddmAllocation) (c : Controller) : option Controller :=
  let c := match fragments al with [] => addCall (Evict (handles al)) c | _ => c end in
  toEvict ← selectFragments (fun r => negb (wasAllocationUsedSinceLastTrim c (lastFenceValue r))) (fragments al) c;
  c ← changeFragments toEvict (setResident false) c;
  let c := match toEvict with [] => c | _ => addCall (Evict (fragmentHandle <$> toEvict)) c end in
  c ← changeResidency a (setResident false) c;
  t ← removeFromTrimCandidateList a false (trim c);
  Some (setTrim t c).

Fixpoint trimPeriodicLoop (fuel : nat) (c : Controller) : option Controller :=
  match fuel with
  | O => None
  | S fuel =>
      h ← getTrimCandidateHead (trim c);
      match h with
      | None => Some c
      | Some a =>
          al ← allocs c !! a;
          if wasAllocationUsedSinceLastTrim c (lastFenceValue (residency al)) then Some c
          else c ← trimPeriodicOne a al c; trimPeriodicLoop fuel c
      end
  end.

(** The three flags of a trim notification. *)
Definition trimResidency (periodicTrim trimToBudget restartPeriodicTrim : bool) (bytes : Z) (c : Controller) : option Controller :=
  c ← (if periodicTrim then c ← trimPeriodicLoop (trimRounds c) c; compactIfSparse c else Some c);
  c ← (if trimToBudget then '(_, c) ← trimResidencyToBudget bytes c; Some c else Some c);
  Some (if periodicTrim || restartPeriodicTrim then updateLastTrimFenceValue c else c).

(** The handles of the allocations that are not resident yet; an allocation on
    the trim list leaves it. *)
Fixpoint collectHandles (allocations : list Z) (c : Controller) : option (list Z * Controller) :=
  match allocations with
  | [] => Some ([], c)
  | a :: rest =>
      al ← allocs c !! a;
      p ← positions (trim c) !! a;
      '(missing, c) ←
        (if decide (p <> trimListUnusedPosition) then
           t ← removeFromTrimCandidateList a false (trim c); Some (fragments al, setTrim t c)
         else missing ← selectFragments (fun r => negb (resident r)) (fragments al) c; Some (missing, c));
      let new := match fragments al with
                 | [] => if resident (residency al) then [] else handles al
                 | _ => fragmentHandle <$> missing
                 end in
      '(hs, c) ← collectHandles rest c;
      Some (new ++ hs, c)
  end.

(** The loop of [Wddm::evictAllTemporaryResources]; whether an eviction failed. *)
Fixpoint evictEach (resourcesToEvict : list Z) (error : bool) (c : Controller) : bool * Controller :=
  match resourcesToEvict with
  | [] => (error, c)
  | handle :: rest => evictEach rest (error || negb (evictAnswer (calls c) handle)) (addCall (EvictTemporary handle) c)
  end.

Definition evictAllTemporaryResources (c : Controller) : EvictionStatus * Controller :=
  let resourcesToEvict := temporaryResources c in
  let c := setTemporaryResources [] c in
  match resourcesToEvict with
  | [] => (EvictionNotApplied, c)
  | _ =>
      let '(error, c) := evictEach resourcesToEvict false c in
      (if error : bool then EvictionFailed else EvictionSuccess, c)
  end.

Fixpoint makeResidentLoop (fuel : nat) (hs : list Z) (c : Controller) : option (bool * Controller) :=
  match fuel with
  | O => None
  | S fuel =>
      let answer := makeResidentAnswer (calls c) hs false in
      let c := addCall (MakeResident hs false) c in
      match answer with
      | None => Some (true, c)
      | Some bytesToTrim =>
          '(trimmingDone, c) ← trimResidencyToBudget bytesToTrim (setMemoryBudgetExhausted c);
          if (trimmingDone : bool) then makeResidentLoop fuel hs c
          else
            let '(evictionStatus, c) := evictAllTemporaryResources c in
            match evictionStatus with
            | EvictionSuccess => makeResidentLoop fuel hs c
            | _ =>
                let result := match makeResidentAnswer (calls c) hs true with None => true | Some _ => false end in
                Some (result, addCall (MakeResident hs true) c)
            end
      end
  end.

(** Every round but the last takes a candidate off the list or evicts the
    temporary resources. *)
Definition residentRounds (c : Controller) : nat := S (S (length (trimCandidateList (trim c)))).

Fixpoint markResident (allocations : list Z) (c : Controller) : option Controller :=
  match allocations with
  | [] => Some c
  | a :: rest =>
      al ← allocs c !! a;
      let update r := setResident true (updateCompletionData (currentFenceValue c) r) in
      c ← changeResidency a update c;
      c ← changeFragments (fragments al) update c;
      markResident rest c
  end.

Definition makeResidentResidencyAllocations (allocations : list Z) (c : Controller) : option (bool * Controller) :=
  '(hs, c) ← collectHandles allocations c;
  '(result, c) ← (match hs with [] => Some (true, c) | _ => makeResidentLoop (residentRounds c) hs c end);
  c ← (if (result : bool) then markResident allocations c else Some c);
  Some (result, c).

Fixpoint makeNonResidentEvictionAllocations (allocations : list Z) (c : Controller) : option Controller :=
  match allocations with
  | [] => Some c
  | a :: rest => t ← addToTrimCandidateList a (trim c); makeNonResidentEvictionAllocations rest (setTrim t c)
  end.

End Operations.

(** ** What trimming an allocation evicts *)

Definition fenceOf (c : Controller) (f : AllocationStorageData) : Z :=
  default 0 (lastFenceValue <$> residencies c !! fragmentResidency f).
Definition evictable (c : Controller) (al : WddmAllocation) : list AllocationStorageData :=
  filter (fun f => fenceOf c f <= lastSubmittedFence c) (fragments al).
Definition evictedSize (c : Controller) (al : WddmAllocation) : Z :=
  match fragments al with [] => alignedSize al | _ => foldl (fun s f => w64 (s + fragmentSize f)) 0 (evictable c al) end.
Definition evictedHandles (c : Controller) (al : WddmAllocation) : list (list Z) :=
  match fragments al with
  | [] => [handles al]
  | _ => match evictable c al with [] => [] | fs => [fragmentHandle <$> fs] end
  end.
Definition evictions (l : list Call) : list (list Z) :=
  omap (fun k => match k with Evict hs => Some hs | _ => None end) l.

(** The allocation of a candidate. *)
Definition allocOf (c : Controller) (a : Z) : WddmAllocation :=
  default (mkAllocation [] 0 [] (mkResidency false 0)) (allocs c !! a).

(** What changes when the candidates [ps] have been trimmed. *)
Record trimmed (ps : list Z) (c c' : Controller) : Prop := {
  tr_allocs : forall a, allocs c' !! a =
    (fun al => if decide (a ∈ ps) then mkAllocation (handles al) (alignedSize al) (fragments al) (setResident false (residency al)) else al) <$> allocs c !! a;
  tr_residencies : forall r, residencies c' !! r =
    (fun d => if decide (r ∈ fragmentResidency <$> (ps ≫= fun a => evictable c (allocOf c a))) then setResident false d else d) <$> residencies c !! r;
  tr_submitted : lastSubmittedFence c' = lastSubmittedFence c;
  tr_current : currentFenceValue c' = currentFenceValue c;
  tr_last : lastTrimFenceValue c' = lastTrimFenceValue c;
  tr_calls : evictions (calls c') = evictions (calls c) ++ (ps ≫= fun a => evictedHandles c (allocOf c a)) }.

(** The candidates exist, and so do their fragments. *)
Record controllerOk (c : Controller) : Prop := {
  co_trim : trimOk (trim c);
  co_candidates : forall a, a ∈ candidates (trimCandidateList (trim c)) -> is_Some (allocs c !! a);
  co_fragments : forall a al f, allocs c !! a = Some al -> f ∈ fragments al -> is_Some (residencies c !! fragmentResidency f);
  co_sizes : forall a al, allocs c !! a = Some al -> 0 <= alignedSize al }.

Lemma trimmed_fence ps c c' f : trimmed ps c c' -> fenceOf c' f = fenceOf c f.
Proof.
  intros H. unfold fenceOf. rewrite (tr_residencies _ _ _ H). destruct (residencies c !! fragmentResidency f) as [d|]; [|done].
  simpl. by case_decide.
Qed.

Lemma trimmed_evictable ps c c' al : trimmed ps c c' -> evictable c' al = evictable c al.
Proof.
  intros H. unfold evictable. rewrite (tr_submitted _ _ _ H). apply list_filter_iff. intros f. by rewrite (trimmed_fence _ _ _ _ H).
Qed.

(** What decides an eviction is as before. *)
Lemma trimmed_alloc ps c c' a : trimmed ps c c' ->
  handles (allocOf c' a) = handles (allocOf c a) /\ alignedSize (allocOf c' a) = alignedSize (allocOf c a) /\
  fragments (allocOf c' a) = fragments (allocOf c a) /\ lastFenceValue (residency (allocOf c' a)) = lastFenceValue (residency (allocOf c a)) /\
  evictable c' (allocOf c' a) = evictable c (allocOf c a).
Proof.
  intros H. rewrite (trimmed_evictable _ _ _ _ H). unfold allocOf. rewrite (tr_allocs _ _ _ H).
  destruct (allocs c !! a) as [al|]; [|done]. simpl. case_decide; done.
Qed.

Lemma trimmed_sizes ps c c' a : trimmed ps c c' ->
  evictedSize c' (allocOf c' a) = evictedSize c (allocOf c a) /\ evictedHandles c' (allocOf c' a) = evictedHandles c (allocOf c a).
Proof.
  intros H. destruct (trimmed_alloc _ _ _ a H) as (E1 & E2 & E3 & _ & E5). unfold evictedSize, evictedHandles. by rewrite E1, E2, E3, E5.
Qed.

Lemma trimmed_refl c : trimmed [] c c.
Proof.
  split; try done.
  - intros a. by destruct (allocs c !! a).
  - intros r. by destruct (residencies c !! r).
  - by rewrite app_nil_r.
Qed.

Lemma trimmed_trans ps qs c1 c2 c3 : trimmed ps c1 c2 -> trimmed qs c2 c3 -> trimmed (ps ++ qs) c1 c3.
Proof.
  intros H1 H2.
  assert ((qs ≫= fun a => evictable c2 (allocOf c2 a)) = (qs ≫= fun a => evictable c1 (allocOf c1 a))) as E.
  { apply list_bind_ext; [|done]. intros a. by apply (trimmed_alloc _ _ _ a H1). }
  split.
  - intros a. rewrite (tr_allocs _ _ _ H2), (tr_allocs _ _ _ H1). destruct (allocs c1 !! a); [|done]. simpl. f_equal.
    repeat case_decide; rewrite ?elem_of_app in *; try done; tauto.
  - intros r. rewrite (tr_residencies _ _ _ H2), (tr_residencies _ _ _ H1), E. destruct (residencies c1 !! r); [|done]. simpl. f_equal.
    rewrite bind_app, fmap_app. repeat case_decide; rewrite ?elem_of_app in *; try done; tauto.
  - by rewrite (tr_submitted _ _ _ H2), (tr_submitted _ _ _ H1).
  - by rewrite (tr_current _ _ _ H2), (tr_current _ _ _ H1).
  - by rewrite (tr_last _ _ _ H2), (tr_last _ _ _ H1).
  - rewrite (tr_calls _ _ _ H2), (tr_calls _ _ _ H1), bind_app, app_assoc. f_equal.
    apply list_bind_ext; [|done]. intros a. by apply (trimmed_sizes _ _ _ a H1).
Qed.

Lemma trimmed_setTrim ps c c' t : trimmed ps c c' -> trimmed ps c (setTrim t c').
Proof. intros []. by split. Qed.

Lemma controllerOk_trimmed ps c c' t :
  controllerOk c -> trimmed ps c c' -> trimOk t ->
  (forall a, a ∈ candidates (trimCandidateList t) -> a ∈ candidates (trimCandidateList (trim c))) -> controllerOk (setTrim t c').
Proof.
  intros [Ht Hc Hf Hz] H Ht' Hs. split; simpl; [done| | |].
  - intros a Ha. rewrite (tr_allocs _ _ _ H). destruct (Hc a (Hs a Ha)) as [al ->]. by eexists.
  - intros a al f Ha Hin. rewrite (tr_allocs _ _ _ H) in Ha. destruct (allocs c !! a) as [al0|] eqn:E; [|done]. simplify_eq/=.
    rewrite (tr_residencies _ _ _ H). destruct (Hf a al0 f E) as [d ->]; [by case_decide|]. by eexists.
  - intros a al Ha. rewrite (tr_allocs _ _ _ H) in Ha. destruct (allocs c !! a) as [al0|] eqn:E; [|done]. simplify_eq/=.
    specialize (Hz a al0 E). by case_decide.
Qed.

(** ** The loops over fragments *)

Lemma selectFragments_spec P (Q : AllocationStorageData -> Prop) `{!forall f, Decision (Q f)} fs c :
  (forall f, f ∈ fs -> exists r, residencies c !! fragmentResidency f = Some r /\ P r = bool_decide (Q f)) ->
  selectFragments P fs c = Some (filter Q fs).
Proof.
  induction fs as [|f fs IH]; intros Hp; [done|]. cbn [selectFragments].
  destruct (Hp f ltac:(set_solver)) as (r & Hr & E). rewrite Hr. cbn [mbind option_bind].
  rewrite IH by (intros; apply Hp; set_solver). cbn [mbind option_bind]. rewrite filter_cons, E. by case_bool_decide; case_decide.
Qed.

Lemma changeFragments_spec (g : ResidencyData -> ResidencyData) fs c :
  (forall d, g (g d) = g d) -> (forall f, f ∈ fs -> is_Some (residencies c !! fragmentResidency f)) ->
  exists m, changeFragments fs g c = Some (setResidencies m c) /\
    forall r, m !! r = (fun d => if decide (r ∈ fragmentResidency <$> fs) then g d else d) <$> residencies c !! r.
Proof.
  intros Hg. revert c. induction fs as [|f fs IH]; intros c H; cbn [changeFragments].
  { exists (residencies c). split; [by destruct c|]. intros r. by destruct (residencies c !! r). }
  destruct (H f ltac:(set_solver)) as [d Hd]. unfold changeFragment. rewrite Hd. cbn [mbind option_bind].
  destruct (IH (setResidencies (<[fragmentResidency f := g d]> (residencies c)) c)) as (m & E & Hm).
  { intros x Hx. simpl. destruct (decide (fragmentResidency x = fragmentResidency f)) as [->|]; [rewrite lookup_insert_eq; by eexists|].
    rewrite lookup_insert_ne by done. apply H. set_solver. }
  exists m. split; [exact E|]. intros r. rewrite Hm. simpl. destruct (decide (r = fragmentResidency f)) as [->|Hne].
  - rewrite lookup_insert_eq, Hd. simpl. rewrite (decide_True (P := fragmentResidency f ∈ _ :: _)) by set_solver.
    case_decide; by rewrite ?Hg.
  - rewrite lookup_insert_ne by done. destruct (residencies c !! r); [|done]. simpl.
    f_equal. csimpl. repeat case_decide; rewrite ?elem_of_cons in *; try done; tauto.
Qed.

Definition addCalls (ks : list Call) (c : Controller) : Controller :=
  mkController (allocs c) (residencies c) (trim c) (lastSubmittedFence c) (currentFenceValue c) (lastTrimFenceValue c) (memoryBudgetExhausted c) (temporaryResources c) (calls c ++ ks).

Lemma evictions_app a b : evictions (a ++ b) = evictions a ++ evictions b.
Proof. apply omap_app. Qed.

(** The evictions of one allocation, and the residency data they leave. *)
Definition marks (c : Controller) (al : WddmAllocation) (m : gmap Z ResidencyData) : Prop :=
  forall r, m !! r = (fun d => if decide (r ∈ fragmentResidency <$> evictable c al) then setResident false d else d) <$> residencies c !! r.

Lemma evict_fragments a al c ks :
  controllerOk c -> allocs c !! a = Some al ->
  exists m ks', marks c al m /\ evictions ks' = evictions ks ++ evictedHandles c al /\
  (match fragments al with
   | [] => Some (alignedSize al, addCall (Evict (handles al)) (addCalls ks c))
   | fs =>
       toEvict ← selectFragments (fun r => bool_decide (lastFenceValue r <= lastSubmittedFence (addCalls ks c))) fs (addCalls ks c);
       match toEvict with
       | [] => Some (0, addCalls ks c)
       | _ =>
           c ← changeFragments toEvict (setResident false) (addCall (Evict (fragmentHandle <$> toEvict)) (addCalls ks c));
           Some (foldl (fun s f => w64 (s + fragmentSize f)) 0 toEvict, c)
       end
   end) = Some (evictedSize c al, setResidencies m (addCalls ks' c)).
Proof.
  intros Hok Ha. pose proof (co_fragments _ Hok a al) as Hf.
  unfold marks, evictedHandles, evictedSize. destruct (fragments al) as [|f0 fs0] eqn:Hfr.
  - exists (residencies c), (ks ++ [Evict (handles al)]). split; [|split; [by rewrite evictions_app|]].
    + intros r. unfold evictable. rewrite Hfr. by destruct (residencies c !! r).
    + unfold addCall, addCalls, setResidencies. simpl. by rewrite app_assoc.
  - rewrite (selectFragments_spec _ (fun f => fenceOf c f <= lastSubmittedFence c)).
    2:{ intros f Hin. rewrite <- Hfr in Hin. destruct (Hf f Ha) as [r Hr]; [by rewrite <- Hfr|]. exists r. split; [done|].
        unfold fenceOf. rewrite Hr. done. }
    cbn [mbind option_bind]. rewrite <- Hfr. change (filter _ (fragments al)) with (evictable c al).
    destruct (evictable c al) as [|f fs] eqn:He.
    + exists (residencies c), ks. split; [|split; [by rewrite app_nil_r|by destruct c]].
      intros r. by destruct (residencies c !! r).
    + destruct (changeFragments_spec (setResident false) (f :: fs) (addCall (Evict (fragmentHandle <$> f :: fs)) (addCalls ks c))) as (m & E & Hm).
      { done. }
      { intros g Hg. simpl. apply (Hf g Ha). rewrite <- Hfr. rewrite <- He in Hg. unfold evictable in Hg.
        by apply list_elem_of_filter in Hg as [_ Hg]. }
      exists m, (ks ++ [Evict (fragmentHandle <$> f :: fs)]). split; [exact Hm|]. split; [by rewrite evictions_app|].
      rewrite E. cbn [mbind option_bind]. f_equal. f_equal. unfold addCall, addCalls, setResidencies. simpl. by rewrite app_assoc.
Qed.

Lemma trimmed_one a al c m ks :
  allocs c !! a = Some al -> marks c al m -> evictions ks = evictedHandles c al ->
  exists c', changeResidency a (setResident false) (setResidencies m (addCalls ks c)) = Some c' /\ trim c' = trim c /\ trimmed [a] c c'.
Proof.
  intros Ha Hm Hk. unfold changeResidency. simpl. rewrite Ha. cbn [mbind option_bind]. eexists. split; [done|]. split; [done|].
  assert (allocOf c a = al) as Hal by (unfold allocOf; by rewrite Ha).
  split; simpl; try done.
  - intros b. destruct (decide (b = a)) as [->|Hne].
    + rewrite lookup_insert_eq, Ha. simpl. by rewrite decide_True by set_solver.
    + rewrite lookup_insert_ne by done. destruct (allocs c !! b); [|done]. simpl. by rewrite decide_False by set_solver.
  - intros r. by rewrite Hal, app_nil_r.
  - by rewrite evictions_app, Hal, app_nil_r, Hk.
Qed.

Section trimming.
Context (cpuFence : list Call -> Z).

Lemma trimOne_spec a c :
  controllerOk c -> a ∈ candidates (trimCandidateList (trim c)) ->
  exists c', trimOne cpuFence a (allocOf c a) c = Some (evictedSize c (allocOf c a), c') /\ trimmed [a] c c' /\ controllerOk c' /\
    candidates (trimCandidateList (trim c')) = filter (fun x => x <> a) (candidates (trimCandidateList (trim c))).
Proof.
  intros Hok Hin. destruct (co_candidates _ Hok a Hin) as [al Ha]. assert (allocOf c a = al) as -> by (unfold allocOf; by rewrite Ha).
  unfold trimOne. set (c1 := if decide _ then _ else _).
  assert (exists ks, c1 = addCalls ks c /\ evictions ks = []) as (ks & -> & Hks).
  { unfold c1. case_decide; [by exists [WaitFromCpu (lastFenceValue (residency al))]|]. exists []. split; [|done].
    unfold addCalls. rewrite app_nil_r. by destruct c. }
  destruct (evict_fragments a al c ks Hok Ha) as (m & ks' & Hm & Hk' & ->). cbn [mbind option_bind].
  rewrite Hks in Hk'. destruct (trimmed_one a al c m ks' Ha Hm Hk') as (c2 & -> & Ht & Htr). cbn [mbind option_bind]. rewrite Ht.
  destruct (remove_spec (trim c) a false (co_trim _ Hok) Hin) as (t & -> & Hto & Hc). cbn [mbind option_bind].
  exists (setTrim t c2). split; [done|]. split; [by apply trimmed_setTrim|]. split; [|done].
  eapply controllerOk_trimmed; [done|done|done|]. intros b Hb. rewrite Hc in Hb. by apply list_elem_of_filter in Hb as [_ Hb].
Qed.

Lemma evictedSize_nonneg c a : controllerOk c -> 0 <= evictedSize c (allocOf c a).
Proof.
  intros Hok. unfold evictedSize, allocOf. destruct (allocs c !! a) as [al|] eqn:Ha; simpl; [|lia].
  destruct (fragments al); [by apply (co_sizes _ Hok a)|].
  assert (forall l s, 0 <= s -> 0 <= foldl (fun s f => w64 (s + fragmentSize f)) s l) as H; [|by apply H].
  induction l0 as [|x l0 IH]; intros s Hs; simpl; [done|]. apply IH. by apply (wrap_range 64).
Qed.

Definition sizesOf (c : Controller) (ps : list Z) : Z := foldr (fun a s => evictedSize c (allocOf c a) + s) 0 ps.
Lemma sizesOf_nonneg c ps : controllerOk c -> 0 <= sizesOf c ps.
Proof. intros Hok. induction ps as [|a ps IH]; simpl; [lia|]. pose proof (evictedSize_nonneg c a Hok). lia. Qed.
Definition fenceAt (c : Controller) (a : Z) : Z := lastFenceValue (residency (allocOf c a)).

(** The candidates [ps] that have to go for [n] bytes: the oldest ones, as few
    as make up [n], and only such as the GPU has been given to finish. *)
Record budgetCut (c : Controller) (n : Z) (ps rest : list Z) : Prop := {
  bc_fences : Forall (fun a => fenceAt c a <= lastSubmittedFence c) ps;
  bc_few : forall ps1 a ps2, ps = ps1 ++ a :: ps2 -> sizesOf c ps1 < n;
  bc_enough : n <= sizesOf c ps \/ match rest with [] => True | a :: _ => lastSubmittedFence c < fenceAt c a end }.

Lemma trimmed_sizesOf ps c c' qs : trimmed ps c c' -> sizesOf c' qs = sizesOf c qs.
Proof. intros H. induction qs as [|a qs IH]; [done|]. simpl. rewrite IH. f_equal. by apply (trimmed_sizes _ _ _ a H). Qed.

Lemma trimmed_fenceAt ps c c' a : trimmed ps c c' -> fenceAt c' a = fenceAt c a.
Proof. intros H. by apply (trimmed_alloc _ _ _ a H). Qed.

Lemma budgetCut_cons c c' a n ps rest :
  trimmed [a] c c' -> 0 < n -> fenceAt c a <= lastSubmittedFence c -> controllerOk c ->
  budgetCut c' (Z.max 0 (n - evictedSize c (allocOf c a))) ps rest -> budgetCut c n (a :: ps) rest.
Proof.
  intros Ht Hn Hf Hok [B1 B2 B3]. pose proof (evictedSize_nonneg c a Hok). split.
  - constructor; [done|]. eapply Forall_impl; [exact B1|]. intros b. simpl. by rewrite (trimmed_fenceAt _ _ _ _ Ht), (tr_submitted _ _ _ Ht).
  - intros [|b ps1] x ps2 E; simplify_eq/=; [done|]. specialize (B2 ps1 x ps2 eq_refl). rewrite (trimmed_sizesOf _ _ _ _ Ht) in B2.
    pose proof (sizesOf_nonneg c ps1 Hok). lia.
  - simpl. rewrite (trimmed_sizesOf _ _ _ _ Ht) in B3. destruct B3 as [B3|B3]; [left; lia|right].
    destruct rest as [|b rest]; [done|]. by rewrite (trimmed_fenceAt _ _ _ _ Ht), (tr_submitted _ _ _ Ht) in B3.
Qed.

Lemma trimBudgetLoop_spec fuel n c :
  controllerOk c -> (length (candidates (trimCandidateList (trim c))) < fuel)%nat -> 0 <= n ->
  exists ps c', trimBudgetLoop cpuFence fuel n c = Some (Z.max 0 (n - sizesOf c ps), c') /\ trimmed ps c c' /\ controllerOk c' /\
    candidates (trimCandidateList (trim c)) = ps ++ candidates (trimCandidateList (trim c')) /\
    budgetCut c n ps (candidates (trimCandidateList (trim c'))).
Proof.
  revert n c. induction fuel as [|fuel IH]; intros n c Hok Hfuel Hn; [lia|]. cbn [trimBudgetLoop].
  assert (n <= 0 \/ match candidates (trimCandidateList (trim c)) with [] => True | a :: _ => lastSubmittedFence c < fenceAt c a end ->
    exists ps c', Some (n, c) = Some (Z.max 0 (n - sizesOf c ps), c') /\ trimmed ps c c' /\ controllerOk c' /\
    candidates (trimCandidateList (trim c)) = ps ++ candidates (trimCandidateList (trim c')) /\
    budgetCut c n ps (candidates (trimCandidateList (trim c')))) as Hstop.
  { intros Hs. exists [], c. split; [repeat f_equal; simpl; lia|]. split; [apply trimmed_refl|]. split; [done|]. split; [done|].
    split; [constructor| |exact Hs]. by intros [|? ?] ? ? ?. }
  destruct (decide (0 < n)); [|apply Hstop; lia].
  rewrite head_spec by apply co_trim, Hok. cbn [mbind option_bind].
  destruct (candidates (trimCandidateList (trim c))) as [|a q] eqn:Hq; [by apply Hstop; right|]. simpl.
  assert (a ∈ candidates (trimCandidateList (trim c))) as Hin by (rewrite Hq; set_solver).
  destruct (co_candidates _ Hok a Hin) as [al Ha]. rewrite Ha. cbn [mbind option_bind].
  assert (al = allocOf c a) as -> by (unfold allocOf; by rewrite Ha).
  destruct (decide (lastSubmittedFence c < lastFenceValue (residency (allocOf c a)))); [apply Hstop; by right|].
  destruct (trimOne_spec a c Hok Hin) as (c1 & E1 & T1 & Ok1 & C1). rewrite E1. cbn [mbind option_bind].
  pose proof (trimOk_nodup _ (co_trim _ Hok)) as Hnd. rewrite Hq in Hnd. apply NoDup_cons in Hnd as [Hna Hnd].
  rewrite Hq, filter_cons, decide_False, filter_notin in C1 by (done || (intros Hx; by apply Hx)).
  pose proof (evictedSize_nonneg c a Hok) as Hz.
  set (n1 := if decide (n <= _) then 0 else _).
  assert (n1 = Z.max 0 (n - evictedSize c (allocOf c a))) as En1 by (unfold n1; case_decide; lia).
  destruct (IH n1 c1 Ok1) as (ps & c' & E & T & Ok' & C & B); [rewrite C1; simpl in Hfuel; lia|lia|].
  exists (a :: ps), c'. rewrite E. split.
  - rewrite (trimmed_sizesOf _ _ _ _ T1). pose proof (sizesOf_nonneg c ps Hok). do 2 f_equal. simpl. lia.
  - split; [by apply (trimmed_trans [a] ps c c1 c')|]. split; [done|]. rewrite C1 in C. split; [simpl; by rewrite C|].
    eapply budgetCut_cons; [done|done|unfold fenceAt; lia|done|]. by rewrite <- En1.
Qed.

Lemma compactIfSparse_spec c : controllerOk c ->
  exists c', compactIfSparse c = Some c' /\ controllerOk c' /\ trimmed [] c c' /\
    candidates (trimCandidateList (trim c')) = candidates (trimCandidateList (trim c)).
Proof.
  intros Hok. unfold compactIfSparse. destruct (checkTrimCandidateListCompaction (trim c)).
  - destruct (compact_spec _ (co_trim _ Hok)) as (t & -> & Ht & Hc & _). cbn [mbind option_bind]. exists (setTrim t c).
    split; [done|]. split; [|split; [apply trimmed_setTrim, trimmed_refl|done]].
    eapply controllerOk_trimmed; [done|apply trimmed_refl|done|]. intros a. by rewrite Hc.
  - exists c. split; [done|]. split; [done|]. split; [apply trimmed_refl|done].
Qed.

Lemma trim_budget bytes c :
  controllerOk c -> 0 <= bytes ->
  exists ps c', trimResidencyToBudget cpuFence bytes c = Some (bool_decide (bytes <= sizesOf c ps), c') /\
    trimmed ps c c' /\ controllerOk c' /\
    candidates (trimCandidateList (trim c)) = ps ++ candidates (trimCandidateList (trim c')) /\
    budgetCut c bytes ps (candidates (trimCandidateList (trim c'))).
Proof.
  intros Hok Hb. unfold trimResidencyToBudget, trimRounds.
  pose proof (candidates_length (trimCandidateList (trim c))) as Hlen.
  destruct (trimBudgetLoop_spec (S (length (trimCandidateList (trim c)))) bytes c Hok) as (ps & c1 & E & T & Ok1 & C & B); [lia|done|].
  rewrite E. cbn [mbind option_bind].
  assert (bool_decide (Z.max 0 (bytes - sizesOf c ps) = 0) = bool_decide (bytes <= sizesOf c ps)) as -> by (apply bool_decide_ext; lia).
  exists ps. case_decide.
  - destruct (compactIfSparse_spec c1 Ok1) as (c2 & E2 & Ok2 & T2 & C2). rewrite E2. cbn [mbind option_bind]. exists c2.
    split; [done|]. rewrite C2. split; [|done]. rewrite <- (app_nil_r ps). by eapply trimmed_trans.
  - cbn [mbind option_bind]. by exists c1.
Qed.


(** C24: trimming to a budget evicts the oldest candidates and no more
    than needed.  The evicted ones are a prefix of the queue; each had been
    submitted to the GPU; without the last of them the budget is not reached;
    and with them either it is reached, which is what the answer says, or
    nothing is left that may be evicted.  Exactly their handles, or those of
    their submitted fragments, are evicted, they and these fragments are marked
    not resident, and nothing else changes.  The loop ends. *)
Theorem trim_to_budget_oldest_first bytes c :
  controllerOk c -> 0 <= bytes ->
  exists ps c', trimResidencyToBudget cpuFence bytes c = Some (bool_decide (bytes <= sizesOf c ps), c') /\
    trimmed ps c c' /\ controllerOk c' /\
    candidates (trimCandidateList (trim c)) = ps ++ candidates (trimCandidateList (trim c')) /\
    budgetCut c bytes ps (candidates (trimCandidateList (trim c'))).
Proof. apply trim_budget. Qed.

End trimming.

(** ** Making allocations resident *)

(** The handles that the allocations lack. *)
Definition missingHandles (c : Controller) (a : Z) : list Z :=
  match fragments (allocOf c a) with
  | [] => if resident (residency (allocOf c a)) then [] else handles (allocOf c a)
  | fs => fragmentHandle <$> filter (fun f => resident (default (mkResidency false 0) (residencies c !! fragmentResidency f)) = false) fs
  end.

Lemma remove_positions a t t' x :
  removeFromTrimCandidateList a false t = Some t' -> is_Some (positions t !! x) -> is_Some (positions t' !! x).
Proof.
  unfold removeFromTrimCandidateList. destruct (positions t !! a) as [p|] eqn:Ha; [|done]. cbn [mbind option_bind].
  destruct (trimCandidateList t !! Z.to_nat p); [|done]. cbn [mbind option_bind andb]. intros [= <-] Hx. simpl.
  destruct (decide (x = a)) as [->|]; [rewrite lookup_insert_eq; by eexists|by rewrite lookup_insert_ne].
Qed.

Lemma controllerOk_setTrim c t : controllerOk c -> trimOk t ->
  (forall a, a ∈ candidates (trimCandidateList t) -> a ∈ candidates (trimCandidateList (trim c))) -> controllerOk (setTrim t c).
Proof. intros Hok Ht Hs. eapply controllerOk_trimmed; [done|apply trimmed_refl|done|done]. Qed.

(** One allocation: what it adds to the handles, and the trim list after it. *)
Lemma collect_one a c :
  controllerOk c -> is_Some (allocs c !! a) -> is_Some (positions (trim c) !! a) ->
  exists missing t p, positions (trim c) !! a = Some p /\
    (if decide (p <> trimListUnusedPosition) then
       t ← removeFromTrimCandidateList a false (trim c); Some (fragments (allocOf c a), setTrim t c)
     else missing ← selectFragments (fun r => negb (resident r)) (fragments (allocOf c a)) c; Some (missing, c)) = Some (missing, setTrim t c) /\
    trimOk t /\ candidates (trimCandidateList t) = filter (fun x => x <> a) (candidates (trimCandidateList (trim c))) /\
    (forall x, is_Some (positions (trim c) !! x) -> is_Some (positions t !! x)) /\
    (forall h, h ∈ missingHandles c a -> h ∈ match fragments (allocOf c a) with
       | [] => if resident (residency (allocOf c a)) then [] else handles (allocOf c a) | _ => fragmentHandle <$> missing end).
Proof.
  intros Hok [al Ha] [p Hp]. pose proof (candidate_position _ _ _ (co_trim _ Hok) Hp) as Hin.
  unfold missingHandles. destruct (decide (p <> trimListUnusedPosition)) as [Hu|Hu].
  - destruct (remove_spec (trim c) a false (co_trim _ Hok)) as (t & E & Ht & Hc); [tauto|].
    exists (fragments (allocOf c a)), t, p. rewrite decide_True, E by done. cbn [mbind option_bind].
    split_and!; try done; [intros x; by eapply remove_positions|].
    intros h. destruct (fragments (allocOf c a)) as [|f fs]; [done|]. rewrite !list_elem_of_fmap.
    intros (g & -> & Hg). apply list_elem_of_filter in Hg as [_ Hg]. eauto.
  - rewrite (selectFragments_spec _ (fun f => resident (default (mkResidency false 0) (residencies c !! fragmentResidency f)) = false)).
    2:{ intros f Hf. destruct (co_fragments _ Hok a al f Ha) as [r Hr]; [by unfold allocOf in Hf; rewrite Ha in Hf|].
        exists r. split; [done|]. rewrite Hr. simpl. destruct (resident r); [|done]. by rewrite bool_decide_eq_false_2. }
    eexists _, (trim c), p. rewrite decide_False by done. cbn [mbind option_bind].
    split_and!; [done|by destruct c|by apply Hok|rewrite filter_notin; [done|tauto]|done|].
    intros h. by destruct (fragments (allocOf c a)).
Qed.

Lemma collectHandles_spec l c :
  controllerOk c -> (forall a, a ∈ l -> is_Some (allocs c !! a) /\ is_Some (positions (trim c) !! a)) ->
  exists hs t, collectHandles l c = Some (hs, setTrim t c) /\ controllerOk (setTrim t c) /\
    candidates (trimCandidateList t) = filter (fun x => x ∉ l) (candidates (trimCandidateList (trim c))) /\
    (forall a h, a ∈ l -> h ∈ missingHandles c a -> h ∈ hs).
Proof.
  revert c. induction l as [|a l IH]; intros c Hok Hl; cbn [collectHandles].
  { exists [], (trim c). split; [by destruct c|]. split; [by destruct c|]. split; [|set_solver].
    symmetry. induction (candidates _) as [|x q IHq]; [done|].
    rewrite filter_cons, decide_True by set_solver. by f_equal. }
  destruct (Hl a ltac:(set_solver)) as [Hal Hpos].
  destruct (collect_one a c Hok Hal Hpos) as (missing & t & p & Hp & E & Ht & Hc & Hposs & Hm).
  destruct Hal as [al Ha]. rewrite Ha. cbn [mbind option_bind]. assert (allocOf c a = al) as Hal by (unfold allocOf; by rewrite Ha).
  rewrite Hal in E, Hm. rewrite Hp. cbn [mbind option_bind]. rewrite E. cbn [mbind option_bind].
  assert (controllerOk (setTrim t c)) as Hok1.
  { apply controllerOk_setTrim; [done|done|]. intros x Hx. rewrite Hc in Hx. by apply list_elem_of_filter in Hx as [_ Hx]. }
  destruct (IH (setTrim t c) Hok1) as (hs & t2 & E2 & Ok2 & C2 & H2).
  { intros x Hx. simpl. destruct (Hl x ltac:(set_solver)) as [? Hpx]. split; [done|]. by apply Hposs. }
  rewrite E2. cbn [mbind option_bind]. eexists _, t2. split; [done|]. split; [done|]. split.
  - rewrite C2. simpl. rewrite Hc, list_filter_filter. apply list_filter_iff. set_solver.
  - intros x h Hx Hh. apply elem_of_app. apply elem_of_cons in Hx as [->|Hx]; [left; by apply Hm|right]. by apply (H2 x).
Qed.

Lemma addCalls_trimmed ks c : evictions ks = [] -> trimmed [] c (addCalls ks c).
Proof.
  intros Hk. destruct (trimmed_refl c) as [A R _ _ _ _]. split; simpl; try done.
  by rewrite evictions_app, Hk.
Qed.

Lemma addCalls_ok ks c : controllerOk c -> controllerOk (addCalls ks c).
Proof. by intros []. Qed.

(** Trimming leaves the temporary resources alone. *)
Lemma changeFragments_temporaries fs g c c' : changeFragments fs g c = Some c' -> temporaryResources c' = temporaryResources c.
Proof.
  revert c. induction fs as [|f fs IH]; intros c H; simpl in H; [by simplify_eq|]. unfold changeFragment in H.
  destruct (residencies c !! fragmentResidency f); [|done]. cbn [mbind option_bind] in H. by rewrite (IH _ H).
Qed.

Lemma changeResidency_temporaries a f c c' : changeResidency a f c = Some c' -> temporaryResources c' = temporaryResources c.
Proof. unfold changeResidency. destruct (allocs c !! a); [|done]. intros [= <-]. done. Qed.

Section temporaries.
Context (cpuFence : list Call -> Z).

Lemma trimOne_temporaries a al c n c' : trimOne cpuFence a al c = Some (n, c') -> temporaryResources c' = temporaryResources c.
Proof.
  unfold trimOne. set (c1 := if decide _ then _ else _). intros H.
  assert (temporaryResources c1 = temporaryResources c) as <- by (unfold c1; by case_decide). clearbody c1.
  destruct (match fragments al with [] => _ | _ => _ end) as [[n2 c2]|] eqn:E; [|done]. cbn [mbind option_bind] in H.
  assert (temporaryResources c2 = temporaryResources c1) as <-.
  { destruct (fragments al); [by simplify_eq|]. destruct (selectFragments _ _ c1) as [[|f fs]|]; cbn [mbind option_bind] in E; [by simplify_eq| |done].
    destruct (changeFragments _ _ _) as [c3|] eqn:E3; [|done]. cbn [mbind option_bind] in E. simplify_eq.
    by rewrite (changeFragments_temporaries _ _ _ _ E3). }
  destruct (changeResidency _ _ c2) as [c3|] eqn:E3; [|done]. cbn [mbind option_bind] in H.
  destruct (removeFromTrimCandidateList _ _ _); [|done]. cbn [mbind option_bind] in H. simplify_eq/=. by eapply changeResidency_temporaries.
Qed.

Lemma trimBudgetLoop_temporaries fuel n c m c' : trimBudgetLoop cpuFence fuel n c = Some (m, c') -> temporaryResources c' = temporaryResources c.
Proof.
  revert n c. induction fuel as [|fuel IH]; intros n c H; [done|]. cbn [trimBudgetLoop] in H. destruct (decide (0 < n)); [|by simplify_eq].
  destruct (getTrimCandidateHead (trim c)) as [[a|]|]; cbn [mbind option_bind] in H; [|by simplify_eq|done].
  destruct (allocs c !! a) as [al|]; [|done]. cbn [mbind option_bind] in H. destruct (decide (_ < _)); [by simplify_eq|].
  destruct (trimOne cpuFence a al c) as [[n1 c1]|] eqn:E; [|done]. cbn [mbind option_bind] in H.
  by rewrite (IH _ _ H), (trimOne_temporaries _ _ _ _ _ E).
Qed.

Lemma trim_budget_temporaries n c b c' : trimResidencyToBudget cpuFence n c = Some (b, c') -> temporaryResources c' = temporaryResources c.
Proof.
  unfold trimResidencyToBudget. intros H. destruct (trimBudgetLoop _ _ n c) as [[m c1]|] eqn:E; [|done]. cbn [mbind option_bind] in H.
  rewrite <- (trimBudgetLoop_temporaries _ _ _ _ _ E). case_decide; [|cbn [mbind option_bind] in H; by simplify_eq].
  unfold compactIfSparse in H. destruct (checkTrimCandidateListCompaction _); [|cbn [mbind option_bind] in H; by simplify_eq].
  destruct (compactTrimCandidateList _); cbn [mbind option_bind] in H; by simplify_eq.
Qed.
End temporaries.

Section residency.
Context (cpuFence : list Call -> Z) (makeResidentAnswer : list Call -> list Z -> bool -> option Z) (evictAnswer : list Call -> Z -> bool).
(** A driver that has no room asks for some bytes. *)
Hypothesis bytes_to_trim : forall l hs n, makeResidentAnswer l hs false = Some n -> 0 < n.

Lemma evictEach_calls l err c : exists err', evictEach evictAnswer l err c = (err', addCalls (EvictTemporary <$> l) c).
Proof.
  revert err c. induction l as [|h l IH]; intros err c; simpl.
  { exists err. unfold addCalls. rewrite app_nil_r. by destruct c. }
  destruct (IH (err || negb (evictAnswer (calls c) h)) (addCall (EvictTemporary h) c)) as [err' ->]. exists err'.
  unfold addCalls, addCall. simpl. by rewrite <- app_assoc.
Qed.

Lemma evictAll_spec c : exists st, evictAllTemporaryResources evictAnswer c =
    (st, setTemporaryResources [] (addCalls (EvictTemporary <$> temporaryResources c) c)) /\
  (st = EvictionSuccess -> temporaryResources c <> []).
Proof.
  unfold evictAllTemporaryResources. destruct (temporaryResources c) as [|h l] eqn:Ht.
  - exists EvictionNotApplied. split; [|done]. unfold addCalls. simpl. by rewrite app_nil_r.
  - destruct (evictEach_calls (h :: l) false (setTemporaryResources [] c)) as [err ->].
    exists (if err then EvictionFailed else EvictionSuccess). by destruct err.
Qed.

Lemma evictions_temporaries l : evictions (EvictTemporary <$> l) = [].
Proof. by induction l. Qed.

Lemma setTemporaries_trimmed ps c c' l : trimmed ps c c' -> trimmed ps c (setTemporaryResources l c').
Proof. intros []. by split. Qed.

(** What is left of the trimming when the driver is asked for the last time. *)
Definition exhausted (c : Controller) : Prop :=
  temporaryResources c = [] /\
  match candidates (trimCandidateList (trim c)) with [] => True | a :: _ => lastSubmittedFence c < fenceAt c a end.

(** The last call of the loop, with its answer; a call that must succeed is
    made when there is nothing more to evict. *)
Definition lastCall (hs : list Z) (r : bool) (c' : Controller) : Prop :=
  exists pre b, calls c' = pre ++ [MakeResident hs b] /\ (r = true <-> makeResidentAnswer pre hs b = None) /\
    (b = false -> r = true) /\ (b = true -> exhausted c').

(** The measure of the loop. *)
Definition roundsLeft (c : Controller) : nat :=
  (length (candidates (trimCandidateList (trim c))) + match temporaryResources c with [] => 0 | _ => 1 end)%nat.

Lemma makeResidentLoop_spec fuel hs c :
  controllerOk c -> (roundsLeft c < fuel)%nat ->
  exists r c', makeResidentLoop cpuFence makeResidentAnswer evictAnswer fuel hs c = Some (r, c') /\
    exists ps, trimmed ps c c' /\ controllerOk c' /\
    candidates (trimCandidateList (trim c)) = ps ++ candidates (trimCandidateList (trim c')) /\ lastCall hs r c'.
Proof.
  revert c. induction fuel as [|fuel IH]; intros c Hok Hf; [lia|]. cbn [makeResidentLoop].
  destruct (makeResidentAnswer (calls c) hs false) as [n|] eqn:Ha.
  2:{ eexists true, _. split; [done|]. exists []. split; [by apply (addCalls_trimmed [MakeResident hs false])|].
      split; [by apply (addCalls_ok [MakeResident hs false])|]. split; [done|]. by exists (calls c), false. }
  set (c1 := setMemoryBudgetExhausted (addCall (MakeResident hs false) c)).
  assert (controllerOk c1) as Ok1 by (by destruct Hok).
  assert (trimmed [] c c1) as T1 by (destruct (addCalls_trimmed [MakeResident hs false] c) as []; by split).
  pose proof (bytes_to_trim _ _ _ Ha) as Hn.
  destruct (trim_budget cpuFence n c1 Ok1 ltac:(lia)) as (ps & c2 & E & T2 & Ok2 & C2 & B2). pose proof (trim_budget_temporaries _ _ _ _ _ E) as M2.
  rewrite E. cbn [mbind option_bind]. pose proof (trimmed_trans _ _ _ _ _ T1 T2) as T. simpl in T.
  change (candidates (trimCandidateList (trim c1))) with (candidates (trimCandidateList (trim c))) in C2.
  change (temporaryResources c1) with (temporaryResources c) in M2.
  assert (length (candidates (trimCandidateList (trim c))) = length ps + length (candidates (trimCandidateList (trim c2))))%nat as L2 by (by rewrite C2, length_app).
  assert (forall c3, trimmed [] c2 c3 -> controllerOk c3 -> trim c3 = trim c2 -> (roundsLeft c3 < fuel)%nat ->
    exists r c', makeResidentLoop cpuFence makeResidentAnswer evictAnswer fuel hs c3 = Some (r, c') /\
    exists ps, trimmed ps c c' /\ controllerOk c' /\
    candidates (trimCandidateList (trim c)) = ps ++ candidates (trimCandidateList (trim c')) /\ lastCall hs r c') as Hagain.
  { intros c3 T3 Ok3 Ht3 Hf3. destruct (IH c3 Ok3 Hf3) as (r & c' & E' & qs & T' & Ok' & C' & Hlast). exists r, c'. split; [done|].
    exists (ps ++ qs). split; [|split; [done|split; [|done]]].
    - eapply trimmed_trans; [exact T|]. exact (trimmed_trans [] qs _ _ _ T3 T').
    - by rewrite <- app_assoc, <- C', Ht3. }
  unfold roundsLeft in Hf. case_bool_decide as Hdone.
  - apply Hagain; [apply trimmed_refl|done|done|]. unfold roundsLeft. rewrite M2.
    destruct ps as [|a ps]; [simpl in Hdone; lia|]. simpl in L2. lia.
  - destruct (evictAll_spec c2) as (st & -> & Hst). set (c3 := setTemporaryResources [] _).
    assert (trimmed [] c2 c3) as T3 by (by apply setTemporaries_trimmed, addCalls_trimmed, evictions_temporaries).
    assert (controllerOk c3) as Ok3 by (by destruct Ok2).
    assert (exhausted c3) as Hex.
    { split; [done|]. destruct B2 as [_ _ [B2|B2]]; [lia|]. change (candidates (trimCandidateList (trim c3))) with (candidates (trimCandidateList (trim c2))).
      destruct (candidates (trimCandidateList (trim c2))) as [|a q]; [done|].
      rewrite (trimmed_fenceAt _ _ _ _ T3), (trimmed_fenceAt _ _ _ _ T2), (tr_submitted _ _ _ T3), (tr_submitted _ _ _ T2). exact B2. }
    assert (exists r c', Some (match makeResidentAnswer (calls c3) hs true with None => true | Some _ => false end, addCall (MakeResident hs true) c3) = Some (r, c') /\
      exists ps, trimmed ps c c' /\ controllerOk c' /\ candidates (trimCandidateList (trim c)) = ps ++ candidates (trimCandidateList (trim c')) /\ lastCall hs r c') as Hlast.
    { eexists _, _. split; [done|]. exists ps. split; [|split; [by apply (addCalls_ok [MakeResident hs true])|split; [exact C2|]]].
      - rewrite <- (app_nil_r ps). eapply trimmed_trans; [exact T|]. exact (trimmed_trans [] [] _ _ _ T3 (addCalls_trimmed [MakeResident hs true] c3 eq_refl)).
      - exists (calls c3), true. split; [done|]. split; [by destruct (makeResidentAnswer _ hs true)|]. split; [done|]. intros _. exact Hex. }
    destruct st; [|exact Hlast..]. apply Hagain; [exact T3|exact Ok3|done|]. unfold roundsLeft. simpl.
    rewrite M2 in Hst. destruct (temporaryResources c); [by destruct Hst|]. lia.
Qed.

(** An allocation whose residency data, and that of its fragments, says that it
    is resident and used until fence [v]. *)
Definition markedAt (v : Z) (c : Controller) (a : Z) : Prop :=
  exists al, allocs c !! a = Some al /\ residency al = mkResidency true v /\
  forall f, f ∈ fragments al -> residencies c !! fragmentResidency f = Some (mkResidency true v).

Lemma markResident_spec l c :
  controllerOk c -> (forall a, a ∈ l -> is_Some (allocs c !! a)) ->
  exists c', markResident l c = Some c' /\ trim c' = trim c /\ calls c' = calls c /\
    (forall a, a ∈ l \/ markedAt (currentFenceValue c) c a -> markedAt (currentFenceValue c) c' a).
Proof.
  revert c. induction l as [|a l IH]; intros c Hok Hl; cbn [markResident].
  { exists c. split; [done|]. split; [done|]. split; [done|]. set_solver. }
  destruct (Hl a ltac:(set_solver)) as [al Ha]. rewrite Ha. cbn [mbind option_bind]. unfold changeResidency. rewrite Ha. cbn [mbind option_bind].
  set (c1 := setAllocs _ c).
  destruct (changeFragments_spec (fun r => setResident true (updateCompletionData (currentFenceValue c) r)) (fragments al) c1) as (m & E & Hm).
  { done. }
  { intros f Hf. by apply (co_fragments _ Hok a al). }
  change (currentFenceValue c1) with (currentFenceValue c). rewrite E. cbn [mbind option_bind].
  assert (controllerOk (setResidencies m c1)) as Ok1.
  { split; [apply Hok| | |].
    - intros x Hx. simpl. destruct (decide (x = a)) as [->|]; [rewrite lookup_insert_eq; by eexists|].
      rewrite lookup_insert_ne by done. by apply (co_candidates _ Hok).
    - intros x ax f Hx Hf. simpl in *. rewrite Hm. simpl. enough (is_Some (residencies c !! fragmentResidency f)) as [d ->] by (by eexists).
      destruct (decide (x = a)) as [->|]; [rewrite lookup_insert_eq in Hx; simplify_eq/=; by apply (co_fragments _ Hok a al)|].
      rewrite lookup_insert_ne in Hx by done. by apply (co_fragments _ Hok x ax).
    - intros x ax Hx. simpl in Hx. destruct (decide (x = a)) as [->|]; [rewrite lookup_insert_eq in Hx; simplify_eq/=; by apply (co_sizes _ Hok a)|].
      rewrite lookup_insert_ne in Hx by done. by apply (co_sizes _ Hok x). }
  destruct (IH _ Ok1) as (c' & E' & Ht & Hk & Hmk).
  { intros x Hx. simpl. destruct (decide (x = a)) as [->|]; [rewrite lookup_insert_eq; by eexists|].
    rewrite lookup_insert_ne by done. apply Hl. set_solver. }
  exists c'. split; [exact E'|]. split; [done|]. split; [done|]. intros x Hx. apply Hmk. simpl.
  destruct (decide (x ∈ l)) as [|Hnl]; [by left|right]. unfold markedAt. simpl.
  destruct (decide (x = a)) as [->|Hxa].
  - rewrite lookup_insert_eq. eexists. split; [done|]. split; [done|]. intros f Hf. simpl in *. rewrite Hm. simpl.
    destruct (co_fragments _ Hok a al f Ha Hf) as [d ->]. simpl. rewrite decide_True; [done|]. apply list_elem_of_fmap. eauto.
  - destruct Hx as [Hx|(ax & Hax & Hr & Hf)]; [set_solver|]. rewrite lookup_insert_ne by done. exists ax. split; [done|]. split; [done|].
    intros f Hin. rewrite Hm. simpl. rewrite (Hf f Hin). simpl. by case_decide.
Qed.

(** The residency data of no allocation and no fragment says more than before. *)
Definition notMarked (c c' : Controller) : Prop :=
  (forall a al', allocs c' !! a = Some al' -> exists al, allocs c !! a = Some al /\
     (residency al' = residency al \/ residency al' = setResident false (residency al))) /\
  (forall x d', residencies c' !! x = Some d' -> exists d, residencies c !! x = Some d /\ (d' = d \/ d' = setResident false d)).

Lemma trimmed_notMarked ps c c' : trimmed ps c c' -> notMarked c c'.
Proof.
  intros T. split.
  - intros a al' Ha. rewrite (tr_allocs _ _ _ T) in Ha. destruct (allocs c !! a) as [al|]; [|done]. simplify_eq/=.
    exists al. split; [done|]. case_decide; [by right|by left].
  - intros x d' Hd. rewrite (tr_residencies _ _ _ T) in Hd. destruct (residencies c !! x) as [d|]; [|done]. simplify_eq/=.
    exists d. split; [done|]. case_decide; [by right|by left].
Qed.

(** C25: [makeResidentResidencyAllocations] returns, however often the driver
    has no room, if a driver that refuses asks for at least one byte.  Only
    older candidates, and none of the allocations asked for, have been trimmed
    meanwhile, and none of these is a candidate any more.

    If it answers true, the driver has accepted a call with every handle that
    was not resident (or none was needed), and the allocations and their
    fragments are marked resident and in use until the current fence.  If it
    answers false, the driver has refused even the call that must succeed, made
    when no candidate that may be evicted and no temporary resource was left, and
    nothing has been marked resident or given a new fence.  ([Wddm::makeResident]
    itself never answers false to that call: it aborts.) *)
Theorem make_resident_outcome l c :
  controllerOk c -> (forall a, a ∈ l -> is_Some (allocs c !! a) /\ is_Some (positions (trim c) !! a)) ->
  exists r c', makeResidentResidencyAllocations cpuFence makeResidentAnswer evictAnswer l c = Some (r, c') /\
  (exists ps, filter (fun x => x ∉ l) (candidates (trimCandidateList (trim c))) = ps ++ candidates (trimCandidateList (trim c'))) /\
  if r : bool then
    (forall a, a ∈ l -> markedAt (currentFenceValue c) c' a) /\
    ((forall a, a ∈ l -> missingHandles c a = []) \/
     exists hs pre b, calls c' = pre ++ [MakeResident hs b] /\ makeResidentAnswer pre hs b = None /\
       forall a h, a ∈ l -> h ∈ missingHandles c a -> h ∈ hs)
  else
    notMarked c c' /\ exhausted c' /\
    exists hs pre n, calls c' = pre ++ [MakeResident hs true] /\ makeResidentAnswer pre hs true = Some n /\
       forall a h, a ∈ l -> h ∈ missingHandles c a -> h ∈ hs.
Proof.
  intros Hok Hl. unfold makeResidentResidencyAllocations.
  destruct (collectHandles_spec l c Hok Hl) as (hs & t & E & Ok1 & C1 & Hh). rewrite E. cbn [mbind option_bind].
  destruct hs as [|h0 hs0].
  - cbn [mbind option_bind]. destruct (markResident_spec l (setTrim t c) Ok1) as (c3 & E3 & T3 & K3 & M3); [by intros; apply Hl|].
    rewrite E3. cbn [mbind option_bind]. exists true, c3. split; [done|]. split; [exists []; by rewrite T3|].
    split; [intros a Ha; apply M3; by left|left]. intros a Ha.
    destruct (missingHandles c a) as [|h rest] eqn:Hmis; [done|]. specialize (Hh a h Ha). rewrite Hmis in Hh. set_solver.
  - destruct (makeResidentLoop_spec (residentRounds (setTrim t c)) (h0 :: hs0) (setTrim t c) Ok1) as (r & c2 & E2 & ps & T2 & Ok2 & C2 & pre & b & Hlast & Hr & Hb1 & Hb2).
    { unfold roundsLeft, residentRounds. pose proof (candidates_length (trimCandidateList (trim (setTrim t c)))). destruct (temporaryResources _); lia. }
    rewrite E2. cbn [mbind option_bind]. simpl in C2. rewrite C1 in C2. destruct r.
    + destruct (markResident_spec l c2 Ok2) as (c3 & E3 & T3 & K3 & M3).
      { intros a Ha. rewrite (tr_allocs _ _ _ T2). destruct (Hl a Ha) as [[al Hal] _]. simpl. rewrite Hal. by eexists. }
      rewrite E3. cbn [mbind option_bind]. exists true, c3. rewrite (tr_current _ _ _ T2) in M3. split; [done|]. split; [exists ps; by rewrite T3|].
      split; [intros a Ha; apply M3; by left|right]. exists (h0 :: hs0), pre, b. rewrite K3. split; [done|]. split; [by apply Hr|done].
    + cbn [mbind option_bind]. exists false, c2. split; [done|]. split; [by exists ps|].
      assert (b = true) as -> by (destruct b; [done|by discriminate Hb1]).
      split; [exact (trimmed_notMarked _ _ _ T2)|]. split; [by apply Hb2|].
      destruct (makeResidentAnswer pre (h0 :: hs0) true) as [n|] eqn:Hans; [|by discriminate (proj2 Hr eq_refl)]. by exists (h0 :: hs0), pre, n.
Qed.
End residency.

(** ** A run with a shared fragment *)

(** Allocation 1 is to be made resident.  It shares the fragment with handle 10
    with allocation 2, which is a candidate for trimming; its own fragment,
    handle 11, is not resident.  The driver has no room before something is
    evicted. *)
Definition exampleController : Controller :=
  mkController
    {[ 1 := mkAllocation [] 8192 [mkFragment 10 4096 100; mkFragment 11 4096 101] (mkResidency false 0);
       2 := mkAllocation [] 4096 [mkFragment 10 4096 100] (mkResidency true 3) ]}
    {[ 100 := mkResidency true 3; 101 := mkResidency false 0 ]}
    (mkTrimList [Some 2] 1 {[ 1 := trimListUnusedPosition; 2 := 0 ]}) 5 6 0 false [] [].
Definition exampleDriver (l : list Call) (hs : list Z) (b : bool) : option Z :=
  match evictions l with [] => Some 4096 | _ => None end.
Definition exampleMakeResident :=
  makeResidentResidencyAllocations (fun _ => 4) exampleDriver (fun _ _ => true) [1] exampleController.
(** A driver that never has room. *)
Definition fullDriver (l : list Call) (hs : list Z) (b : bool) : option Z := Some 4096.
Definition refusedMakeResident :=
  makeResidentResidencyAllocations (fun _ => 4) fullDriver (fun _ _ => true) [1] (setTemporaryResources [77; 78] exampleController).

Lemma exampleController_ok : controllerOk exampleController.
Proof.
  split.
  - split; simpl; [done|lia| | |by intros ?].
    + intros [|i] a Hi; simplify_eq/=. done.
    + intros a p Ha Hp. apply lookup_insert_Some in Ha as [[<- <-]|[_ Ha]]; [done|]. apply lookup_singleton_Some in Ha as [<- <-]. done.
  - intros a Ha. simpl in Ha. apply list_elem_of_singleton in Ha as ->. by eexists.
  - intros a al f Ha Hf.
    assert (map_Forall (fun _ al => Forall (fun f => is_Some (residencies exampleController !! fragmentResidency f)) (fragments al))
      (allocs exampleController)) as H by eval_decide.
    specialize (H a al Ha). simpl in H. rewrite Forall_forall in H. by apply H.
  - intros a al Ha. assert (map_Forall (fun _ al => 0 <= alignedSize al) (allocs exampleController)) as H by eval_decide. by apply (H a al).
Qed.

Lemma trim_to_budget_oldest_first_witness :
  exists ps c', trimResidencyToBudget (fun _ => 4) 100 exampleController = Some (bool_decide (100 <= sizesOf exampleController ps), c') /\
    trimmed ps exampleController c'.
Proof.
  assert (0 <= 100) as Hn by lia.
  destruct (trim_to_budget_oldest_first (fun _ => 4) 100 exampleController exampleController_ok Hn) as (ps & c' & E & T & _).
  by exists ps, c'.
Defined.

(** The driver has room after one eviction; or never, and refuses the call that
    must succeed after the candidate and the two temporary resources are gone. *)
Lemma make_resident_outcome_witness :
  (exists c', exampleMakeResident = Some (true, c') /\ markedAt 6 c' 1) /\
  (exists c', refusedMakeResident = Some (false, c') /\ notMarked exampleController c' /\ exhausted c').
Proof.
  assert (forall l hs n, exampleDriver l hs false = Some n -> 0 < n) as Hd.
  { intros l hs n. unfold exampleDriver. destruct (evictions l); [|done]. intros [= <-]. lia. }
  assert (forall l hs n, fullDriver l hs false = Some n -> 0 < n) as Hd2 by (intros l hs n [= <-]; lia).
  assert (forall a, a ∈ [1] -> is_Some (allocs exampleController !! a) /\ is_Some (positions (trim exampleController) !! a)) as Hl.
  { intros a ->%list_elem_of_singleton. by split; eexists. }
  split.
  - destruct (make_resident_outcome (fun _ => 4) _ (fun _ _ => true) Hd [1] exampleController exampleController_ok Hl) as (r & c' & E & _ & H).
    assert (r = true) as ->.
    { assert (fst <$> exampleMakeResident = Some true) as Hf by (vm_compute; reflexivity). unfold exampleMakeResident in Hf. rewrite E in Hf. by injection Hf. }
    exists c'. split; [exact E|]. apply H. by constructor.
  - assert (controllerOk (setTemporaryResources [77; 78] exampleController)) as Hok by (destruct exampleController_ok; by split).
    destruct (make_resident_outcome (fun _ => 4) _ (fun _ _ => true) Hd2 [1] _ Hok Hl) as (r & c' & E & _ & H).
    assert (r = false) as ->.
    { assert (fst <$> refusedMakeResident = Some false) as Hf by (vm_compute; reflexivity). unfold refusedMakeResident in Hf. rewrite E in Hf. by injection Hf. }
    exists c'. split; [exact E|]. destruct H as (Hm & Hx & _). by split.
Defined.

(** trimming while allocations are made resident can evict a
    fragment of one of them.  The fragment was resident, so its handle is not
    in the call to the driver; its fence is not raised before the driver has
    room, so trimming another allocation that shares the fragment evicts it;
    and at the end the fragment is marked resident although it has been
    evicted last. *)
Theorem shared_fragment_marked_resident_after_eviction :
  controllerOk exampleController /\
  exists c', exampleMakeResident = Some (true, c') /\
    residencies c' !! 100 = Some (mkResidency true 6) /\
    calls c' = [MakeResident [11] false; Evict [10]; MakeResident [11] false].
Proof.
  split; [apply exampleController_ok|].
  assert (exists c', exampleMakeResident = Some (true, c')) as [c' E].
  { destruct exampleMakeResident as [[r c']|] eqn:E; [|by vm_compute in E]. destruct r; [eauto|by vm_compute in E]. }
  exists c'. split; [done|].
  assert ((fun x => (residencies x.2 !! 100, calls x.2)) <$> exampleMakeResident =
    Some (Some (mkResidency true 6), [MakeResident [11] false; Evict [10]; MakeResident [11] false])) as H by (vm_compute; reflexivity).
  rewrite E in H. simpl in H. clear E. injection H as H1 H2. split; [exact H1|exact H2].
Qed.
