(* ===== verification/Submissions.v ===== *)
(** * Batched submissions

    Model of [runtime/command_stream/submissions_aggregator.cpp] and of the loop
    of [flushBatchedSubmissions] in [command_stream_receiver_hw.inl] that groups
    the recorded command buffers and submits each group.  The list of command
    buffers, an [IDList], is here the list it represents (see [IDList]); the
    allocations are a store with their size and the inspection id of the one OS
    context.  The commands written into the buffers and the flush stamps are not
    modelled.  [None] is an allocation that does not exist, or too little fuel. *)

From S2P Require Import Prelude.

Inductive QueueThrottle := LOW | MEDIUM | HIGH.
#[export] Instance QueueThrottle_eq_dec : EqDecision QueueThrottle. Proof. solve_decision. Defined.

Record BatchBuffer := mkBatchBuffer {
  commandBufferAllocation : option Z; requiresCoherency : bool; low_priority : bool; throttle : QueueThrottle }.
Record CommandBuffer := mkCommandBuffer { surfaces : list Z; batchBuffer : BatchBuffer; inspectionId : Z }.
Definition newCommandBuffer (s : list Z) (b : BatchBuffer) : CommandBuffer := mkCommandBuffer s b 0.
Definition setInspection (v : Z) (b : CommandBuffer) : CommandBuffer := mkCommandBuffer (surfaces b) (batchBuffer b) v.

Record GraphicsAllocation := mkAllocation { allocationInspectionId : Z; underlyingBufferSize : Z }.
Abbreviation Store := (gmap Z GraphicsAllocation).

(** [nextInspectionId] is the field [inspectionId] of the aggregator. *)
Record SubmissionAggregator := mkAggregator { cmdBuffers : list CommandBuffer; nextInspectionId : Z }.
Definition newAggregator : SubmissionAggregator := mkAggregator [] 1.

Definition recordCommandBuffer (b : CommandBuffer) (s : SubmissionAggregator) : SubmissionAggregator :=
  mkAggregator (cmdBuffers s ++ [b]) (nextInspectionId s).

(** Resources found new: the list, their size, and the store in which they are
    marked as inspected. *)
Definition inspectOne (current : Z) (a : Z) (acc : list Z * Z * Store) : option (list Z * Z * Store) :=
  let '(new, size, m) := acc in
  d ← m !! a;
  if decide (allocationInspectionId d < current) then
    Some (new ++ [a], w64 (size + underlyingBufferSize d), <[a := mkAllocation current (underlyingBufferSize d)]> m)
  else Some (new, size, m).

(** The loop over the surfaces, [skip] being the allocation passed over. *)
Fixpoint inspectAll (current : Z) (skip : option Z) (l : list Z) (acc : list Z * Z * Store) : option (list Z * Z * Store) :=
  match l with
  | [] => Some acc
  | a :: l =>
      if decide (Some a = skip) then inspectAll current skip l acc
      else acc ← inspectOne current a acc; inspectAll current skip l acc
  end.

Definition compatible (a b : BatchBuffer) : bool :=
  bool_decide (requiresCoherency a = requiresCoherency b) && bool_decide (low_priority a = low_priority b) &&
  bool_decide (throttle a = throttle b).

(** The new resources of a buffer that might be merged. *)
Definition evaluateBuffer (current : Z) (primaryAllocation : option Z) (b : CommandBuffer) (m : Store) : option (list Z * Z * Store) :=
  acc ← inspectAll current primaryAllocation (surfaces b) ([], 0, m);
  match commandBufferAllocation (batchBuffer b) with
  | Some a => if decide (Some a <> primaryAllocation) then inspectOne current a acc else Some acc
  | None => Some acc
  end.

Fixpoint mergeLoop (current : Z) (primaryAllocation : option Z) (totalMemoryBudget : Z) (rest : list CommandBuffer)
    (resourcePackage : list Z) (totalUsedSize : Z) (m : Store) : option (list CommandBuffer * list Z * Z * Store) :=
  match rest with
  | [] => Some ([], resourcePackage, totalUsedSize, m)
  | b :: rest =>
      '(newResources, newSize, m) ← evaluateBuffer current primaryAllocation b m;
      if decide (w64 (newSize + totalUsedSize) <= totalMemoryBudget) then
        '(rest, resourcePackage, totalUsedSize, m) ←
          mergeLoop current primaryAllocation totalMemoryBudget rest (resourcePackage ++ newResources) (w64 (totalUsedSize + newSize)) m;
        Some (setInspection current b :: rest, resourcePackage, totalUsedSize, m)
      else Some (b :: rest, resourcePackage, totalUsedSize, m)
  end.

Definition aggregateCommandBuffers (resourcePackage : list Z) (totalUsedSize totalMemoryBudget : Z) (s : SubmissionAggregator) (m : Store)
    : option (SubmissionAggregator * list Z * Z * Store) :=
  match cmdBuffers s with
  | [] => Some (s, resourcePackage, totalUsedSize, m)
  | primary :: rest =>
      let currentInspection := nextInspectionId s in
      let next := w32 (nextInspectionId s + 1) in
      let primary := setInspection currentInspection primary in
      '(resourcePackage, totalUsedSize, m) ← inspectAll currentInspection None (surfaces primary) (resourcePackage, totalUsedSize, m);
      '(rest, resourcePackage, totalUsedSize, m) ←
        (match rest with
         | [] => Some (rest, resourcePackage, totalUsedSize, m)
         | second :: _ =>
             if compatible (batchBuffer second) (batchBuffer primary) then
               mergeLoop currentInspection (commandBufferAllocation (batchBuffer primary)) totalMemoryBudget rest
                 resourcePackage totalUsedSize m
             else Some (rest, resourcePackage, totalUsedSize, m)
         end);
      Some (mkAggregator (primary :: rest) next, resourcePackage, totalUsedSize, m)
  end.

(** What reaches [flush]: the primary buffer, the buffers chained to it, and
    the surfaces for the submission. *)
Record Submission := mkSubmission { primaryCmdBuffer : CommandBuffer; chained : list CommandBuffer; surfacesForSubmit : list Z }.

(** The loop that chains the buffers inspected together with the primary one. *)
Fixpoint chainLoop (id : Z) (l : list CommandBuffer) : list CommandBuffer * list CommandBuffer :=
  match l with
  | b :: l => if decide (inspectionId b = id) then let '(c, rest) := chainLoop id l in (b :: c, rest) else ([], b :: l)
  | [] => ([], [])
  end.

Fixpoint flushLoop (fuel : nat) (totalMemoryBudget : Z) (s : SubmissionAggregator) (m : Store)
    : option (list Submission * SubmissionAggregator * Store) :=
  match fuel with
  | O => None
  | S fuel =>
      match cmdBuffers s with
      | [] => Some ([], s, m)
      | _ =>
          '(s, resourcePackage, _, m) ← aggregateCommandBuffers [] 0 totalMemoryBudget s m;
          match cmdBuffers s with
          | [] => None
          | primary :: rest =>
              let '(c, rest) := chainLoop (inspectionId primary) rest in
              '(out, s, m) ← flushLoop fuel totalMemoryBudget (mkAggregator rest (nextInspectionId s)) m;
              Some (mkSubmission primary c resourcePackage :: out, s, m)
          end
      end
  end.

(** Every round submits at least the first buffer. *)
Definition flushBatchedSubmissions (totalMemoryBudget : Z) (s : SubmissionAggregator) (m : Store) :=
  flushLoop (S (length (cmdBuffers s))) totalMemoryBudget s m.

(** ** Which resources a package holds *)

Definition sizeOf (m : Store) (a : Z) : Z := default 0 (underlyingBufferSize <$> m !! a).
Definition sizeSum (m : Store) (l : list Z) : Z := foldr (fun a s => sizeOf m a + s) 0 l.

(** The store [m] is [m0] with the allocations [pkg] marked as inspected. *)
Definition marked (current : Z) (m0 : Store) (pkg : list Z) (m : Store) : Prop :=
  forall a, m !! a = (fun d => if decide (a ∈ pkg) then mkAllocation current (underlyingBufferSize d) else d) <$> m0 !! a.
Definition freshStore (current : Z) (m : Store) : Prop := forall a d, m !! a = Some d -> allocationInspectionId d < current.

(** What a buffer chained to a primary one needs besides the primary's allocation. *)
Definition needed (primaryAllocation : option Z) (b : CommandBuffer) (a : Z) : Prop :=
  Some a <> primaryAllocation /\ (a ∈ surfaces b \/ commandBufferAllocation (batchBuffer b) = Some a).

Lemma sizeSum_app m a b : sizeSum m (a ++ b) = sizeSum m a + sizeSum m b.
Proof. induction a as [|x a IH]; simpl; lia. Qed.

Lemma wrap_wrap_l x y : w64 (w64 x + y) = w64 (x + y).
Proof. unfold wrap. apply Z.add_mod_idemp_l. lia. Qed.

Lemma marked_nil current m : marked current m [] m.
Proof. intros a. by destruct (m !! a). Qed.

Lemma marked_fresh current m0 pkg m : freshStore current m0 -> marked current m0 pkg m -> freshStore (current + 1) m.
Proof.
  intros Hf Hm a d Ha. rewrite Hm in Ha. destruct (m0 !! a) as [d0|] eqn:E; [|done]. specialize (Hf a d0 E). simplify_eq/=.
  case_decide; simpl; lia.
Qed.

Section inspection.
Context (current : Z) (m0 : Store).
Hypothesis fresh : freshStore current m0.

Lemma inspectOne_spec pkg a new m :
  marked current m0 (pkg ++ new) m -> NoDup (pkg ++ new) -> is_Some (m0 !! a) ->
  exists new' m', inspectOne current a (new, wrap 64 (sizeSum m0 new), m) = Some (new ++ new', wrap 64 (sizeSum m0 (new ++ new')), m') /\
    marked current m0 (pkg ++ new ++ new') m' /\ NoDup (pkg ++ new ++ new') /\
    forall x, x ∈ new' <-> x = a /\ x ∉ pkg ++ new.
Proof.
  intros Hm Hnd [d Hd]. unfold inspectOne. pose proof (Hm a) as Hma. rewrite Hd in Hma. simpl in Hma. rewrite Hma. cbn [mbind option_bind].
  case_decide as Hin.
  - simpl. rewrite decide_False by lia. exists [], m. rewrite app_nil_r. split_and!; try done. set_solver.
  - rewrite decide_True by (by apply (fresh a)). exists [a], (<[a := mkAllocation current (underlyingBufferSize d)]> m).
    split; [|split; [|split]].
    + do 2 f_equal. f_equal. rewrite wrap_wrap_l, sizeSum_app. f_equal. simpl. unfold sizeOf. rewrite Hd. simpl. lia.
    + intros x. destruct (decide (x = a)) as [->|Hne].
      * rewrite lookup_insert_eq, Hd. simpl. by rewrite decide_True by set_solver.
      * rewrite lookup_insert_ne by done. rewrite Hm. destruct (m0 !! x); [|done]. simpl. f_equal.
        repeat case_decide; try done; set_solver.
    + rewrite app_assoc. apply NoDup_app. split; [done|]. split; [|apply NoDup_singleton]. set_solver.
    + set_solver.
Qed.

Lemma inspectAll_spec pkg skip l new m :
  marked current m0 (pkg ++ new) m -> NoDup (pkg ++ new) -> (forall a, a ∈ l -> is_Some (m0 !! a)) ->
  exists new' m', inspectAll current skip l (new, wrap 64 (sizeSum m0 new), m) = Some (new ++ new', wrap 64 (sizeSum m0 (new ++ new')), m') /\
    marked current m0 (pkg ++ new ++ new') m' /\ NoDup (pkg ++ new ++ new') /\
    forall x, x ∈ new' <-> x ∈ l /\ Some x <> skip /\ x ∉ pkg ++ new.
Proof.
  revert new m. induction l as [|a l IH]; intros new m Hm Hnd Hl; cbn [inspectAll].
  { exists [], m. rewrite app_nil_r. split_and!; try done. set_solver. }
  destruct (decide (Some a = skip)) as [Hs|Hs].
  - destruct (IH new m Hm Hnd) as (new' & m' & E & M & N & X); [set_solver|]. exists new', m'. split_and!; try done.
    intros x. rewrite X. split; [set_solver|]. intros (Hx & ? & ?). apply elem_of_cons in Hx as [->|Hx]; [done|]. done.
  - destruct (inspectOne_spec pkg a new m Hm Hnd) as (n1 & m1 & E1 & M1 & N1 & X1); [apply Hl; set_solver|]. rewrite E1. cbn [mbind option_bind].
    destruct (IH (new ++ n1) m1 M1 N1) as (n2 & m2 & E2 & M2 & N2 & X2); [set_solver|]. exists (n1 ++ n2), m2.
    rewrite <- !app_assoc in *. split_and!; try done. intros x. rewrite elem_of_app, X1, X2.
    destruct (decide (x = a)) as [->|Hxa]; [set_solver|]. split; [set_solver|]. intros (Hx & ? & Hn). right.
    apply elem_of_cons in Hx as [->|Hx]; [done|]. split; [done|]. split; [done|]. intros Hin. rewrite !elem_of_app, X1 in Hin. set_solver.
Qed.

Lemma evaluateBuffer_spec pkg pa b m :
  marked current m0 pkg m -> NoDup pkg ->
  (forall a, a ∈ surfaces b \/ commandBufferAllocation (batchBuffer b) = Some a -> is_Some (m0 !! a)) ->
  exists new m', evaluateBuffer current pa b m = Some (new, wrap 64 (sizeSum m0 new), m') /\
    marked current m0 (pkg ++ new) m' /\ NoDup (pkg ++ new) /\ forall x, x ∈ new <-> needed pa b x /\ x ∉ pkg.
Proof.
  intros Hm Hnd Hb. unfold evaluateBuffer, needed.
  destruct (inspectAll_spec pkg pa (surfaces b) [] m) as (new & m1 & E & M & N & X); [by rewrite app_nil_r|by rewrite app_nil_r|eauto|].
  change (wrap 64 (sizeSum m0 [])) with 0 in E. simpl in *. rewrite E. cbn [mbind option_bind]. rewrite app_nil_r in X.
  destruct (commandBufferAllocation (batchBuffer b)) as [a|] eqn:Ha; [destruct (decide (Some a <> pa)) as [Hne|Heq]|].
  - destruct (inspectOne_spec pkg a new m1 M N) as (n1 & m2 & E1 & M1 & N1 & X1); [eauto|]. exists (new ++ n1), m2.
    split_and!; try done. intros x. rewrite elem_of_app, X, X1, elem_of_app, X. destruct (decide (x = a)) as [->|]; [|naive_solver].
    destruct (decide (a ∈ surfaces b)); naive_solver.
  - exists new, m1. split_and!; try done. intros x. rewrite X. split; [naive_solver|]. intros [[? [?|?]] ?]; [done|].
    simplify_eq. exfalso. by apply Heq.
  - exists new, m1. split_and!; try done. intros x. rewrite X. naive_solver.
Qed.

Lemma mergeLoop_spec pkg pa budget rest m :
  marked current m0 pkg m -> NoDup pkg ->
  (forall b a, b ∈ rest -> a ∈ surfaces b \/ commandBufferAllocation (batchBuffer b) = Some a -> is_Some (m0 !! a)) ->
  exists merged left pkg' extra m',
    mergeLoop current pa budget rest pkg (wrap 64 (sizeSum m0 pkg)) m =
      Some ((setInspection current <$> merged) ++ left, pkg', wrap 64 (sizeSum m0 pkg'), m') /\
    rest = merged ++ left /\ marked current m0 (pkg' ++ extra) m' /\ NoDup pkg' /\
    (merged = [] -> pkg' = pkg) /\ (merged <> [] -> wrap 64 (sizeSum m0 pkg') <= budget) /\
    (forall x, x ∈ pkg' <-> x ∈ pkg \/ exists b, b ∈ merged /\ needed pa b x).
Proof.
  revert pkg m. induction rest as [|b rest IH]; intros pkg m Hm Hnd Hr; cbn [mergeLoop].
  { exists [], [], pkg, [], m. rewrite !app_nil_r. split_and!; try done.
    intros x. split; [by left|intros [?|(? & Hc & _)]; [done|by apply elem_of_nil in Hc]]. }
  destruct (evaluateBuffer_spec pkg pa b m Hm Hnd) as (new & m1 & E & M & N & X); [intros a; apply Hr; set_solver|].
  rewrite E. cbn [mbind option_bind].
  assert (w64 (wrap 64 (sizeSum m0 new) + wrap 64 (sizeSum m0 pkg)) = wrap 64 (sizeSum m0 (pkg ++ new))) as Es.
  { rewrite wrap_wrap_l, Z.add_comm, wrap_wrap_l, sizeSum_app. done. }
  rewrite Es, Z.add_comm, Es. case_decide as Hfit.
  - destruct (IH (pkg ++ new) m1 M N) as (merged & left & pkg' & extra & m' & E' & R & M' & N' & S0 & B & X'); [set_solver|].
    rewrite E'. cbn [mbind option_bind]. exists (b :: merged), left, pkg', extra, m'. split_and!; try done.
    + by rewrite R.
    + intros _. destruct merged as [|b2 merged]; [by rewrite (S0 eq_refl)|by apply B].
    + intros x. rewrite X', elem_of_app, X. split.
      * intros [[Hx|[Hx _]]|(c & Hc & Hx)]; [by left|right; exists b; set_solver|right; exists c; set_solver].
      * intros [Hx|(c & Hc & Hx)]; [tauto|]. apply elem_of_cons in Hc as [->|Hc]; [|eauto]. destruct (decide (x ∈ pkg)); tauto.
  - exists [], (b :: rest), pkg, new, m1. split_and!; try done.
    intros x. split; [by left|intros [?|(? & Hc & _)]; [done|by apply elem_of_nil in Hc]].
Qed.
End inspection.

(** ** Groups of buffers *)

(** What a submission must be, [m] giving the sizes. *)
Record submissionOk (m : Store) (totalMemoryBudget : Z) (s : Submission) : Prop := {
  so_nodup : NoDup (surfacesForSubmit s);
  so_complete : forall x, x ∈ surfacesForSubmit s <->
    x ∈ surfaces (primaryCmdBuffer s) \/
    exists b, b ∈ chained s /\ needed (commandBufferAllocation (batchBuffer (primaryCmdBuffer s))) b x;
  so_budget : chained s <> [] -> w64 (sizeSum m (surfacesForSubmit s)) <= totalMemoryBudget;
  so_first : match chained s with [] => True | b :: _ => compatible (batchBuffer b) (batchBuffer (primaryCmdBuffer s)) = true end }.

(** The buffers as they were recorded. *)
Definition recorded (b : CommandBuffer) : list Z * BatchBuffer := (surfaces b, batchBuffer b).
Definition submitted (s : Submission) : list CommandBuffer := primaryCmdBuffer s :: chained s.

Definition resourcesExist (m : Store) (l : list CommandBuffer) : Prop :=
  forall b a, b ∈ l -> a ∈ surfaces b \/ commandBufferAllocation (batchBuffer b) = Some a -> is_Some (m !! a).

Lemma marked_sizes current m0 pkg m a : marked current m0 pkg m -> sizeOf m a = sizeOf m0 a.
Proof. intros Hm. unfold sizeOf. rewrite Hm. destruct (m0 !! a); [|done]. simpl. by case_decide. Qed.

Lemma sizeSum_ext m m' l : (forall a, sizeOf m a = sizeOf m' a) -> sizeSum m l = sizeSum m' l.
Proof. intros H. induction l as [|a l IH]; simpl; [done|]. by rewrite H, IH. Qed.

Lemma chainLoop_spec id merged left :
  Forall (fun b => inspectionId b <> id) left ->
  chainLoop id ((setInspection id <$> merged) ++ left) = (setInspection id <$> merged, left).
Proof.
  intros Hl. induction merged as [|b merged IH].
  - destruct left as [|b left]; [done|]. apply Forall_cons in Hl as [Hb _]. simpl. by rewrite decide_False.
  - rewrite fmap_cons, <- app_comm_cons. cbn [chainLoop]. by rewrite decide_True, IH.
Qed.

(** One round of the flush. *)
Lemma aggregate_spec budget primary rest n m :
  freshStore n m -> resourcesExist m (primary :: rest) -> Forall (fun b => inspectionId b <> n) rest ->
  exists merged left pkg m',
    aggregateCommandBuffers [] 0 budget (mkAggregator (primary :: rest) n) m =
      Some (mkAggregator (setInspection n primary :: (setInspection n <$> merged) ++ left) (w32 (n + 1)), pkg, w64 (sizeSum m pkg), m') /\
    rest = merged ++ left /\ submissionOk m budget (mkSubmission (setInspection n primary) (setInspection n <$> merged) pkg) /\
    freshStore (n + 1) m' /\ (forall a, sizeOf m' a = sizeOf m a) /\ (forall a, is_Some (m !! a) -> is_Some (m' !! a)).
Proof.
  intros Hf Hr Hid. unfold aggregateCommandBuffers. cbn [cmdBuffers nextInspectionId].
  destruct (inspectAll_spec n m Hf [] None (surfaces primary) [] m) as (pkg0 & m1 & E & M & N & X);
    [apply marked_nil|constructor|intros a Ha; apply (Hr primary a); set_solver|].
  change (wrap 64 (sizeSum m [])) with 0 in E. simpl in *. rewrite E. cbn [mbind option_bind].
  assert (forall left, rest = left -> exists merged left' pkg m',
    Some (left, pkg0, w64 (sizeSum m pkg0), m1) = Some ((setInspection n <$> merged) ++ left', pkg, w64 (sizeSum m pkg), m') /\
    rest = merged ++ left' /\ submissionOk m budget (mkSubmission (setInspection n primary) (setInspection n <$> merged) pkg) /\
    exists extra, marked n m (pkg ++ extra) m') as Halone.
  { intros left ->. exists [], left, pkg0, m1. split; [done|]. split; [done|]. split; [|exists []; by rewrite app_nil_r].
    split; simpl; [done| |done|done]. intros x. rewrite X. split; [by intros (? & _ & _); left|].
    intros [Hx|(b & Hb & _)]; [|by apply elem_of_nil in Hb]. split_and!; [done|done|by apply not_elem_of_nil]. }
  match goal with |- context [(match rest with [] => ?u | _ => _ end)] => set (k := match rest with [] => u | second :: _ => _ end) end.
  assert (exists merged left' pkg m',
    k = Some ((setInspection n <$> merged) ++ left', pkg, w64 (sizeSum m pkg), m') /\
    rest = merged ++ left' /\ submissionOk m budget (mkSubmission (setInspection n primary) (setInspection n <$> merged) pkg) /\
    exists extra, marked n m (pkg ++ extra) m') as (merged & left & pkg & m' & Ek & R & Ok & extra & Hm).
  { unfold k. clear k. destruct rest as [|second rest']; [by apply Halone|]. destruct (compatible _ _) eqn:Hc; [|by apply Halone].
    destruct (mergeLoop_spec n m Hf pkg0 (commandBufferAllocation (batchBuffer primary)) budget (second :: rest') m1 M N)
      as (merged & left & pkg & extra & m' & E' & R & M' & N' & S0 & B & X'); [intros b a Hb; apply Hr; set_solver|].
    simpl in E'. simpl. rewrite E'. exists merged, left, pkg, m'. split; [done|]. split; [done|]. split; [|eauto].
    split; simpl; [done| | |].
    - intros x. rewrite X', X. split.
      + intros [(? & _)|(b & Hb & Hn)]; [by left|right]. exists (setInspection n b). split; [by apply list_elem_of_fmap_2|done].
      + intros [Hx|(b & Hb & Hn)]; [left; split_and!; [done|done|by apply not_elem_of_nil]|right].
        apply list_elem_of_fmap in Hb as (b0 & -> & Hb). by exists b0.
    - intros Hne. apply B. by intros ->.
    - destruct merged as [|b merged]; [done|]. simpl in R. simplify_eq. simpl. exact Hc. }
  rewrite Ek. cbn [mbind option_bind]. exists merged, left, pkg, m'. split; [done|]. split; [done|]. split; [done|].
  split; [by eapply marked_fresh|]. split; [intros a; by eapply marked_sizes|]. intros a [d Hd]. rewrite Hm, Hd. by eexists.
Qed.

Lemma submissionOk_ext m m' budget s : (forall a, sizeOf m a = sizeOf m' a) -> submissionOk m budget s -> submissionOk m' budget s.
Proof. intros Hs [N C B F]. split; try done. intros Hne. rewrite <- (sizeSum_ext m m') by done. by apply B. Qed.

Lemma flushLoop_spec fuel budget l n m :
  (length l < fuel)%nat -> freshStore n m -> resourcesExist m l -> Forall (fun b => inspectionId b < n) l ->
  0 <= n -> n + Z.of_nat (length l) < 2 ^ 32 ->
  exists out n' m', flushLoop fuel budget (mkAggregator l n) m = Some (out, mkAggregator [] n', m') /\
    (recorded <$> mjoin (submitted <$> out)) = recorded <$> l /\ Forall (submissionOk m budget) out /\
    freshStore n' m' /\ (forall a, sizeOf m' a = sizeOf m a).
Proof.
  revert l n m. induction fuel as [|fuel IH]; intros l n m Hlen Hf Hr Hid Hn Hb; [lia|]. cbn [flushLoop cmdBuffers].
  destruct l as [|primary rest]; [exists [], n, m; split_and!; try done|].
  apply Forall_cons in Hid as [Hp Hid].
  destruct (aggregate_spec budget primary rest n m Hf Hr) as (merged & left & pkg & m1 & E & -> & Ok & F1 & S1 & D1).
  { eapply Forall_impl; [exact Hid|]. simpl. lia. }
  rewrite E. cbn [mbind option_bind cmdBuffers]. apply Forall_app in Hid as [Hid1 Hid2].
  simpl inspectionId. rewrite chainLoop_spec by (eapply Forall_impl; [exact Hid2|]; simpl; lia).
  simpl in Hlen, Hb. rewrite length_app in Hlen, Hb. cbn [nextInspectionId].
  rewrite wrap_small by (unfold uint; lia).
  destruct (IH left (n + 1) m1) as (out & n' & m' & E' & R & Oks & F & S); [lia|done| | |lia|lia|].
  { intros b a Hin Ha. apply D1. eapply (Hr b); [|done]. set_solver. }
  { eapply Forall_impl; [exact Hid2|]. simpl. lia. }
  rewrite E'. cbn [mbind option_bind]. eexists _, n', m'. split; [done|]. split; [|split; [|split; [done|]]].
  - match goal with |- context [mjoin (submitted <$> (?x :: out))] =>
      change (mjoin (submitted <$> (x :: out))) with (submitted x ++ mjoin (submitted <$> out)) end.
    rewrite fmap_app, R, fmap_cons, fmap_app. unfold submitted at 1. cbn [primaryCmdBuffer chained].
    rewrite fmap_cons, <- list_fmap_compose. done.
  - constructor; [done|]. eapply Forall_impl; [exact Oks|]. intros s. by apply submissionOk_ext.
  - intros a. by rewrite S, S1.
Qed.

(** C26: a flush submits every recorded command buffer exactly once, in
    the order of recording, and empties the list.  Each submission carries
    each of its resources once: the surfaces of the primary buffer, and for
    every chained buffer its surfaces and its own allocation except the
    primary's; a submission with chained buffers keeps the memory budget; and
    the first chained buffer agrees with the primary one in coherency,
    priority and throttle.  The loop ends. *)
Theorem flush_submits_every_buffer budget l n m :
  freshStore n m -> resourcesExist m l -> Forall (fun b => inspectionId b < n) l ->
  0 <= n -> n + Z.of_nat (length l) < 2 ^ 32 ->
  exists out n' m', flushBatchedSubmissions budget (mkAggregator l n) m = Some (out, mkAggregator [] n', m') /\
    (recorded <$> mjoin (submitted <$> out)) = recorded <$> l /\ Forall (submissionOk m budget) out /\ freshStore n' m'.
Proof.
  intros Hf Hr Hid Hn Hb.
  destruct (flushLoop_spec (S (length l)) budget l n m) as (out & n' & m' & E & R & Oks & F & _); try done; [lia|].
  by exists out, n', m'.
Qed.

(** ** A run *)

(** Three buffers of which the last has other demands than the first. *)
Definition exampleBuffers : list CommandBuffer :=
  [newCommandBuffer [1; 2] (mkBatchBuffer (Some 10) false false MEDIUM);
   newCommandBuffer [2; 3] (mkBatchBuffer (Some 10) false false MEDIUM);
   newCommandBuffer [3; 4] (mkBatchBuffer (Some 11) true true LOW)].
Definition exampleStore : Store := gset_to_gmap (mkAllocation 0 4096) {[ 1; 2; 3; 4; 10; 11 ]}.

Lemma flush_submits_every_buffer_witness :
  exists out n' m', flushBatchedSubmissions 1000000 (mkAggregator exampleBuffers 1) exampleStore = Some (out, mkAggregator [] n', m') /\
    Forall (submissionOk exampleStore 1000000) out.
Proof.
  destruct (flush_submits_every_buffer 1000000 exampleBuffers 1 exampleStore) as (out & n' & m' & E & _ & Ok & _).
  - intros a d Ha. apply lookup_gset_to_gmap_Some in Ha as [_ <-]. simpl. lia.
  - intros b a Hb Ha. assert (Forall (fun b => Forall (fun a => is_Some (exampleStore !! a)) (surfaces b ++ option_list (commandBufferAllocation (batchBuffer b)))) exampleBuffers) as H by eval_decide.
    rewrite Forall_forall in H. specialize (H b Hb). rewrite Forall_forall in H. apply H. apply elem_of_app.
    destruct Ha as [?| ->]; [by left|right; by apply list_elem_of_here].
  - eval_decide.
  - lia.
  - simpl. lia.
  - by exists out, n', m'.
Defined.

(** Only the buffer next to the primary one is compared with it, so the third
    buffer is chained although coherency, priority and throttle differ. *)
Lemma incompatible_buffer_is_chained :
  option_map (fun r => map (fun s => map recorded (submitted s)) (fst (fst r)))
    (flushBatchedSubmissions 1000000 (mkAggregator exampleBuffers 1) exampleStore) = Some [map recorded exampleBuffers].
Proof. vm_compute. reflexivity. Qed.
