(* ===== verification/LocalIds.v ===== *)
(** * Local ids of the work items

    Model of [runtime/command_queue/local_id_gen.cpp], [.inl] and [.h]: the
    payload that tells every SIMD lane of every hardware thread which work item
    of the group it runs.  The vector types [uint16x8_t] and [uint16x16_t] of
    [helpers/uint16_sse4.h] and [uint16_avx2.h] are written over the class
    [Intrinsics] of the processor's vector instructions, whose documented effect
    on each 16-bit lane is [IntrinsicsSpec]; [generateLocalIDsSimd], a template
    over the vector type, is written over the class [Vec] that both types
    implement.  The buffer is a list of 16-bit words, so that the byte offsets
    of the code are halved; [None] is a store outside of it, or too little fuel. *)

From S2P Require Import Prelude.

(** ** The vector instructions *)

(** A 16-bit word read as a signed number, as the comparisons do. *)
Definition s16 (a : Z) : Z := if decide (a < 2 ^ 15) then a else a - 2 ^ 16.

Class Intrinsics (V : Type) := {
  lane : V -> nat -> Z;
  mm_set1 : Z -> V;
  mm_load : list Z -> V;
  mm_add : V -> V -> V;
  mm_sub : V -> V -> V;
  mm_xor : V -> V -> V;
  mm_cmplt : V -> V -> V;
  mm_cmpgt : V -> V -> V;
  mm_blendv : V -> V -> V -> V;
  mm_test_all_zeros : V -> V -> bool }.

(** What the instructions do to the [n] lanes; [mm_blendv] takes the bytes of
    its second argument where the mask is set. *)
Class IntrinsicsSpec (n : nat) (V : Type) `{Intrinsics V} : Prop := {
  lane_range v i : (i < n)%nat -> uint 16 (lane v i);
  lane_set1 a i : (i < n)%nat -> uint 16 a -> lane (mm_set1 a) i = a;
  lane_load l a i : (i < n)%nat -> l !! i = Some a -> uint 16 a -> lane (mm_load l) i = a;
  lane_add a b i : (i < n)%nat -> lane (mm_add a b) i = w16 (lane a i + lane b i);
  lane_sub a b i : (i < n)%nat -> lane (mm_sub a b) i = w16 (lane a i - lane b i);
  lane_xor a b i : (i < n)%nat -> lane (mm_xor a b) i = Z.lxor (lane a i) (lane b i);
  lane_cmplt a b i : (i < n)%nat -> lane (mm_cmplt a b) i = if decide (s16 (lane a i) < s16 (lane b i)) then 65535 else 0;
  lane_cmpgt a b i : (i < n)%nat -> lane (mm_cmpgt a b) i = if decide (s16 (lane b i) < s16 (lane a i)) then 65535 else 0;
  lane_blendv_set a b m i : (i < n)%nat -> lane m i = 65535 -> lane (mm_blendv a b m) i = lane b i;
  lane_blendv_clear a b m i : (i < n)%nat -> lane m i = 0 -> lane (mm_blendv a b m) i = lane a i;
  test_all_zeros_spec v m : mm_test_all_zeros v m = true <-> forall i, (i < n)%nat -> Z.land (lane v i) (lane m i) = 0 }.

(** ** The vector types *)

Class Vec (V : Type) := {
  numChannels : nat;
  get : V -> nat -> Z;
  vset : Z -> V;
  vload : list Z -> V;
  vbool : V -> bool;
  vsub : V -> V -> V;
  vadd : V -> V -> V;
  vge : V -> V -> V;
  vblend : V -> V -> V -> V }.

Class VecSpec (V : Type) `{Vec V} : Prop := {
  get_range v i : (i < numChannels)%nat -> uint 16 (get v i);
  get_set a i : (i < numChannels)%nat -> uint 16 a -> get (vset a) i = a;
  get_load l a i : (i < numChannels)%nat -> l !! i = Some a -> uint 16 a -> get (vload l) i = a;
  get_add a b i : (i < numChannels)%nat -> get (vadd a b) i = w16 (get a i + get b i);
  get_sub a b i : (i < numChannels)%nat -> get (vsub a b) i = w16 (get a i - get b i);
  get_ge a b i : (i < numChannels)%nat -> get (vge a b) i = if decide (s16 (get a i) < s16 (get b i)) then 0 else 65535;
  get_blend_set a b m i : (i < numChannels)%nat -> get m i = 65535 -> get (vblend a b m) i = get a i;
  get_blend_clear a b m i : (i < numChannels)%nat -> get m i = 0 -> get (vblend a b m) i = get b i;
  vbool_spec v : vbool v = true <-> exists i, (i < numChannels)%nat /\ get v i <> 0 }.

(** [mask()] of both types. *)
Definition vmask {V} `{Intrinsics V} : V := mm_set1 65535.

Definition uint16x8_t (V : Type) `{Intrinsics V} : Vec V := {|
  numChannels := 8;
  get := lane; vset := mm_set1; vload := mm_load;
  vbool v := if mm_test_all_zeros v vmask then false else true;
  vsub := mm_sub; vadd := mm_add;
  vge a b := mm_xor vmask (mm_cmplt a b);
  vblend a b m := mm_blendv b a m |}.

Definition uint16x16_t (V : Type) `{Intrinsics V} : Vec V := {|
  numChannels := 16;
  get := lane; vset := mm_set1; vload := mm_load;
  vbool v := if mm_test_all_zeros v vmask then false else true;
  vsub := mm_sub; vadd := mm_add;
  vge a b := mm_xor vmask (mm_cmpgt b a);
  vblend a b m := mm_blendv b a m |}.

(** ** The generator *)

Definition initialLocalID : list Z := Z.of_nat <$> seq 0 32.

(** A vector stored at a word of the buffer. *)
Definition store {V} `{Vec V} (v : V) (off : nat) (buffer : list Z) : option (list Z) :=
  if decide (off + numChannels <= length buffer)%nat then Some (list_inserts off (get v <$> seq 0 numChannels) buffer) else None.

Section generate.
Context {V : Type} `{Vec V}.

(** The carry from x to y to z, which the function contains three times. *)
Definition wrapIds (vLwsX vLwsY : V) (x y z : V) : V * V * V * V * V :=
  let xWrap := vge x vLwsX in
  let x := vsub x (vblend vLwsX (vset 0) xWrap) in
  let y := vadd y (vblend (vset 1) (vset 0) xWrap) in
  let yWrap := vge y vLwsY in
  let y := vsub y (vblend vLwsY (vset 0) yWrap) in
  let z := vadd z (vblend (vset 1) (vset 0) yWrap) in
  (x, y, z, xWrap, yWrap).

(** [while (xWrap || yWrap)] for the difference of two threads, and
    [while (xWrap)], with [both] false, for the first ids. *)
Fixpoint wrapLoop (fuel : nat) (both : bool) (vLwsX vLwsY x y z : V) : option (V * V * V) :=
  match fuel with
  | O => None
  | S fuel =>
      let '(x, y, z, xWrap, yWrap) := wrapIds vLwsX vLwsY x y z in
      if vbool xWrap || (both && vbool yWrap) then wrapLoop fuel both vLwsX vLwsY x y z else Some (x, y, z)
  end.

Fixpoint threadLoop (threads : nat) (xDimNum yDimNum zDimNum threadSkipSize : nat)
    (vLwsX vLwsY vSimdX vSimdY vSimdZ x y z : V) (off : nat) (buffer : list Z) : option (list Z) :=
  match threads with
  | O => Some buffer
  | S threads =>
      buffer ← store x (off + xDimNum * threadSkipSize) buffer;
      buffer ← store y (off + yDimNum * threadSkipSize) buffer;
      buffer ← store z (off + zDimNum * threadSkipSize) buffer;
      let '(x, y, z, _, _) := wrapIds vLwsX vLwsY (vadd x vSimdX) (vadd y vSimdY) (vadd z vSimdZ) in
      threadLoop threads xDimNum yDimNum zDimNum threadSkipSize vLwsX vLwsY vSimdX vSimdY vSimdZ x y z
        (off + 3 * threadSkipSize) buffer
  end.

Definition fuelOfWrap : nat := 64.

(** The passes from [pass] on, [rest] of them. *)
Fixpoint passLoop (rest pass : nat) (threads xDimNum yDimNum zDimNum threadSkipSize : nat)
    (vLwsX vLwsY vSimdX vSimdY vSimdZ : V) (off : nat) (buffer : list Z) : option (list Z) :=
  match rest with
  | O => Some buffer
  | S rest =>
      '(x, y, z) ← wrapLoop fuelOfWrap false vLwsX vLwsY (vload (drop (pass * numChannels) initialLocalID)) (vset 0) (vset 0);
      buffer ← threadLoop threads xDimNum yDimNum zDimNum threadSkipSize vLwsX vLwsY vSimdX vSimdY vSimdZ x y z off buffer;
      passLoop rest (S pass) threads xDimNum yDimNum zDimNum threadSkipSize vLwsX vLwsY vSimdX vSimdY vSimdZ (off + numChannels) buffer
  end.

(** The do-while loop over the passes runs at least once. *)
Definition generateLocalIDsSimd (simd : nat) (buffer : list Z) (localWorkgroupSize : list Z) (threadsPerWorkGroup : nat)
    (dimensionsOrder : list nat) : option (list Z) :=
  let passes := (simd / numChannels)%nat in
  xDimNum ← dimensionsOrder !! 0%nat;
  yDimNum ← dimensionsOrder !! 1%nat;
  zDimNum ← dimensionsOrder !! 2%nat;
  lwsX ← localWorkgroupSize !! xDimNum;
  lwsY ← localWorkgroupSize !! yDimNum;
  let threadSkipSize := if decide (simd = 32%nat) then 32%nat else 16%nat in
  '(vSimdX, vSimdY, vSimdZ) ← wrapLoop fuelOfWrap true (vset lwsX) (vset lwsY) (vset (Z.of_nat simd)) (vset 0) (vset 0);
  passLoop (Nat.max 1 passes) 0 threadsPerWorkGroup xDimNum yDimNum zDimNum threadSkipSize
    (vset lwsX) (vset lwsY) vSimdX vSimdY vSimdZ 0 buffer.
End generate.

Definition getGRFsPerThread (simd : Z) : Z := if decide (simd = 32) then 2 else 1.
Definition getThreadsPerWG (simd lws : Z) : Z :=
  Z.shiftr (w64 (lws + simd - 1)) (if decide (simd = 32) then 5 else if decide (simd = 16) then 4 else 3).
Definition sizeofGRF : Z := 32.
Definition getPerThreadSizeLocalIDs (simd numChannels : Z) : Z := Z.max (numChannels * getGRFsPerThread simd * sizeofGRF) sizeofGRF.
Definition getPerThreadDataSizeTotal (simd numChannels localWorkSize : Z) : Z :=
  w64 (getThreadsPerWG simd localWorkSize * getPerThreadSizeLocalIDs simd numChannels).

(** ** The layout for images *)

Definition isCompatibleWithLayoutForImages (localWorkgroupSize : list Z) (dimensionsOrder : list nat) (simd : Z) : bool :=
  let xMask := if decide (simd = 8) then 1 else 3 in
  let yMask := 3 in
  match localWorkgroupSize, dimensionsOrder with
  | lx :: ly :: lz :: _, d0 :: d1 :: _ =>
      bool_decide (d0 = 0%nat) && bool_decide (d1 = 1%nat) && bool_decide (Z.land lx xMask = 0) &&
      bool_decide (Z.land ly yMask = 0) && bool_decide (lz = 1)
  | _, _ => false
  end.

Definition writeWord (off : Z) (v : Z) (buffer : list Z) : option (list Z) :=
  if decide (Z.to_nat off < length buffer)%nat then Some (<[Z.to_nat off := v]> buffer) else None.

Record ImageState := mkImageState { imgX : Z; imgY : Z; extraX : Z; extraY : Z }.

(** What lane [i] does to the position before it is written. *)
Definition imageStep (lwsX lwsY xMask xDelta yDelta : Z) (i : Z) (s : ImageState) : ImageState :=
  let '(mkImageState x y ex ey) := s in
  let '(x, ex, ey) :=
    if decide (0 < i) then
      let ex := w16 (ex + 1) in
      let ex := if decide (ex = xDelta) then 0 else ex in
      if decide (Z.land i xMask = 0) then
        let ey := w16 (ey + 1) in
        if decide (y + ey = lwsY) then (w16 (x + xDelta), ex, 0) else (x, ex, ey)
      else (x, ex, ey)
    else (x, ex, ey) in
  if decide (x = lwsX) then
    let y := w16 (y + yDelta) in
    mkImageState 0 (if decide (lwsY <= y) then 0 else y) ex ey
  else mkImageState x y ex ey.

(** The lanes from [i] on, [rest] of them. *)
Fixpoint imageLanes (rest : nat) (i : Z) (lwsX lwsY xMask xDelta yDelta rowWidth offset : Z) (s : ImageState) (buffer : list Z)
    : option (ImageState * list Z) :=
  match rest with
  | O => Some (s, buffer)
  | S rest =>
      let s := imageStep lwsX lwsY xMask xDelta yDelta i s in
      buffer ← writeWord (offset + i) (w16 (imgX s + extraX s)) buffer;
      buffer ← writeWord (offset + rowWidth + i) (w16 (imgY s + extraY s)) buffer;
      buffer ← writeWord (offset + 2 * rowWidth + i) 0 buffer;
      imageLanes rest (i + 1) lwsX lwsY xMask xDelta yDelta rowWidth offset s buffer
  end.

Fixpoint imageGrfs (numGrfs : nat) (simd lwsX lwsY xMask xDelta yDelta rowWidth x y offset : Z) (buffer : list Z) : option (list Z) :=
  match numGrfs with
  | O => Some buffer
  | S numGrfs =>
      '(s, buffer) ← imageLanes (Z.to_nat simd) 0 lwsX lwsY xMask xDelta yDelta rowWidth offset (mkImageState x y 0 0) buffer;
      imageGrfs numGrfs simd lwsX lwsY xMask xDelta yDelta rowWidth (w16 (imgX s + xDelta)) (imgY s) (w16 (offset + 3 * rowWidth)) buffer
  end.

Definition generateLocalIDsWithLayoutForImages (buffer : list Z) (localWorkgroupSize : list Z) (simd : Z) : option (list Z) :=
  lwsX ← localWorkgroupSize !! 0%nat;
  lwsY ← localWorkgroupSize !! 1%nat;
  lwsZ ← localWorkgroupSize !! 2%nat;
  let rowWidth := if decide (simd = 32) then 32 else 16 in
  let xDelta := if decide (simd = 8) then 2 else 4 in
  let yDelta := if decide (simd = 8 \/ lwsY = 4) then 4 else rowWidth / xDelta in
  let numGrfs := (lwsX * lwsY * lwsZ + (simd - 1)) / simd in
  let xMask := if decide (simd = 8) then 1 else 3 in
  imageGrfs (Z.to_nat numGrfs) simd lwsX lwsY xMask xDelta yDelta rowWidth 0 0 0 buffer.

(** [supportsAVX2] selects the vector type of the wider lanes. *)
Definition generateLocalIDs {V8 V16 : Type} `{Intrinsics V8} `{Intrinsics V16} (supportsAVX2 : bool) (buffer : list Z) (simd : Z)
    (localWorkgroupSize : list Z) (dimensionsOrder : list nat) (isImageOnlyKernel : bool) : option (list Z) :=
  lwsX ← localWorkgroupSize !! 0%nat;
  lwsY ← localWorkgroupSize !! 1%nat;
  lwsZ ← localWorkgroupSize !! 2%nat;
  let threadsPerWorkGroup := Z.to_nat (w16 (getThreadsPerWG simd (w64 (lwsX * lwsY * lwsZ)))) in
  if isImageOnlyKernel && isCompatibleWithLayoutForImages localWorkgroupSize dimensionsOrder simd then
    generateLocalIDsWithLayoutForImages buffer localWorkgroupSize simd
  else
    let wide n := if supportsAVX2
      then generateLocalIDsSimd (H := uint16x16_t V16) n buffer localWorkgroupSize threadsPerWorkGroup dimensionsOrder
      else generateLocalIDsSimd (H := uint16x8_t V8) n buffer localWorkgroupSize threadsPerWorkGroup dimensionsOrder in
    if decide (simd = 32) then wide 32%nat
    else if decide (simd = 16) then wide 16%nat
    else generateLocalIDsSimd (H := uint16x8_t V8) 8 buffer localWorkgroupSize threadsPerWorkGroup dimensionsOrder.

(** ** The vector types implement the interface *)

Section vectors.
Context {V : Type} `{Intrinsics V}.

Lemma vmask_lane n i : IntrinsicsSpec n V -> (i < n)%nat -> lane vmask i = 65535.
Proof. intros HI Hi. unfold vmask. rewrite (lane_set1 (n := n)); [done|done|word_lia]. Qed.

Lemma vmask_test n v : IntrinsicsSpec n V ->
  (if mm_test_all_zeros v vmask then false else true) = true <-> exists i, (i < n)%nat /\ lane v i <> 0.
Proof.
  intros HI. destruct (mm_test_all_zeros v vmask) eqn:E.
  - split; [done|]. intros (i & Hi & Hne). destruct Hne. pose proof (proj1 (test_all_zeros_spec (n := n) v vmask) E i Hi) as Hz.
    rewrite (vmask_lane n) in Hz by done. change 65535 with (2 ^ 16 - 1) in Hz. rewrite land_low_ones in Hz by lia.
    pose proof (lane_range (n := n) v i Hi). rewrite Z.mod_small in Hz by word_lia. done.
  - split; [intros _|done]. destruct (decide (Exists (fun i => lane v i <> 0) (seq 0 n))) as [Hex|Hex].
    + apply Exists_exists in Hex as (i & Hi & Hne). apply elem_of_seq in Hi. exists i. split; [lia|done].
    + exfalso. enough (mm_test_all_zeros v vmask = true) by congruence. apply (test_all_zeros_spec (n := n)). intros i Hi.
      assert (lane v i = 0) as ->; [|done]. destruct (decide (lane v i = 0)); [done|]. destruct Hex. apply Exists_exists.
      exists i. split; [apply elem_of_seq; lia|done].
Qed.

Lemma ge_lane n a b i : IntrinsicsSpec n V -> (i < n)%nat -> forall c, lane c i = (if decide (s16 (lane a i) < s16 (lane b i)) then 65535 else 0) ->
  lane (mm_xor vmask c) i = if decide (s16 (lane a i) < s16 (lane b i)) then 0 else 65535.
Proof. intros HI Hi c Hc. rewrite (lane_xor (n := n)), (vmask_lane n), Hc by done. by case_decide. Qed.

#[export] Instance uint16x8_spec : IntrinsicsSpec 8 V -> @VecSpec V (uint16x8_t V).
Proof.
  intros HI. split; unfold get, vset, vload, vbool, vsub, vadd, vge, vblend, numChannels; cbn; try apply HI.
  - intros a b i Hi. apply (ge_lane 8); [done|done|]. by apply HI.
  - intros a b m i. apply HI.
  - intros a b m i. apply HI.
  - intros v. by apply vmask_test.
Qed.

#[export] Instance uint16x16_spec : IntrinsicsSpec 16 V -> @VecSpec V (uint16x16_t V).
Proof.
  intros HI. split; unfold get, vset, vload, vbool, vsub, vadd, vge, vblend, numChannels; cbn; try apply HI.
  - intros a b i Hi. apply (ge_lane 16); [done|done|]. by apply HI.
  - intros a b m i. apply HI.
  - intros a b m i. apply HI.
  - intros v. by apply vmask_test.
Qed.
End vectors.

(** ** One lane *)

(** The id with coordinates [a], [b], [c], counted in the walk order. *)
Definition flat (X Y a b c : Z) : Z := a + X * b + X * Y * c.

Lemma flat_unique X Y a b c n : 0 <= a < X -> 0 <= b < Y -> flat X Y a b c = n ->
  a = n mod X /\ b = (n / X) mod Y /\ c = n / (X * Y).
Proof.
  intros Ha Hb <-. unfold flat.
  assert ((a + X * b + X * Y * c) / X = b + Y * c) as Hd.
  { replace (a + X * b + X * Y * c) with ((b + Y * c) * X + a) by ring. rewrite Z.div_add_l, Z.div_small by lia. lia. }
  assert ((a + X * b + X * Y * c) mod X = a) as Hm.
  { replace (a + X * b + X * Y * c) with (a + (b + Y * c) * X) by ring. rewrite Z.mod_add, Z.mod_small by lia. done. }
  rewrite <- Z.div_div by lia. rewrite Hm, Hd. split; [done|].
  replace (b + Y * c) with (b + c * Y) by ring. rewrite Z.mod_add, Z.mod_small, Z.div_add, Z.div_small by lia. lia.
Qed.

Section lanes.
Context {V : Type} `{VecSpec V}.

(** In lane [i] the vectors hold the id [n], normalised or with at most one
    carry outstanding. *)
Definition holds (X Y : Z) (x y z : V) (i : nat) (n : Z) : Prop :=
  get x i < X /\ get y i < Y /\ flat X Y (get x i) (get y i) (get z i) = n.

Lemma get_blend_if (a b m : V) i (P : Prop) `{Decision P} : (i < numChannels)%nat ->
  get m i = (if decide P then 0 else 65535) -> get (vblend a b m) i = if decide P then get b i else get a i.
Proof. intros Hi Hm. case_decide; [by apply get_blend_clear|by apply get_blend_set]. Qed.

Lemma s16_small a : 0 <= a < 2 ^ 15 -> s16 a = a.
Proof. intros Ha. unfold s16. by rewrite decide_True by lia. Qed.

(** The carry in one lane, as long as nothing leaves the signed range. *)
Lemma wrapIds_lane X Y vX vY x y z i :
  (i < numChannels)%nat -> get vX i = X -> get vY i = Y -> 1 <= X < 2 ^ 15 -> 1 <= Y < 2 ^ 15 ->
  get x i < 2 ^ 15 -> get y i < 2 ^ 15 - 1 -> get z i < 2 ^ 15 - 1 ->
  let '(x', y', z', xW, yW) := wrapIds vX vY x y z in
  let cx := if decide (get x i < X) then 0 else 1 in
  let cy := if decide (get y i + cx < Y) then 0 else 1 in
  get x' i = get x i - X * cx /\ get y' i = get y i + cx - Y * cy /\ get z' i = get z i + cy /\
  (get xW i <> 0 <-> cx = 1) /\ (get yW i <> 0 <-> cy = 1).
Proof.
  intros Hi HX HY BX BY Bx By Bz. unfold wrapIds.
  pose proof (get_range x i Hi) as Rx. pose proof (get_range y i Hi) as Ry. pose proof (get_range z i Hi) as Rz.
  assert (get (vset 0) i = 0) as E0 by (apply get_set; [done|word_lia]).
  assert (get (vset 1) i = 1) as E1 by (apply get_set; [done|word_lia]).
  assert (forall a : V, 0 <= get a i < 2 ^ 15 -> forall v B, get v i = B -> 1 <= B < 2 ^ 15 ->
    get (vge a v) i = if decide (get a i < B) then 0 else 65535) as Hge.
  { intros a Ba v B <- BB. rewrite get_ge by done. rewrite !s16_small by lia. done. }
  pose proof (Hge x ltac:(word_lia) vX X HX BX) as Gx.
  set (y1 := vadd y (vblend (vset 1) (vset 0) (vge x vX))).
  assert (get y1 i = get y i + if decide (get x i < X) then 0 else 1) as Ey1.
  { unfold y1. rewrite get_add by done. rewrite (get_blend_if _ _ _ _ _ Hi Gx), E0, E1.
    apply wrap_small. case_decide; word_lia. }
  assert (0 <= get y1 i < 2 ^ 15) as By1 by (rewrite Ey1; case_decide; word_lia).
  pose proof (Hge y1 By1 vY Y HY BY) as Gy.
  rewrite get_sub, (get_blend_if _ _ _ _ _ Hi Gx), E0, HX by done.
  rewrite get_sub, (get_blend_if _ _ _ _ _ Hi Gy), E0, HY by done.
  rewrite get_add, (get_blend_if _ _ _ _ _ Hi Gy), E0, E1 by done.
  rewrite Gx, Gy, <- Ey1. repeat case_decide; repeat split; intros; unwrap; try lia; try done.
Qed.

(** The bounds within which the comparisons read their lanes rightly. *)
Definition sizesFit (X Y : Z) : Prop := 1 <= X < 2 ^ 14 /\ 1 <= Y < 2 ^ 14.

Lemma flat_bound X Y a b c n : sizesFit X Y -> 0 <= a -> 0 <= b -> 0 <= c -> flat X Y a b c = n -> a <= n /\ b <= n /\ c <= n.
Proof. unfold flat. intros [BX BY] Ha Hb Hc <-. assert (1 <= X * Y) by nia. repeat split; nia. Qed.

(** Carrying keeps the id of a lane. *)
Lemma wrapIds_flat X Y vX vY x y z i n :
  (i < numChannels)%nat -> get vX i = X -> get vY i = Y -> sizesFit X Y -> n < 2 ^ 14 ->
  get y i <= Y + Y - 2 -> flat X Y (get x i) (get y i) (get z i) = n ->
  let '(x', y', z', xW, yW) := wrapIds vX vY x y z in
  flat X Y (get x' i) (get y' i) (get z' i) = n /\ get y' i < Y /\ (get y i < Y -> get yW i <> 0 -> get xW i <> 0) /\
  get x' i = get x i - (if decide (get x i < X) then 0 else X) /\ (get xW i <> 0 <-> X <= get x i).
Proof.
  intros Hi HX HY Hfit Hn Bz Hflat. pose proof Hfit as [BX BY].
  pose proof (get_range x i Hi) as Rx. pose proof (get_range y i Hi) as Ry. pose proof (get_range z i Hi) as Rz.
  destruct (flat_bound X Y _ _ _ n Hfit (proj1 Rx) (proj1 Ry) (proj1 Rz) Hflat) as (Lx & Ly & Lz).
  pose proof (wrapIds_lane X Y vX vY x y z i Hi HX HY ltac:(lia) ltac:(lia) ltac:(lia) ltac:(lia) ltac:(lia)) as Hw.
  destruct (wrapIds vX vY x y z) as [[[[x' y'] z'] xW] yW]. cbv zeta in Hw. destruct Hw as (-> & -> & -> & HxW & HyW).
  rewrite HxW, HyW. unfold flat in *. split; [rewrite <- Hflat; ring|]. repeat case_decide; repeat split; intros; lia.
Qed.

Lemma wrapLoop_spec fuel both X Y vX vY x y z (n : nat -> Z) m :
  (forall i, (i < numChannels)%nat -> get vX i = X /\ get vY i = Y) -> sizesFit X Y -> 0 <= m < Z.of_nat fuel ->
  (forall i, (i < numChannels)%nat -> (get x i < X \/ get x i <= m) /\ get y i < Y /\
    flat X Y (get x i) (get y i) (get z i) = n i /\ n i < 2 ^ 14) ->
  exists x' y' z', wrapLoop fuel both vX vY x y z = Some (x', y', z') /\ forall i, (i < numChannels)%nat -> holds X Y x' y' z' i (n i).
Proof.
  intros Hv Hfit. pose proof Hfit as [BX BY]. revert x y z m. induction fuel as [|fuel IH]; intros x y z m Hm Hl; [lia|]. cbn [wrapLoop].
  assert (forall i, (i < numChannels)%nat -> let '(x', y', z', xW, yW) := wrapIds vX vY x y z in
    flat X Y (get x' i) (get y' i) (get z' i) = n i /\ get y' i < Y /\ (get y i < Y -> get yW i <> 0 -> get xW i <> 0) /\
    get x' i = get x i - (if decide (get x i < X) then 0 else X) /\ (get xW i <> 0 <-> X <= get x i)) as Hw.
  { intros i Hi. destruct (Hl i Hi) as (_ & Hy & Hf & Hn). destruct (Hv i Hi). apply (wrapIds_flat X Y); auto; lia. }
  destruct (wrapIds vX vY x y z) as [[[[x' y'] z'] xW] yW]. destruct (vbool xW) eqn:Ex; simpl.
  - apply (IH x' y' z' (Z.max 0 (m - 1))).
    + apply vbool_spec in Ex as (i & Hi & Hne). destruct (Hw i Hi) as (_ & _ & _ & _ & HxW). apply HxW in Hne.
      destruct (Hl i Hi) as ([?|?] & _); lia.
    + intros i Hi. destruct (Hw i Hi) as (Hf & Hy & _ & Hx & _). destruct (Hl i Hi) as (Hxm & _ & _ & Hn).
      split; [rewrite Hx; case_decide; lia|]. by repeat split.
  - assert (forall i, (i < numChannels)%nat -> get xW i = 0) as Hx0.
    { intros i Hi. destruct (decide (get xW i = 0)); [done|]. assert (vbool xW = true) by (apply vbool_spec; eauto). congruence. }
    assert (both && vbool yW = false) as ->.
    { destruct both; [|done]. simpl. destruct (vbool yW) eqn:Ey; [|done]. apply vbool_spec in Ey as (i & Hi & Hne).
      destruct (Hw i Hi) as (_ & _ & Hyx & _). destruct (Hl i Hi) as (_ & Hy & _). by destruct (Hyx Hy Hne); apply Hx0. }
    exists x', y', z'. split; [done|]. intros i Hi. destruct (Hw i Hi) as (Hf & Hy & _ & Hx & HxW).
    split; [|split; done]. rewrite Hx. specialize (Hx0 i Hi). case_decide; [lia|]. exfalso. by apply HxW; [lia|].
Qed.

(** From one thread to the next. *)
Lemma wrapIds_next X Y vX vY sX sY sZ x y z i n simd :
  (i < numChannels)%nat -> get vX i = X -> get vY i = Y -> sizesFit X Y -> 0 <= n -> 0 <= simd -> n + simd < 2 ^ 14 ->
  holds X Y sX sY sZ i simd -> holds X Y x y z i n ->
  let '(x', y', z', _, _) := wrapIds vX vY (vadd x sX) (vadd y sY) (vadd z sZ) in holds X Y x' y' z' i (n + simd).
Proof.
  intros Hi HX HY Hfit Hn Hs Hb (Sx & Sy & Sf) (Nx & Ny & Nf). pose proof Hfit as [BX BY].
  pose proof (get_range x i Hi) as Rx. pose proof (get_range y i Hi) as Ry. pose proof (get_range z i Hi) as Rz.
  pose proof (get_range sX i Hi) as Rsx. pose proof (get_range sY i Hi) as Rsy. pose proof (get_range sZ i Hi) as Rsz.
  destruct (flat_bound X Y _ _ _ n Hfit (proj1 Rx) (proj1 Ry) (proj1 Rz) Nf) as (Lx & Ly & Lz).
  destruct (flat_bound X Y _ _ _ simd Hfit (proj1 Rsx) (proj1 Rsy) (proj1 Rsz) Sf) as (Lsx & Lsy & Lsz).
  assert (get (vadd x sX) i = get x i + get sX i) as Ex by (rewrite get_add by done; apply wrap_small; word_lia).
  assert (get (vadd y sY) i = get y i + get sY i) as Ey by (rewrite get_add by done; apply wrap_small; word_lia).
  assert (get (vadd z sZ) i = get z i + get sZ i) as Ez by (rewrite get_add by done; apply wrap_small; word_lia).
  pose proof (wrapIds_flat X Y vX vY (vadd x sX) (vadd y sY) (vadd z sZ) i (n + simd) Hi HX HY Hfit ltac:(lia) ltac:(rewrite Ey; lia)) as Hw.
  destruct (wrapIds vX vY _ _ _) as [[[[x' y'] z'] xW] yW].
  destruct Hw as (Hf & Hy & _ & Hx & _); [rewrite Ex, Ey, Ez, <- Nf, <- Sf; unfold flat; ring|].
  split; [|split; done]. rewrite Ex in Hx. case_decide; lia.
Qed.
End lanes.

(** ** Rows of the buffer *)

(** Rows of [s] words, of which thread [t] has the rows [3 * t + d], one for
    each dimension [d]. *)
Lemma row_unique (q q' s l l0 n : nat) :
  (l < s)%nat -> (l0 + n <= s)%nat -> (q * s + l0 <= q' * s + l < q * s + l0 + n)%nat <-> q' = q /\ (l0 <= l < l0 + n)%nat.
Proof.
  intros Hl Hn. split; [|intros [-> ?]; lia]. intros [H1 H2].
  assert (q' = q) as ->; [|split; lia]. destruct (Nat.lt_trichotomy q q') as [Hq|[Hq|Hq]]; [|done|]; exfalso.
  - assert (q * s + s <= q' * s)%nat by (replace (q * s + s)%nat with ((q + 1) * s)%nat by lia; apply Nat.mul_le_mono_r; lia). lia.
  - assert (q' * s + s <= q * s)%nat by (replace (q' * s + s)%nat with ((q' + 1) * s)%nat by lia; apply Nat.mul_le_mono_r; lia). lia.
Qed.

Lemma row_inside (q rows s l : nat) : (q < rows)%nat -> (l < s)%nat -> (q * s + l < rows * s)%nat.
Proof. intros Hq Hl. assert ((q + 1) * s <= rows * s)%nat by (apply Nat.mul_le_mono_r; lia). lia. Qed.

(** The word of dimension [d] of the id [n]. *)
Definition idWord (X Y : Z) (dx dy d : nat) (n : Z) : Z :=
  if decide (d = dx) then n mod X else if decide (d = dy) then (n / X) mod Y else n / (X * Y).

Section buffer.
Context {V : Type} `{VecSpec V}.
Context (s rows : nat).

Lemma store_spec v q l0 buffer :
  length buffer = (rows * s)%nat -> (q < rows)%nat -> (l0 + numChannels <= s)%nat ->
  exists buffer', store v (q * s + l0) buffer = Some buffer' /\ length buffer' = (rows * s)%nat /\
    forall q' l, (q' < rows)%nat -> (l < s)%nat ->
      buffer' !! (q' * s + l)%nat = if decide (q' = q /\ (l0 <= l < l0 + numChannels)%nat) then Some (get v (l - l0)) else buffer !! (q' * s + l)%nat.
Proof.
  intros Hlen Hq Hl0. unfold store.
  assert (q * s + l0 + numChannels <= rows * s)%nat as Hb.
  { assert ((q + 1) * s <= rows * s)%nat by (apply Nat.mul_le_mono_r; lia). lia. }
  rewrite decide_True by lia. eexists. split; [done|]. split; [by rewrite length_inserts|]. intros q' l Hq' Hl.
  pose proof (row_unique q q' s l l0 numChannels Hl Hl0) as Hu. pose proof (row_inside q' rows s l Hq' Hl) as Hin.
  assert (length (get v <$> seq 0 numChannels) = numChannels) as Hn by (rewrite length_fmap, length_seq; done).
  case_decide as Hc.
  - apply Hu in Hc. rewrite list_lookup_inserts by lia. apply Hu in Hc as [-> Hc].
    rewrite list_lookup_fmap, lookup_seq_lt by lia. simpl. do 2 f_equal. lia.
  - rewrite <- Hu in Hc. destruct (decide (q' * s + l < q * s + l0)%nat).
    + by rewrite list_lookup_inserts_lt by lia.
    + by rewrite list_lookup_inserts_ge by lia.
Qed.

(** The words of the threads from [t0] on in the lanes of one pass. *)
Lemma threadLoop_spec X Y dx dy dz vX vY sX sY sZ l0 simd threads : sizesFit X Y ->
  (forall i, (i < numChannels)%nat -> get vX i = X /\ get vY i = Y /\ holds X Y sX sY sZ i (Z.of_nat simd)) ->
  (dx < 3)%nat -> (dy < 3)%nat -> (dz < 3)%nat -> dx <> dy -> dx <> dz -> dy <> dz ->
  (l0 + numChannels <= simd)%nat -> (simd <= s)%nat ->
  forall t0 x y z buffer, length buffer = (rows * s)%nat -> (3 * (t0 + threads) <= rows)%nat ->
  Z.of_nat ((t0 + threads) * simd + simd) < 2 ^ 14 ->
  (forall i, (i < numChannels)%nat -> holds X Y x y z i (Z.of_nat (t0 * simd + l0 + i))) ->
  exists buffer', threadLoop threads dx dy dz s vX vY sX sY sZ x y z (3 * t0 * s + l0) buffer = Some buffer' /\
    length buffer' = (rows * s)%nat /\
    forall t d l, (3 * t + d < rows)%nat -> (d < 3)%nat -> (l < s)%nat ->
      buffer' !! ((3 * t + d) * s + l)%nat =
        if decide ((t0 <= t < t0 + threads)%nat /\ (l0 <= l < l0 + numChannels)%nat)
        then Some (idWord X Y dx dy d (Z.of_nat (t * simd + l))) else buffer !! ((3 * t + d) * s + l)%nat.
Proof.
  intros Hfit Hv Hdx Hdy Hdz Dxy Dxz Dyz Hl0 Hs. induction threads as [|threads IH]; intros t0 x y z buffer Hlen Hrows Hb Hids; cbn [threadLoop].
  { exists buffer. split; [done|]. split; [done|]. intros t d l _ _ _. by rewrite decide_False by lia. }
  replace (3 * t0 * s + l0 + dx * s)%nat with ((3 * t0 + dx) * s + l0)%nat by lia.
  replace (3 * t0 * s + l0 + dy * s)%nat with ((3 * t0 + dy) * s + l0)%nat by lia.
  replace (3 * t0 * s + l0 + dz * s)%nat with ((3 * t0 + dz) * s + l0)%nat by lia.
  replace (3 * t0 * s + l0 + 3 * s)%nat with (3 * (t0 + 1) * s + l0)%nat by lia.
  destruct (store_spec x (3 * t0 + dx) l0 buffer Hlen) as (b1 & -> & L1 & E1); [lia|lia|]. cbn [mbind option_bind].
  destruct (store_spec y (3 * t0 + dy) l0 b1 L1) as (b2 & -> & L2 & E2); [lia|lia|]. cbn [mbind option_bind].
  destruct (store_spec z (3 * t0 + dz) l0 b2 L2) as (b3 & -> & L3 & E3); [lia|lia|]. cbn [mbind option_bind].
  assert (forall i, (i < numChannels)%nat -> let '(x', y', z', _, _) := wrapIds vX vY (vadd x sX) (vadd y sY) (vadd z sZ) in
    holds X Y x' y' z' i (Z.of_nat ((t0 + 1) * simd + l0 + i))) as Hnext.
  { intros i Hi. destruct (Hv i Hi) as (HvX & HvY & Hsimd).
    assert (t0 * simd + l0 + i + simd <= (t0 + S threads) * simd + simd)%nat.
    { rewrite Nat.mul_add_distr_r. cbn [Nat.mul]. lia. }
    replace (Z.of_nat ((t0 + 1) * simd + l0 + i)) with (Z.of_nat (t0 * simd + l0 + i) + Z.of_nat simd) by lia.
    apply wrapIds_next; auto; lia. }
  destruct (wrapIds vX vY (vadd x sX) (vadd y sY) (vadd z sZ)) as [[[[x' y'] z'] xW] yW].
  destruct (IH (t0 + 1)%nat x' y' z' b3 L3) as (b4 & E & L4 & E4); [lia| |done|].
  { replace (t0 + 1 + threads)%nat with (t0 + S threads)%nat by lia. done. }
  exists b4. split; [done|]. split; [done|]. intros t d l Hrow Hd Hl. rewrite E4 by done.
  case_decide as Hc; [by rewrite decide_True by lia|].
  rewrite E3, E2, E1 by lia. clear E1 E2 E3 E4 E IH.
  destruct (decide (t = t0 /\ (l0 <= l < l0 + numChannels)%nat)) as [[-> Hin]|Hout].
  - rewrite (decide_True (P := (t0 <= t0 < t0 + S threads)%nat /\ _)) by lia.
    destruct (Hids (l - l0)%nat) as (Hx & Hy & Hf); [lia|].
    replace (t0 * simd + l0 + (l - l0))%nat with (t0 * simd + l)%nat in Hf by lia.
    destruct (flat_unique X Y _ _ _ _ (conj (proj1 (get_range x (l - l0) ltac:(lia))) Hx)
      (conj (proj1 (get_range y (l - l0) ltac:(lia))) Hy) Hf) as (Ex & Ey & Ez).
    unfold idWord. repeat case_decide; try lia; by f_equal.
  - rewrite !decide_False by lia. done.
Qed.
End buffer.

Section passes.
Context {V : Type} `{VecSpec V}.

Lemma initial_lane l0 i : (l0 + i < 32)%nat -> drop l0 initialLocalID !! i = Some (Z.of_nat (l0 + i)).
Proof.
  intros Hi. rewrite lookup_drop. unfold initialLocalID. rewrite list_lookup_fmap, lookup_seq_lt by lia. done.
Qed.

(** The passes from [pass] on. *)
Lemma passLoop_spec s rows X Y dx dy dz vX vY sX sY sZ simd threads : sizesFit X Y ->
  (forall i, (i < numChannels)%nat -> get vX i = X /\ get vY i = Y /\ holds X Y sX sY sZ i (Z.of_nat simd)) ->
  (dx < 3)%nat -> (dy < 3)%nat -> (dz < 3)%nat -> dx <> dy -> dx <> dz -> dy <> dz ->
  (simd <= s)%nat -> (simd <= 32)%nat -> (3 * threads <= rows)%nat -> Z.of_nat (threads * simd + simd) < 2 ^ 14 ->
  forall rest pass buffer, ((pass + rest) * numChannels <= simd)%nat -> length buffer = (rows * s)%nat ->
  exists buffer', passLoop rest pass threads dx dy dz s vX vY sX sY sZ (pass * numChannels) buffer = Some buffer' /\
    length buffer' = (rows * s)%nat /\
    forall t d l, (3 * t + d < rows)%nat -> (d < 3)%nat -> (l < s)%nat ->
      buffer' !! ((3 * t + d) * s + l)%nat =
        if decide ((t < threads)%nat /\ (pass * numChannels <= l < (pass + rest) * numChannels)%nat)
        then Some (idWord X Y dx dy d (Z.of_nat (t * simd + l))) else buffer !! ((3 * t + d) * s + l)%nat.
Proof.
  intros Hfit Hv Hdx Hdy Hdz Dxy Dxz Dyz Hs Hsimd Hrows Hb. pose proof Hfit as [BX BY].
  induction rest as [|rest IH]; intros pass buffer Hp Hlen; cbn [passLoop].
  { exists buffer. split; [done|]. split; [done|]. intros t d l _ _ _. by rewrite decide_False by lia. }
  assert (pass * numChannels + numChannels <= simd)%nat as Hl0.
  { assert ((pass + 1) * numChannels <= (pass + S rest) * numChannels)%nat by (apply Nat.mul_le_mono_r; lia). lia. }
  destruct (wrapLoop_spec fuelOfWrap false X Y vX vY (vload (drop (pass * numChannels) initialLocalID)) (vset 0) (vset 0)
    (fun i => Z.of_nat (pass * numChannels + i)) 32) as (x & y & z & -> & Hids).
  { intros i Hi. by destruct (Hv i Hi) as (? & ? & _). }
  { done. }
  { unfold fuelOfWrap. lia. }
  { intros i Hi. rewrite (get_load _ (Z.of_nat (pass * numChannels + i)) i Hi) by (first [apply initial_lane; lia|word_lia]).
    rewrite !(get_set 0 i Hi) by word_lia. unfold flat. repeat split; lia. }
  cbn [mbind option_bind].
  destruct (threadLoop_spec s rows X Y dx dy dz vX vY sX sY sZ (pass * numChannels) simd threads Hfit Hv Hdx Hdy Hdz Dxy Dxz Dyz
    Hl0 Hs 0%nat x y z buffer Hlen) as (b1 & E1 & L1 & W1); [lia|lia|exact Hids|].
  replace (3 * 0 * s + pass * numChannels)%nat with (pass * numChannels)%nat in E1 by lia. rewrite E1. cbn [mbind option_bind].
  replace (pass * numChannels + numChannels)%nat with (S pass * numChannels)%nat by lia.
  destruct (IH (S pass) b1) as (b2 & -> & L2 & W2); [lia|done|]. exists b2. split; [done|]. split; [done|].
  intros t d l Hrow Hd Hl. rewrite W2, W1 by done.
  replace ((pass + S rest) * numChannels)%nat with ((S pass + rest) * numChannels)%nat by lia.
  assert (S pass * numChannels <= (S pass + rest) * numChannels)%nat by (apply Nat.mul_le_mono_r; lia).
  assert (pass * numChannels + numChannels = S pass * numChannels)%nat by lia.
  repeat case_decide; try done; lia.
Qed.

Lemma generateLocalIDsSimd_spec simd lws dx dy dz threads buffer X Y :
  let s := if decide (simd = 32%nat) then 32%nat else 16%nat in
  simd ∈ [8; 16; 32]%nat -> (exists k, 1 <= k /\ simd = k * numChannels)%nat ->
  lws !! dx = Some X -> lws !! dy = Some Y -> sizesFit X Y ->
  (dx < 3)%nat -> (dy < 3)%nat -> (dz < 3)%nat -> dx <> dy -> dx <> dz -> dy <> dz ->
  Z.of_nat (threads * simd + simd) < 2 ^ 14 -> length buffer = (3 * threads * s)%nat ->
  exists buffer', generateLocalIDsSimd simd buffer lws threads [dx; dy; dz] = Some buffer' /\ length buffer' = (3 * threads * s)%nat /\
    forall t d l, (t < threads)%nat -> (d < 3)%nat -> (l < s)%nat ->
      buffer' !! ((3 * t + d) * s + l)%nat =
        if decide (l < simd)%nat then Some (idWord X Y dx dy d (Z.of_nat (t * simd + l))) else buffer !! ((3 * t + d) * s + l)%nat.
Proof.
  intros s Hsimd (k & Hk & Hk2) HX HY Hfit Hdx Hdy Hdz Dxy Dxz Dyz Hb Hlen. pose proof Hfit as [BX BY].
  assert (simd <= s /\ simd <= 32 /\ 8 <= simd)%nat as (Hss & H32 & H8).
  { unfold s. clear - Hsimd. repeat (apply elem_of_cons in Hsimd as [->|Hsimd]; [simpl; lia|]). by apply elem_of_nil in Hsimd. }
  assert (0 < numChannels)%nat as Hc0 by (destruct (Nat.eq_0_gt_0_cases numChannels) as [Hz|]; [rewrite Hz in Hk2; lia|done]).
  unfold generateLocalIDsSimd. cbn [lookup list_lookup mbind option_bind]. rewrite HX, HY. cbn [mbind option_bind].
  assert (forall i, (i < numChannels)%nat -> get (vset X) i = X /\ get (vset Y) i = Y) as Hv.
  { intros i Hi. split; apply get_set; word_lia. }
  destruct (wrapLoop_spec fuelOfWrap true X Y (vset X) (vset Y) (vset (Z.of_nat simd)) (vset 0) (vset 0) (fun _ => Z.of_nat simd) 32)
    as (sX & sY & sZ & -> & Hs); [done|done|unfold fuelOfWrap; lia| |].
  { intros i Hi. rewrite (get_set (Z.of_nat simd) i Hi), !(get_set 0 i Hi) by word_lia. unfold flat. repeat split; lia. }
  cbn [mbind option_bind].
  assert (simd / numChannels = k)%nat as -> by (rewrite Hk2; apply Nat.div_mul; lia). rewrite Nat.max_r by done. fold s.
  destruct (passLoop_spec s (3 * threads) X Y dx dy dz (vset X) (vset Y) sX sY sZ simd threads Hfit) with (rest := k) (pass := 0%nat) (buffer := buffer)
    as (b & E & L & W); try done; [|lia|].
  { intros i Hi. destruct (Hv i Hi). auto. }
  exists b. split; [exact E|]. split; [done|]. intros t d l Ht Hd Hl. rewrite W by lia. simpl. rewrite <- Hk2.
  repeat case_decide; try done; lia.
Qed.
End passes.

(** ** What the threads receive *)

Definition rowWords (simd : Z) : nat := if decide (simd = 32) then 32%nat else 16%nat.

(** The word of dimension [d] for the [n]-th lane of the group, counted over
    its threads. *)
Definition wordAt (simd : Z) (buffer : list Z) (n d : nat) : option Z :=
  buffer !! ((3 * (n / Z.to_nat simd) + d) * rowWords simd + n mod Z.to_nat simd)%nat.

Definition groupSize (lws : list Z) : Z := foldr Z.mul 1 lws.

(** Every work item of the group is run by exactly one of its lanes. *)
Definition eachIdOnce (simd : Z) (lws : list Z) (buffer : list Z) : Prop :=
  forall id : nat -> Z, (forall d, (d < 3)%nat -> 0 <= id d < lws !!! d) ->
  exists! n : nat, Z.of_nat n < groupSize lws /\ forall d, (d < 3)%nat -> wordAt simd buffer n d = Some (id d).

(** The buffer that [PerThreadDataHelper::sendPerThreadData] reserves, in words. *)
Definition payloadWords (simd : Z) (lws : list Z) : nat := Z.to_nat (getPerThreadDataSizeTotal simd 3 (groupSize lws) / 2).

Lemma threadsPerWG_ceil simd lws : simd ∈ [8; 16; 32] -> 1 <= lws <= 2 ^ 13 ->
  getThreadsPerWG simd lws = (lws + simd - 1) / simd.
Proof.
  intros Hsimd Hl. unfold getThreadsPerWG.
  repeat (apply elem_of_cons in Hsimd as [->|Hsimd];
    [simpl; rewrite wrap_small by word_lia; rewrite Z.shiftr_div_pow2 by lia; done|]). by apply elem_of_nil in Hsimd.
Qed.

(** Threads of a group: enough lanes, less than one thread too many. *)
Lemma threadsPerWG_bounds simd lws : simd ∈ [8; 16; 32] -> 1 <= lws <= 2 ^ 13 ->
  let t := getThreadsPerWG simd lws in 1 <= t <= lws /\ lws <= t * simd < lws + simd.
Proof.
  intros Hsimd Hl. rewrite threadsPerWG_ceil by done. cbv zeta.
  repeat (apply elem_of_cons in Hsimd as [->|Hsimd]; [Z.div_mod_to_equations; lia|]). by apply elem_of_nil in Hsimd.
Qed.

Lemma payload_words simd lws : simd ∈ [8; 16; 32] -> 1 <= groupSize lws <= 2 ^ 13 ->
  payloadWords simd lws = (3 * Z.to_nat (getThreadsPerWG simd (groupSize lws)) * rowWords simd)%nat.
Proof.
  intros Hsimd Hl. pose proof (threadsPerWG_bounds simd (groupSize lws) Hsimd Hl) as Hb. cbv zeta in Hb.
  unfold payloadWords, getPerThreadDataSizeTotal, getPerThreadSizeLocalIDs, getGRFsPerThread, sizeofGRF, rowWords.
  set (t := getThreadsPerWG simd (groupSize lws)) in *. clearbody t.
  repeat (apply elem_of_cons in Hsimd as [->|Hsimd];
    [simpl; rewrite wrap_small by (unfold uint; lia); apply Nat2Z.inj; rewrite !Z2Nat.id; Z.div_mod_to_equations; lia|]).
  by apply elem_of_nil in Hsimd.
Qed.

Lemma order_distinct (dx dy dz : nat) : [dx; dy; dz] ≡ₚ [0; 1; 2]%nat ->
  (dx < 3 /\ dy < 3 /\ dz < 3 /\ dx <> dy /\ dx <> dz /\ dy <> dz)%nat.
Proof.
  intros Hp. assert (forall d, d ∈ [dx; dy; dz] -> (d < 3)%nat) as Hlt.
  { intros d Hd. rewrite Hp in Hd. repeat (apply elem_of_cons in Hd as [->|Hd]; [lia|]). by apply elem_of_nil in Hd. }
  assert (NoDup [dx; dy; dz]) as Hnd by (rewrite Hp; eval_decide).
  apply NoDup_cons in Hnd as [Hx Hnd]. apply NoDup_cons in Hnd as [Hy _].
  split_and!; try (apply Hlt; set_solver); intros ->; [destruct Hx|destruct Hx|destruct Hy]; set_solver.
Qed.

Lemma group_product (lx ly lz : Z) (dx dy dz : nat) : [dx; dy; dz] ≡ₚ [0; 1; 2]%nat ->
  let lws := [lx; ly; lz] in groupSize lws = lws !!! dx * lws !!! dy * lws !!! dz.
Proof.
  intros Hp. destruct (order_distinct _ _ _ Hp) as (? & ? & ? & ? & ? & ?). unfold groupSize. cbn [foldr]. cbv zeta.
  destruct dx as [|[|[|dx]]], dy as [|[|[|dy]]], dz as [|[|[|dz]]]; try lia; cbn [lookup_total list_lookup_total]; ring.
Qed.

Lemma flat_range X Y W a b c : 0 <= a < X -> 0 <= b < Y -> 0 <= c < W -> 0 <= flat X Y a b c < X * Y * W.
Proof.
  intros Ha Hb Hc. unfold flat. assert (0 <= X * b <= X * (Y - 1)) by nia.
  assert (0 <= X * Y * c <= X * Y * (W - 1)) by (assert (0 <= X * Y) by nia; nia). lia.
Qed.

(** Consecutive ids of the lanes enumerate the group. *)
Lemma enumeration_once simd lx ly lz dx dy dz buffer : [dx; dy; dz] ≡ₚ [0; 1; 2]%nat -> let lws := [lx; ly; lz] in
  1 <= lws !!! dx -> 1 <= lws !!! dy -> 1 <= lws !!! dz ->
  (forall n d, Z.of_nat n < groupSize lws -> (d < 3)%nat ->
    wordAt simd buffer n d = Some (idWord (lws !!! dx) (lws !!! dy) dx dy d (Z.of_nat n))) ->
  eachIdOnce simd lws buffer.
Proof.
  intros Hp lws BX BY BZ Hw id Hid. pose proof (group_product lx ly lz dx dy dz Hp) as Hg. cbv zeta in Hg. fold lws in Hg.
  destruct (order_distinct _ _ _ Hp) as (? & ? & ? & ? & ? & ?).
  pose proof (Hid dx ltac:(done)) as Ha. pose proof (Hid dy ltac:(done)) as Hb. pose proof (Hid dz ltac:(done)) as Hc.
  set (X := lws !!! dx) in *. set (Y := lws !!! dy) in *. set (W := lws !!! dz) in *.
  set (n := flat X Y (id dx) (id dy) (id dz)).
  pose proof (flat_range X Y W _ _ _ Ha Hb Hc) as Hn. fold n in Hn.
  destruct (flat_unique X Y _ _ _ n Ha Hb eq_refl) as (Ex & Ey & Ez).
  exists (Z.to_nat n). split.
  - rewrite Z2Nat.id by lia. split; [lia|]. intros d Hd. rewrite Hw by (try done; rewrite Z2Nat.id; lia). rewrite Z2Nat.id by lia.
    unfold idWord. f_equal. repeat case_decide; subst; try done. assert (d = dz) as -> by lia. done.
  - intros n' [Hn' Hd']. assert (forall d, (d < 3)%nat -> idWord X Y dx dy d (Z.of_nat n') = id d) as Hi.
    { intros d Hd. pose proof (Hd' d Hd) as E. rewrite Hw in E by done. by injection E. }
    pose proof (Hi dx ltac:(done)) as E1. pose proof (Hi dy ltac:(done)) as E2. pose proof (Hi dz ltac:(done)) as E3.
    unfold idWord in E1, E2, E3. repeat case_decide; try done; try congruence.
    enough (Z.of_nat n' = n) by lia. unfold n, flat. rewrite <- E1, <- E2, <- E3, <- Z.div_div by lia.
    pose proof (Z.div_mod (Z.of_nat n') X ltac:(lia)). pose proof (Z.div_mod (Z.of_nat n' / X) Y ltac:(lia)). nia.
Qed.

Lemma wordAt_row simd buffer n d :
  wordAt simd buffer n d = buffer !! ((3 * (n / Z.to_nat simd) + d) * rowWords simd + n mod Z.to_nat simd)%nat.
Proof. done. Qed.

(** One instantiation of the template writes the whole payload. *)
Lemma simd_payload {V} `{VecSpec V} simd lx ly lz dx dy dz buffer : let lws := [lx; ly; lz] in
  simd ∈ [8; 16; 32] -> (exists k, 1 <= k /\ Z.to_nat simd = k * numChannels)%nat ->
  [dx; dy; dz] ≡ₚ [0; 1; 2]%nat -> 1 <= lx -> 1 <= ly -> 1 <= lz -> groupSize lws <= 2 ^ 13 ->
  let threads := Z.to_nat (w16 (getThreadsPerWG simd (w64 (lx * ly * lz)))) in
  length buffer = payloadWords simd lws ->
  exists buffer', generateLocalIDsSimd (Z.to_nat simd) buffer lws threads [dx; dy; dz] = Some buffer' /\
    length buffer' = length buffer /\
    (forall n d, Z.of_nat n < getThreadsPerWG simd (groupSize lws) * simd -> (d < 3)%nat ->
      wordAt simd buffer' n d = Some (idWord (lws !!! dx) (lws !!! dy) dx dy d (Z.of_nat n))) /\
    eachIdOnce simd lws buffer'.
Proof.
  intros lws Hsimd Hk Hp Bx By Bz Hg threads Hlen.
  assert (groupSize lws = lx * ly * lz) as Eg by (unfold groupSize, lws; simpl; ring).
  assert (1 <= groupSize lws) as Hg1 by (rewrite Eg; assert (1 <= lx * ly) by nia; nia).
  pose proof (threadsPerWG_bounds simd (groupSize lws) Hsimd ltac:(lia)) as Ht. cbv zeta in Ht.
  assert (threads = Z.to_nat (getThreadsPerWG simd (groupSize lws))) as Et.
  { unfold threads. rewrite <- Eg. f_equal. rewrite (wrap_small 64) by (unfold uint; lia). apply wrap_small. word_lia. }
  rewrite Et. clear Et threads.
  assert (8 <= simd <= 32 /\ Z.to_nat simd ∈ [8; 16; 32]%nat /\ (Z.to_nat simd <= rowWords simd)%nat) as (Hs & Hsn & Hrow).
  { clear - Hsimd. repeat (apply elem_of_cons in Hsimd as [->|Hsimd]; [simpl; split; [lia|split; [set_solver|vm_compute; lia]]|]).
    by apply elem_of_nil in Hsimd. }
  destruct (order_distinct _ _ _ Hp) as (Hdx & Hdy & Hdz & Dxy & Dxz & Dyz).
  assert (forall d, (d < 3)%nat -> lws !! d = Some (lws !!! d) /\ 1 <= lws !!! d) as Hlws.
  { intros d Hd. destruct d as [|[|[|d]]]; [by split|by split|by split|lia]. }
  assert (sizesFit (lws !!! dx) (lws !!! dy)) as Hfit.
  { pose proof (group_product lx ly lz dx dy dz Hp) as E. cbv zeta in E. fold lws in E.
    destruct (Hlws dx Hdx) as [_ Ax], (Hlws dy Hdy) as [_ Ay], (Hlws dz Hdz) as [_ Az].
    assert (1 <= lws !!! dx * lws !!! dy) by nia. assert (lws !!! dx * lws !!! dy <= 2 ^ 13) by nia. split; nia. }
  assert (rowWords simd = if decide (Z.to_nat simd = 32%nat) then 32%nat else 16%nat) as Er.
  { unfold rowWords. repeat case_decide; try done; lia. }
  destruct (generateLocalIDsSimd_spec (Z.to_nat simd) lws dx dy dz (Z.to_nat (getThreadsPerWG simd (groupSize lws))) buffer
    (lws !!! dx) (lws !!! dy)) as (b & E & L & W); [done|done|by apply Hlws|by apply Hlws|done..|lia| |].
  { rewrite Hlen, payload_words, Er by (done || lia). done. }
  exists b. split; [exact E|]. split; [rewrite L, Hlen, payload_words, Er by (done || lia); done|].
  assert (forall n d, Z.of_nat n < getThreadsPerWG simd (groupSize lws) * simd -> (d < 3)%nat ->
    wordAt simd b n d = Some (idWord (lws !!! dx) (lws !!! dy) dx dy d (Z.of_nat n))) as Hw.
  { intros n d Hn Hd. rewrite wordAt_row, Er.
    pose proof (Nat.div_mod_eq n (Z.to_nat simd)) as Hdm. pose proof (Nat.mod_upper_bound n (Z.to_nat simd) ltac:(lia)) as Hm.
    assert (n / Z.to_nat simd < Z.to_nat (getThreadsPerWG simd (groupSize lws)))%nat as Hq by (apply Nat.Div0.div_lt_upper_bound; lia).
    rewrite W; [|done|done|rewrite <- Er; lia].
    rewrite decide_True by done. do 2 f_equal. lia. }
  split; [done|]. apply (enumeration_once simd lx ly lz dx dy dz); [done|by apply Hlws..|]. intros n d Hn Hd. apply Hw; [exact (Z.lt_le_trans _ _ _ Hn (proj1 (proj2 Ht)))|done].
Qed.

(** C8: outside of the image layout the payload gives lane [l] of thread
    [t] the work item number [t * simd + l] of the walk: its coordinate in
    the first dimension of the order varies fastest, then the second, then the
    third.  Every thread's rows are filled inside the reserved payload, every
    work item of the group is given to exactly one of the first lanes, and the
    do-while loops end, with either vector type. *)
Theorem local_ids_enumerate {V8 V16 : Type} `{IntrinsicsSpec 8 V8} `{IntrinsicsSpec 16 V16} supportsAVX2 simd lx ly lz dx dy dz isImageOnlyKernel buffer :
  let lws := [lx; ly; lz] in
  simd ∈ [8; 16; 32] -> [dx; dy; dz] ≡ₚ [0; 1; 2]%nat -> 1 <= lx -> 1 <= ly -> 1 <= lz -> groupSize lws <= 2 ^ 13 ->
  length buffer = payloadWords simd lws ->
  isImageOnlyKernel && isCompatibleWithLayoutForImages lws [dx; dy; dz] simd = false ->
  exists buffer', generateLocalIDs (V8 := V8) (V16 := V16) supportsAVX2 buffer simd lws [dx; dy; dz] isImageOnlyKernel = Some buffer' /\
    length buffer' = length buffer /\
    (forall n d, Z.of_nat n < getThreadsPerWG simd (groupSize lws) * simd -> (d < 3)%nat ->
      wordAt simd buffer' n d = Some (idWord (lws !!! dx) (lws !!! dy) dx dy d (Z.of_nat n))) /\
    eachIdOnce simd lws buffer'.
Proof.
  intros lws Hsimd Hp Bx By Bz Hg Hlen Himg. unfold generateLocalIDs. cbn [lookup list_lookup lws mbind option_bind]. fold lws.
  rewrite Himg. cbv zeta. pose proof (uint16x8_spec (V := V8) _) as S8. pose proof (uint16x16_spec (V := V16) _) as S16.
  apply elem_of_cons in Hsimd as [->|Hsimd]; [|apply elem_of_cons in Hsimd as [->|Hsimd]; [|apply list_elem_of_singleton in Hsimd as ->]].
  - rewrite !decide_False by lia. apply (simd_payload (V := V8) 8); try done; [set_solver|exists 1%nat; split; [lia|reflexivity]].
  - rewrite decide_False, decide_True by lia. destruct supportsAVX2.
    + apply (simd_payload (V := V16) 16); try done; [set_solver|exists 1%nat; split; [lia|reflexivity]].
    + apply (simd_payload (V := V8) 16); try done; [set_solver|exists 2%nat; split; [lia|reflexivity]].
  - rewrite decide_True by lia. destruct supportsAVX2.
    + apply (simd_payload (V := V16) 32); try done; [set_solver|exists 2%nat; split; [lia|reflexivity]].
    + apply (simd_payload (V := V8) 32); try done; [set_solver|exists 4%nat; split; [lia|reflexivity]].
Qed.

(** ** Positions of the image layout

    The group is cut into strips of [yDelta] rows and each strip into tiles
    [xDelta] wide, which the lanes fill row by row. *)

Section image.
Context (simd X Y xMask w H : Z).
Hypothesis parameters : (simd = 8 /\ w = 2 /\ H = 4 /\ xMask = 1) \/ (simd = 16 /\ w = 4 /\ H = 4 /\ xMask = 3) \/
  (simd = 32 /\ w = 4 /\ H = 8 /\ xMask = 3 /\ Y <> 4) \/ (simd = 32 /\ w = 4 /\ H = 4 /\ xMask = 3 /\ Y = 4).
Hypothesis sizes : 1 <= X <= 2 ^ 13 /\ 1 <= Y <= 2 ^ 13 /\ (w | X) /\ (4 | Y).

(** Rows of the strip that starts at [y]. *)
Definition stripRows (y : Z) : Z := Z.min H (Y - y).

(** [s] is the position of the lane that runs the [n]-th item. *)
Definition atPos (n : Z) (s : ImageState) : Prop :=
  (w | imgX s) /\ (H | imgY s) /\ 0 <= imgX s < X /\ 0 <= imgY s < Y /\ 0 <= extraX s < w /\ 0 <= extraY s < stripRows (imgY s) /\
  n = X * imgY s + imgX s * stripRows (imgY s) + extraY s * w + extraX s.

Lemma strip_cases y : (H | y) -> 0 <= y < Y ->
  (stripRows y = H /\ y + H <= Y) \/ (stripRows y = 4 /\ H = 8 /\ y + 4 = Y).
Proof.
  intros [k ->] Hy. destruct sizes as (_ & _ & _ & [m Hm]). unfold stripRows.
  destruct parameters as [(_ & _ & -> & _)|[(_ & _ & -> & _)|[(_ & _ & -> & _)|(_ & _ & -> & _)]]]; lia.
Qed.

(** A tile has [w * stripRows y] lanes and divides the threads. *)
Lemma tile_divides y : (H | y) -> 0 <= y < Y -> (w * stripRows y | simd) /\ (w * stripRows y | X * y) /\
  forall x, (w | x) -> (w * stripRows y | x * stripRows y).
Proof.
  intros Hy Hr. destruct sizes as (_ & _ & [a Ha] & _). split; [|split].
  - destruct (strip_cases y Hy Hr) as [[-> _]|(-> & HH & _)];
      destruct parameters as [(-> & -> & E & _)|[(-> & -> & E & _)|[(-> & -> & E & _)|(-> & -> & E & _)]]]; rewrite E in *;
      try lia; eval_decide.
  - assert (stripRows y | y) as [k Hk].
    { destruct (strip_cases y Hy Hr) as [[-> _]|(-> & HH & _)]; [done|]. rewrite HH in Hy. destruct Hy as [k ->]. exists (2 * k). lia. }
    exists (a * k). rewrite Ha. rewrite Hk at 1. ring.
  - intros x [k ->]. exists k. ring.
Qed.

Lemma w_pos : 2 <= w <= 4 /\ 4 <= H <= 8 /\ 8 <= simd <= 32 /\ (w | simd).
Proof.
  destruct parameters as [(-> & -> & -> & _)|[(-> & -> & -> & _)|[(-> & -> & -> & _)|(-> & -> & -> & _)]]];
    repeat split; try lia; eval_decide.
Qed.

Lemma atPos_mod n s : atPos n s -> n mod w = extraX s.
Proof.
  intros (Hx & Hy & Rx & Ry & Rex & Rey & ->). pose proof w_pos as (Hw & _). destruct sizes as (_ & _ & [a Ha] & _). destruct Hx as [b Hb].
  rewrite Ha, Hb. replace (a * w * imgY s + b * w * stripRows (imgY s) + extraY s * w + extraX s)
    with (extraX s + (a * imgY s + b * stripRows (imgY s) + extraY s) * w) by ring.
  rewrite Z.mod_add by lia. apply Z.mod_small. lia.
Qed.

(** The items of a tile, and the end of it. *)
Lemma atPos_tile n s : atPos n s -> let q := extraY s * w + extraX s in
  0 <= q < w * stripRows (imgY s) /\ n < X * Y /\
  ((w * stripRows (imgY s) | n + 1) <-> q + 1 = w * stripRows (imgY s)) /\
  (q + 1 = w * stripRows (imgY s) <-> extraX s + 1 = w /\ extraY s + 1 = stripRows (imgY s)).
Proof.
  intros (Hx & Hy & Rx & Ry & Rex & Rey & Hn) q. pose proof w_pos as (Hw & _).
  destruct (tile_divides _ Hy Ry) as (_ & Dy & Dx). specialize (Dx _ Hx). set (h := stripRows (imgY s)) in *.
  assert (0 <= q < w * h) as Hq by (unfold q; nia).
  assert (0 < h /\ imgY s + h <= Y) as [Hh HY] by (unfold h, stripRows in *; lia).
  assert (imgX s + w <= X) as Hxw.
  { destruct sizes as (_ & _ & [a Ha] & _). destruct Hx as [b Hb]. rewrite Ha, Hb in *. assert (b < a) by nia. nia. }
  split; [done|]. split; [|split].
  - assert ((imgX s + w) * h <= X * h) by nia. assert (X * (imgY s + h) <= X * Y) by nia. lia.
  - split.
    + intros Hd. assert (w * h | q + 1) as Hd'.
      { replace (q + 1) with ((n + 1) - X * imgY s - imgX s * h) by (unfold q; lia). by repeat apply Z.divide_sub_r. }
      destruct Hd' as [k Hk]. assert (k = 1) as -> by nia. lia.
    + intros Hq1. replace (n + 1) with (X * imgY s + imgX s * h + (q + 1)) by (unfold q; lia).
      rewrite Hq1. apply Z.divide_add_r; [by apply Z.divide_add_r|apply Z.divide_refl].
  - unfold q. split; [intros E; split; nia|]. intros [E1 E2]. nia.
Qed.

Lemma strip_bound y : stripRows y <= H /\ stripRows y <= Y - y.
Proof. unfold stripRows. lia. Qed.

Lemma mask_mod i : 0 <= i -> Z.land i xMask = i mod w.
Proof.
  intros Hi. destruct parameters as [(_ & -> & _ & ->)|[(_ & -> & _ & ->)|[(_ & -> & _ & -> & _)|(_ & -> & _ & -> & _)]]].
  - apply (land_low_ones i 1). lia.
  - apply (land_low_ones i 2). lia.
  - apply (land_low_ones i 2). lia.
  - apply (land_low_ones i 2). lia.
Qed.

(** A tile as high as [yDelta] ends with a thread, unless the group has one strip. *)
Lemma full_tile y : (H | y) -> 0 <= y < Y -> y + H <> Y -> w * H = simd.
Proof.
  intros [k ->] Hy Hne. destruct parameters as [(-> & -> & -> & _)|[(-> & -> & -> & _)|[(-> & -> & -> & _)|(-> & -> & -> & _ & ->)]]]; lia.
Qed.

(** Entering the next tile of a strip. *)
Lemma atPos_next_tile n x y : (w | x) -> (H | y) -> 0 <= x -> x + w < X -> 0 <= y < Y ->
  n = X * y + (x + w) * stripRows y -> atPos n (mkImageState (x + w) y 0 0).
Proof.
  intros Hx Hy Bx Bx2 By Hn. pose proof w_pos as (Hw & _).
  assert (1 <= stripRows y) by (destruct (strip_cases y Hy By) as [[-> _]|(-> & _)]; lia).
  unfold atPos. cbn [imgX imgY extraX extraY]. split_and!; try lia; [|done].
  apply Z.divide_add_r; [done|apply Z.divide_refl].
Qed.

Lemma step_next n i s : atPos n s -> n + 1 < X * Y -> 0 < i < simd -> (n + 1) mod simd = i ->
  atPos (n + 1) (imageStep X Y xMask w H i s).
Proof.
  intros Hp Hn Hi Hmod. pose proof (atPos_mod n s Hp) as Hex. pose proof (atPos_tile n s Hp) as (Hq & _ & Htile & Hend).
  pose proof w_pos as (Hw & HH & Hs & Hws). pose proof sizes as (SX & SY & _).
  assert (i mod w = (n + 1) mod w) as Him.
  { rewrite <- Hmod. destruct Hws as [k Hk]. rewrite (Z.mod_eq (n + 1) simd), Hk by lia.
    replace (n + 1 - k * w * ((n + 1) / (k * w))) with (n + 1 + - (k * ((n + 1) / (k * w))) * w) by ring. by rewrite Z.mod_add by lia. }
  assert ((n + 1) mod w = if decide (extraX s + 1 = w) then 0 else extraX s + 1) as Hnm.
  { rewrite <- Hex. rewrite Z.add_mod by lia. rewrite (Z.mod_small 1 w) by lia. pose proof (Z.mod_pos_bound n w ltac:(lia)).
    case_decide as Hc; [rewrite Hc; apply Z.mod_same; lia|apply Z.mod_small; lia]. }
  destruct s as [x y ex ey]. destruct Hp as (Hx & Hy & Rx & Ry & Rex & Rey & En). cbn [imgX imgY extraX extraY] in *.
  pose proof (strip_bound y) as [HbH HbY].
  assert (x + w <= X) as Hxw.
  { destruct sizes as (_ & _ & [a Ha] & _). destruct Hx as [b Hb]. rewrite Ha, Hb in *. assert (b < a) by nia. nia. }
  unfold imageStep. rewrite decide_True by lia. rewrite mask_mod, Him, Hnm by lia. rewrite !(wrap_small 16) by word_lia.
  destruct (decide (ex + 1 = w)) as [Hc|Hc].
  - rewrite decide_True by done. destruct (decide (y + (ey + 1) = Y)) as [HyY|HyY].
    + assert (stripRows y = ey + 1) as Eh by lia.
      assert (n + 1 = X * y + (x + w) * stripRows y) as En1 by (rewrite En, Eh, <- Hc; ring).
      rewrite decide_False.
      * apply atPos_next_tile; try done; try lia. assert (x + w <> X); [|lia]. intros HX. rewrite HX, Eh in En1.
        assert (X * y + X * (ey + 1) = X * Y) by (rewrite <- HyY; ring). lia.
      * intros HX. rewrite HX, Eh in En1. assert (X * y + X * (ey + 1) = X * Y) by (rewrite <- HyY; ring). lia.
    + rewrite decide_False by lia. unfold atPos. cbn [imgX imgY extraX extraY]. split_and!; try done; try lia.
      * assert (ey + 1 <> stripRows y); [|lia]. intros Eh. destruct (strip_cases y Hy Ry) as [[E _]|(E & _ & ?)]; [|lia].
        assert (w * H = simd) as Hfull by (apply (full_tile y); [done|done|lia]).
        assert (w * stripRows y | n + 1) as Hd by (apply Htile, Hend; by split). rewrite E, Hfull in Hd.
        apply Z.mod_divide in Hd; lia.
  - rewrite decide_False by lia. rewrite decide_False by lia. unfold atPos. cbn [imgX imgY extraX extraY].
    split_and!; try done; try lia.
Qed.

Lemma step_thread n s : atPos n s -> n + 1 < X * Y -> (simd | n + 1) ->
  atPos (n + 1) (imageStep X Y xMask w H 0 (mkImageState (w16 (imgX s + w)) (imgY s) 0 0)).
Proof.
  intros Hp Hn Hd. pose proof (atPos_tile n s Hp) as (_ & _ & Htile & Hend).
  pose proof w_pos as (Hw & HH & Hs & _). pose proof sizes as (SX & SY & _).
  destruct s as [x y ex ey]. destruct Hp as (Hx & Hy & Rx & Ry & Rex & Rey & En). cbn [imgX imgY extraX extraY] in *.
  destruct (tile_divides y Hy Ry) as (Hdiv & _). pose proof (strip_bound y) as [HbH HbY].
  assert (extraX' : ex + 1 = w /\ ey + 1 = stripRows y) by (apply Hend, Htile; by eapply Z.divide_trans).
  destruct extraX' as [Eex Eey].
  assert (n + 1 = X * y + (x + w) * stripRows y) as En1 by (rewrite En, <- Eey, <- Eex; ring).
  unfold imageStep. rewrite decide_False by lia. rewrite !(wrap_small 16) by word_lia.
  destruct (decide (x + w = X)) as [HX|HX].
  - destruct (strip_cases y Hy Ry) as [[Eh _]|(Eh & _ & EY)].
    + rewrite HX, Eh in En1. assert (y + H < Y) as HyY by (assert (X * (y + H) < X * Y) by lia; nia). rewrite decide_False by lia.
      assert (H | y + H) as Hd' by (apply Z.divide_add_r; [done|apply Z.divide_refl]).
      assert (1 <= stripRows (y + H)) by (destruct (strip_cases (y + H) Hd' ltac:(lia)) as [[-> _]|(-> & _)]; lia).
      unfold atPos. cbn [imgX imgY extraX extraY]. split_and!; try done; try lia. apply Z.divide_0_r.
    + exfalso. rewrite HX, Eh in En1. assert (X * y + X * 4 = X * Y) by (rewrite <- EY; ring). lia.
  - apply atPos_next_tile; try done; try lia.
    destruct sizes as (_ & _ & [a Ha] & _). destruct Hx as [b Hb]. rewrite Ha, Hb in *. assert (b < a) by nia. assert (b + 1 <> a) by nia. nia.
Qed.

Lemma step_start : atPos 0 (imageStep X Y xMask w H 0 (mkImageState 0 0 0 0)).
Proof.
  pose proof w_pos as (Hw & HH & Hs & _). pose proof sizes as (SX & SY & _). unfold imageStep. rewrite !decide_False by lia.
  assert (1 <= stripRows 0) by (destruct (strip_cases 0 (Z.divide_0_r _) ltac:(lia)) as [[-> _]|(-> & _)]; lia).
  unfold atPos. cbn [imgX imgY extraX extraY]. split_and!; try lia; apply Z.divide_0_r.
Qed.
End image.

Lemma writeWord_spec row rows q l v buffer :
  length buffer = (rows * row)%nat -> (q < rows)%nat -> (l < row)%nat ->
  exists buffer', writeWord (Z.of_nat (q * row + l)) v buffer = Some buffer' /\ length buffer' = (rows * row)%nat /\
    forall q' l', (q' < rows)%nat -> (l' < row)%nat ->
      buffer' !! (q' * row + l')%nat = if decide (q' = q /\ l' = l) then Some v else buffer !! (q' * row + l')%nat.
Proof.
  intros Hlen Hq Hl. unfold writeWord. rewrite Nat2Z.id. pose proof (row_inside q rows row l Hq Hl).
  rewrite decide_True by lia. eexists. split; [done|]. split; [by rewrite length_insert|]. intros q' l' Hq' Hl'.
  pose proof (row_unique q q' row l' l 1 Hl' ltac:(lia)) as Hu. case_decide as Hc.
  - destruct Hc as [-> ->]. apply list_lookup_insert_eq. lia.
  - apply list_lookup_insert_ne. intros E. assert (q' = q /\ (l <= l' < l + 1)%nat) by (apply Hu; lia). destruct Hc. lia.
Qed.

Section imageBuffer.
Context (simdN : nat) (X Y xMask w H : Z).
Abbreviation simd := (Z.of_nat simdN).
Hypothesis parameters : (simd = 8 /\ w = 2 /\ H = 4 /\ xMask = 1) \/ (simd = 16 /\ w = 4 /\ H = 4 /\ xMask = 3) \/
  (simd = 32 /\ w = 4 /\ H = 8 /\ xMask = 3 /\ Y <> 4) \/ (simd = 32 /\ w = 4 /\ H = 4 /\ xMask = 3 /\ Y = 4).
Hypothesis sizes : 1 <= X <= 2 ^ 13 /\ 1 <= Y <= 2 ^ 13 /\ (w | X) /\ (4 | Y).
Context (rows row : nat).
Hypothesis row_fits : (simdN <= row)%nat.

(** The state before lane [i] of thread [t]. *)
Definition before (t i : nat) (s : ImageState) : Prop :=
  match i with
  | O => Z.of_nat (t * simdN) < X * Y ->
      (t = 0%nat /\ s = mkImageState 0 0 0 0) \/
      (exists p, atPos X Y w H (Z.of_nat (t * simdN) - 1) p /\ s = mkImageState (w16 (imgX p + w)) (imgY p) 0 0)
  | S i => Z.of_nat (t * simdN + i) < X * Y -> atPos X Y w H (Z.of_nat (t * simdN + i)) s
  end.

(** The three words of lane [l] of thread [t]. *)
Definition laneWritten (t l : nat) (buffer : list Z) : Prop :=
  Z.of_nat (t * simdN + l) < X * Y -> exists p, atPos X Y w H (Z.of_nat (t * simdN + l)) p /\
    buffer !! ((3 * t + 0) * row + l)%nat = Some (imgX p + extraX p) /\
    buffer !! ((3 * t + 1) * row + l)%nat = Some (imgY p + extraY p) /\
    buffer !! ((3 * t + 2) * row + l)%nat = Some 0.

Lemma simdN_cases : simdN = 8%nat \/ simdN = 16%nat \/ simdN = 32%nat.
Proof. clear sizes row_fits. lia. Qed.

Lemma before_pos t i s : before t i s -> (0 < i)%nat -> Z.of_nat (t * simdN + i) <= X * Y -> atPos X Y w H (Z.of_nat (t * simdN + i) - 1) s.
Proof.
  intros Hb Hi Hn. destruct i as [|i]; [lia|]. simpl in Hb.
  replace (Z.of_nat (t * simdN + S i) - 1) with (Z.of_nat (t * simdN + i)) by lia. apply Hb. lia.
Qed.

Lemma before_step t i s : before t i s -> (i < simdN)%nat -> Z.of_nat (t * simdN + i) < X * Y ->
  atPos X Y w H (Z.of_nat (t * simdN + i)) (imageStep X Y xMask w H (Z.of_nat i) s).
Proof.
  intros Hb Hi Hn. destruct i as [|i]; simpl in Hb.
  - rewrite Nat.add_0_r in *. destruct (Hb Hn) as [[-> ->]|(p & Hp & ->)].
    + by apply (step_start simd X Y xMask w H parameters sizes).
    + replace (Z.of_nat (t * simdN)) with (Z.of_nat (t * simdN) - 1 + 1) by lia.
      apply (step_thread simd X Y xMask w H parameters sizes); [done|lia|].
      replace (Z.of_nat (t * simdN) - 1 + 1) with (Z.of_nat t * simd) by lia. apply Z.divide_factor_r.
  - assert (Z.of_nat (t * simdN + S i) = Z.of_nat (t * simdN + i) + 1) as E by lia. rewrite E in *.
    apply (step_next simd X Y xMask w H parameters sizes); [apply Hb; lia|lia|lia|].
    replace (Z.of_nat (t * simdN + i) + 1) with (Z.of_nat (S i) + Z.of_nat t * simd) by lia.
    rewrite Z.mod_add by lia. apply Z.mod_small. lia.
Qed.

Lemma imageLanes_spec t rest : (3 * t + 2 < rows)%nat -> forall i s buffer, (i + rest = simdN)%nat -> length buffer = (rows * row)%nat ->
  before t i s ->
  exists s' buffer', imageLanes rest (Z.of_nat i) X Y xMask w H (Z.of_nat row) (Z.of_nat (3 * t * row)) s buffer = Some (s', buffer') /\
    length buffer' = (rows * row)%nat /\ before t simdN s' /\ (forall l, (i <= l < simdN)%nat -> laneWritten t l buffer') /\
    forall q l, (q < rows)%nat -> (l < row)%nat -> (q < 3 * t \/ 3 * t + 3 <= q \/ l < i)%nat ->
      buffer' !! (q * row + l)%nat = buffer !! (q * row + l)%nat.
Proof.
  intros Hrows. induction rest as [|rest IH]; intros i s buffer Hi Hlen Hb; cbn [imageLanes].
  { exists s, buffer. replace i with simdN in Hb by lia. split_and!; try done. intros l Hl. lia. }
  set (s1 := imageStep X Y xMask w H (Z.of_nat i) s).
  replace (Z.of_nat (3 * t * row) + Z.of_nat i) with (Z.of_nat ((3 * t + 0) * row + i)) by lia.
  replace (Z.of_nat (3 * t * row) + Z.of_nat row + Z.of_nat i) with (Z.of_nat ((3 * t + 1) * row + i)) by lia.
  replace (Z.of_nat (3 * t * row) + 2 * Z.of_nat row + Z.of_nat i) with (Z.of_nat ((3 * t + 2) * row + i)) by lia.
  destruct (writeWord_spec row rows (3 * t + 0) i (w16 (imgX s1 + extraX s1)) buffer Hlen) as (b1 & -> & L1 & E1); [lia|lia|]. cbn [mbind option_bind].
  destruct (writeWord_spec row rows (3 * t + 1) i (w16 (imgY s1 + extraY s1)) b1 L1) as (b2 & -> & L2 & E2); [lia|lia|]. cbn [mbind option_bind].
  destruct (writeWord_spec row rows (3 * t + 2) i 0 b2 L2) as (b3 & -> & L3 & E3); [lia|lia|]. cbn [mbind option_bind].
  replace (Z.of_nat i + 1) with (Z.of_nat (S i)) by lia.
  assert (before t (S i) s1) as Hb1 by (intros Hn; apply before_step; [done|lia|done]).
  destruct (IH (S i) s1 b3 ltac:(lia) L3 Hb1) as (s' & b' & E & L' & Hb' & Hw & Hf). exists s', b'.
  split; [done|]. split; [done|]. split; [done|]. split.
  - intros l Hl. destruct (decide (l = i)) as [->|Hne]; [|apply Hw; lia]. intros Hn. exists s1.
    pose proof (Hb1 Hn) as Hp. split; [done|].
    destruct Hp as (_ & _ & Hx & Hy & Hex & Hey & _). pose proof (w_pos simd X Y xMask w H parameters sizes) as (Hw' & _).
    assert (stripRows Y H (imgY s1) <= Y - imgY s1) as HhY by (unfold stripRows; lia). destruct sizes as (SX & SY & _).
    split; [|split].
    + rewrite Hf, E3, decide_False, E2, decide_False, E1, decide_True, wrap_small by word_lia. done.
    + rewrite Hf, E3, decide_False, E2, decide_True, wrap_small by word_lia. done.
    + rewrite Hf, E3, decide_True by lia. done.
  - intros q l Hq Hl Hout. rewrite Hf, E3, E2, E1 by lia. rewrite !decide_False by lia. done.
Qed.

Lemma imageGrfs_spec num : forall t0 x y buffer, (3 * (t0 + num) <= rows)%nat -> length buffer = (rows * row)%nat ->
  Z.of_nat (3 * (t0 + num) * row) < 2 ^ 16 -> before t0 0 (mkImageState x y 0 0) ->
  exists buffer', imageGrfs num simd X Y xMask w H (Z.of_nat row) x y (Z.of_nat (3 * t0 * row)) buffer = Some buffer' /\
    length buffer' = (rows * row)%nat /\ (forall t l, (t0 <= t < t0 + num)%nat -> (l < simdN)%nat -> laneWritten t l buffer') /\
    forall q l, (q < rows)%nat -> (l < row)%nat -> (q < 3 * t0)%nat -> buffer' !! (q * row + l)%nat = buffer !! (q * row + l)%nat.
Proof.
  induction num as [|num IH]; intros t0 x y buffer Hrows Hlen Hoff Hb; cbn [imageGrfs].
  { exists buffer. split_and!; try done. intros t l Ht. lia. }
  rewrite Nat2Z.id.
  destruct (imageLanes_spec t0 simdN ltac:(lia) 0%nat (mkImageState x y 0 0) buffer ltac:(lia) Hlen Hb) as (s & b & E & L & Hbs & Hw & Hf).
  change (Z.of_nat 0) with 0 in E. rewrite E. cbn [mbind option_bind]. clear E.
  assert (3 * (t0 + 1) * row <= 3 * (t0 + S num) * row)%nat by (apply Nat.mul_le_mono_r; lia).
  replace (Z.of_nat (3 * t0 * row) + 3 * Z.of_nat row) with (Z.of_nat (3 * (t0 + 1) * row)) by lia. rewrite (wrap_small 16 (Z.of_nat (3 * (t0 + 1) * row))) by word_lia.
  assert (before (t0 + 1) 0 (mkImageState (w16 (imgX s + w)) (imgY s) 0 0)) as Hb1.
  { intros Hn. right. exists s. split; [|done]. pose proof simdN_cases.
    replace ((t0 + 1) * simdN)%nat with (t0 * simdN + simdN)%nat in * by lia. apply before_pos; [done|lia|lia]. }
  destruct (IH (t0 + 1)%nat (w16 (imgX s + w)) (imgY s) b) as (b' & E & L' & Hw' & Hf'); [lia|done| |done|].
  { replace (t0 + 1 + num)%nat with (t0 + S num)%nat by lia. done. }
  exists b'. split; [done|]. split; [done|]. split.
  - intros t l Ht Hl. destruct (decide (t = t0)) as [->|Hne]; [|apply Hw'; lia]. intros Hn.
    destruct (Hw l ltac:(lia) Hn) as (p & Hp & E0 & E1 & E2). exists p. rewrite !Hf' by lia. done.
  - intros q l Hq Hl Hqt. rewrite Hf', Hf by lia. done.
Qed.
End imageBuffer.

Section positions.
Context (simd X Y xMask w H : Z).
Hypothesis parameters : (simd = 8 /\ w = 2 /\ H = 4 /\ xMask = 1) \/ (simd = 16 /\ w = 4 /\ H = 4 /\ xMask = 3) \/
  (simd = 32 /\ w = 4 /\ H = 8 /\ xMask = 3 /\ Y <> 4) \/ (simd = 32 /\ w = 4 /\ H = 4 /\ xMask = 3 /\ Y = 4).
Hypothesis sizes : 1 <= X <= 2 ^ 13 /\ 1 <= Y <= 2 ^ 13 /\ (w | X) /\ (4 | Y).

Lemma multiple_split m a b c d : 0 < m -> (m | a) -> (m | c) -> 0 <= b < m -> 0 <= d < m -> a + b = c + d -> a = c /\ b = d.
Proof. intros Hm [k ->] [k' ->] Hb Hd E. assert (k = k') as -> by nia. lia. Qed.

Lemma multiple_gap m a b : 0 < m -> (m | a) -> (m | b) -> a < b -> a + m <= b.
Proof.
  intros Hm [k ->] [k' ->] Hlt. apply Z.mul_lt_mono_pos_r in Hlt; [|done].
  assert ((k + 1) * m <= k' * m) by (apply Z.mul_le_mono_nonneg_r; lia). lia.
Qed.

(** A position is determined by its item, ... *)
Lemma atPos_words n n' p p' : atPos X Y w H n p -> atPos X Y w H n' p' ->
  imgX p + extraX p = imgX p' + extraX p' -> imgY p + extraY p = imgY p' + extraY p' -> n = n' /\ p = p'.
Proof.
  intros (Hx & Hy & _ & _ & Rex & Rey & ->) (Hx' & Hy' & _ & _ & Rex' & Rey' & ->) EX EY.
  pose proof (w_pos simd X Y xMask w H parameters sizes) as (Hw & HH & _).
  destruct (multiple_split w _ _ _ _ ltac:(lia) Hx Hx' Rex Rex' EX) as [E1 E2].
  unfold stripRows in Rey, Rey'. assert (0 <= extraY p < H /\ 0 <= extraY p' < H) as [Bey Bey'] by lia.
  destruct (multiple_split H _ _ _ _ ltac:(lia) Hy Hy' Bey Bey' EY) as [E3 E4].
  destruct p, p'. simpl in *. by subst.
Qed.

(** ... and by its number, ... *)
Lemma atPos_inj n p p' : atPos X Y w H n p -> atPos X Y w H n p' -> p = p'.
Proof.
  intros Hp Hp'. pose proof (w_pos simd X Y xMask w H parameters sizes) as (Hw & HH & _).
  pose proof (atPos_tile simd X Y xMask w H parameters sizes n p Hp) as (Hq & _).
  pose proof (atPos_tile simd X Y xMask w H parameters sizes n p' Hp') as (Hq' & _).
  destruct Hp as (Hx & Hy & Rx & Ry & Rex & Rey & En), Hp' as (Hx' & Hy' & Rx' & Ry' & Rex' & Rey' & En').
  enough (imgY p = imgY p' /\ imgX p = imgX p' /\ extraY p = extraY p' /\ extraX p = extraX p') as (? & ? & ? & ?).
  { destruct p, p'. simpl in *. by subst. }
  assert (forall y, stripRows Y H y = H /\ y + H <= Y \/ stripRows Y H y < H /\ y + stripRows Y H y = Y) as Hstrip by (intros y; unfold stripRows; lia).
  destruct sizes as (SX & SY & [a Ha] & _).
  assert (forall x y e, (w | x) -> 0 <= x < X -> 0 <= e < w * stripRows Y H y -> 0 <= x * stripRows Y H y + e < X * stripRows Y H y) as Hin.
  { intros x y e [b ->] Bx He. assert (b < a) by nia. assert (0 < stripRows Y H y) by nia. rewrite Ha.
    assert ((b * w + w) * stripRows Y H y <= a * w * stripRows Y H y) by nia. nia. }
  pose proof (Hin _ _ _ Hx Rx Hq) as B. pose proof (Hin _ _ _ Hx' Rx' Hq') as B'.
  assert (imgY p = imgY p') as Ey.
  { destruct (Z.lt_trichotomy (imgY p) (imgY p')) as [Hlt|[|Hlt]]; [|done|]; exfalso.
    - assert (imgY p + stripRows Y H (imgY p) <= imgY p') as Hs.
      { assert (imgY p + H <= imgY p'); [|destruct (Hstrip (imgY p)) as [[-> _]|[E _]]; lia].
        by apply multiple_gap; [lia|..]. }
      assert (X * (imgY p + stripRows Y H (imgY p)) <= X * imgY p') by (apply Z.mul_le_mono_nonneg_l; [lia|exact Hs]). lia.
    - assert (imgY p' + stripRows Y H (imgY p') <= imgY p) as Hs.
      { assert (imgY p' + H <= imgY p); [|destruct (Hstrip (imgY p')) as [[-> _]|[E _]]; lia].
        by apply multiple_gap; [lia|..]. }
      assert (X * (imgY p' + stripRows Y H (imgY p')) <= X * imgY p) by (apply Z.mul_le_mono_nonneg_l; [lia|exact Hs]). lia. }
  split; [done|]. rewrite <- Ey in *. set (h := stripRows Y H (imgY p)) in *.
  assert (0 < w * h) as Hwh by lia.
  destruct (multiple_split (w * h) (imgX p * h) (extraY p * w + extraX p) (imgX p' * h) (extraY p' * w + extraX p')) as [E1 E2];
    [done|destruct Hx as [k ->]; exists k; ring|destruct Hx' as [k ->]; exists k; ring|done|done|lia|].
  split; [nia|]. destruct (multiple_split w (extraY p * w) (extraX p) (extraY p' * w) (extraX p')) as [E3 E4]; [lia|by exists (extraY p)|by exists (extraY p')|done|done|done|].
  split; [nia|done].
Qed.

(** ... and exists for every item. *)
Lemma atPos_exists ix iy : 0 <= ix < X -> 0 <= iy < Y ->
  exists n p, 0 <= n < X * Y /\ atPos X Y w H n p /\ imgX p + extraX p = ix /\ imgY p + extraY p = iy.
Proof.
  intros Hx Hy. pose proof (w_pos simd X Y xMask w H parameters sizes) as (Hw & HH & _).
  pose proof (Z.mod_pos_bound ix w ltac:(lia)) as Bx. pose proof (Z.mod_pos_bound iy H ltac:(lia)) as By.
  pose proof (Z.mod_eq ix w ltac:(lia)) as Mx. pose proof (Z.mod_eq iy H ltac:(lia)) as My.
  assert (0 <= ix / w /\ 0 <= iy / H) as [Qx Qy] by (split; apply Z.div_pos; lia).
  set (p := mkImageState (w * (ix / w)) (H * (iy / H)) (ix mod w) (iy mod H)).
  set (n := X * imgY p + imgX p * stripRows Y H (imgY p) + extraY p * w + extraX p).
  assert (atPos X Y w H n p) as Hp.
  { unfold atPos, n, p. cbn [imgX imgY extraX extraY]. unfold stripRows. split_and!; try lia; try nia; apply Z.divide_factor_l. }
  exists n, p. split; [|split; [done|]].
  - split; [|by apply (atPos_tile simd X Y xMask w H parameters sizes n p)].
    destruct Hp as (_ & _ & Rx & Ry & Rex & Rey & _). unfold n. assert (0 <= imgX p * stripRows Y H (imgY p)) by nia. nia.
  - unfold p. cbn [imgX imgY extraX extraY]. lia.
Qed.
End positions.

Lemma land_mask_divide x k : 0 <= k -> Z.land x (2 ^ k - 1) = 0 -> (2 ^ k | x).
Proof. intros Hk H. rewrite land_low_ones in H by done. apply Z.mod_divide; [lia|done]. Qed.

(** What the layout needs of the group. *)
Lemma compatible_sizes lx ly lz order simd : isCompatibleWithLayoutForImages [lx; ly; lz] order simd = true ->
  ((if decide (simd = 8) then 2 else 4) | lx) /\ (4 | ly) /\ lz = 1.
Proof.
  unfold isCompatibleWithLayoutForImages. destruct order as [|d0 [|d1 rest]]; try done. intros Hc.
  apply andb_prop in Hc as [Hc Hz%bool_decide_eq_true_1]. apply andb_prop in Hc as [Hc Hy%bool_decide_eq_true_1].
  apply andb_prop in Hc as [_ Hx%bool_decide_eq_true_1]. split; [|split; [by apply (land_mask_divide ly 2)|done]].
  destruct (decide (simd = 8)); [by apply (land_mask_divide lx 1)|by apply (land_mask_divide lx 2)].
Qed.

(** The number of rows of the group that a strip of tiles has. *)
Definition imageStrip (simd ly : Z) : Z := if decide (simd = 32 /\ ly <> 4) then 8 else 4.

(** The [n]-th lane runs the item at a position of the layout. *)
Definition imageLane (simd lx ly : Z) (buffer : list Z) (n : nat) : Prop :=
  exists p, atPos lx ly (if decide (simd = 8) then 2 else 4) (imageStrip simd ly) (Z.of_nat n) p /\
    wordAt simd buffer n 0 = Some (imgX p + extraX p) /\ wordAt simd buffer n 1 = Some (imgY p + extraY p) /\ wordAt simd buffer n 2 = Some 0.

Lemma image_parameters simd ly : simd ∈ [8; 16; 32] ->
  let w := if decide (simd = 8) then 2 else 4 in
  let xMask := if decide (simd = 8) then 1 else 3 in
  let H := imageStrip simd ly in
  (simd = 8 /\ w = 2 /\ H = 4 /\ xMask = 1) \/ (simd = 16 /\ w = 4 /\ H = 4 /\ xMask = 3) \/
  (simd = 32 /\ w = 4 /\ H = 8 /\ xMask = 3 /\ ly <> 4) \/ (simd = 32 /\ w = 4 /\ H = 4 /\ xMask = 3 /\ ly = 4).
Proof.
  intros Hsimd w xMask H. unfold w, xMask, H, imageStrip.
  repeat (apply elem_of_cons in Hsimd as [->|Hsimd]; [repeat case_decide; lia|]). by apply elem_of_nil in Hsimd.
Qed.

Lemma image_numGrfs simd lx ly : simd ∈ [8; 16; 32] -> 1 <= lx -> 1 <= ly -> lx * ly <= 2 ^ 13 ->
  (lx * ly * 1 + (simd - 1)) / simd = getThreadsPerWG simd (groupSize [lx; ly; 1]).
Proof.
  intros Hsimd Hx Hy Hg. assert (1 <= lx * ly) by nia.
  assert (groupSize [lx; ly; 1] = lx * ly) as -> by (unfold groupSize; simpl; ring).
  rewrite threadsPerWG_ceil by (done || lia). f_equal. lia.
Qed.

(** The image layout fills the payload. *)
Lemma image_payload simd lx ly buffer : simd ∈ [8; 16; 32] -> 1 <= lx -> 1 <= ly -> lx * ly <= 2 ^ 13 ->
  ((if decide (simd = 8) then 2 else 4) | lx) -> (4 | ly) -> length buffer = payloadWords simd [lx; ly; 1] ->
  exists buffer', generateLocalIDsWithLayoutForImages buffer [lx; ly; 1] simd = Some buffer' /\ length buffer' = length buffer /\
    forall n, Z.of_nat n < lx * ly -> imageLane simd lx ly buffer' n.
Proof.
  intros Hsimd Hx Hy Hg Hdx Hdy Hlen. pose proof (image_parameters simd ly Hsimd) as Hpar. cbv zeta in Hpar.
  assert (groupSize [lx; ly; 1] = lx * ly) as Eg by (unfold groupSize; simpl; ring). assert (1 <= lx * ly) as Hg1 by nia.
  pose proof (threadsPerWG_bounds simd (lx * ly) Hsimd ltac:(lia)) as Ht. cbv zeta in Ht.
  assert (lx <= 2 ^ 13 /\ ly <= 2 ^ 13) as [Lx Ly] by nia.
  unfold generateLocalIDsWithLayoutForImages. cbn [lookup list_lookup mbind option_bind].
  rewrite image_numGrfs, Eg by done.
  assert ((if decide (simd = 8 \/ ly = 4) then 4 else (if decide (simd = 32) then 32 else 16) / (if decide (simd = 8) then 2 else 4)) = imageStrip simd ly) as ->.
  { unfold imageStrip. clear - Hsimd. repeat (apply elem_of_cons in Hsimd as [->|Hsimd]; [repeat case_decide; try done; lia|]).
    by apply elem_of_nil in Hsimd. }
  assert ((if decide (simd = 32) then 32 else 16) = Z.of_nat (rowWords simd)) as -> by (unfold rowWords; by destruct (decide (simd = 32))).
  set (T := Z.to_nat (getThreadsPerWG simd (lx * ly))).
  set (w := if decide (simd = 8) then 2 else 4) in *. set (xMask := if decide (simd = 8) then 1 else 3) in *.
  set (H := imageStrip simd ly) in *.
  assert (1 <= lx <= 2 ^ 13 /\ 1 <= ly <= 2 ^ 13 /\ (w | lx) /\ (4 | ly)) as Hsz by done.
  pose proof (w_pos _ lx _ _ _ _ Hpar Hsz) as Hpos.
  assert (exists m, simd = Z.of_nat m) as [m Em] by (exists (Z.to_nat simd); lia).
  rewrite Em in Hpar. assert (length buffer = (3 * T * rowWords simd)%nat) as Hlen2 by (rewrite Hlen, payload_words, Eg by (rewrite ?Eg; first [done|lia]); done).
  assert ((m <= rowWords simd)%nat /\ Z.of_nat (3 * T * rowWords simd) < 2 ^ 16) as [Hrow Hoff].
  { unfold T, rowWords. clear - Hsimd Em Ht Hg. set (t := getThreadsPerWG simd (lx * ly)) in *. clearbody t.
    repeat (apply elem_of_cons in Hsimd as [->|Hsimd]; [simpl; lia|]). by apply elem_of_nil in Hsimd. }
  destruct (imageGrfs_spec m lx ly xMask w H Hpar Hsz (3 * T) (rowWords simd) Hrow T 0%nat 0 0 buffer) as (b & E & L & Hw & _);
    [lia|done|done|by left|].
  change (Z.of_nat (3 * 0 * rowWords simd)) with 0 in E. rewrite <- Em in E. rewrite E. exists b. split; [done|]. split; [by rewrite L|].
  intros n Hn. unfold imageLane, wordAt. fold w H. rewrite Em, Nat2Z.id, <- Em.
  pose proof (Nat.div_mod_eq n m) as Hdm. pose proof (Nat.mod_upper_bound n m ltac:(lia)) as Hm.
  assert (n / m < T)%nat as Hq by (apply Nat.Div0.div_lt_upper_bound; lia).
  assert (n / m * m + n mod m = n)%nat as En by lia.
  specialize (Hw (n / m)%nat (n mod m)%nat ltac:(lia) Hm). unfold laneWritten in Hw. rewrite En in Hw. exact (Hw Hn).
Qed.

(** for a kernel that uses only images and whose group fits the
    layout, the lanes are numbered tile by tile (each tile [xDelta] items wide
    and a strip high), inside the reserved payload, and every work item of the
    group is given to exactly one of the first lanes. *)
Theorem image_ids_each_once {V8 V16 : Type} `{Intrinsics V8} `{Intrinsics V16} supportsAVX2 simd lx ly lz order buffer :
  let lws := [lx; ly; lz] in
  simd ∈ [8; 16; 32] -> 1 <= lx -> 1 <= ly -> groupSize lws <= 2 ^ 13 -> length buffer = payloadWords simd lws ->
  isCompatibleWithLayoutForImages lws order simd = true ->
  exists buffer', generateLocalIDs (V8 := V8) (V16 := V16) supportsAVX2 buffer simd lws order true = Some buffer' /\
    length buffer' = length buffer /\ (forall n, Z.of_nat n < lx * ly -> imageLane simd lx ly buffer' n) /\ eachIdOnce simd lws buffer'.
Proof.
  intros lws Hsimd Hx Hy Hg Hlen Hc. destruct (compatible_sizes lx ly lz order simd Hc) as (Hdx & Hdy & ->).
  assert (groupSize lws = lx * ly) as Eg by (unfold groupSize, lws; simpl; ring). rewrite Eg in Hg.
  destruct (image_payload simd lx ly buffer Hsimd Hx Hy Hg Hdx Hdy Hlen) as (b & E & L & Hw). exists b.
  split; [unfold generateLocalIDs; cbn [lookup list_lookup lws mbind option_bind andb]; fold lws; rewrite Hc; exact E|].
  split; [done|]. split; [done|]. intros id Hid. rewrite Eg.
  pose proof (image_parameters simd ly Hsimd) as Hpar. cbv zeta in Hpar.
  assert (lx <= 2 ^ 13 /\ ly <= 2 ^ 13) as [Lx Ly] by nia.
  pose proof (Hid 0%nat ltac:(lia)) as H0'. pose proof (Hid 1%nat ltac:(lia)) as H1'. pose proof (Hid 2%nat ltac:(lia)) as H2'.
  unfold lws in H0', H1', H2'. cbn [lookup_total list_lookup_total] in H0', H1', H2'.
  assert (1 <= lx <= 2 ^ 13 /\ 1 <= ly <= 2 ^ 13 /\ ((if decide (simd = 8) then 2 else 4) | lx) /\ (4 | ly)) as Hsz by done.
  destruct (atPos_exists simd lx ly _ _ _ Hpar Hsz (id 0%nat) (id 1%nat) H0' H1') as (n & p & Hn & Hp & Ex & Ey).
  exists (Z.to_nat n). split.
  - rewrite Z2Nat.id by lia. split; [lia|]. intros d Hd.
    destruct (Hw (Z.to_nat n)) as (p' & Hp' & W0 & W1 & W2); [lia|]. rewrite Z2Nat.id in Hp' by lia.
    assert (p' = p) as -> by (eapply (atPos_inj simd lx ly); eauto).
    destruct d as [|[|[|d]]]; [by rewrite W0, Ex|by rewrite W1, Ey|rewrite W2; f_equal; lia|lia].
  - intros n' [Hn' Hd']. destruct (Hw n' Hn') as (p' & Hp' & W0 & W1 & W2).
    pose proof (Hd' 0%nat ltac:(lia)) as D0. pose proof (Hd' 1%nat ltac:(lia)) as D1. rewrite W0 in D0. rewrite W1 in D1.
    destruct (atPos_words simd lx ly _ _ _ Hpar Hsz _ _ _ _ Hp Hp') as [En _]; [congruence|congruence|]. lia.
Qed.

(** ** Examples *)

(** Vectors as functions from the lane, with the effect of the instructions
    on every lane. *)
Definition laneVectors (n : nat) : Intrinsics (nat -> Z) := {|
  lane v i := w16 (v i);
  mm_set1 a _ := a;
  mm_load l i := default 0 (l !! i);
  mm_add a b i := w16 (a i) + w16 (b i);
  mm_sub a b i := w16 (a i) - w16 (b i);
  mm_xor a b i := Z.lxor (w16 (a i)) (w16 (b i));
  mm_cmplt a b i := if decide (s16 (w16 (a i)) < s16 (w16 (b i))) then 65535 else 0;
  mm_cmpgt a b i := if decide (s16 (w16 (b i)) < s16 (w16 (a i))) then 65535 else 0;
  mm_blendv a b m i := if decide (w16 (m i) = 65535) then b i else a i;
  mm_test_all_zeros v m := forallb (fun i => bool_decide (Z.land (w16 (v i)) (w16 (m i)) = 0)) (seq 0 n) |}.

Lemma lxor_range w x y : uint w x -> uint w y -> uint w (Z.lxor x y).
Proof.
  intros Hx Hy. destruct (decide (0 <= w)) as [Hw|Hw]; [|unfold uint in *; rewrite Z.pow_neg_r in * by lia; lia].
  assert (Z.lxor x y = (Z.lxor x y) mod 2 ^ w) as ->; [|by apply Z.mod_pos_bound; lia].
  rewrite <- Z.land_ones by lia. apply Z.bits_inj'. intros i Hi. rewrite Z.land_spec, Z.lxor_spec. destruct (decide (i < w)).
  - rewrite Z.ones_spec_low by lia. by rewrite andb_true_r.
  - rewrite !(testbit_high _ w) by word_lia. done.
Qed.

Lemma laneVectors_spec n : @IntrinsicsSpec n _ (laneVectors n).
Proof.
  split; cbn; intros; try done.
  - apply wrap_range. lia.
  - by apply wrap_small.
  - rewrite H0. by apply wrap_small.
  - apply wrap_small, lxor_range; apply wrap_range; lia.
  - case_decide; apply wrap_small; word_lia.
  - case_decide; apply wrap_small; word_lia.
  - by rewrite decide_True.
  - rewrite decide_False; [done|]. rewrite H0. done.
  - rewrite forallb_forall. split.
    + intros Ht i Hi. specialize (Ht i). rewrite bool_decide_eq_true in Ht. apply Ht. rewrite in_seq. lia.
    + intros Ht i Hi%in_seq. apply bool_decide_eq_true_2. apply Ht. lia.
Qed.

Definition exampleBuffer (simd : Z) (lws : list Z) : list Z := replicate (payloadWords simd lws) 7.

Lemma local_ids_enumerate_witness :
  exists buffer', generateLocalIDs (V8 := nat -> Z) (V16 := nat -> Z) (H := laneVectors 8) (H0 := laneVectors 16)
      true (exampleBuffer 16 [3; 5; 2]) 16 [3; 5; 2] [1; 0; 2]%nat true = Some buffer' /\
    eachIdOnce 16 [3; 5; 2] buffer'.
Proof.
  destruct (@local_ids_enumerate (nat -> Z) (nat -> Z) (laneVectors 8) (laneVectors_spec 8) (laneVectors 16) (laneVectors_spec 16)
    true 16 3 5 2 1 0 2 true (exampleBuffer 16 [3; 5; 2])) as (b & E & _ & _ & Hid).
  - eval_decide.
  - apply perm_swap.
  - lia.
  - lia.
  - lia.
  - eval_decide.
  - apply length_replicate.
  - vm_compute. exact eq_refl.
  - exists b. exact (conj E Hid).
Defined.

Lemma image_ids_each_once_witness :
  exists buffer', generateLocalIDs (V8 := nat -> Z) (V16 := nat -> Z) (H := laneVectors 8) (H0 := laneVectors 16)
      true (exampleBuffer 32 [12; 12; 1]) 32 [12; 12; 1] [0; 1; 2]%nat true = Some buffer' /\
    eachIdOnce 32 [12; 12; 1] buffer'.
Proof.
  destruct (@image_ids_each_once (nat -> Z) (nat -> Z) (laneVectors 8) (laneVectors 16)
    true 32 12 12 1 [0; 1; 2]%nat (exampleBuffer 32 [12; 12; 1])) as (b & E & _ & _ & Hid).
  - eval_decide.
  - lia.
  - lia.
  - eval_decide.
  - apply length_replicate.
  - vm_compute. exact eq_refl.
  - exists b. exact (conj E Hid).
Defined.

(** A size of 2^15 reads as a negative number in the comparison, so that the
    ids of a single thread never carry. *)
Example large_size_misread : s16 (2 ^ 15) = - 2 ^ 15.
Proof. reflexivity. Qed.
