(* ===== verification/TagAllocator.v ===== *)
(** * Tags shared with the GPU

    Model of [runtime/utilities/tag_allocator.h].  [getTag] and [returnTag] may
    be called by several threads, and only some of their steps are guarded: each
    operation of the lists is atomic (they are thread-safe [IDList]s, given here
    by the sequences they represent, see [IDList]), [refCount] is atomic, and
    [populateFreeTags] runs under [allocatorMutex].  A thread is therefore a
    program counter with its local variables, an [exec]ution a sequence of
    events, each one atomic step of one thread; [canBeReleased], which looks at
    what the GPU has written, is an argument of the step.  The memory manager is
    a parameter, the allocation it returns for the [k]-th request. *)

From S2P Require Import Prelude.
From S2P Require Import AlignedMemory.

Record GraphicsAllocation := mkAlloc { underlyingBuffer : Z; allocationGpuAddress : Z; underlyingBufferSize : Z }.
Record TagNode := mkTagNode { tagForCpuAccess : Z; gpuAddress : Z; gfxAllocation : nat; refCount : nat }.

(** What a thread does next, in the order of the code: [getTag] with
    [releaseDeferredTags] and [populateFreeTags], then [returnTag]. *)
Inductive Thread :=
  | Idle
  | CheckFree | DetachDeferred | Sorting (currentNode pendingFreeTags pendingDeferredTags : list nat)
  | SpliceFree (pendingFreeTags pendingDeferredTags : list nat) | SpliceDeferred (pendingDeferredTags : list nat)
  | RemoveFront | LockAndPopulate | PushPopulated (newNodes : list nat) | RemoveFrontLocked | Unlock (node : option nat)
  | PushUsed (node : nat) | IncRefCount (node : nat) | Initialize (node : nat)
  | DecRefCount (node : nat) | CheckReleased (node : nat)
  | RemoveUsed (node : nat) (released : bool) | PushFree (node : nat) | PushDeferred (node : nat)
  | NullNode.

Record State := mkState {
  nodes : list TagNode; freeTags : list nat; usedTags : list nat; deferredTags : list nat;
  gfxAllocations : list GraphicsAllocation; allocatorMutex : option nat;
  threads : list Thread;
  held : list nat  (** the references that callers hold, one entry each *) }.

Inductive Event :=
  | GetTag (t : nat)
  | ReturnTag (t node : nat)
  | IncRef (node : nat)
  | Run (t : nat) (canBeReleased : bool).

Section allocator.
Context (allocateGraphicsMemory : nat -> GraphicsAllocation) (sizeofTag tagCount tagAlignment : Z).

Definition tagSize : Z := alignUp 64 sizeofTag tagAlignment.
Definition allocationSizeRequired : Z := tagCount ⊠ tagSize.

Fixpoint newNodes (count : nat) (start gpuBase i : Z) (k : nat) : list TagNode :=
  match count with
  | O => []
  | S count => mkTagNode start (gpuBase ⊞ i ⊠ tagSize) k 0 :: newNodes count (start ⊞ tagSize) gpuBase (i + 1) k
  end.

(** The nodes that [populateFreeTags] makes for an allocation. *)
Definition nodesOf (k : nat) (a : GraphicsAllocation) : list TagNode :=
  newNodes (Z.to_nat (underlyingBufferSize a / tagSize)) (underlyingBuffer a) (allocationGpuAddress a) 0 k.

Definition setThread (t : nat) (th : Thread) (s : State) : State :=
  mkState (nodes s) (freeTags s) (usedTags s) (deferredTags s) (gfxAllocations s) (allocatorMutex s) (<[t := th]> (threads s)) (held s).
Definition setFree (l : list nat) (s : State) : State :=
  mkState (nodes s) l (usedTags s) (deferredTags s) (gfxAllocations s) (allocatorMutex s) (threads s) (held s).
Definition setUsed (l : list nat) (s : State) : State :=
  mkState (nodes s) (freeTags s) l (deferredTags s) (gfxAllocations s) (allocatorMutex s) (threads s) (held s).
Definition setDeferred (l : list nat) (s : State) : State :=
  mkState (nodes s) (freeTags s) (usedTags s) l (gfxAllocations s) (allocatorMutex s) (threads s) (held s).
Definition setMutex (m : option nat) (s : State) : State :=
  mkState (nodes s) (freeTags s) (usedTags s) (deferredTags s) (gfxAllocations s) m (threads s) (held s).
Definition setHeld (l : list nat) (s : State) : State :=
  mkState (nodes s) (freeTags s) (usedTags s) (deferredTags s) (gfxAllocations s) (allocatorMutex s) (threads s) l.
Definition setRefCount (n c : nat) (s : State) : State :=
  mkState (alter (fun d => mkTagNode (tagForCpuAccess d) (gpuAddress d) (gfxAllocation d) c) n (nodes s))
    (freeTags s) (usedTags s) (deferredTags s) (gfxAllocations s) (allocatorMutex s) (threads s) (held s).

(** The part of [populateFreeTags] up to the loop: the allocation and the array
    of new nodes, whose numbers are returned. *)
Definition populate (s : State) : State * list nat :=
  let k := length (gfxAllocations s) in
  let a := allocateGraphicsMemory k in
  let new := nodesOf k a in
  (mkState (nodes s ++ new) (freeTags s) (usedTags s) (deferredTags s) (gfxAllocations s ++ [a]) (allocatorMutex s) (threads s) (held s),
   seq (length (nodes s)) (length new)).

(** [removeOne] of a node that is in the list. *)
Definition removeOne (n : nat) (l : list nat) : option (list nat) :=
  '(i, _) ← list_find (fun x => x = n) l; Some (delete i l).

(** One step of a thread that is inside a call. *)
Definition step (t : nat) (canBeReleased : bool) (s : State) : option State :=
  th ← threads s !! t;
  match th with
  | Idle => None
  | CheckFree => Some (setThread t (match freeTags s with [] => DetachDeferred | _ => RemoveFront end) s)
  | DetachDeferred => Some (setThread t (Sorting (deferredTags s) [] []) (setDeferred [] s))
  | Sorting (n :: rest) pf pd => Some (setThread t (if canBeReleased then Sorting rest (n :: pf) pd else Sorting rest pf (n :: pd)) s)
  | Sorting [] pf pd => Some (setThread t (SpliceFree pf pd) s)
  | SpliceFree pf pd => Some (setThread t (SpliceDeferred pd) (setFree (freeTags s ++ pf) s))
  | SpliceDeferred pd => Some (setThread t RemoveFront (setDeferred (deferredTags s ++ pd) s))
  | RemoveFront =>
      match freeTags s with
      | n :: l => Some (setThread t (PushUsed n) (setFree l s))
      | [] => Some (setThread t LockAndPopulate s)
      end
  | LockAndPopulate =>
      match allocatorMutex s with
      | Some _ => None
      | None => let '(s, new) := populate (setMutex (Some t) s) in Some (setThread t (PushPopulated new) s)
      end
  | PushPopulated (n :: rest) => Some (setThread t (PushPopulated rest) (setFree (freeTags s ++ [n]) s))
  | PushPopulated [] => Some (setThread t RemoveFrontLocked s)
  | RemoveFrontLocked =>
      match freeTags s with
      | n :: l => Some (setThread t (Unlock (Some n)) (setFree l s))
      | [] => Some (setThread t (Unlock None) s)
      end
  | Unlock node => Some (setThread t (match node with Some n => PushUsed n | None => NullNode end) (setMutex None s))
  | PushUsed n => Some (setThread t (IncRefCount n) (setUsed (n :: usedTags s) s))
  | IncRefCount n => d ← nodes s !! n; Some (setThread t (Initialize n) (setRefCount n (S (refCount d)) s))
  | Initialize n => Some (setThread t Idle (setHeld (n :: held s) s))
  | DecRefCount n =>
      d ← nodes s !! n;
      let s := setRefCount n (refCount d - 1) s in
      Some (setThread t (if decide (refCount d = 1%nat) then CheckReleased n else Idle) s)
  | CheckReleased n => Some (setThread t (RemoveUsed n canBeReleased) s)
  | RemoveUsed n released =>
      l ← removeOne n (usedTags s);
      Some (setThread t (if released then PushFree n else PushDeferred n) (setUsed l s))
  | PushFree n => Some (setThread t Idle (setFree (n :: freeTags s) s))
  | PushDeferred n => Some (setThread t Idle (setDeferred (n :: deferredTags s) s))
  | NullNode => None
  end.

(** Calls begin on idle threads; a caller returns a reference that it holds,
    and may add one to a node it holds. *)
Definition exec (e : Event) (s : State) : option State :=
  match e with
  | GetTag t => match threads s !! t with Some Idle => Some (setThread t CheckFree s) | _ => None end
  | ReturnTag t n =>
      match threads s !! t with
      | Some Idle => l ← removeOne n (held s); Some (setThread t (DecRefCount n) (setHeld l s))
      | _ => None
      end
  | IncRef n =>
      if decide (n ∈ held s) then d ← nodes s !! n; Some (setHeld (n :: held s) (setRefCount n (S (refCount d)) s)) else None
  | Run t canBeReleased => step t canBeReleased s
  end.

Fixpoint execAll (es : list Event) (s : State) : option State :=
  match es with
  | [] => Some s
  | e :: es => s ← exec e s; execAll es s
  end.

(** The constructor populates the list of free tags. *)
Definition newTagAllocator (threadCount : nat) : State :=
  let '(s, new) := populate (mkState [] [] [] [] [] None (replicate threadCount Idle) []) in setFree new s.

(** The allocations that are freed, and what is left. *)
Definition cleanUpResources (s : State) : list GraphicsAllocation * State :=
  (gfxAllocations s, mkState [] (freeTags s) (usedTags s) (deferredTags s) [] (allocatorMutex s) (threads s) (held s)).
End allocator.

(** ** Counting places

    A node is counted in every list and in the local variables of every thread,
    so that one step moves it from one place to another. *)

Fixpoint cnt (n : nat) (l : list nat) : nat :=
  match l with [] => 0 | x :: l => (if decide (x = n) then 1 else 0) + cnt n l end.

Lemma cnt_app n l k : cnt n (l ++ k) = (cnt n l + cnt n k)%nat.
Proof. induction l as [|x l IH]; simpl; lia. Qed.

Lemma cnt_elem n l : (0 < cnt n l)%nat <-> n ∈ l.
Proof.
  induction l as [|x l IH]; simpl; [split; [lia|intros Hc; by apply elem_of_nil in Hc]|]. rewrite elem_of_cons.
  case_decide as Hx; [subst; split; [by left|lia]|]. rewrite Nat.add_0_l, IH. split; [by right|by intros [->|]].
Qed.

Lemma cnt_seq n a b : cnt n (seq a b) = if decide (a <= n < a + b)%nat then 1%nat else 0%nat.
Proof. revert a. induction b as [|b IH]; intros a; simpl; [by rewrite decide_False by lia|]. rewrite IH. repeat case_decide; lia. Qed.

Lemma removeOne_cnt m l : m ∈ l -> exists l', removeOne m l = Some l' /\ forall n, cnt n l = (cnt n l' + if decide (m = n) then 1 else 0)%nat.
Proof.
  intros Hm. unfold removeOne. destruct (list_find (fun x => x = m) l) as [[i x]|] eqn:E.
  - apply list_find_Some in E as (Hi & -> & _). exists (delete i l). split; [done|]. clear Hm. revert i Hi.
    induction l as [|y l IH]; intros i Hi; [done|]. destruct i as [|i]; simpl in *; intros n; [simplify_eq; lia|].
    rewrite (IH i Hi n). lia.
  - apply list_find_None in E. rewrite Forall_forall in E. by destruct (E m Hm).
Qed.

(** Nodes in the local variables of a thread, ... *)
Definition inflight (th : Thread) : list nat :=
  match th with
  | Sorting c pf pd => c ++ pf ++ pd
  | SpliceFree pf pd => pf ++ pd
  | SpliceDeferred pd => pd
  | PushPopulated l => l
  | Unlock (Some n) | PushUsed n | PushFree n | PushDeferred n => [n]
  | _ => []
  end.

(** ... nodes of the used list that a thread has to itself, ... *)
Definition claimed (th : Thread) : list nat :=
  match th with IncRefCount n | CheckReleased n | RemoveUsed n _ => [n] | _ => [] end.

(** ... and references that a call holds. *)
Definition refsOf (th : Thread) : list nat :=
  match th with Initialize n | DecRefCount n => [n] | _ => [] end.

Fixpoint total (f : Thread -> list nat) (n : nat) (ths : list Thread) : nat :=
  match ths with [] => 0 | th :: ths => cnt n (f th) + total f n ths end.

Lemma total_update f n t th th' ths : ths !! t = Some th ->
  (total f n (<[t := th']> ths) + cnt n (f th))%nat = (total f n ths + cnt n (f th'))%nat.
Proof.
  revert t. induction ths as [|x ths IH]; intros t Ht; [done|].
  destruct t as [|t]; simpl in *; [simplify_eq; lia|]. specialize (IH t Ht). lia.
Qed.

Lemma total_elem f n t th ths : ths !! t = Some th -> (cnt n (f th) <= total f n ths)%nat.
Proof.
  revert t. induction ths as [|x ths IH]; intros t Ht; [done|].
  destruct t as [|t]; simpl in *; [simplify_eq; lia|]. specialize (IH t Ht). lia.
Qed.

Lemma total_replicate f n k : f Idle = [] -> total f n (replicate k Idle) = 0%nat.
Proof. intros Hf. induction k as [|k IH]; simpl; [done|]. by rewrite Hf. Qed.

Definition refCountOf (s : State) (n : nat) : nat := default 0%nat (refCount <$> nodes s !! n).

(** Threads between taking and giving back the mutex. *)
Definition locking (th : Thread) : bool :=
  match th with PushPopulated _ | RemoveFrontLocked | Unlock _ => true | _ => false end.

Record inv (s : State) : Prop := {
  inv_place : forall n, (cnt n (freeTags s) + cnt n (usedTags s) + cnt n (deferredTags s) + total inflight n (threads s))%nat =
    if decide (n < length (nodes s))%nat then 1%nat else 0%nat;
  inv_refs : forall n, refCountOf s n = (cnt n (held s) + total refsOf n (threads s))%nat;
  inv_used : forall n, cnt n (usedTags s) = ((if decide (refCountOf s n = 0%nat) then 0 else 1) + total claimed n (threads s))%nat;
  inv_mutex : forall t th, threads s !! t = Some th -> locking th = true <-> allocatorMutex s = Some t;
  inv_owner : forall t, allocatorMutex s = Some t -> is_Some (threads s !! t) }.

Lemma refCountOf_set n m c s d : nodes s !! m = Some d -> refCountOf (setRefCount m c s) n = if decide (n = m) then c else refCountOf s n.
Proof.
  intros Hd. unfold refCountOf, setRefCount. cbn [nodes]. destruct (decide (n = m)) as [->|Hne].
  - by rewrite list_lookup_alter_eq, Hd.
  - by rewrite list_lookup_alter_ne.
Qed.

(** A step that touches neither the nodes nor the mutex. *)
Lemma inv_move s s' t th th' :
  inv s -> threads s !! t = Some th -> threads s' = <[t := th']> (threads s) -> nodes s' = nodes s ->
  allocatorMutex s' = allocatorMutex s -> locking th' = locking th ->
  (forall n, (cnt n (freeTags s') + cnt n (usedTags s') + cnt n (deferredTags s') + cnt n (inflight th'))%nat =
             (cnt n (freeTags s) + cnt n (usedTags s) + cnt n (deferredTags s) + cnt n (inflight th))%nat) ->
  (forall n, (cnt n (held s') + cnt n (refsOf th'))%nat = (cnt n (held s) + cnt n (refsOf th))%nat) ->
  (forall n, (cnt n (usedTags s') + cnt n (claimed th))%nat = (cnt n (usedTags s) + cnt n (claimed th'))%nat) ->
  inv s'.
Proof.
  intros [I1 I2 I3 I4 I5] Ht Eth En Em El H1 H2 H3. split.
  - intros n. rewrite Eth, En. pose proof (total_update inflight n t th th' _ Ht). specialize (I1 n). specialize (H1 n). lia.
  - intros n. rewrite Eth. unfold refCountOf in *. rewrite En.
    pose proof (total_update refsOf n t th th' _ Ht). specialize (I2 n). specialize (H2 n). lia.
  - intros n. rewrite Eth. unfold refCountOf in *. rewrite En.
    pose proof (total_update claimed n t th th' _ Ht). specialize (I3 n). specialize (H3 n). lia.
  - intros u x. rewrite Eth, Em. intros Hu. destruct (decide (u = t)) as [->|Hne].
    + rewrite list_lookup_insert_eq in Hu by (by eapply lookup_lt_Some). simplify_eq. rewrite El. by apply I4.
    + rewrite list_lookup_insert_ne in Hu by done. by apply I4.
  - intros u. rewrite Em, Eth. intros Hu. apply I5 in Hu as [x Hx]. apply lookup_lt_is_Some_2.
    rewrite length_insert. by eapply lookup_lt_Some.
Qed.

Lemma removeOne_some m l l' : removeOne m l = Some l' ->
  m ∈ l /\ forall n, cnt n l = (cnt n l' + if decide (m = n) then 1 else 0)%nat.
Proof.
  intros E. assert (m ∈ l) as Hm.
  { unfold removeOne in E. destruct (list_find (fun x => x = m) l) as [[i x]|] eqn:Ef; [|done].
    apply list_find_Some in Ef as (Hi & -> & _). by eapply list_elem_of_lookup_2. }
  split; [done|]. destruct (removeOne_cnt m l Hm) as (l2 & E2 & Hc). rewrite E in E2. by simplify_eq.
Qed.

(** A step that only moves nodes, the lists being computed. *)
Ltac moving Hinv Ht :=
  eapply (inv_move _ _ _ _ _ Hinv Ht); [reflexivity|reflexivity|reflexivity|try reflexivity|..];
  cbn [inflight refsOf claimed freeTags usedTags deferredTags held threads setThread setFree setUsed setDeferred setHeld setMutex locking];
  try (intros ?; rewrite ?cnt_app; cbn [cnt]; repeat case_decide; lia).

(** Only a thread outside of the mutex changes its program counter. *)
Lemma mutex_unchanged s t th th' : inv s -> threads s !! t = Some th -> locking th' = locking th ->
  (forall u x, <[t := th']> (threads s) !! u = Some x -> locking x = true <-> allocatorMutex s = Some u) /\
  (forall u, allocatorMutex s = Some u -> is_Some (<[t := th']> (threads s) !! u)).
Proof.
  intros [_ _ _ I4 I5] Ht El. split.
  - intros u x Hu. destruct (decide (u = t)) as [->|Hne].
    + rewrite list_lookup_insert_eq in Hu by (by eapply lookup_lt_Some). simplify_eq. rewrite El. by apply I4.
    + rewrite list_lookup_insert_ne in Hu by done. by apply I4.
  - intros u Hu. apply I5 in Hu as [x Hx]. apply lookup_lt_is_Some_2. rewrite length_insert. by eapply lookup_lt_Some.
Qed.

Lemma refs_elem s n : inv s -> (0 < refCountOf s n)%nat <-> (n ∈ held s \/ exists t th, threads s !! t = Some th /\ n ∈ refsOf th).
Proof.
  intros [_ I2 _ _ _]. rewrite I2, <- cnt_elem. split.
  - intros H. destruct (decide (0 < cnt n (held s))%nat); [by left|right]. assert (0 < total refsOf n (threads s))%nat as Ht by lia.
    clear -Ht. induction (threads s) as [|th ths IH]; simpl in Ht; [lia|]. destruct (decide (0 < cnt n (refsOf th))%nat).
    + exists 0%nat, th. split; [done|]. by apply cnt_elem.
    + destruct IH as (t & th' & ? & ?); [lia|]. by exists (S t), th'.
  - intros [?|(t & th & Ht & Hn)]; [lia|]. apply cnt_elem in Hn. pose proof (total_elem refsOf n t th _ Ht). lia.
Qed.

Section allocator_invariant.
Context (allocateGraphicsMemory : nat -> GraphicsAllocation) (sizeofTag tagCount tagAlignment : Z).
Abbreviation stp := (step allocateGraphicsMemory sizeofTag tagAlignment).
Abbreviation exc := (exec allocateGraphicsMemory sizeofTag tagAlignment).

Lemma newNodes_refs count start gpuBase i k : Forall (fun d => refCount d = 0%nat) (newNodes sizeofTag tagAlignment count start gpuBase i k).
Proof. revert start i. induction count as [|count IH]; intros start i; constructor; [done|apply IH]. Qed.

(** The references of a node change with the holders. *)
Lemma inv_refcount s t th th' m c hl :
  inv s -> threads s !! t = Some th -> (m < length (nodes s))%nat -> locking th = false -> locking th' = false ->
  inflight th = [] -> inflight th' = [] ->
  (forall n, ((if decide (n = m) then c else refCountOf s n) + cnt n (held s) + cnt n (refsOf th))%nat =
    (refCountOf s n + cnt n hl + cnt n (refsOf th'))%nat) ->
  (forall n, ((if decide (refCountOf s n = 0%nat) then 0 else 1) + cnt n (claimed th))%nat =
    ((if decide ((if decide (n = m) then c else refCountOf s n) = 0%nat) then 0 else 1) + cnt n (claimed th'))%nat) ->
  inv (setThread t th' (setHeld hl (setRefCount m c s))).
Proof.
  intros Hinv Ht Hm L1 L2 F1 F2 H2 H3. pose proof Hinv as [I1 I2 I3 _ _].
  apply lookup_lt_is_Some_2 in Hm as [d Hd].
  assert (forall n, refCountOf (setThread t th' (setHeld hl (setRefCount m c s))) n = if decide (n = m) then c else refCountOf s n) as Er.
  { intros n. by apply (refCountOf_set n m c s d). }
  destruct (mutex_unchanged s t th th' Hinv Ht) as [M1 M2]; [congruence|]. split; try done.
  - intros n. cbn. rewrite length_alter. pose proof (total_update inflight n t th th' _ Ht). rewrite F1, F2 in *. simpl in *. specialize (I1 n). lia.
  - intros n. rewrite Er. cbn. pose proof (total_update refsOf n t th th' _ Ht). specialize (I2 n). specialize (H2 n). lia.
  - intros n. rewrite Er. cbn. pose proof (total_update claimed n t th th' _ Ht). specialize (I3 n). specialize (H3 n). lia.
Qed.

(** New nodes belong to the thread that populates. *)
Lemma inv_populate s t s1 new : inv s -> threads s !! t = Some LockAndPopulate -> allocatorMutex s = None ->
  populate allocateGraphicsMemory sizeofTag tagAlignment (setMutex (Some t) s) = (s1, new) ->
  inv (setThread t (PushPopulated new) s1).
Proof.
  intros Hinv Ht Hm E. pose proof Hinv as [I1 I2 I3 I4 I5]. unfold populate in E. simplify_eq. cbn [setMutex gfxAllocations].
  set (k := length (gfxAllocations s)). set (nn := nodesOf sizeofTag tagAlignment k (allocateGraphicsMemory k)).
  assert (forall l1 l2 l3 l4 l5 l6 l7 n, refCountOf (mkState (nodes s ++ nn) l1 l2 l3 l4 l5 l6 l7) n = refCountOf s n) as Er.
  { intros. unfold refCountOf. cbn [nodes]. destruct (decide (n < length (nodes s))%nat) as [Hlt|Hge].
    - by rewrite lookup_app_l.
    - rewrite lookup_app_r by lia. rewrite (lookup_ge_None_2 (nodes s)) by lia. cbn.
      destruct (nn !! (n - length (nodes s))%nat) as [d|] eqn:Hd; [|done]. cbn. unfold nn, nodesOf in Hd.
      by apply (Forall_lookup_1 _ _ _ _ (newNodes_refs _ _ _ _ _)) in Hd. }
  split.
  - intros n. cbn. rewrite length_app.
    pose proof (total_update inflight n t _ (PushPopulated (seq (length (nodes s)) (length nn))) _ Ht) as Hu.
    cbn [inflight cnt] in Hu. rewrite cnt_seq in Hu. specialize (I1 n). fold k nn. repeat case_decide; lia.
  - intros n. unfold setThread. rewrite Er. cbn. pose proof (total_update refsOf n t _ (PushPopulated (seq (length (nodes s)) (length nn))) _ Ht) as Hu.
    cbn [refsOf cnt] in Hu. specialize (I2 n). fold k nn. lia.
  - intros n. unfold setThread. rewrite Er. cbn. pose proof (total_update claimed n t _ (PushPopulated (seq (length (nodes s)) (length nn))) _ Ht) as Hu.
    cbn [claimed cnt] in Hu. specialize (I3 n). fold k nn. lia.
  - intros u x. cbn. intros Hu. destruct (decide (u = t)) as [->|Hne].
    + rewrite list_lookup_insert_eq in Hu by (by eapply lookup_lt_Some). simplify_eq. done.
    + rewrite list_lookup_insert_ne in Hu by done. pose proof (I4 u x Hu) as Hl. rewrite Hm in Hl. split; [intros H; by apply Hl in H|congruence].
  - intros u. cbn. intros [= <-]. apply lookup_lt_is_Some_2. rewrite length_insert. by eapply lookup_lt_Some.
Qed.

Lemma inv_unlock s t th' node : inv s -> threads s !! t = Some (Unlock node) -> locking th' = false ->
  inflight th' = inflight (Unlock node) -> claimed th' = [] -> refsOf th' = [] -> inv (setThread t th' (setMutex None s)).
Proof.
  intros Hinv Ht El E1 E2 E3. pose proof Hinv as [I1 I2 I3 I4 I5]. split.
  - intros n. cbn. pose proof (total_update inflight n t _ th' _ Ht) as Hu. rewrite E1 in Hu. specialize (I1 n). lia.
  - intros n. change (refCountOf _ n) with (refCountOf s n). cbn. pose proof (total_update refsOf n t _ th' _ Ht) as Hu. rewrite E3 in Hu. cbn [refsOf cnt] in Hu. specialize (I2 n). lia.
  - intros n. change (refCountOf _ n) with (refCountOf s n). cbn. pose proof (total_update claimed n t _ th' _ Ht) as Hu. rewrite E2 in Hu. cbn [claimed cnt] in Hu. specialize (I3 n). lia.
  - intros u x. cbn. intros Hu. split; [|done]. intros Hl. exfalso. destruct (decide (u = t)) as [->|Hne].
    + rewrite list_lookup_insert_eq in Hu by (by eapply lookup_lt_Some). simplify_eq. congruence.
    + rewrite list_lookup_insert_ne in Hu by done. apply (I4 u x Hu) in Hl. assert (allocatorMutex s = Some t) by (by apply (I4 t _ Ht)). congruence.
  - intros u. done.
Qed.

(** A thread that works on a node of the used list. *)
Lemma node_exists s n : inv s -> (0 < cnt n (usedTags s))%nat -> (n < length (nodes s))%nat.
Proof. intros [I1 _ _ _ _] H. specialize (I1 n). case_decide; [done|lia]. Qed.

Lemma claimed_used s t th n : inv s -> threads s !! t = Some th -> n ∈ claimed th ->
  cnt n (usedTags s) = 1%nat /\ refCountOf s n = 0%nat /\ total claimed n (threads s) = 1%nat.
Proof.
  intros [I1 _ I3 _ _] Ht Hn. apply cnt_elem in Hn. pose proof (total_elem claimed n t th _ Ht) as Hc.
  specialize (I1 n). specialize (I3 n). repeat case_decide; lia.
Qed.

Lemma refs_used s t th n : inv s -> threads s !! t = Some th -> n ∈ refsOf th ->
  cnt n (usedTags s) = 1%nat /\ (0 < refCountOf s n)%nat /\ total claimed n (threads s) = 0%nat.
Proof.
  intros [I1 I2 I3 _ _] Ht Hn. apply cnt_elem in Hn. pose proof (total_elem refsOf n t th _ Ht) as Hc.
  specialize (I1 n). specialize (I2 n). specialize (I3 n). repeat case_decide; lia.
Qed.

Lemma held_used s n : inv s -> n ∈ held s ->
  cnt n (usedTags s) = 1%nat /\ (0 < refCountOf s n)%nat /\ total claimed n (threads s) = 0%nat.
Proof.
  intros [I1 I2 I3 _ _] Hn. apply cnt_elem in Hn. specialize (I1 n). specialize (I2 n). specialize (I3 n). repeat case_decide; lia.
Qed.

Lemma refCountOf_lookup s n d : nodes s !! n = Some d -> refCountOf s n = refCount d.
Proof. intros Hd. unfold refCountOf. by rewrite Hd. Qed.

Lemma inv_step t ready s s' : inv s -> stp t ready s = Some s' -> inv s'.
Proof.
  intros Hinv E. unfold step in E. destruct (threads s !! t) as [th|] eqn:Ht; [|done]. cbn [mbind option_bind] in E.
  destruct th as [| | |[|n rest] pf pd|pf pd|pd| | |[|n rest]| |node|n|n|n|n|n|n released|n|n|]; simplify_eq.
  - destruct (freeTags s) eqn:Ef; moving Hinv Ht.
  - moving Hinv Ht.
  - moving Hinv Ht.
  - destruct ready; moving Hinv Ht.
  - moving Hinv Ht.
  - moving Hinv Ht.
  - destruct (freeTags s) as [|n l] eqn:Ef; simplify_eq; moving Hinv Ht.
    intros n'. rewrite Ef. cbn [cnt]. lia.
  - destruct (allocatorMutex s) eqn:Em; [done|]. destruct (populate _ _ _ _) as [s1 new] eqn:Ep. simplify_eq. by eapply inv_populate.
  - moving Hinv Ht.
  - moving Hinv Ht.
  - destruct (freeTags s) as [|n l] eqn:Ef; simplify_eq; moving Hinv Ht.
    intros n'. rewrite Ef. cbn [cnt]. lia.
  - apply (inv_unlock s t _ node); [done|done|by destruct node..].
  - moving Hinv Ht.
  - destruct (nodes s !! n) as [d|] eqn:Hd; [|done]. cbn [mbind option_bind] in E. simplify_eq.
    destruct (claimed_used s t _ n Hinv Ht (list_elem_of_here _ _)) as (Hu & Hr & _). rewrite (refCountOf_lookup _ _ _ Hd) in Hr.
    change (setRefCount n (S (refCount d)) s) with (setHeld (held s) (setRefCount n (S (refCount d)) s)).
    apply (inv_refcount s t (IncRefCount n)); try done; [by eapply lookup_lt_Some| |]; intros x; cbn [claimed refsOf cnt];
      repeat case_decide; subst; rewrite ?(refCountOf_lookup _ _ _ Hd) in *; lia.
  - moving Hinv Ht.
  - destruct (nodes s !! n) as [d|] eqn:Hd; [|done]. cbn [mbind option_bind] in E.
    destruct (refs_used s t _ n Hinv Ht (list_elem_of_here _ _)) as (Hu & Hr & _). rewrite (refCountOf_lookup _ _ _ Hd) in Hr. simplify_eq.
    change (setRefCount n (refCount d - 1) s) with (setHeld (held s) (setRefCount n (refCount d - 1) s)).
    destruct (decide (refCount d = 1%nat));
      (apply (inv_refcount s t (DecRefCount n)); try done; [by eapply lookup_lt_Some| |]; intros x; cbn [claimed refsOf cnt];
        repeat case_decide; subst; rewrite ?(refCountOf_lookup _ _ _ Hd) in *; lia).
  - moving Hinv Ht.
  - destruct (removeOne n (usedTags s)) as [l|] eqn:El; [|done]. cbn [mbind option_bind] in E. simplify_eq.
    apply removeOne_some in El as [_ El]. destruct released; moving Hinv Ht; intros x; rewrite El; cbn [cnt]; repeat case_decide; lia.
  - moving Hinv Ht.
  - moving Hinv Ht.
Qed.

Lemma inv_exec e s s' : inv s -> exc e s = Some s' -> inv s'.
Proof.
  intros Hinv E. destruct e as [t|t n|n|t ready]; cbn [exec] in E.
  - destruct (threads s !! t) as [[]|] eqn:Ht; simplify_eq. moving Hinv Ht.
  - destruct (threads s !! t) as [[]|] eqn:Ht; simplify_eq. destruct (removeOne n (held s)) as [l|] eqn:El; [|done]. cbn [mbind option_bind] in E.
    simplify_eq. apply removeOne_some in El as [_ El]. moving Hinv Ht. intros x. rewrite El. cbn [cnt]. lia.
  - destruct (decide (n ∈ held s)) as [Hn|]; [|done]. destruct (nodes s !! n) as [d|] eqn:Hd; [|done]. cbn [mbind option_bind] in E. simplify_eq.
    destruct (held_used s n Hinv Hn) as (Hu & Hr & Hc). pose proof Hinv as [I1 I2 I3 I4 I5].
    rewrite (refCountOf_lookup _ _ _ Hd) in Hr.
    assert (forall x, refCountOf (setHeld (n :: held s) (setRefCount n (S (refCount d)) s)) x = if decide (x = n) then S (refCount d) else refCountOf s x) as Er
      by (intros x; by apply (refCountOf_set x n _ s d)).
    split; [intros x; cbn; rewrite length_alter; apply I1| | |exact I4|exact I5].
    + intros x. rewrite Er. cbn. specialize (I2 x). repeat case_decide; subst; rewrite ?(refCountOf_lookup _ _ _ Hd) in *; lia.
    + intros x. rewrite Er. cbn. specialize (I3 x). repeat case_decide; subst; rewrite ?(refCountOf_lookup _ _ _ Hd) in *; lia.
  - by eapply inv_step.
Qed.

Lemma inv_execAll es s s' : inv s -> execAll allocateGraphicsMemory sizeofTag tagAlignment es s = Some s' -> inv s'.
Proof.
  revert s. induction es as [|e es IH]; intros s Hinv E; cbn [execAll] in E; [by simplify_eq|].
  destruct (exc e s) as [s1|] eqn:E1; [|done]. cbn [mbind option_bind] in E. eapply IH; [by eapply inv_exec|done].
Qed.

Lemma inv_new k : inv (newTagAllocator allocateGraphicsMemory sizeofTag tagAlignment k).
Proof.
  unfold newTagAllocator, populate. cbn [gfxAllocations length nodes app setFree].
  set (nn := nodesOf sizeofTag tagAlignment 0 (allocateGraphicsMemory 0%nat)).
  assert (forall l1 l2 l3 l4 l5 l6 l7 n, refCountOf (mkState nn l1 l2 l3 l4 l5 l6 l7) n = 0%nat) as Er.
  { intros. unfold refCountOf. cbn [nodes]. destruct (nn !! n) as [d|] eqn:Hd; [|done]. cbn. unfold nn, nodesOf in Hd.
    by apply (Forall_lookup_1 _ _ _ _ (newNodes_refs _ _ _ _ _)) in Hd. }
  split; unfold setFree; cbn.
  - intros n. rewrite cnt_seq, total_replicate by done. repeat case_decide; lia.
  - intros n. rewrite Er, total_replicate; done.
  - intros n. rewrite Er, total_replicate; done.
  - intros t th Ht. apply lookup_replicate in Ht as [-> _]. done.
  - intros t Ht. done.
Qed.
End allocator_invariant.

(** ** Progress *)

Section progress.
Context (allocateGraphicsMemory : nat -> GraphicsAllocation) (sizeofTag tagCount tagAlignment : Z).
Abbreviation stp := (step allocateGraphicsMemory sizeofTag tagAlignment).
Abbreviation exc := (exec allocateGraphicsMemory sizeofTag tagAlignment).
Abbreviation run := (execAll allocateGraphicsMemory sizeofTag tagAlignment).

Lemma used_node s n : inv s -> cnt n (usedTags s) = 1%nat -> n ∈ usedTags s /\ is_Some (nodes s !! n).
Proof.
  intros Hinv Hc. split; [apply cnt_elem; lia|]. apply lookup_lt_is_Some_2, (node_exists s n Hinv). lia.
Qed.

(** A thread in a call can take its next step, unless it waits for the mutex
    or has no node. *)
Lemma step_progress s t th ready : inv s -> threads s !! t = Some th -> th <> Idle -> th <> NullNode ->
  (th = LockAndPopulate -> allocatorMutex s = None) -> is_Some (stp t ready s).
Proof.
  intros Hinv Ht Hi Hn Hm. unfold step. rewrite Ht. cbn [mbind option_bind].
  destruct th as [| | |[|n rest] pf pd|pf pd|pd| | |[|n rest]| |node|n|n|n|n|n|n released|n|n|]; try done; try (by eexists).
  - destruct (freeTags s); by eexists.
  - rewrite (Hm eq_refl). destruct (populate _ _ _ _). by eexists.
  - destruct (freeTags s); by eexists.
  - destruct (claimed_used s t _ n Hinv Ht (list_elem_of_here _ _)) as (Hu & _ & _).
    destruct (used_node s n Hinv Hu) as [_ [d ->]]. by eexists.
  - destruct (refs_used s t _ n Hinv Ht (list_elem_of_here _ _)) as (Hu & _ & _).
    destruct (used_node s n Hinv Hu) as [_ [d ->]]. by eexists.
  - destruct (claimed_used s t _ n Hinv Ht (list_elem_of_here _ _)) as (Hu & _ & _).
    destruct (used_node s n Hinv Hu) as [Hin _]. destruct (removeOne_cnt n _ Hin) as (l & -> & _). by eexists.
Qed.

(** The owner of the mutex can move. *)
Lemma owner_progress s u ready : inv s -> allocatorMutex s = Some u -> is_Some (stp u ready s).
Proof.
  intros Hinv Hu. pose proof Hinv as [_ _ _ I4 I5]. destruct (I5 u Hu) as [th Hth]. assert (locking th = true) as Hl by (by apply (I4 u th Hth)).
  apply (step_progress s u th); [done|done|by intros ->..].
Qed.

(** ** Where the tags lie *)

Definition address (d : TagNode) : Z * Z * nat := (tagForCpuAccess d, gpuAddress d, gfxAllocation d).
Definition poolNodes (m : nat) : list TagNode :=
  mjoin ((fun k => nodesOf sizeofTag tagAlignment k (allocateGraphicsMemory k)) <$> seq 0 m).

Record layout (s : State) : Prop := {
  lay_allocations : gfxAllocations s = allocateGraphicsMemory <$> seq 0 (length (gfxAllocations s));
  lay_nodes : address <$> nodes s = address <$> poolNodes (length (gfxAllocations s)) }.

Lemma layout_same s s' : layout s -> gfxAllocations s' = gfxAllocations s -> address <$> nodes s' = address <$> nodes s -> layout s'.
Proof. intros [L1 L2] E1 E2. split; rewrite E1; [done|]. by rewrite E2. Qed.

Lemma address_setRefCount n c s : address <$> nodes (setRefCount n c s) = address <$> nodes s.
Proof.
  cbn. apply list_eq. intros i. rewrite !list_lookup_fmap. destruct (decide (i = n)) as [->|Hne].
  - rewrite list_lookup_alter_eq. by destruct (nodes s !! n).
  - by rewrite list_lookup_alter_ne.
Qed.

Lemma poolNodes_S m : poolNodes (S m) = poolNodes m ++ nodesOf sizeofTag tagAlignment m (allocateGraphicsMemory m).
Proof. unfold poolNodes. rewrite seq_S, fmap_app, join_app. simpl. by rewrite app_nil_r. Qed.

Lemma layout_populate s s1 new : layout s -> populate allocateGraphicsMemory sizeofTag tagAlignment s = (s1, new) -> layout s1.
Proof.
  intros [L1 L2] E. unfold populate in E. simplify_eq. split; cbn [gfxAllocations nodes].
  - rewrite length_app. cbn [length]. rewrite Nat.add_1_r, seq_S, fmap_app, <- L1. done.
  - rewrite length_app. cbn [length]. rewrite Nat.add_1_r, poolNodes_S, !fmap_app, L2. done.
Qed.

Lemma layout_exec e s s' : layout s -> exc e s = Some s' -> layout s'.
Proof.
  intros Hl E. destruct e as [t|t n|n|t ready]; cbn [exec] in E.
  - destruct (threads s !! t) as [[]|]; simplify_eq. by apply (layout_same s).
  - destruct (threads s !! t) as [[]|]; simplify_eq. destruct (removeOne n (held s)); [|done]. cbn [mbind option_bind] in E. simplify_eq. by apply (layout_same s).
  - destruct (decide (n ∈ held s)); [|done]. destruct (nodes s !! n) as [d|]; [|done]. cbn [mbind option_bind] in E. simplify_eq.
    apply (layout_same s); [done|done|]. apply (address_setRefCount n (S (refCount d)) s).
  - unfold step in E. destruct (threads s !! t) as [th|]; [|done]. cbn [mbind option_bind] in E.
    destruct th as [| | |[|n rest] pf pd|pf pd|pd| | |[|n rest]| |node|n|n|n|n|n|n released|n|n|]; simplify_eq;
      try (by apply (layout_same s)).
    + destruct (freeTags s); simplify_eq; by apply (layout_same s).
    + destruct (allocatorMutex s); [done|]. destruct (populate _ _ _ _) as [s1 new] eqn:Ep. simplify_eq.
      apply (layout_same s1); [|done|done]. by apply (layout_populate (setMutex (Some t) s) s1 new); [apply (layout_same s)|].
    + destruct (freeTags s); simplify_eq; by apply (layout_same s).
    + destruct (nodes s !! n) as [d|]; [|done]. cbn [mbind option_bind] in E. simplify_eq.
      apply (layout_same s); [done|done|]. apply (address_setRefCount n (S (refCount d)) s).
    + destruct (nodes s !! n) as [d|]; [|done]. cbn [mbind option_bind] in E. simplify_eq.
      apply (layout_same s); [done|done|]. apply (address_setRefCount n (refCount d - 1) s).
    + destruct (removeOne n (usedTags s)); [|done]. cbn [mbind option_bind] in E. simplify_eq. by apply (layout_same s).
Qed.

Lemma layout_execAll es s s' : layout s -> run es s = Some s' -> layout s'.
Proof.
  revert s. induction es as [|e es IH]; intros s Hl E; cbn [execAll] in E; [by simplify_eq|].
  destruct (exc e s) as [s1|] eqn:E1; [|done]. cbn [mbind option_bind] in E. eapply IH; [by eapply layout_exec|done].
Qed.

Lemma layout_new k : layout (newTagAllocator allocateGraphicsMemory sizeofTag tagAlignment k).
Proof.
  unfold newTagAllocator. destruct (populate _ _ _ _) as [s1 new] eqn:Ep.
  apply (layout_same s1); [|done|done]. eapply layout_populate; [|exact Ep]. by split.
Qed.
End progress.

(** What the memory manager promises: every request gets a buffer that is big
    enough, and the first [limit] ones, as long as it has that many, lie in the
    address space and do not overlap. *)
Class MemoryManagerSpec (allocateGraphicsMemory : nat -> GraphicsAllocation) (limit : nat) (request : Z) : Prop := {
  buffer_fits k : request <= underlyingBufferSize (allocateGraphicsMemory k);
  buffer_in_range k : (k < limit)%nat -> 0 <= underlyingBuffer (allocateGraphicsMemory k) /\
    underlyingBuffer (allocateGraphicsMemory k) + underlyingBufferSize (allocateGraphicsMemory k) < 2 ^ 64;
  buffers_disjoint j k : (j < limit)%nat -> (k < limit)%nat -> j <> k ->
    underlyingBuffer (allocateGraphicsMemory j) + underlyingBufferSize (allocateGraphicsMemory j) <= underlyingBuffer (allocateGraphicsMemory k) \/
    underlyingBuffer (allocateGraphicsMemory k) + underlyingBufferSize (allocateGraphicsMemory k) <= underlyingBuffer (allocateGraphicsMemory j) }.

Section addresses.
Context (allocateGraphicsMemory : nat -> GraphicsAllocation) (sizeofTag tagCount tagAlignment : Z).
Context (limit : nat) {spec : MemoryManagerSpec allocateGraphicsMemory limit (allocationSizeRequired sizeofTag tagCount tagAlignment)}.
Hypothesis tag_size_pos : 0 < tagSize sizeofTag tagAlignment.
Abbreviation sz := (tagSize sizeofTag tagAlignment).
Abbreviation pool := (poolNodes allocateGraphicsMemory sizeofTag tagAlignment).

Lemma newNodes_lookup count start gpuBase i k q d :
  newNodes sizeofTag tagAlignment count start gpuBase i k !! q = Some d -> 0 <= start -> start + Z.of_nat count * sz < 2 ^ 64 ->
  (q < count)%nat /\ tagForCpuAccess d = start + Z.of_nat q * sz /\ gfxAllocation d = k /\ gpuAddress d = gpuBase ⊞ (i + Z.of_nat q) ⊠ sz.
Proof.
  revert start i q. induction count as [|count IH]; intros start i q E Hs Hb; [done|]. cbn [newNodes] in E.
  destruct q as [|q]; cbn [lookup list_lookup] in E.
  - simplify_eq. cbn. split_and!; [lia|lia|done|by rewrite Z.add_0_r].
  - assert (start ⊞ sz = start + sz) as Es by (apply wrap_small; word_lia). rewrite Es in E.
    destruct (IH _ _ _ E) as (Hq & Ht & Hk & Hg); [lia|lia|]. split_and!; [lia| |done|rewrite Hg; do 4 f_equal; lia].
    rewrite Ht. lia.
Qed.

Lemma nodesOf_allocation k q d a : nodesOf sizeofTag tagAlignment k a !! q = Some d -> gfxAllocation d = k.
Proof.
  unfold nodesOf. generalize (Z.to_nat (underlyingBufferSize a / sz)) (underlyingBuffer a) 0 q.
  intros count. induction count as [|count IH]; intros start i x E; [done|]. destruct x as [|x]; [by simplify_eq/=|]. by apply (IH _ _ _ E).
Qed.

(** A node of a pool lies inside the allocation. *)
Lemma nodesOf_lookup k q d : (k < limit)%nat -> nodesOf sizeofTag tagAlignment k (allocateGraphicsMemory k) !! q = Some d ->
  gfxAllocation d = k /\ tagForCpuAccess d = underlyingBuffer (allocateGraphicsMemory k) + Z.of_nat q * sz /\
  tagForCpuAccess d + sz <= underlyingBuffer (allocateGraphicsMemory k) + underlyingBufferSize (allocateGraphicsMemory k) /\
  gpuAddress d = allocationGpuAddress (allocateGraphicsMemory k) ⊞ Z.of_nat q ⊠ sz.
Proof.
  intros Hk E. unfold nodesOf in E. set (a := allocateGraphicsMemory k) in *. destruct (buffer_in_range k Hk) as (B0 & B2). fold a in B0, B2.
  pose proof (Z.mul_div_le (underlyingBufferSize a) sz tag_size_pos) as Hd.
  destruct (decide (0 <= underlyingBufferSize a)) as [Hp|Hp].
  2: { assert (underlyingBufferSize a / sz < 0) as Hneg by (apply Z.div_lt_upper_bound; lia).
       replace (Z.to_nat (underlyingBufferSize a / sz)) with 0%nat in E by lia. done. }
  pose proof (Z.div_pos _ sz Hp tag_size_pos) as Hc.
  apply newNodes_lookup in E as (Hq & Ht & Hka & Hg); [|lia|rewrite Z2Nat.id by lia; lia].
  split; [done|]. split; [done|]. split; [|by rewrite Z.add_0_l in Hg]. rewrite Ht.
  assert ((Z.of_nat q + 1) * sz <= underlyingBufferSize a / sz * sz) by (apply Z.mul_le_mono_nonneg_r; lia). lia.
Qed.

Lemma pool_lookup m i d : pool m !! i = Some d ->
  exists q, (gfxAllocation d < m)%nat /\ nodesOf sizeofTag tagAlignment (gfxAllocation d) (allocateGraphicsMemory (gfxAllocation d)) !! q = Some d /\
    i = (length (pool (gfxAllocation d)) + q)%nat.
Proof.
  revert i. induction m as [|m IH]; intros i E; [done|]. rewrite poolNodes_S in E. apply lookup_app_Some in E as [E|[Hge E]].
  - destruct (IH i E) as (q & ? & ? & ?). exists q. split; [lia|done].
  - pose proof (nodesOf_allocation _ _ _ _ E) as Ek. exists (i - length (pool m))%nat. rewrite Ek. split; [lia|]. split; [done|lia].
Qed.

(** Two nodes never share memory. *)
Lemma nodes_disjoint s i j d d' : layout allocateGraphicsMemory sizeofTag tagAlignment s -> (length (gfxAllocations s) <= limit)%nat ->
  nodes s !! i = Some d -> nodes s !! j = Some d' -> i <> j ->
  tagForCpuAccess d + sz <= tagForCpuAccess d' \/ tagForCpuAccess d' + sz <= tagForCpuAccess d.
Proof.
  intros [_ Hl] Hlim Hi Hj Hne.
  assert (forall i d, nodes s !! i = Some d -> exists p, pool (length (gfxAllocations s)) !! i = Some p /\ tagForCpuAccess p = tagForCpuAccess d) as Hp.
  { intros x e Hx. assert ((address <$> nodes s) !! x = Some (address e)) as Ha by (by rewrite list_lookup_fmap, Hx).
    rewrite Hl, list_lookup_fmap in Ha. destruct (pool _ !! x) as [p|]; [|done]. exists p. split; [done|]. unfold address in Ha. cbn in Ha. congruence. }
  destruct (Hp i d Hi) as (p & Hpi & <-), (Hp j d' Hj) as (p' & Hpj & <-).
  apply pool_lookup in Hpi as (q & Hk1 & Hq & Ei). apply pool_lookup in Hpj as (q' & Hk2 & Hq' & Ej).
  destruct (nodesOf_lookup _ _ _ (Nat.lt_le_trans _ _ _ Hk1 Hlim) Hq) as (_ & Et & Eb & _), (nodesOf_lookup _ _ _ (Nat.lt_le_trans _ _ _ Hk2 Hlim) Hq') as (_ & Et' & Eb' & _).
  destruct (decide (gfxAllocation p = gfxAllocation p')) as [Ek|Hk].
  - rewrite Ek in *. assert (q <> q') as Hqq by lia. rewrite Et, Et'.
    destruct (decide (q < q')%nat) as [Hlt|Hge]; [left|right].
    + assert ((Z.of_nat q + 1) * sz <= Z.of_nat q' * sz) by (apply Z.mul_le_mono_nonneg_r; lia). lia.
    + assert ((Z.of_nat q' + 1) * sz <= Z.of_nat q * sz) by (apply Z.mul_le_mono_nonneg_r; lia). lia.
  - assert (0 <= Z.of_nat q * sz /\ 0 <= Z.of_nat q' * sz) as [? ?] by (split; apply Z.mul_nonneg_nonneg; lia).
    destruct (buffers_disjoint _ _ (Nat.lt_le_trans _ _ _ Hk1 Hlim) (Nat.lt_le_trans _ _ _ Hk2 Hlim) Hk) as [?|?]; lia.
Qed.
End addresses.

(** ** One thread *)

(** Between populating and taking a node nobody else takes one. *)
Definition alone (s : State) : Prop :=
  exists th, threads s = [th] /\
  match th with
  | PushPopulated l => freeTags s <> [] \/ l <> []
  | RemoveFrontLocked => freeTags s <> []
  | Unlock None | NullNode => False
  | _ => True
  end.

Section single.
Context (allocateGraphicsMemory : nat -> GraphicsAllocation) (sizeofTag tagCount tagAlignment : Z).
Hypothesis pool_nonempty : forall k, nodesOf sizeofTag tagAlignment k (allocateGraphicsMemory k) <> [].

Lemma alone_exec e s s' : alone s -> exec allocateGraphicsMemory sizeofTag tagAlignment e s = Some s' -> alone s'.
Proof.
  intros (th & Hth & Hm) E. assert (forall t x, threads s !! t = Some x -> t = 0%nat /\ x = th) as H0.
  { intros t x Hx. rewrite Hth in Hx. destruct t; [by simplify_eq/=|done]. }
  destruct e as [t|t n|n|t ready]; cbn [exec] in E.
  - destruct (threads s !! t) as [x|] eqn:Ht; [|done]. destruct (H0 _ _ Ht) as [-> ->]. destruct th; simplify_eq. unfold alone. cbn. rewrite Hth. by eexists.
  - destruct (threads s !! t) as [x|] eqn:Ht; [|done]. destruct (H0 _ _ Ht) as [-> ->]. destruct th; simplify_eq.
    destruct (removeOne n (held s)); [|done]. cbn [mbind option_bind] in E. simplify_eq. unfold alone. cbn. rewrite Hth. by eexists.
  - destruct (decide (n ∈ held s)); [|done]. destruct (nodes s !! n); [|done]. cbn [mbind option_bind] in E. simplify_eq. by exists th.
  - unfold step in E. destruct (threads s !! t) as [x|] eqn:Ht; [|done]. destruct (H0 _ _ Ht) as [-> ->]. cbn [mbind option_bind] in E.
    destruct th as [| | |[|n rest] pf pd|pf pd|pd| | |[|n rest]| |node|n|n|n|n|n|n released|n|n|]; simplify_eq;
      try (unfold alone; cbn; rewrite Hth; by eexists).
    + unfold alone. cbn. rewrite Hth. destruct (freeTags s); by eexists.
    + unfold alone. cbn. rewrite Hth. destruct ready; by eexists.
    + destruct (freeTags s); simplify_eq; unfold alone; cbn; rewrite Hth; by eexists.
    + destruct (allocatorMutex s); [done|]. unfold populate in E. simplify_eq. unfold alone. cbn. rewrite Hth. eexists. split; [done|].
      right. intros Hc. apply (f_equal length) in Hc. rewrite length_seq in Hc. cbn in Hc.
      apply (pool_nonempty (length (gfxAllocations s))). by apply length_zero_iff_nil.
    + unfold alone. cbn. rewrite Hth. eexists. split; [done|]. cbn. destruct Hm; done.
    + unfold alone. cbn. rewrite Hth. eexists. split; [done|]. left. destruct (freeTags s); done.
    + destruct (freeTags s); simplify_eq. unfold alone; cbn; rewrite Hth; by eexists.
    + destruct node; [|done]. unfold alone. cbn. rewrite Hth. by eexists.
    + destruct (nodes s !! n); [|done]. cbn [mbind option_bind] in E. simplify_eq. unfold alone. cbn. rewrite Hth. by eexists.
    + destruct (nodes s !! n); [|done]. cbn [mbind option_bind] in E. simplify_eq. unfold alone. cbn. rewrite Hth. eexists. split; [done|]. by case_decide.
    + destruct (removeOne n (usedTags s)); [|done]. cbn [mbind option_bind] in E. simplify_eq. unfold alone. cbn. rewrite Hth. eexists. split; [done|]. by destruct released.
Qed.

Lemma alone_execAll es s s' : alone s -> execAll allocateGraphicsMemory sizeofTag tagAlignment es s = Some s' -> alone s'.
Proof.
  revert s. induction es as [|e es IH]; intros s Hl E; cbn [execAll] in E; [by simplify_eq|].
  destruct (exec _ _ _ e s) as [s1|] eqn:E1; [|done]. cbn [mbind option_bind] in E. eapply IH; [by eapply alone_exec|done].
Qed.
End single.

(** ** Properties *)

Lemma pool_has_node alloc limit sizeofTag tagCount tagAlignment k :
  MemoryManagerSpec alloc limit (allocationSizeRequired sizeofTag tagCount tagAlignment) -> 0 < tagSize sizeofTag tagAlignment ->
  1 <= tagCount -> tagCount * tagSize sizeofTag tagAlignment < 2 ^ 64 -> nodesOf sizeofTag tagAlignment k (alloc k) <> [].
Proof.
  intros Hspec Hsz Hc Hb. pose proof (buffer_fits k) as Hr. unfold allocationSizeRequired in Hr.
  set (sz := tagSize sizeofTag tagAlignment) in *. assert (0 <= tagCount * sz) by (apply Z.mul_nonneg_nonneg; lia).
  rewrite wrap_small in Hr by (unfold uint; lia). assert (1 * sz <= tagCount * sz) by (apply Z.mul_le_mono_nonneg_r; lia).
  assert (1 <= underlyingBufferSize (alloc k) / sz) as Hd by (apply Z.div_le_lower_bound; lia).
  unfold nodesOf. fold sz. destruct (Z.to_nat (underlyingBufferSize (alloc k) / sz)) eqn:E; [lia|done].
Qed.

(** C11: whatever the interleaving of the calls, every tag is in exactly
    one place: one of the three lists or the hands of one thread.  A tag that a
    caller holds is in the used list only, no thread is about to hand it out
    again or to return it to a list, and its reference count is the number of
    references held and being returned.  No call gets stuck: a thread can
    always take its next step, unless it waits for the mutex, whose owner can,
    or unless it was left without a node (see [get_tag_race]); which does not
    happen to a single thread.  Different tags do not overlap in memory, while
    the memory manager has room. *)
Theorem tags_have_one_place alloc limit sizeofTag tagCount tagAlignment threadCount es s :
  MemoryManagerSpec alloc limit (allocationSizeRequired sizeofTag tagCount tagAlignment) ->
  0 < tagSize sizeofTag tagAlignment -> 1 <= tagCount -> tagCount * tagSize sizeofTag tagAlignment < 2 ^ 64 ->
  execAll alloc sizeofTag tagAlignment es (newTagAllocator alloc sizeofTag tagAlignment threadCount) = Some s ->
  (forall n, (cnt n (freeTags s) + cnt n (usedTags s) + cnt n (deferredTags s) + total inflight n (threads s))%nat =
    if decide (n < length (nodes s))%nat then 1%nat else 0%nat) /\
  (forall n, n ∈ held s -> n ∈ usedTags s /\ n ∉ freeTags s /\ n ∉ deferredTags s /\
    (forall t th, threads s !! t = Some th -> n ∉ inflight th /\ n ∉ claimed th) /\
    refCountOf s n = (cnt n (held s) + total refsOf n (threads s))%nat) /\
  (forall t th ready, threads s !! t = Some th -> th <> Idle -> th <> NullNode ->
    is_Some (step alloc sizeofTag tagAlignment t ready s) \/
    (th = LockAndPopulate /\ exists u, allocatorMutex s = Some u /\ is_Some (step alloc sizeofTag tagAlignment u ready s))) /\
  (threadCount = 1%nat -> NullNode ∉ threads s) /\
  ((length (gfxAllocations s) <= limit)%nat -> forall i j d d', nodes s !! i = Some d -> nodes s !! j = Some d' -> i <> j ->
    tagForCpuAccess d + tagSize sizeofTag tagAlignment <= tagForCpuAccess d' \/
    tagForCpuAccess d' + tagSize sizeofTag tagAlignment <= tagForCpuAccess d).
Proof.
  intros Hspec Hsz Hc Hb E.
  assert (inv s) as Hinv by (eapply inv_execAll; [apply inv_new|exact E]). pose proof Hinv as [I1 I2 I3 _ _].
  split; [done|]. split; [|split; [|split]].
  - intros n Hn. destruct (held_used s n Hinv Hn) as (Hu & Hr & Hcl). specialize (I1 n).
    split; [apply cnt_elem; lia|]. rewrite <- !cnt_elem. repeat case_decide; split_and!; try lia; try apply I2.
    intros t th Ht. rewrite <- !cnt_elem. pose proof (total_elem inflight n t th _ Ht). pose proof (total_elem claimed n t th _ Ht). lia.
  - intros t th ready Ht Hi Hn. destruct (allocatorMutex s) as [u|] eqn:Em.
    + destruct (owner_progress alloc sizeofTag tagAlignment s u ready Hinv Em) as [s' Hs'].
      destruct th; try (left; eapply (step_progress _ _ _ s t); [done|exact Ht|done..]). right. eauto.
    + left. by eapply (step_progress _ _ _ s t).
  - intros ->. assert (alone s) as (th & Hth & Hm).
    { eapply alone_execAll; [|exists Idle; split; [|done]|exact E]; [intros k; by eapply pool_has_node|done]. }
    rewrite Hth. intros Hin%list_elem_of_singleton. by subst.
  - intros Hlim i j d d' Hi Hj Hne. eapply (nodes_disjoint alloc sizeofTag tagCount tagAlignment limit); [done| |exact Hlim|done..].
    eapply layout_execAll; [apply layout_new|exact E].
Qed.

(** ** Runs *)

Definition exampleAllocate (k : nat) : GraphicsAllocation := mkAlloc (4096 * (Z.of_nat k + 1)) 0 64.
Definition runs (t k : nat) : list Event := replicate k (Run t true).

Lemma exampleAllocate_spec : MemoryManagerSpec exampleAllocate 1000 (allocationSizeRequired 64 1 64).
Proof. split; unfold exampleAllocate; cbn [underlyingBuffer underlyingBufferSize]; [done|lia|lia]. Qed.

(** A tag is taken, shared, returned twice and taken again. *)
Definition sharingEvents : list Event :=
  GetTag 0 :: runs 0 5 ++ [IncRef 0; ReturnTag 0 0] ++ runs 0 1 ++ ReturnTag 1 0 :: runs 1 4 ++ GetTag 0 :: runs 0 5.

Lemma tags_have_one_place_witness : exists s,
  execAll exampleAllocate 64 64 sharingEvents (newTagAllocator exampleAllocate 64 64 2) = Some s /\ held s = [0%nat] /\ 0%nat ∈ usedTags s.
Proof.
  assert (exists s, execAll exampleAllocate 64 64 sharingEvents (newTagAllocator exampleAllocate 64 64 2) = Some s /\ held s = [0%nat]) as (s & E & H).
  { eexists. split; [vm_compute; reflexivity|vm_compute; reflexivity]. }
  exists s. split; [exact E|]. split; [exact H|].
  refine (proj1 (proj1 (proj2 (tags_have_one_place exampleAllocate 1000 64 1 64 2 sharingEvents s exampleAllocate_spec _ _ _ E)) 0%nat _)).
  - vm_compute. reflexivity.
  - lia.
  - vm_compute. reflexivity.
  - rewrite H. apply list_elem_of_here.
Defined.

(** The second thread has the only tag; the first one makes a new pool, of
    which the second takes the only tag before the first does. *)
Definition raceEvents : list Event :=
  GetTag 1 :: runs 1 5 ++ GetTag 0 :: runs 0 8 ++ GetTag 1 :: runs 1 2 ++ runs 0 3.

(** Two concurrent calls of [getTag] can leave one of them with a null node,
    which it would then push to the used list, a dereference of null.  The mutex
    covers populating and the second attempt to remove a node, but not the first
    attempt of another thread. *)
Example get_tag_race : exists s,
  execAll exampleAllocate 64 64 raceEvents (newTagAllocator exampleAllocate 64 64 2) = Some s /\
  threads s = [NullNode; PushUsed 1] /\ usedTags s = [0%nat] /\ freeTags s = [].
Proof. eexists. split; [vm_compute; reflexivity|]. vm_compute. auto. Qed.
