(* ===== verification/Bytes.v ===== *)
(** * Byte strings

    Little-endian fields in a list of bytes, with bounds-checked reading and
    writing: the memory that [Elf] and [Printf] interpret. *)

From S2P Require Import Prelude.

Fixpoint le (n : nat) (v : Z) : list Z :=
  match n with O => [] | S n => v mod 256 :: le n (v / 256) end.
Fixpoint unle (l : list Z) : Z := match l with [] => 0 | b :: l => b + 256 * unle l end.

(** Writing and reading a run of bytes; [None] outside of the binary. *)
Definition writeAt (off : nat) (bs : list Z) (b : list Z) : option (list Z) :=
  if decide (off + length bs <= length b)%nat then Some (list_inserts off bs b) else None.
Definition readAt (off n : nat) (b : list Z) : option (list Z) :=
  if decide (off + n <= length b)%nat then Some (take n (drop off b)) else None.
Definition readField (off n : nat) (b : list Z) : option Z := unle <$> readAt off n b.

(** ** Reading what was written *)

Lemma le_length n v : length (le n v) = n.
Proof. revert v. induction n as [|n IH]; intros v; simpl; [done|]. by rewrite IH. Qed.

Lemma unle_le n v : 0 <= v < 256 ^ Z.of_nat n -> unle (le n v) = v.
Proof.
  revert v. induction n as [|n IH]; intros v Hv; [simpl in *; lia|]. cbn [le unle].
  rewrite Nat2Z.inj_succ, Z.pow_succ_r in Hv by lia. rewrite IH.
  - pose proof (Z.div_mod v 256 ltac:(lia)). lia.
  - split; [apply Z.div_pos; lia|]. apply Z.div_lt_upper_bound; lia.
Qed.

Lemma readAt_length off n b l : readAt off n b = Some l -> length l = n /\ (off + n <= length b)%nat.
Proof. unfold readAt. case_decide as Hd; [|done]. intros [= <-]. split; [|done]. rewrite length_take, length_drop. lia. Qed.

Lemma readAt_ext off n b b' : length b' = length b -> (forall k, (off <= k < off + n)%nat -> b' !! k = b !! k) -> readAt off n b' = readAt off n b.
Proof.
  intros Hl Hk. unfold readAt. rewrite Hl. case_decide as Hd; [|done]. f_equal. apply list_eq. intros i. destruct (decide (i < n)%nat).
  - rewrite !lookup_take_lt, !lookup_drop by lia. apply Hk. lia.
  - rewrite !lookup_take_ge by lia. done.
Qed.


(** [b'] is [b] with other bytes only where [P] holds. *)
Definition only (P : nat -> Prop) (b b' : list Z) : Prop := length b' = length b /\ forall k, ~ P k -> b' !! k = b !! k.

Lemma only_read P b b' off n : only P b b' -> (forall k, (off <= k < off + n)%nat -> ~ P k) -> readAt off n b' = readAt off n b.
Proof. intros [Hl Hk] HP. apply readAt_ext; [done|]. intros k Hr. apply Hk. by apply HP. Qed.

Lemma writeAt_spec off bs b : (off + length bs <= length b)%nat ->
  exists b', writeAt off bs b = Some b' /\ only (fun k => off <= k < off + length bs)%nat b b' /\ readAt off (length bs) b' = Some bs.
Proof.
  intros Hb. unfold writeAt. rewrite decide_True by done. eexists. split; [done|]. split.
  - split; [apply length_inserts|]. intros k Hk. destruct (decide (k < off)%nat).
    + by rewrite list_lookup_inserts_lt.
    + rewrite list_lookup_inserts_ge by lia. done.
  - unfold readAt. rewrite length_inserts, decide_True by done. f_equal. apply list_eq. intros i. destruct (decide (i < length bs)%nat).
    + rewrite lookup_take_lt, lookup_drop, list_lookup_inserts by lia. f_equal. lia.
    + rewrite lookup_take_ge, lookup_ge_None_2 by lia. done.
Qed.

(** A field: what is written is read back. *)
Lemma writeField_spec off n v b : (off + n <= length b)%nat -> 0 <= v < 256 ^ Z.of_nat n ->
  exists b', writeAt off (le n v) b = Some b' /\ only (fun k => off <= k < off + n)%nat b b' /\ readField off n b' = Some v.
Proof.
  intros Hb Hv. destruct (writeAt_spec off (le n v) b) as (b' & E & O & R); [by rewrite le_length|]. rewrite le_length in O, R.
  exists b'. split; [done|]. split; [done|]. unfold readField. rewrite R. simpl. by rewrite unle_le.
Qed.

Lemma only_readField P b b' off n : only P b b' -> (forall k, (off <= k < off + n)%nat -> ~ P k) -> readField off n b' = readField off n b.
Proof. intros O H. unfold readField. by rewrite (only_read P b b'). Qed.

(** Reading inside a run of bytes that was written. *)
Lemma readAt_inside off bs b o n : readAt off (length bs) b = Some bs -> (o + n <= length bs)%nat -> readAt (off + o) n b = Some (take n (drop o bs)).
Proof.
  unfold readAt. intros H Hn. case_decide as Hd; [|done]. injection H as H. rewrite decide_True by lia. f_equal.
  assert (forall i, (i < length bs)%nat -> b !! (off + i)%nat = bs !! i) as Hi.
  { intros i Hi. rewrite <- H, lookup_take_lt, lookup_drop by done. done. }
  apply list_eq. intros i. destruct (decide (i < n)%nat).
  - rewrite !lookup_take_lt, !lookup_drop by lia. rewrite <- Hi by lia. f_equal. lia.
  - rewrite !lookup_take_ge by lia. done.
Qed.
