(* ===== verification/Elf.v ===== *)
(** * The container of program binaries

    Model of [src/elf]: [CElfWriter] puts named sections into a 64-bit ELF
    binary, [CElfReader] validates such a binary and lists its section headers.
    A binary is a list of bytes; the two header structs are read and written
    field by field at their offsets, in little-endian order.  [begin] is the
    address of the binary, since the reader compares pointers, which wrap. *)

From S2P Require Import Prelude.
From S2P Require Import Bytes.

(** ** Layout of the structs *)

Definition sizeofHeader : nat := 64.
Definition sizeofSectionHeader : nat := 64.

Record SElf64Header := mkElfHeader {
  Identity : list Z; headerType : Z; SectionHeadersOffset : Z; ElfHeaderSize : Z;
  SectionHeaderEntrySize : Z; NumSectionHeaderEntries : Z; SectionNameTableIndex : Z }.
Record SElf64SectionHeader := mkSectionHeader { Name : Z; Type_ : Z; Flags : Z; DataOffset : Z; DataSize : Z }.

Definition readHeader (b : list Z) : option SElf64Header :=
  identity ← readAt 0 16 b;
  type ← readField 16 2 b;
  shOffset ← readField 40 8 b;
  headerSize ← readField 52 2 b;
  entrySize ← readField 58 2 b;
  count ← readField 60 2 b;
  index ← readField 62 2 b;
  Some (mkElfHeader identity type shOffset headerSize entrySize count index).

Definition readSectionHeader (off : nat) (b : list Z) : option SElf64SectionHeader :=
  name ← readField off 4 b;
  type ← readField (off + 4) 4 b;
  flags ← readField (off + 8) 8 b;
  dataOffset ← readField (off + 24) 8 b;
  dataSize ← readField (off + 32) 8 b;
  Some (mkSectionHeader name type flags dataOffset dataSize).

(** ** The writer *)

Record SSectionNode := mkNode { nodeType : Z; nodeFlag : Z; nodeName : list Z; nodeData : list Z; nodeDataSize : Z }.
Definition nullNode : SSectionNode := mkNode 0 0 [] [] 0.

Record CElfWriter := mkWriter {
  writerType : Z; machine : Z; writerFlag : Z; nodeQueue : list SSectionNode;
  writerDataSize : Z; numSections : Z; stringTableSize : Z }.

Definition addSection (n : SSectionNode) (w : CElfWriter) : CElfWriter :=
  mkWriter (writerType w) (machine w) (writerFlag w) (nodeQueue w ++ [n])
    (w32 (writerDataSize w + nodeDataSize n)) (w32 (numSections w + 1)) (stringTableSize w ⊞ (Z.of_nat (length (nodeName n)) + 1)).

(** The constructor adds an empty section first. *)
Definition newWriter (type mach flag : Z) : CElfWriter := addSection nullNode (mkWriter type mach flag [] 0 0 0).

Definition headersSize (w : CElfWriter) : Z := w32 (numSections w + 1) ⊠ Z.of_nat sizeofSectionHeader.
Definition getTotalBinarySize (w : CElfWriter) : Z :=
  Z.of_nat sizeofHeader ⊞ headersSize w ⊞ writerDataSize w ⊞ stringTableSize w.

(** [memcpy_s] of the data; a string has a zero behind its last byte. *)
Definition dataBytes (n : SSectionNode) : option (list Z) := readAt 0 (Z.to_nat (nodeDataSize n)) (nodeData n ++ [0]).

(** One turn of the loop: the header of the section, its data, its name. *)
Definition writeSection (n : SSectionNode) (curSectionHeader data stringTable curString : nat) (b : list Z) : option (list Z) :=
  b ← writeAt (curSectionHeader + 4) (le 4 (nodeType n)) b;
  b ← writeAt (curSectionHeader + 8) (le 8 (nodeFlag n)) b;
  b ← writeAt (curSectionHeader + 32) (le 8 (nodeDataSize n)) b;
  b ← writeAt (curSectionHeader + 24) (le 8 (Z.of_nat data)) b;
  b ← writeAt curSectionHeader (le 4 (Z.of_nat (curString - stringTable))) b;
  bytes ← dataBytes n;
  b ← writeAt data bytes b;
  writeAt curString (nodeName n ++ [0]) b.

Fixpoint writeSections (q : list SSectionNode) (curSectionHeader data stringTable curString : nat) (b : list Z) : option (nat * list Z) :=
  match q with
  | [] => Some (curSectionHeader, b)
  | n :: q =>
      b ← writeSection n curSectionHeader data stringTable curString b;
      writeSections q (curSectionHeader + sizeofSectionHeader) (data + Z.to_nat (nodeDataSize n)) stringTable
        (curString + length (nodeName n) + 1) b
  end.

(** The header of the string table is copied whole. *)
Definition stringSectionHeader (off size : Z) : list Z :=
  le 4 0 ++ le 4 3 ++ le 8 0 ++ le 8 0 ++ le 8 off ++ le 8 size ++ le 4 0 ++ le 4 0 ++ le 8 0 ++ le 8 0.

Definition patchElfHeader (w : CElfWriter) (b : list Z) : option (list Z) :=
  b ← writeAt 0 [127; 69; 76; 70; 2; 1] b;
  b ← writeAt 16 (le 2 (writerType w)) b;
  b ← writeAt 18 (le 2 (machine w)) b;
  b ← writeAt 48 (le 4 (writerFlag w)) b;
  b ← writeAt 52 (le 2 (Z.of_nat sizeofHeader)) b;
  b ← writeAt 58 (le 2 (Z.of_nat sizeofSectionHeader)) b;
  b ← writeAt 60 (le 2 (numSections w)) b;
  b ← writeAt 40 (le 8 (Z.of_nat sizeofHeader)) b;
  writeAt 62 (le 2 (numSections w - 1)) b.

Definition resolveBinary (w : CElfWriter) (b : list Z) : option (CElfWriter * list Z) :=
  let total := Z.to_nat (getTotalBinarySize w) in
  let b := b ++ replicate (total - length b) 0 in
  let data := (sizeofHeader + Z.to_nat (headersSize w))%nat in
  let stringTable := (data + Z.to_nat (writerDataSize w))%nat in
  '(curSectionHeader, b) ← writeSections (nodeQueue w) sizeofHeader data stringTable stringTable b;
  b ← writeAt curSectionHeader (stringSectionHeader (Z.of_nat stringTable) (stringTableSize w)) b;
  let w := mkWriter (writerType w) (machine w) (writerFlag w) [] (writerDataSize w) (w32 (numSections w + 1)) (stringTableSize w) in
  b ← patchElfHeader w b;
  Some (w, b).

(** ** The reader *)

Inductive Result (A : Type) := Valid (a : A) | ElfException | OutOfBounds.
Arguments Valid {A}. Arguments ElfException {A}. Arguments OutOfBounds {A}.

(** The checks of one section; the result is its header. *)
Definition validateSection (begin size nameTable : Z) (h : SElf64Header) (i : nat) (b : list Z) : Result SElf64SectionHeader :=
  let end_ := begin ⊞ size in
  let offset := SectionHeadersOffset h ⊞ (Z.of_nat i * SectionHeaderEntrySize h) in
  if decide (end_ < begin ⊞ offset) then ElfException
  else match readSectionHeader (Z.to_nat offset) b with
       | None => OutOfBounds
       | Some s =>
           if decide (end_ < begin ⊞ DataOffset s ⊞ DataSize s) then ElfException
           else if decide (end_ < nameTable ⊞ Name s) then ElfException
           else Valid s
       end.

Fixpoint validateLoop (begin size nameTable : Z) (h : SElf64Header) (rest i : nat) (ourSize : Z) (b : list Z)
    : Result (list SElf64SectionHeader * Z) :=
  match rest with
  | O => Valid ([], ourSize)
  | S rest =>
      match validateSection begin size nameTable h i b with
      | Valid s =>
          match validateLoop begin size nameTable h rest (S i) (ourSize ⊞ DataSize s ⊞ SectionHeaderEntrySize h) b with
          | Valid (l, ourSize) => Valid (s :: l, ourSize)
          | ElfException => ElfException
          | OutOfBounds => OutOfBounds
          end
      | ElfException => ElfException
      | OutOfBounds => OutOfBounds
      end
  end.

Definition validateElfBinary (begin : Z) (b : list Z) : Result (SElf64Header * list SElf64SectionHeader) :=
  let size := Z.of_nat (length b) in
  if decide (length b < sizeofHeader)%nat then ElfException
  else match readHeader b with
       | None => OutOfBounds
       | Some h =>
           if decide (take 5 (Identity h) = [127; 69; 76; 70; 2]) then
             let entrySize := SectionHeaderEntrySize h in
             let nameTable :=
               if decide (SectionNameTableIndex h < NumSectionHeaderEntries h) then
                 let offset := SectionHeadersOffset h ⊞ SectionNameTableIndex h * entrySize in
                 if decide (begin ⊞ offset <= begin ⊞ size) then begin ⊞ offset else 0
               else 0 in
             match validateLoop begin size nameTable h (Z.to_nat (NumSectionHeaderEntries h)) 0 (ElfHeaderSize h) b with
             | Valid (l, ourSize) => if decide (ourSize = size) then Valid (h, l) else ElfException
             | ElfException => ElfException
             | OutOfBounds => OutOfBounds
             end
           else ElfException
       end.

(** The bytes behind the pointer that [getSectionData] returns. *)
Definition getSectionData (dataOffset : Z) (size : Z) (b : list Z) : option (list Z) := readAt (Z.to_nat dataOffset) (Z.to_nat size) b.

(** ** A section in a binary *)

Record sectionAt (b : list Z) (n : SSectionNode) (cur data nameOffset curString : nat) : Prop := {
  at_header : readSectionHeader cur b = Some (mkSectionHeader (Z.of_nat nameOffset) (nodeType n) (nodeFlag n) (Z.of_nat data) (nodeDataSize n));
  at_data : readAt data (Z.to_nat (nodeDataSize n)) b = dataBytes n;
  at_name : readAt curString (length (nodeName n) + 1) b = Some (nodeName n ++ [0]) }.

(** What a node must satisfy to be written without loss. *)
Definition nodeOk (n : SSectionNode) : Prop :=
  0 <= nodeType n < 2 ^ 32 /\ 0 <= nodeFlag n < 2 ^ 64 /\ 0 <= nodeDataSize n < 2 ^ 32 /\ nodeDataSize n <= Z.of_nat (length (nodeData n)) + 1.

Lemma dataBytes_some n : nodeOk n -> exists bytes, dataBytes n = Some bytes /\ length bytes = Z.to_nat (nodeDataSize n).
Proof.
  intros (_ & _ & H0 & H). unfold dataBytes. destruct (readAt 0 (Z.to_nat (nodeDataSize n)) (nodeData n ++ [0])) as [l|] eqn:E.
  - exists l. split; [done|]. by apply readAt_length in E as [? _].
  - exfalso. unfold readAt in E. rewrite length_app in E. simpl in E. case_decide; [done|lia].
Qed.

Definition sectionBytes (n : SSectionNode) (cur data curString k : nat) : Prop :=
  (cur <= k < cur + 64 \/ data <= k < data + Z.to_nat (nodeDataSize n) \/ curString <= k < curString + (length (nodeName n) + 1))%nat.

Lemma sectionAt_only P b b' n cur data nameOffset curString : sectionAt b n cur data nameOffset curString -> only P b b' ->
  (forall k, sectionBytes n cur data curString k -> ~ P k) -> sectionAt b' n cur data nameOffset curString.
Proof.
  intros [A1 A2 A3] O HP. unfold sectionBytes in HP. split.
  - unfold readSectionHeader in *. rewrite !(only_readField P b b') by first [done|intros k Hk; apply HP; lia]. done.
  - rewrite (only_read P b b'); [done|done|]. intros k ?. apply HP. lia.
  - rewrite (only_read P b b'); [done|done|]. intros k ?. apply HP. lia.
Qed.

Lemma writeSection_spec n cur data stringTable curString b :
  nodeOk n -> (cur + 64 <= data)%nat -> (data + Z.to_nat (nodeDataSize n) <= curString)%nat -> (stringTable <= curString)%nat ->
  (curString + (length (nodeName n) + 1) <= length b)%nat -> Z.of_nat (length b) < 2 ^ 32 ->
  exists b', writeSection n cur data stringTable curString b = Some b' /\ only (sectionBytes n cur data curString) b b' /\
    sectionAt b' n cur data (curString - stringTable) curString.
Proof.
  intros Hn Hcur Hdata Hst Hlen Hb. pose proof Hn as (Ht & Hf & Hs & _). destruct (dataBytes_some n Hn) as (bytes & Ed & Hbytes).
  unfold writeSection. rewrite Ed.
  destruct (writeField_spec (cur + 4) 4 (nodeType n) b) as (b1 & -> & O1 & R1); [lia|done|]. cbn [mbind option_bind].
  destruct (writeField_spec (cur + 8) 8 (nodeFlag n) b1) as (b2 & -> & O2 & R2); [rewrite (proj1 O1); lia|done|]. cbn [mbind option_bind].
  destruct (writeField_spec (cur + 32) 8 (nodeDataSize n) b2) as (b3 & -> & O3 & R3); [rewrite (proj1 O2), (proj1 O1); lia|change (256 ^ Z.of_nat 8) with (2 ^ 64); lia|].
  cbn [mbind option_bind].
  destruct (writeField_spec (cur + 24) 8 (Z.of_nat data) b3) as (b4 & -> & O4 & R4); [rewrite (proj1 O3), (proj1 O2), (proj1 O1); lia|change (256 ^ Z.of_nat 8) with (2 ^ 64); lia|].
  cbn [mbind option_bind].
  destruct (writeField_spec cur 4 (Z.of_nat (curString - stringTable)) b4) as (b5 & -> & O5 & R5);
    [rewrite (proj1 O4), (proj1 O3), (proj1 O2), (proj1 O1); lia|change (256 ^ Z.of_nat 4) with (2 ^ 32); lia|]. cbn [mbind option_bind].
  assert (length b5 = length b) as L5 by (rewrite (proj1 O5), (proj1 O4), (proj1 O3), (proj1 O2), (proj1 O1); done).
  destruct (writeAt_spec data bytes b5) as (b6 & -> & O6 & R6); [lia|]. cbn [mbind option_bind].
  destruct (writeAt_spec curString (nodeName n ++ [0]) b6) as (b7 & -> & O7 & R7); [rewrite length_app, (proj1 O6); simpl; lia|].
  rewrite length_app in O7, R7. cbn [length] in O7, R7. rewrite Hbytes in O6, R6.
  exists b7. split; [done|]. split.
  - split; [congruence||by rewrite (proj1 O7), (proj1 O6)|]. intros k Hk. unfold sectionBytes in Hk.
    rewrite (proj2 O7), (proj2 O6), (proj2 O5), (proj2 O4), (proj2 O3), (proj2 O2), (proj2 O1) by lia. done.
  - split.
    + unfold readSectionHeader.
      rewrite (only_readField _ _ _ cur 4 O7), (only_readField _ _ _ cur 4 O6) by (intros k Hk; lia). rewrite R5. cbn [mbind option_bind].
      rewrite (only_readField _ _ _ (cur + 4) 4 O7), (only_readField _ _ _ (cur + 4) 4 O6), (only_readField _ _ _ (cur + 4) 4 O5),
        (only_readField _ _ _ (cur + 4) 4 O4), (only_readField _ _ _ (cur + 4) 4 O3), (only_readField _ _ _ (cur + 4) 4 O2) by (intros k Hk; lia).
      rewrite R1. cbn [mbind option_bind].
      rewrite (only_readField _ _ _ (cur + 8) 8 O7), (only_readField _ _ _ (cur + 8) 8 O6), (only_readField _ _ _ (cur + 8) 8 O5),
        (only_readField _ _ _ (cur + 8) 8 O4), (only_readField _ _ _ (cur + 8) 8 O3) by (intros k Hk; lia).
      rewrite R2. cbn [mbind option_bind].
      rewrite (only_readField _ _ _ (cur + 24) 8 O7), (only_readField _ _ _ (cur + 24) 8 O6), (only_readField _ _ _ (cur + 24) 8 O5) by (intros k Hk; lia).
      rewrite R4. cbn [mbind option_bind].
      rewrite (only_readField _ _ _ (cur + 32) 8 O7), (only_readField _ _ _ (cur + 32) 8 O6), (only_readField _ _ _ (cur + 32) 8 O5),
        (only_readField _ _ _ (cur + 32) 8 O4) by (intros k Hk; lia).
      rewrite R3. done.
    + rewrite (only_read _ _ _ data _ O7) by (intros k Hk; lia). by rewrite R6, Ed.
    + exact R7.
Qed.

(** ** All sections *)

Definition dataTotal (q : list SSectionNode) : nat := foldr (fun n s => Z.to_nat (nodeDataSize n) + s)%nat 0%nat q.
Definition nameTotal (q : list SSectionNode) : nat := foldr (fun n s => length (nodeName n) + 1 + s)%nat 0%nat q.

(** The headers of the sections, whose data and names start at the given places. *)
Fixpoint headersFrom (q : list SSectionNode) (data nameOffset : nat) : list SElf64SectionHeader :=
  match q with
  | [] => []
  | n :: q => mkSectionHeader (Z.of_nat nameOffset) (nodeType n) (nodeFlag n) (Z.of_nat data) (nodeDataSize n) ::
      headersFrom q (data + Z.to_nat (nodeDataSize n)) (nameOffset + (length (nodeName n) + 1))
  end.

Lemma headersFrom_length q data off : length (headersFrom q data off) = length q.
Proof. revert data off. induction q as [|n q IH]; intros data off; simpl; [done|]. by rewrite IH. Qed.

Lemma headersFrom_lookup q data off i n : q !! i = Some n -> headersFrom q data off !! i =
  Some (mkSectionHeader (Z.of_nat (off + nameTotal (take i q))) (nodeType n) (nodeFlag n) (Z.of_nat (data + dataTotal (take i q))) (nodeDataSize n)).
Proof.
  revert data off i. induction q as [|m q IH]; intros data off i E; [done|]. destruct i as [|i]; simpl in E.
  - simplify_eq. simpl. by rewrite !Nat.add_0_r.
  - cbn [headersFrom lookup list_lookup]. rewrite (IH _ _ _ E). cbn [take]. unfold nameTotal, dataTotal. cbn [foldr]. do 2 f_equal; lia.
Qed.

Lemma dataTotal_take q i n : q !! i = Some n -> (dataTotal (take i q) + Z.to_nat (nodeDataSize n) <= dataTotal q)%nat.
Proof.
  revert i. induction q as [|m q IH]; intros i E; [done|]. destruct i as [|i]; simpl in *; [simplify_eq; lia|]. specialize (IH i E). unfold dataTotal in *. lia.
Qed.

Lemma nameTotal_take q i n : q !! i = Some n -> (nameTotal (take i q) + (length (nodeName n) + 1) <= nameTotal q)%nat.
Proof.
  revert i. induction q as [|m q IH]; intros i E; [done|]. destruct i as [|i]; simpl in *; [simplify_eq; lia|]. specialize (IH i E). unfold nameTotal in *. lia.
Qed.

Lemma writeSections_spec q : forall cur data stringTable curString b,
  Forall nodeOk q -> (cur + 64 * length q <= data)%nat -> (data + dataTotal q <= curString)%nat -> (stringTable <= curString)%nat ->
  (curString + nameTotal q <= length b)%nat -> Z.of_nat (length b) < 2 ^ 32 ->
  exists b', writeSections q cur data stringTable curString b = Some ((cur + 64 * length q)%nat, b') /\
    only (fun k => cur <= k < cur + 64 * length q \/ data <= k < data + dataTotal q \/ curString <= k < curString + nameTotal q)%nat b b' /\
    forall i n, q !! i = Some n -> sectionAt b' n (cur + 64 * i) (data + dataTotal (take i q))
      (curString - stringTable + nameTotal (take i q)) (curString + nameTotal (take i q)).
Proof.
  induction q as [|n q IH]; intros cur data stringTable curString b Hok Hcur Hdata Hst Hlen Hb; cbn [writeSections].
  { exists b. split; [do 2 f_equal; simpl; lia|]. split; [done|]. intros i m Hi. done. }
  apply Forall_cons in Hok as [Hn Hok]. cbn [length dataTotal nameTotal foldr] in *. fold (dataTotal q) (nameTotal q) in *.
  destruct (writeSection_spec n cur data stringTable curString b Hn) as (b1 & -> & O1 & S1); [lia..|]. cbn [mbind option_bind].
  pose proof (proj1 O1) as L1.
  destruct (IH (cur + sizeofSectionHeader)%nat (data + Z.to_nat (nodeDataSize n))%nat stringTable (curString + length (nodeName n) + 1)%nat b1 Hok)
    as (b2 & E2 & O2 & S2); [unfold sizeofSectionHeader; lia|lia|lia|rewrite L1; lia|by rewrite L1|]. unfold sizeofSectionHeader in *.
  exists b2. split; [rewrite E2; do 2 f_equal; lia|]. split.
  - split; [by rewrite (proj1 O2)|]. intros k Hk. rewrite (proj2 O2), (proj2 O1); [done|unfold sectionBytes; lia|lia].
  - intros [|i] m Hi; simpl in Hi.
    + simplify_eq. cbn [take dataTotal nameTotal foldr]. rewrite Nat.mul_0_r, !Nat.add_0_r.
      eapply sectionAt_only; [exact S1|exact O2|]. unfold sectionBytes. intros k Hk. lia.
    + specialize (S2 i m Hi). cbn [take]. unfold dataTotal, nameTotal in *. cbn [foldr].
      replace (cur + 64 * S i)%nat with (cur + 64 + 64 * i)%nat by lia. rewrite Nat.add_assoc.
      replace (curString - stringTable + (length (nodeName n) + 1 + foldr (fun n s => (length (nodeName n) + 1 + s)%nat) 0%nat (take i q)))%nat
        with (curString + length (nodeName n) + 1 - stringTable + foldr (fun n s => (length (nodeName n) + 1 + s)%nat) 0%nat (take i q))%nat by lia.
      replace (curString + (length (nodeName n) + 1 + foldr (fun n s => (length (nodeName n) + 1 + s)%nat) 0%nat (take i q)))%nat
        with (curString + length (nodeName n) + 1 + foldr (fun n s => (length (nodeName n) + 1 + s)%nat) 0%nat (take i q))%nat by lia.
      exact S2.
Qed.

(** The writer after any sections were added. *)
Lemma writer_sections ns : forall w, 0 <= writerDataSize w -> 0 <= numSections w -> 0 <= stringTableSize w -> Forall nodeOk ns ->
  writerDataSize w + Z.of_nat (dataTotal ns) < 2 ^ 32 -> numSections w + Z.of_nat (length ns) < 2 ^ 32 -> stringTableSize w + Z.of_nat (nameTotal ns) < 2 ^ 64 ->
  foldl (fun w n => addSection n w) w ns =
    mkWriter (writerType w) (machine w) (writerFlag w) (nodeQueue w ++ ns) (writerDataSize w + Z.of_nat (dataTotal ns))
      (numSections w + Z.of_nat (length ns)) (stringTableSize w + Z.of_nat (nameTotal ns)).
Proof.
  induction ns as [|n ns IH]; intros w H1 H2 H3 Hok B1 B2 B3.
  { destruct w. simpl. by rewrite !Z.add_0_r, app_nil_r. }
  apply Forall_cons in Hok as [(_ & _ & Hn & _) Hok]. cbn [foldl]. cbn [dataTotal nameTotal foldr length] in *. fold (dataTotal ns) (nameTotal ns) in *.
  assert (addSection n w = mkWriter (writerType w) (machine w) (writerFlag w) (nodeQueue w ++ [n]) (writerDataSize w + nodeDataSize n)
    (numSections w + 1) (stringTableSize w + (Z.of_nat (length (nodeName n)) + 1))) as ->.
  { unfold addSection. rewrite !wrap_small by (unfold uint; lia). done. }
  rewrite IH; cbn [writerDataSize numSections stringTableSize writerType machine writerFlag nodeQueue]; try lia; [|done].
  rewrite <- app_assoc. simpl. f_equal; lia.
Qed.

(** ** The headers *)

Lemma stringSectionHeader_length off size : length (stringSectionHeader off size) = 64%nat.
Proof. reflexivity. Qed.

Lemma stringHeader_spec cur off size b : readAt cur 64 b = Some (stringSectionHeader off size) -> 0 <= off < 2 ^ 64 -> 0 <= size < 2 ^ 64 ->
  readSectionHeader cur b = Some (mkSectionHeader 0 3 0 off size).
Proof.
  intros H Ho Hs. assert (forall o n, (o + n <= 64)%nat -> readAt (cur + o) n b = Some (take n (drop o (stringSectionHeader off size)))) as Hr.
  { intros o n Hn. apply readAt_inside; [exact H|done]. }
  unfold readSectionHeader, readField.
  pose proof (Hr 0%nat 4%nat ltac:(lia)) as R0. rewrite Nat.add_0_r in R0. rewrite R0, !Hr by lia. clear R0 Hr H.
  assert (take 8 (drop 24 (stringSectionHeader off size)) = le 8 off) as -> by reflexivity.
  assert (take 8 (drop 32 (stringSectionHeader off size)) = le 8 size) as -> by reflexivity.
  cbn [fmap option_fmap option_map mbind option_bind]. rewrite !(unle_le 8) by done. reflexivity.
Qed.

Lemma patch_spec w b : (64 <= length b)%nat -> 0 <= writerType w < 2 ^ 16 -> 1 <= numSections w < 2 ^ 16 ->
  exists b' identity, patchElfHeader w b = Some b' /\ only (fun k => k < 64)%nat b b' /\ take 5 identity = [127; 69; 76; 70; 2] /\
    readHeader b' = Some (mkElfHeader identity (writerType w) 64 64 64 (numSections w) (numSections w - 1)).
Proof.
  intros Hb Ht Hn. unfold patchElfHeader.
  destruct (writeAt_spec 0 [127; 69; 76; 70; 2; 1] b) as (b1 & -> & O1 & R1); [simpl; lia|]. cbn [mbind option_bind]. cbn [length] in O1, R1.
  pose proof (proj1 O1) as L1.
  destruct (writeField_spec 16 2 (writerType w) b1) as (b2 & -> & O2 & R2); [lia|done|]. cbn [mbind option_bind]. pose proof (proj1 O2) as L2.
  destruct (writeAt_spec 18 (le 2 (machine w)) b2) as (b3 & -> & O3 & _); [simpl; lia|]. cbn [mbind option_bind]. rewrite le_length in O3. pose proof (proj1 O3) as L3.
  destruct (writeAt_spec 48 (le 4 (writerFlag w)) b3) as (b4 & -> & O4 & _); [simpl; lia|]. cbn [mbind option_bind]. rewrite le_length in O4. pose proof (proj1 O4) as L4.
  destruct (writeField_spec 52 2 (Z.of_nat sizeofHeader) b4) as (b5 & -> & O5 & R5); [lia|done|]. cbn [mbind option_bind]. pose proof (proj1 O5) as L5.
  destruct (writeField_spec 58 2 (Z.of_nat sizeofSectionHeader) b5) as (b6 & -> & O6 & R6); [lia|done|]. cbn [mbind option_bind]. pose proof (proj1 O6) as L6.
  destruct (writeField_spec 60 2 (numSections w) b6) as (b7 & -> & O7 & R7); [lia|change (256 ^ Z.of_nat 2) with (2 ^ 16); lia|]. cbn [mbind option_bind]. pose proof (proj1 O7) as L7.
  destruct (writeField_spec 40 8 (Z.of_nat sizeofHeader) b7) as (b8 & -> & O8 & R8); [lia|done|]. cbn [mbind option_bind]. pose proof (proj1 O8) as L8.
  destruct (writeField_spec 62 2 (numSections w - 1) b8) as (b9 & -> & O9 & R9); [lia|change (256 ^ Z.of_nat 2) with (2 ^ 16); lia|].
  assert (readAt 0 6 b9 = Some [127; 69; 76; 70; 2; 1]) as Rid.
  { rewrite (only_read _ _ _ 0 6 O9), (only_read _ _ _ 0 6 O8), (only_read _ _ _ 0 6 O7), (only_read _ _ _ 0 6 O6), (only_read _ _ _ 0 6 O5),
      (only_read _ _ _ 0 6 O4), (only_read _ _ _ 0 6 O3), (only_read _ _ _ 0 6 O2) by (intros k Hk; lia). exact R1. }
  exists b9, (take 16 b9). split; [done|]. split; [|split].
  - split; [rewrite (proj1 O9); lia|]. intros k Hk.
    rewrite (proj2 O9), (proj2 O8), (proj2 O7), (proj2 O6), (proj2 O5), (proj2 O4), (proj2 O3), (proj2 O2), (proj2 O1) by lia. done.
  - unfold readAt in Rid. case_decide; [|done]. injection Rid as Rid. rewrite drop_0 in Rid.
    rewrite take_take. change (5 `min` 16)%nat with (5 `min` 6)%nat. by rewrite <- take_take, Rid.
  - unfold readHeader. unfold readAt at 1. rewrite decide_True by (rewrite (proj1 O9); lia). rewrite drop_0. cbn [mbind option_bind].
    rewrite (only_readField _ _ _ 16 2 O9), (only_readField _ _ _ 16 2 O8), (only_readField _ _ _ 16 2 O7), (only_readField _ _ _ 16 2 O6),
      (only_readField _ _ _ 16 2 O5), (only_readField _ _ _ 16 2 O4), (only_readField _ _ _ 16 2 O3) by (intros k Hk; lia). rewrite R2. cbn [mbind option_bind].
    rewrite (only_readField _ _ _ 40 8 O9) by (intros k Hk; lia). rewrite R8. cbn [mbind option_bind].
    rewrite (only_readField _ _ _ 52 2 O9), (only_readField _ _ _ 52 2 O8), (only_readField _ _ _ 52 2 O7), (only_readField _ _ _ 52 2 O6) by (intros k Hk; lia).
    rewrite R5. cbn [mbind option_bind].
    rewrite (only_readField _ _ _ 58 2 O9), (only_readField _ _ _ 58 2 O8), (only_readField _ _ _ 58 2 O7) by (intros k Hk; lia). rewrite R6. cbn [mbind option_bind].
    rewrite (only_readField _ _ _ 60 2 O9), (only_readField _ _ _ 60 2 O8) by (intros k Hk; lia). rewrite R7. cbn [mbind option_bind].
    rewrite R9. done.
Qed.

(** ** Validation *)

Definition sizesOf (hs : list SElf64SectionHeader) : Z := foldr (fun s z => DataSize s + 64 + z) 0 hs.

Lemma validateLoop_spec begin size nameTable h b hs : SectionHeadersOffset h = 64 -> SectionHeaderEntrySize h = 64 ->
  0 <= begin -> begin + size < 2 ^ 64 -> 0 <= nameTable ->
  forall i ourSize, 0 <= ourSize -> ourSize + sizesOf hs < 2 ^ 64 ->
  (forall j s, hs !! j = Some s -> readSectionHeader (64 + 64 * (i + j)) b = Some s /\ 64 + 64 * Z.of_nat (i + j) <= size /\
    0 <= DataOffset s /\ 0 <= DataSize s /\ DataOffset s + DataSize s <= size /\ 0 <= Name s /\ nameTable + Name s <= begin + size) ->
  validateLoop begin size nameTable h (length hs) i ourSize b = Valid (hs, ourSize + sizesOf hs).
Proof.
  intros Ho He Hb Hs Hn. induction hs as [|s hs IH]; intros i ourSize H0 Hsz Hh; cbn [length validateLoop]; [do 2 f_equal; simpl; lia|].
  destruct (Hh 0%nat s eq_refl) as (Hr & Hi & D0 & D1 & D2 & N0 & N1). rewrite Nat.add_0_r in *.
  cbn [sizesOf foldr] in *. fold (sizesOf hs) in *.
  assert (0 <= sizesOf hs) as Hpos.
  { assert (Forall (fun s => 0 <= DataSize s) hs) as Hf.
    { apply Forall_lookup_2. intros j x Hx. by destruct (Hh (S j) x Hx) as (_ & _ & _ & ? & _). }
    clear -Hf. induction Hf as [|x l Hx Hf IH]; cbn [sizesOf foldr]; [done|]. fold (sizesOf l). lia. }
  assert (validateSection begin size nameTable h i b = Valid s) as ->.
  { unfold validateSection. rewrite Ho, He. rewrite (wrap_small 64 (begin + size)) by (unfold uint; lia).
    rewrite (wrap_small 64 (64 + Z.of_nat i * 64)) by (unfold uint; lia). rewrite (wrap_small 64 (begin + (64 + Z.of_nat i * 64))) by (unfold uint; lia).
    rewrite decide_False by lia. replace (Z.to_nat (64 + Z.of_nat i * 64)) with (64 + 64 * i)%nat by lia. rewrite Hr.
    rewrite (wrap_small 64 (begin + DataOffset s)) by (unfold uint; lia). rewrite (wrap_small 64 (begin + DataOffset s + DataSize s)) by (unfold uint; lia).
    rewrite (wrap_small 64 (nameTable + Name s)) by (unfold uint; lia). rewrite !decide_False by lia. done. }
  rewrite He. rewrite (wrap_small 64 (ourSize + DataSize s)) by (unfold uint; lia). rewrite wrap_small by (unfold uint; lia).
  rewrite IH; [do 2 f_equal; lia|lia|lia|]. intros j x Hx. replace (S i + j)%nat with (i + S j)%nat by lia. by apply Hh.
Qed.

(** The headers that a binary with the sections [q] has. *)
Definition allHeaders (q : list SSectionNode) : list SElf64SectionHeader :=
  let data := (64 + 64 * (length q + 1))%nat in
  headersFrom q data 0 ++ [mkSectionHeader 0 3 0 (Z.of_nat (data + dataTotal q)) (Z.of_nat (nameTotal q))].

Lemma sizesOf_app a b : sizesOf (a ++ b) = sizesOf a + sizesOf b.
Proof. induction a as [|x a IH]; [done|]. cbn [app sizesOf foldr]. fold (sizesOf (a ++ b)) (sizesOf a). lia. Qed.

Lemma sizesOf_headersFrom q data off : Forall nodeOk q -> sizesOf (headersFrom q data off) = Z.of_nat (dataTotal q) + 64 * Z.of_nat (length q).
Proof.
  intros Hok. revert data off. induction Hok as [|n q (_ & _ & Hn & _) Hok IH]; intros data off; [done|].
  cbn [headersFrom sizesOf foldr dataTotal length DataSize]. fold (sizesOf (headersFrom q (data + Z.to_nat (nodeDataSize n)) (off + (length (nodeName n) + 1)))) (dataTotal q).
  rewrite IH. lia.
Qed.

Definition totalSize (q : list SSectionNode) : nat := (64 + 64 * (length q + 1) + dataTotal q + nameTotal q)%nat.

(** What [resolveBinary] writes for the sections [q]. *)
Lemma resolveBinary_spec type mach flag q b :
  Forall nodeOk q -> Z.of_nat (totalSize q) < 2 ^ 32 -> Z.of_nat (length q) + 1 < 2 ^ 16 -> 0 <= type < 2 ^ 16 -> (length b <= totalSize q)%nat ->
  let w := mkWriter type mach flag q (Z.of_nat (dataTotal q)) (Z.of_nat (length q)) (Z.of_nat (nameTotal q)) in
  let data := (64 + 64 * (length q + 1))%nat in
  exists w' b' identity, resolveBinary w b = Some (w', b') /\ length b' = totalSize q /\ getTotalBinarySize w = Z.of_nat (totalSize q) /\
    take 5 identity = [127; 69; 76; 70; 2] /\
    readHeader b' = Some (mkElfHeader identity type 64 64 64 (Z.of_nat (length q) + 1) (Z.of_nat (length q))) /\
    (forall i n, q !! i = Some n -> sectionAt b' n (64 + 64 * i) (data + dataTotal (take i q)) (nameTotal (take i q))
      (data + dataTotal q + nameTotal (take i q))) /\
    readSectionHeader (64 + 64 * length q) b' = Some (mkSectionHeader 0 3 0 (Z.of_nat (data + dataTotal q)) (Z.of_nat (nameTotal q))).
Proof.
  intros Hok Hsz Hcnt Htype Hlen w data. unfold totalSize in *.
  assert (headersSize w = 64 * (Z.of_nat (length q) + 1)) as Eh.
  { unfold headersSize, w, sizeofSectionHeader. cbn [numSections]. rewrite (wrap_small 32) by (unfold uint; lia). rewrite wrap_small by (unfold uint; lia). lia. }
  assert (getTotalBinarySize w = Z.of_nat (64 + 64 * (length q + 1) + dataTotal q + nameTotal q)) as Et.
  { unfold getTotalBinarySize. rewrite Eh. unfold w, sizeofHeader. cbn [writerDataSize stringTableSize].
    rewrite (wrap_small 64 (Z.of_nat 64 + _)) by (unfold uint; lia). rewrite (wrap_small 64 (_ + Z.of_nat (dataTotal q))) by (unfold uint; lia).
    rewrite wrap_small by (unfold uint; lia). lia. }
  unfold resolveBinary. rewrite Et, Eh, Nat2Z.id. unfold sizeofHeader. cbn [w nodeQueue writerDataSize stringTableSize numSections writerType machine writerFlag]. rewrite Nat2Z.id.
  replace (64 + Z.to_nat (64 * (Z.of_nat (length q) + 1)))%nat with data by (unfold data; lia).
  set (b0 := b ++ replicate (64 + 64 * (length q + 1) + dataTotal q + nameTotal q - length b) 0).
  assert (length b0 = (data + dataTotal q + nameTotal q)%nat) as L0 by (unfold b0, data; rewrite length_app, length_replicate; lia).
  destruct (writeSections_spec q 64 data (data + dataTotal q) (data + dataTotal q) b0 Hok) as (b1 & -> & O1 & S1); [unfold data; lia|lia|lia|rewrite L0; lia|rewrite L0; unfold data; lia|].
  cbn [mbind option_bind]. rewrite Nat.sub_diag in S1.
  destruct (writeAt_spec (64 + 64 * length q) (stringSectionHeader (Z.of_nat (data + dataTotal q)) (Z.of_nat (nameTotal q))) b1) as (b2 & -> & O2 & R2);
    [rewrite stringSectionHeader_length, (proj1 O1), L0; unfold data; lia|]. cbn [mbind option_bind].
  rewrite stringSectionHeader_length in O2, R2. rewrite (wrap_small 32 (Z.of_nat (length q) + 1)) by (unfold uint; lia).
  destruct (patch_spec (mkWriter type mach flag [] (Z.of_nat (dataTotal q)) (Z.of_nat (length q) + 1) (Z.of_nat (nameTotal q))) b2)
    as (b3 & identity & E3 & O3 & Hid & Hh); [rewrite (proj1 O2), (proj1 O1), L0; unfold data; lia|done|cbn [numSections]; lia|].
  rewrite E3. cbn [mbind option_bind]. eexists _, b3, identity. split; [done|].
  split; [rewrite (proj1 O3), (proj1 O2), (proj1 O1), L0; unfold data; lia|]. split; [done|]. split; [done|].
  split; [rewrite Hh; cbn [writerType numSections]; do 2 f_equal; lia|]. split.
  - intros i n Hi. pose proof (lookup_lt_Some _ _ _ Hi) as Hli. pose proof (dataTotal_take q i n Hi). pose proof (nameTotal_take q i n Hi).
    eapply sectionAt_only; [eapply sectionAt_only; [by apply S1|exact O2|]|exact O3|]; unfold sectionBytes, data; intros k Hk; lia.
  - apply stringHeader_spec; [|lia|lia]. rewrite (only_read _ _ _ _ 64 O3) by (intros k Hk; lia). exact R2.
Qed.

Lemma allHeaders_lookup q j s : Forall nodeOk q -> allHeaders q !! j = Some s ->
  (exists n, q !! j = Some n /\ s = mkSectionHeader (Z.of_nat (nameTotal (take j q))) (nodeType n) (nodeFlag n)
      (Z.of_nat (64 + 64 * (length q + 1) + dataTotal (take j q))) (nodeDataSize n)) \/
  (j = length q /\ s = mkSectionHeader 0 3 0 (Z.of_nat (64 + 64 * (length q + 1) + dataTotal q)) (Z.of_nat (nameTotal q))).
Proof.
  intros Hok E. unfold allHeaders in E. apply lookup_app_Some in E as [E|[Hge E]].
  - left. pose proof (lookup_lt_Some _ _ _ E) as Hlt. rewrite headersFrom_length in Hlt. apply lookup_lt_is_Some_2 in Hlt as [n Hn].
    exists n. split; [done|]. rewrite (headersFrom_lookup _ _ _ _ _ Hn) in E. by simplify_eq.
  - right. rewrite headersFrom_length in *. destruct (j - length q)%nat as [|k] eqn:Ek; [|by destruct k]. simpl in E. simplify_eq. split; [lia|done].
Qed.

(** The reader accepts what the writer wrote. *)
Lemma validate_resolved begin q b identity type : let data := (64 + 64 * (length q + 1))%nat in
  Forall nodeOk q -> Z.of_nat (totalSize q) < 2 ^ 32 -> length b = totalSize q -> 0 <= begin -> begin + Z.of_nat (totalSize q) < 2 ^ 64 ->
  take 5 identity = [127; 69; 76; 70; 2] ->
  readHeader b = Some (mkElfHeader identity type 64 64 64 (Z.of_nat (length q) + 1) (Z.of_nat (length q))) ->
  (forall i n, q !! i = Some n -> sectionAt b n (64 + 64 * i) (data + dataTotal (take i q)) (nameTotal (take i q)) (data + dataTotal q + nameTotal (take i q))) ->
  readSectionHeader (64 + 64 * length q) b = Some (mkSectionHeader 0 3 0 (Z.of_nat (data + dataTotal q)) (Z.of_nat (nameTotal q))) ->
  validateElfBinary begin b = Valid (mkElfHeader identity type 64 64 64 (Z.of_nat (length q) + 1) (Z.of_nat (length q)), allHeaders q).
Proof.
  intros data Hok Hsz Hlen Hb Hend Hid Hh Hs Hstr. unfold validateElfBinary. unfold totalSize in *.
  rewrite decide_False by (unfold sizeofHeader; lia). rewrite Hh. cbn [Identity]. rewrite decide_True by done.
  cbn [SectionNameTableIndex NumSectionHeaderEntries SectionHeadersOffset SectionHeaderEntrySize ElfHeaderSize].
  rewrite decide_True by lia. rewrite (wrap_small 64 (64 + Z.of_nat (length q) * 64)) by (unfold uint; lia).
  rewrite (wrap_small 64 (begin + Z.of_nat (length b))) by (unfold uint; lia).
  rewrite (wrap_small 64 (begin + (64 + Z.of_nat (length q) * 64))) by (unfold uint; lia). rewrite decide_True by lia.
  assert (Z.to_nat (Z.of_nat (length q) + 1) = length (allHeaders q)) as ->.
  { unfold allHeaders. rewrite length_app, headersFrom_length. simpl. lia. }
  assert (64 + sizesOf (allHeaders q) = Z.of_nat (length b)) as Esize.
  { unfold allHeaders. rewrite sizesOf_app, sizesOf_headersFrom by done. cbn [sizesOf foldr DataSize]. lia. }
  rewrite (validateLoop_spec begin (Z.of_nat (length b)) _ _ b (allHeaders q)); try done; try lia.
  - rewrite Esize, decide_True by done. done.
  - intros j s Hj. rewrite Nat.add_0_l. destruct (allHeaders_lookup q j s Hok Hj) as [(n & Hn & ->)|[-> ->]].
    + pose proof (lookup_lt_Some _ _ _ Hn). pose proof (dataTotal_take q j n Hn). pose proof (nameTotal_take q j n Hn).
      pose proof (at_header _ _ _ _ _ _ (Hs j n Hn)) as Hr. rewrite Forall_forall in Hok.
      destruct (Hok n) as (_ & _ & Hd & _); [by eapply list_elem_of_lookup_2|]. cbn [Name DataOffset DataSize].
      split; [exact Hr|]. lia.
    + cbn [Name DataOffset DataSize]. split; [exact Hstr|]. lia.
Qed.

(** C28: a binary that the writer resolves is accepted by the reader.
    Whatever sections were added, and whatever a shorter buffer held before, the
    binary has the announced size, the reader's checks pass and all its reads
    are inside the binary, and it lists the empty section, the sections in the
    order they were added with their type, flags, size and data, and the string
    table, where the name of each section stands, ended by a zero. *)
Theorem elf_round_trip type mach flag ns begin b : let q := nullNode :: ns in
  Forall nodeOk ns -> Z.of_nat (totalSize q) < 2 ^ 32 -> Z.of_nat (length q) + 1 < 2 ^ 16 -> 0 <= type < 2 ^ 16 ->
  (length b <= totalSize q)%nat -> 0 <= begin -> begin + Z.of_nat (totalSize q) < 2 ^ 64 ->
  let w := foldl (fun w n => addSection n w) (newWriter type mach flag) ns in
  exists w' b' h hs, resolveBinary w b = Some (w', b') /\ Z.of_nat (length b') = getTotalBinarySize w /\
    validateElfBinary begin b' = Valid (h, hs) /\ headerType h = type /\ length hs = (length q + 1)%nat /\
    forall i n, q !! i = Some n -> exists s t, hs !! i = Some s /\ hs !! length q = Some t /\ Type_ t = 3 /\
      Type_ s = nodeType n /\ Flags s = nodeFlag n /\ DataSize s = nodeDataSize n /\
      getSectionData (DataOffset s) (DataSize s) b' = Some (take (Z.to_nat (nodeDataSize n)) (nodeData n ++ [0])) /\
      readAt (Z.to_nat (DataOffset t + Name s)) (length (nodeName n) + 1) b' = Some (nodeName n ++ [0]).
Proof.
  intros q Hok Hsz Hcnt Htype Hlen Hb Hend w.
  assert (Forall nodeOk q) as Hokq by (constructor; [by repeat split|done]).
  assert (w = mkWriter type mach flag q (Z.of_nat (dataTotal q)) (Z.of_nat (length q)) (Z.of_nat (nameTotal q))) as ->.
  { unfold w, totalSize, q in *. cbn [dataTotal nameTotal foldr length nullNode nodeDataSize nodeName] in Hsz. fold (dataTotal ns) (nameTotal ns) in Hsz.
    rewrite writer_sections; [|done|done|done|done|..]; unfold newWriter, addSection;
      cbn [writerDataSize numSections stringTableSize writerType machine writerFlag nodeQueue nullNode nodeDataSize nodeName length];
      rewrite ?wrap_small by (unfold uint; lia); cbn [length] in *; try lia.
    cbn [dataTotal nameTotal foldr length nullNode nodeDataSize nodeName app]. fold (dataTotal ns) (nameTotal ns). f_equal; lia. }
  set (w := mkWriter type mach flag q _ _ _).
  destruct (resolveBinary_spec type mach flag q b Hokq Hsz Hcnt Htype Hlen) as (w' & b' & identity & E & L & Et & Hid & Hh & Hs & Hstr).
  fold w in E, Et. exists w', b'. eexists _, (allHeaders q). split; [exact E|]. split; [by rewrite L, Et|].
  split; [by apply (validate_resolved begin q b' identity type)|]. split; [done|].
  split; [unfold allHeaders; rewrite length_app, headersFrom_length; simpl; lia|].
  intros i n Hi. pose proof (lookup_lt_Some _ _ _ Hi) as Hil. destruct (Hs i n Hi) as [A1 A2 A3].
  eexists _, _. split; [unfold allHeaders; rewrite lookup_app_l by (by rewrite headersFrom_length); by apply headersFrom_lookup|].
  split; [unfold allHeaders; rewrite lookup_app_r by (by rewrite headersFrom_length); by rewrite headersFrom_length, Nat.sub_diag|].
  cbn [Type_ Flags DataSize DataOffset Name]. split; [done|]. split; [done|]. split; [done|]. split; [done|]. split.
  - unfold getSectionData. rewrite Nat2Z.id, A2. rewrite Forall_forall in Hokq. destruct (dataBytes_some n) as (bytes & Ed & _); [apply Hokq; by eapply list_elem_of_lookup_2|].
    rewrite Ed. unfold dataBytes, readAt in Ed. case_decide; [|done]. rewrite drop_0 in Ed. done.
  - rewrite Nat.add_0_l. replace (Z.to_nat _) with (64 + 64 * (length q + 1) + dataTotal q + nameTotal (take i q))%nat by lia. exact A3.
Qed.

(** ** Examples *)

(** A section [abc] with two bytes and one without a name, written into a
    buffer that already holds something. *)
Definition exampleSections : list SSectionNode := [mkNode 4278190084 0 [97; 98; 99] [1; 2] 2; mkNode 4278190085 2 [] [9] 1].

Lemma elf_round_trip_witness : exists w' b' h hs,
  resolveBinary (foldl (fun w n => addSection n w) (newWriter 65284 0 0) exampleSections) [5; 5; 5] = Some (w', b') /\
  validateElfBinary 4096 b' = Valid (h, hs) /\ length hs = 4%nat.
Proof.
  destruct (elf_round_trip 65284 0 0 exampleSections 4096 [5; 5; 5]) as (w' & b' & h & hs & E & _ & V & _ & L & _).
  - unfold exampleSections, nodeOk. repeat constructor; simpl; lia.
  - vm_compute. reflexivity.
  - vm_compute. reflexivity.
  - lia.
  - simpl. vm_compute. lia.
  - lia.
  - vm_compute. reflexivity.
  - exists w', b', h, hs. split; [exact E|]. split; [exact V|exact L].
Defined.

(** The checks compare wrapped pointers: a section that begins 100 bytes in
    front of the binary passes, since its offset wraps around. *)
Definition wrappedBinary : list Z :=
  [127; 69; 76; 70; 2; 1] ++ replicate 34 0 ++ le 8 64 ++ le 4 0 ++ le 2 0 ++ le 4 0 ++ le 2 64 ++ le 2 1 ++ le 2 0 ++
  le 4 0 ++ le 4 1 ++ le 8 0 ++ le 8 0 ++ le 8 (2 ^ 64 - 100) ++ le 8 64 ++ replicate 24 0.

Lemma wrapped_section_accepted : exists h,
  validateElfBinary 4096 wrappedBinary = Valid (h, [mkSectionHeader 0 1 0 (2 ^ 64 - 100) 64]).
Proof. eexists. vm_compute. reflexivity. Qed.
