(* ===== verification/Printf.v ===== *)
(** * Output of kernels

    Model of [runtime/program/print_formatter.cpp] and [.h]: a kernel's printf
    calls leave records in a buffer, each the index of a format string and the
    arguments with their type tags; [PrintFormatter] turns them into text.  The
    buffer and the 1024 characters of [output] are lists of bytes, C strings
    lists of bytes without their zero.  [snprintf] is the C library's: the text
    it produces for one conversion and one value is a parameter; how much of it
    is written and what is returned is modelled, with the sizes in [size_t].
    [None] is an access outside of a buffer or a string. *)

From S2P Require Import Prelude.
From S2P Require Import Bytes.

Inductive PRINTF_DATA_TYPE :=
  | INVALID | BYTE | SHORT | INT | FLOAT | STRING | LONG | POINTER | DOUBLE
  | VECTOR_BYTE | VECTOR_SHORT | VECTOR_INT | VECTOR_LONG | VECTOR_FLOAT | VECTOR_DOUBLE.
#[export] Instance PRINTF_DATA_TYPE_eq_dec : EqDecision PRINTF_DATA_TYPE. Proof. solve_decision. Defined.

Definition dataTypes : list PRINTF_DATA_TYPE :=
  [INVALID; BYTE; SHORT; INT; FLOAT; STRING; LONG; POINTER; DOUBLE;
   VECTOR_BYTE; VECTOR_SHORT; VECTOR_INT; VECTOR_LONG; VECTOR_FLOAT; VECTOR_DOUBLE].
(** The enumerator of a number; other numbers are no case of a switch. *)
Definition dataTypeOf (n : Z) : PRINTF_DATA_TYPE := default INVALID (dataTypes !! Z.to_nat n).

(** A value given to [snprintf]: the bits of a number of some type, a string
    (or a null pointer), or a character. *)
Inductive Value := Number (type : PRINTF_DATA_TYPE) (bits : Z) | Text (s : option (list Z)) | Character (c : Z).

Definition maxPrintfOutputLength : nat := 1024.

Definition escapeChar (escape : Z) : Z := if decide (escape = 110) then 10 else escape.

(** d i o u x X a A e E f F g G s c p *)
Definition isConversionSpecifier (c : Z) : bool :=
  bool_decide (c ∈ [100; 105; 111; 117; 120; 88; 97; 65; 101; 69; 102; 70; 103; 71; 115; 99; 112]).

(** [formatString[i]]: the zero stands behind the last character. *)
Definition charAt (s : list Z) (i : nat) : option Z := (s ++ [0]) !! i.

(** [118] is [v], [49] is [1]. *)
Fixpoint stripLoop (fuel : nat) (format : list Z) (i : nat) : option (list Z) :=
  match fuel with
  | O => None
  | S fuel =>
      c ← charAt format i;
      if decide (c = 0) then Some []
      else if decide (c <> 118) then rest ← stripLoop fuel format (i + 1); Some (c :: rest)
      else d ← charAt format (i + 1);
           if decide (d <> 49) then stripLoop fuel format (i + 2) else stripLoop fuel format (i + 3)
  end.
Definition stripVectorFormat (format : list Z) : option (list Z) := stripLoop (S (length format)) format 0.

(** [hl] before the last character is removed; [104] is [h], [108] is [l]. *)
Definition stripVectorTypeConversion (format : list Z) : list Z :=
  let len := length format in
  if decide (3 < len)%nat then
    if decide (format !! (len - 3)%nat = Some 104 /\ format !! (len - 2)%nat = Some 108)
    then take (len - 3) format ++ drop (len - 1) format else format
  else format.

(** The bytes of the scalar type, and what a vector's elements are. *)
Definition sizeOfType (t : PRINTF_DATA_TYPE) : nat :=
  match t with
  | BYTE | VECTOR_BYTE => 1
  | SHORT | VECTOR_SHORT => 2
  | INT | FLOAT | VECTOR_INT | VECTOR_FLOAT => 4
  | LONG | POINTER | DOUBLE | VECTOR_LONG | VECTOR_DOUBLE => 8
  | INVALID | STRING => 0
  end.
Definition elementType (t : PRINTF_DATA_TYPE) : option PRINTF_DATA_TYPE :=
  match t with
  | VECTOR_BYTE => Some BYTE | VECTOR_SHORT => Some SHORT | VECTOR_INT => Some INT
  | VECTOR_LONG => Some LONG | VECTOR_FLOAT => Some FLOAT | VECTOR_DOUBLE => Some DOUBLE
  | _ => None
  end.
Definition isScalar (t : PRINTF_DATA_TYPE) : bool :=
  match t with BYTE | SHORT | INT | FLOAT | LONG | DOUBLE => true | _ => false end.

(** A 32-bit pattern as an [int]. *)
Definition int32 (v : Z) : Z := if decide (v < 2 ^ 31) then v else v - 2 ^ 32.

Section formatter.
Context (snprintf : list Z -> Value -> list Z).
Context (queryPrintfString : Z -> option (list Z)) (is32Bit : bool).
Context (buffer : list Z).

(** Writes at [output + at_], [size] being what the caller says is left there;
    the length of the whole text is returned. *)
Definition simple_sprintf (output : list Z) (at_ : nat) (size : Z) (format : list Z) (v : Value) : option (list Z * nat) :=
  let text := snprintf format v in
  if decide (size = 0) then Some (output, length text)
  else
    output ← writeAt at_ (take (Z.to_nat (Z.min (size - 1) (Z.of_nat (length text)))) text ++ [0]) output;
    Some (output, length text).

(** The value and the new offset; what does not fit leaves the value as it was. *)
Definition read (bufferSize : Z) (n : nat) (value : Z) (offset : Z) : option (Z * Z) :=
  if decide (offset + Z.of_nat n <= bufferSize) then
    v ← readField (Z.to_nat offset) n buffer; Some (v, w32 (offset + Z.of_nat n))
  else Some (value, offset).

Section tokens.
Context (bufferSize : Z).

Definition typedPrintToken (type : PRINTF_DATA_TYPE) (output : list Z) (at_ : nat) (size : Z) (format : list Z) (offset : Z)
    : option (list Z * nat * Z) :=
  '(v, offset) ← read bufferSize (sizeOfType type) 0 offset;
  '(output, n) ← simple_sprintf output at_ size format (Number type v);
  Some (output, n, offset).

(** Elements [i] to [valueCount - 1]; [rest] of them are left. *)
Fixpoint vectorLoop (rest : nat) (type : PRINTF_DATA_TYPE) (value : Z) (charactersPrinted : nat) (output : list Z) (at_ : nat) (size : Z)
    (format : list Z) (offset : Z) : option (list Z * nat * Z) :=
  match rest with
  | O => Some (output, charactersPrinted, offset)
  | S rest =>
      '(value, offset) ← read bufferSize (sizeOfType type) value offset;
      '(output, n) ← simple_sprintf output (at_ + charactersPrinted) (size ⊟ Z.of_nat charactersPrinted) format (Number type value);
      let charactersPrinted := (charactersPrinted + n)%nat in
      if decide (rest = 0%nat) then Some (output, charactersPrinted, offset)
      else
        '(output, n) ← simple_sprintf output (at_ + charactersPrinted) (size ⊟ Z.of_nat charactersPrinted) [37; 99] (Character 44);
        vectorLoop rest type value (charactersPrinted + n) output at_ size format offset
  end.

Definition typedPrintVectorToken (type : PRINTF_DATA_TYPE) (output : list Z) (at_ : nat) (size : Z) (format : list Z) (offset : Z)
    : option (list Z * nat * Z) :=
  '(count, offset) ← read bufferSize 4 0 offset;
  let valueCount := int32 count in
  stripped ← stripVectorFormat format;
  let strippedFormat := stripVectorTypeConversion stripped in
  '(output, n, offset) ← vectorLoop (Z.to_nat valueCount) type 0 0 output at_ size strippedFormat offset;
  let t := Z.of_nat (sizeOfType type) in
  Some (output, n, if decide (t < 4) then w32 (offset + (4 - t) * valueCount) else offset).

Definition printPointerToken (output : list Z) (at_ : nat) (size : Z) (format : list Z) (offset : Z) : option (list Z * nat * Z) :=
  '(v, offset) ← read bufferSize 8 0 offset;
  let value := if is32Bit then Z.land v (2 ^ 32 - 1) else v in
  '(output, n) ← simple_sprintf output at_ size format (Number POINTER value);
  Some (output, n, offset).

Definition printStringToken (output : list Z) (at_ : nat) (size : Z) (format : list Z) (offset : Z) : option (list Z * nat * Z) :=
  '(type, offset) ← read bufferSize 4 0 offset;
  '(index, offset) ← read bufferSize 4 0 offset;
  '(output, n) ← simple_sprintf output at_ size format
    (if decide (dataTypeOf type = STRING) then Text (queryPrintfString index) else Number INT 0);
  Some (output, n, offset).

Definition printToken (output : list Z) (at_ : nat) (size : Z) (format : list Z) (offset : Z) : option (list Z * nat * Z) :=
  '(type, offset) ← read bufferSize 4 0 offset;
  let t := dataTypeOf type in
  if isScalar t then typedPrintToken t output at_ size format offset
  else if decide (t = POINTER) then printPointerToken output at_ size format offset
  else match elementType t with
       | Some e => typedPrintVectorToken e output at_ size format offset
       | None => Some (output, 0%nat, offset)
       end.

(** [while (isConversionSpecifier(formatString[end++]) == false && end < length)] *)
Fixpoint scanConversion (fuel : nat) (format : list Z) (length_ end_ : nat) : option nat :=
  match fuel with
  | O => None
  | S fuel =>
      c ← charAt format end_;
      if negb (isConversionSpecifier c) && bool_decide (end_ + 1 < length_)%nat
      then scanConversion fuel format length_ (end_ + 1) else Some (end_ + 1)%nat
  end.

Definition put (c : Z) (cursor : nat) (output : list Z) : option (list Z) := writeAt cursor [c] output.

(** One conversion, from [i] to [end_]. *)
Definition printConversion (format : list Z) (i end_ : nat) (output : list Z) (cursor : nat) (offset : Z) : option (list Z * nat * Z) :=
  let size := Z.of_nat maxPrintfOutputLength ⊟ Z.of_nat cursor in
  if decide (end_ - i < maxPrintfOutputLength)%nat then
    let dataFormat := take (end_ - i) (drop i format) in
    c ← charAt format (end_ - 1);
    if decide (c = 115) then printStringToken output cursor size dataFormat offset
    else printToken output cursor size dataFormat offset
  else None.

Fixpoint printLoop (fuel : nat) (format : list Z) (length_ i : nat) (cursor : nat) (output : list Z) (offset : Z) : option (list Z * Z) :=
  match fuel with
  | O => None
  | S fuel =>
      if decide (i <= length_)%nat then
        c ← charAt format i;
        if decide (c = 92) then
          e ← charAt format (i + 1);
          output ← put (escapeChar e) cursor output;
          printLoop fuel format length_ (i + 2) (cursor + 1) output offset
        else if decide (c = 37) then
          if decide ((i + 1 <= length_)%nat /\ charAt format (i + 1) = Some 37) then
            output ← put 37 cursor output;
            printLoop fuel format length_ (i + 1) (cursor + 1) output offset
          else
            end_ ← scanConversion (S length_) format length_ i;
            '(output, n, offset) ← printConversion format i end_ output cursor offset;
            printLoop fuel format length_ end_ (cursor + n) output offset
        else
          output ← put c cursor output;
          printLoop fuel format length_ (i + 1) (cursor + 1) output offset
      else Some (output, offset)
  end.

(** The text that [print] sees: up to the first zero. *)
Fixpoint cString (l : list Z) : list Z :=
  match l with [] => [] | c :: l => if decide (c = 0) then [] else c :: cString l end.

(** [output] is not initialised; its bytes are [garbage]. *)
Definition printString (garbage : list Z) (formatString : list Z) (offset : Z) : option (list Z * Z) :=
  let length_ := Nat.min (length formatString) maxPrintfOutputLength in
  '(output, offset) ← printLoop (length_ + 2) formatString length_ 0 0 garbage offset;
  Some (cString output, offset).

Fixpoint recordLoop (fuel : nat) (garbage : list Z) (stringIndex offset : Z) : option (list (list Z)) :=
  match fuel with
  | O => None
  | S fuel =>
      if decide (w32 (offset + 4) <= bufferSize) then
        '(stringIndex, offset) ← read bufferSize 4 stringIndex offset;
        match queryPrintfString stringIndex with
        | Some formatString =>
            '(text, offset) ← printString garbage formatString offset;
            rest ← recordLoop fuel garbage stringIndex offset;
            Some (text :: rest)
        | None => recordLoop fuel garbage stringIndex offset
        end
      else Some []
  end.
End tokens.

(** The first four bytes of the buffer are its size.  The fuel is enough when
    the offset grows by four with every record. *)
Definition printKernelOutput (garbage : list Z) : option (list (list Z)) :=
  '(bufferSize, offset) ← read 4 4 4 0;
  recordLoop bufferSize (S (length buffer)) garbage 0 offset.
End formatter.

(** ** What a kernel's output should be

    A format is a sequence of pieces and a conversion comes with its argument,
    so that the bytes of the buffer and the text follow from the pieces. *)

Inductive Arg := Scalar (type : PRINTF_DATA_TYPE) (bits : Z) | Pointer (bits : Z) | Str (index : Z).

Inductive Piece :=
  | Plain (c : Z)
  | Escaped (c : Z)
  | Conversion (flags : list Z) (conv : Z) (arg : Arg)
  | VectorConversion (flags width len : list Z) (conv : Z) (type : PRINTF_DATA_TYPE) (values : list Z).

Definition pieceFormat (p : Piece) : list Z :=
  match p with
  | Plain c => [c]
  | Escaped c => [92; c]
  | Conversion flags conv _ => 37 :: flags ++ [conv]
  | VectorConversion flags width len conv _ _ => 37 :: (flags ++ 118 :: width ++ len) ++ [conv]
  end.

Definition typeCode (t : PRINTF_DATA_TYPE) : Z :=
  match t with
  | INVALID => 0 | BYTE => 1 | SHORT => 2 | INT => 3 | FLOAT => 4 | STRING => 5 | LONG => 6 | POINTER => 7 | DOUBLE => 8
  | VECTOR_BYTE => 9 | VECTOR_SHORT => 10 | VECTOR_INT => 11 | VECTOR_LONG => 12 | VECTOR_FLOAT => 13 | VECTOR_DOUBLE => 14
  end.
Definition vectorOf (t : PRINTF_DATA_TYPE) : PRINTF_DATA_TYPE :=
  match t with
  | BYTE => VECTOR_BYTE | SHORT => VECTOR_SHORT | INT => VECTOR_INT | LONG => VECTOR_LONG | FLOAT => VECTOR_FLOAT | DOUBLE => VECTOR_DOUBLE
  | t => t
  end.

Definition argBytes (a : Arg) : list Z :=
  match a with
  | Scalar t bits => le 4 (typeCode t) ++ le (sizeOfType t) bits
  | Pointer bits => le 4 (typeCode POINTER) ++ le 8 bits
  | Str index => le 4 (typeCode STRING) ++ le 4 index
  end.
(** The elements of a vector are packed; what small elements save is left at
    the end. *)
Definition pieceBytes (p : Piece) : list Z :=
  match p with
  | Conversion _ _ a => argBytes a
  | VectorConversion _ _ _ _ t vs =>
      le 4 (typeCode (vectorOf t)) ++ le 4 (Z.of_nat (length vs)) ++ (vs ≫= le (sizeOfType t)) ++ replicate ((4 - sizeOfType t) * length vs) 0
  | _ => []
  end.

Definition fits (t : PRINTF_DATA_TYPE) (v : Z) : Prop := 0 <= v < 256 ^ Z.of_nat (sizeOfType t).
Definition argWf (conv : Z) (a : Arg) : Prop :=
  match a with
  | Scalar t bits => conv <> 115 /\ isScalar t = true /\ fits t bits
  | Pointer bits => conv <> 115 /\ fits POINTER bits
  | Str index => conv = 115 /\ fits INT index
  end.
Definition flag (c : Z) : Prop := c <> 0 /\ c <> 37 /\ isConversionSpecifier c = false.
(** [h], [l] and [v] do not occur among the flags of a vector conversion; the
    length is one of none, [h], [l], [hh] and [hl]. *)
Definition pieceWf (p : Piece) : Prop :=
  match p with
  | Plain c => c <> 0 /\ c <> 92 /\ c <> 37
  | Escaped c => c <> 0
  | Conversion flags conv a => Forall flag flags /\ isConversionSpecifier conv = true /\ argWf conv a
  | VectorConversion flags width len conv t vs =>
      Forall flag flags /\ Forall (fun c => c <> 104 /\ c <> 118) flags /\
      (exists d, 48 <= d <= 57 /\ (d <> 49 /\ width = [d] \/ width = [49; d])) /\
      len ∈ [[]; [104]; [108]; [104; 104]; [104; 108]] /\
      isConversionSpecifier conv = true /\ conv <> 115 /\
      isScalar t = true /\ Forall (fits t) vs /\ Z.of_nat (length vs) < 2 ^ 31
  end.

Fixpoint join (comma : list Z) (texts : list (list Z)) : list Z :=
  match texts with [] => [] | [t] => t | t :: texts => t ++ comma ++ join comma texts end.

Section reference.
Context (snprintf : list Z -> Value -> list Z).
Context (queryPrintfString : Z -> option (list Z)) (is32Bit : bool).

Definition argValue (a : Arg) : Value :=
  match a with
  | Scalar t bits => Number t bits
  | Pointer bits => Number POINTER (if is32Bit then bits mod 2 ^ 32 else bits)
  | Str index => Text (queryPrintfString index)
  end.

(** A vector's elements are printed with the format less [v], the width and
    the length [hl], with commas between them. *)
Definition renderPiece (p : Piece) : list Z :=
  match p with
  | Plain c => [c]
  | Escaped c => [if decide (c = 110) then 10 else c]
  | Conversion _ _ a => snprintf (pieceFormat p) (argValue a)
  | VectorConversion flags width len conv t vs =>
      let format := 37 :: flags ++ (if decide (len = [104; 108]) then [] else len) ++ [conv] in
      join (snprintf [37; 99] (Character 44)) (map (fun v => snprintf format (Number t v)) vs)
  end.

Definition recordWf (r : Z * list Piece) : Prop :=
  fits INT (fst r) /\ Forall pieceWf (snd r) /\
  queryPrintfString (fst r) = Some (snd r ≫= pieceFormat) /\
  (length (snd r ≫= pieceFormat) < maxPrintfOutputLength)%nat.
End reference.

Definition recordBytes (r : Z * list Piece) : list Z := le 4 (fst r) ++ (snd r ≫= pieceBytes).
(** The buffer: its size, the records, and what follows. *)
Definition bufferOf (rs : list (Z * list Piece)) (post : list Z) : list Z :=
  le 4 (4 + Z.of_nat (length (rs ≫= recordBytes))) ++ (rs ≫= recordBytes) ++ post.

(** ** The text written so far *)

Definition Written (output text : list Z) : Prop :=
  exists rest, output = text ++ rest /\ length output = maxPrintfOutputLength.

Lemma writeAt_written output text bs : Written output text -> (length text + length bs <= maxPrintfOutputLength)%nat ->
  exists output', writeAt (length text) bs output = Some output' /\ Written output' (text ++ bs).
Proof.
  intros (rest & -> & Hl) Hb. unfold writeAt. rewrite decide_True by lia. eexists. split; [done|].
  rewrite length_app in Hl. exists (drop (length bs) rest). split.
  - rewrite <- (Nat.add_0_r (length text)) at 1. rewrite list_inserts_app_r, <- app_assoc. f_equal.
    rewrite <- (take_drop (length bs) rest) at 1. rewrite list_inserts_0_r; [done|]. rewrite length_take. lia.
  - rewrite length_inserts, length_app. done.
Qed.

Lemma written_prefix output a b : Written output (a ++ b) -> Written output a.
Proof. intros (rest & -> & H). exists (b ++ rest). by rewrite app_assoc. Qed.

Lemma written_start output : length output = maxPrintfOutputLength -> Written output [].
Proof. intros H. by exists output. Qed.

Lemma cString_cut a b : cString (a ++ 0 :: b) = cString a.
Proof. induction a as [|c a IH]; simpl; [done|]. case_decide; [done|]. by rewrite IH. Qed.

Lemma sprintf_written sn output text fmt v : Written output text -> (length text + length (sn fmt v) < maxPrintfOutputLength)%nat ->
  exists output', simple_sprintf sn output (length text) (Z.of_nat maxPrintfOutputLength ⊟ Z.of_nat (length text)) fmt v
    = Some (output', length (sn fmt v)) /\ Written output' (text ++ sn fmt v).
Proof.
  intros HW Hb. unfold simple_sprintf, maxPrintfOutputLength in *. unwrap. rewrite decide_False by lia.
  rewrite take_ge by lia. destruct (writeAt_written output text (sn fmt v ++ [0])) as (o & E & W); [done|rewrite length_app; unfold maxPrintfOutputLength; simpl; lia|].
  rewrite E. simpl. eexists. split; [done|]. rewrite app_assoc in W. by apply written_prefix in W.
Qed.

(** ** Reading the buffer *)

Section reading.
Context (buffer : list Z) (bufferSize : Z).

(** The bytes [bs] are at the offset, inside of the size. *)
Definition Holds (offset : Z) (bs : list Z) : Prop :=
  exists pre post, buffer = pre ++ bs ++ post /\ offset = Z.of_nat (length pre) /\
    offset + Z.of_nat (length bs) <= bufferSize < 2 ^ 32.

Lemma holds_app offset a b : Holds offset (a ++ b) -> Holds offset a /\ Holds (offset + Z.of_nat (length a)) b.
Proof.
  intros (pre & post & E & -> & H). rewrite length_app in H. rewrite <- app_assoc in E. split.
  - exists pre, (b ++ post). repeat split; [done|lia..].
  - exists (pre ++ a), post. rewrite length_app, <- app_assoc. repeat split; [done|lia..].
Qed.

Lemma read_holds offset n v x : Holds offset (le n v) -> 0 <= v < 256 ^ Z.of_nat n ->
  read buffer bufferSize n x offset = Some (v, offset + Z.of_nat n).
Proof.
  intros (pre & post & E & -> & H) Hv. rewrite le_length in H. unfold read. rewrite decide_True by lia.
  unfold readField, readAt. rewrite E, Nat2Z.id, !length_app, le_length, decide_True by lia. simpl.
  rewrite drop_app_length, take_app_le by (rewrite le_length; lia). rewrite take_ge by (rewrite le_length; lia).
  rewrite unle_le by done. simpl. unwrap. done.
Qed.

(** One read: the value and what is behind it. *)
Lemma read_next offset n v bs x : Holds offset (le n v ++ bs) -> 0 <= v < 256 ^ Z.of_nat n ->
  read buffer bufferSize n x offset = Some (v, offset + Z.of_nat n) /\ Holds (offset + Z.of_nat n) bs.
Proof. intros H Hv. apply holds_app in H as [H1 H2]. rewrite le_length in H2. split; [by apply read_holds|done]. Qed.

Lemma typeCode_dataType t : dataTypeOf (typeCode t) = t.
Proof. by destruct t. Qed.
Lemma typeCode_range t : 0 <= typeCode t < 256 ^ Z.of_nat 4.
Proof. destruct t; simpl; lia. Qed.
End reading.
#[global] Hint Resolve typeCode_range : core.

(** ** Formats *)

Lemma charAt_mid pre c post : charAt (pre ++ c :: post) (length pre) = Some c.
Proof. unfold charAt. rewrite <- app_assoc. by apply list_lookup_middle. Qed.
Lemma charAt_next pre c d post : charAt (pre ++ c :: d :: post) (length pre + 1) = Some d.
Proof. pose proof (charAt_mid (pre ++ [c]) d post) as H. rewrite <- app_assoc, length_app in H. exact H. Qed.
Lemma charAt_end s : charAt s (length s) = Some 0.
Proof. unfold charAt. by apply list_lookup_middle. Qed.

(** [isConversionSpecifier] as a membership: what it says about a character. *)
Lemma specifier_chars c : isConversionSpecifier c = true -> c <> 0 /\ c <> 37 /\ c <> 104 /\ c <> 108 /\ c <> 118.
Proof. intros H. repeat split; intros ->; vm_compute in H; discriminate. Qed.

Lemma strip_copy body pre rest fuel : Forall (fun c => c <> 0 /\ c <> 118) body -> (length body <= fuel)%nat ->
  stripLoop fuel (pre ++ body ++ rest) (length pre) =
  app body <$> stripLoop (fuel - length body) ((pre ++ body) ++ rest) (length (pre ++ body)).
Proof.
  revert pre fuel. induction body as [|c body IH]; intros pre fuel Hb Hf.
  - rewrite app_nil_r, Nat.sub_0_r. simpl. by destruct (stripLoop _ _ _).
  - inversion_clear Hb as [|?? [H0 H1] Hb']. destruct fuel as [|fuel]; simpl in Hf; [lia|]. cbn [stripLoop].
    change ((c :: body) ++ rest) with (c :: body ++ rest). rewrite charAt_mid. simpl.
    rewrite decide_False, decide_True by done.
    pose proof (IH (pre ++ [c]) fuel Hb' ltac:(lia)) as E. rewrite <- !app_assoc in E. rewrite !length_app in E. simpl in E.
    rewrite <- !app_assoc, !length_app. simpl. rewrite E. clear IH E. by destruct (stripLoop _ _ _).
Qed.

Lemma strip_end s fuel : stripLoop (S fuel) s (length s) = Some [].
Proof. simpl. rewrite charAt_end. done. Qed.

(** Copying up to the end of the string. *)
Lemma strip_tail pre body fuel : Forall (fun c => c <> 0 /\ c <> 118) body -> (length body < fuel)%nat ->
  stripLoop fuel (pre ++ body) (length pre) = Some body.
Proof.
  intros Hb Hf. rewrite <- (app_nil_r body) at 1. rewrite strip_copy by (done || lia). rewrite app_nil_r.
  destruct (fuel - length body)%nat eqn:E; [lia|]. rewrite strip_end. simpl. by rewrite app_nil_r.
Qed.

(** The [v] and the width are left out. *)
Lemma strip_width pre d width rest fuel : d <> 49 /\ width = [d] \/ width = [49; d] ->
  stripLoop (S fuel) (pre ++ 118 :: width ++ rest) (length pre) =
  stripLoop fuel ((pre ++ 118 :: width) ++ rest) (length (pre ++ 118 :: width)).
Proof.
  intros Hw. cbn [stripLoop]. rewrite charAt_mid, length_app, <- app_assoc. simpl.
  destruct Hw as [[Hd ->] | ->]; simpl; rewrite charAt_next; simpl.
  - rewrite decide_True by done. done.
  - done.
Qed.

Lemma strip_format flags width len conv d : Forall flag flags -> Forall (fun c => c <> 104 /\ c <> 118) flags ->
  d <> 49 /\ width = [d] \/ width = [49; d] -> len ∈ [[]; [104]; [108]; [104; 104]; [104; 108]] ->
  isConversionSpecifier conv = true ->
  stripVectorFormat (37 :: (flags ++ 118 :: width ++ len) ++ [conv]) = Some (37 :: flags ++ len ++ [conv]).
Proof.
  intros Hf Hv Hw Hl Hc. apply specifier_chars in Hc as (H0 & _ & _ & _ & H118). unfold stripVectorFormat.
  replace (37 :: (flags ++ 118 :: width ++ len) ++ [conv]) with ([] ++ (37 :: flags) ++ (118 :: width ++ len ++ [conv])).
  2: { simpl. f_equal. rewrite <- !app_assoc. simpl. by rewrite <- app_assoc. }
  set (n := length _). change 0%nat with (length (@nil Z)). rewrite strip_copy.
  2: { constructor; [done|]. apply Forall_forall. intros c Hc. rewrite Forall_forall in Hf, Hv. specialize (Hf c Hc). specialize (Hv c Hc). unfold flag in Hf. tauto. }
  2: { subst n. simpl. rewrite !length_app. lia. }
  replace (S n - length (37%Z :: flags))%nat with (S (S (length width + length len + 1))) by (subst n; simpl; rewrite !length_app; simpl; rewrite !length_app; simpl; lia).
  rewrite strip_width with (d := d), strip_tail; [done| |rewrite length_app; simpl; lia|done].
  apply Forall_app. split; [|by repeat constructor]. set_unfold in Hl. destruct_or!; subst; repeat constructor; done.
Qed.

(** Only [hl] is removed before the conversion character. *)
Lemma strip_conversion flags len conv : Forall (fun c => c <> 104 /\ c <> 118) flags -> len ∈ [[]; [104]; [108]; [104; 104]; [104; 108]] ->
  stripVectorTypeConversion (37 :: flags ++ len ++ [conv]) = 37 :: flags ++ (if decide (len = [104; 108]) then [] else len) ++ [conv].
Proof.
  intros Hf Hl. unfold stripVectorTypeConversion.
  assert (forall i, (37 :: flags) !! i <> Some 104) as Hn.
  { intros [|i]; simpl; [done|]. intros E. rewrite Forall_lookup in Hf. by destruct (Hf _ _ E). }
  change (37 :: flags ++ len ++ [conv]) with ((37 :: flags) ++ len ++ [conv]). rewrite !length_app.
  assert (0 < length (37%Z :: flags))%nat as Hp by (simpl; lia).
  change (37 :: flags ++ ?x) with ((37 :: flags) ++ x). generalize dependent (37 :: flags). clear Hf flags. intros A Hn Hp.
  set_unfold in Hl. destruct_or!; subst len; simpl length; try rewrite (decide_False (P := _ = [104; 108])) by done; try rewrite (decide_True (P := _ = [104; 108])) by done; case_decide as H4; try done.
  - rewrite decide_False; [done|]. intros [E _]. rewrite lookup_app_l in E by lia. by apply Hn in E.
  - rewrite decide_False; [done|]. intros [_ E]. rewrite lookup_app_r in E by lia.
    replace (length A + (1 + 1) - 2 - length A)%nat with 0%nat in E by lia. done.
  - rewrite decide_False; [done|]. intros [E _]. rewrite lookup_app_l in E by lia. by apply Hn in E.
  - rewrite decide_False; [done|]. intros [_ E]. rewrite lookup_app_r in E by lia.
    replace (length A + (2 + 1) - 2 - length A)%nat with 1%nat in E by lia. done.
  - rewrite decide_True.
    2: { split; rewrite lookup_app_r by lia; [by replace (length A + (2 + 1) - 3 - length A)%nat with 0%nat by lia|].
         by replace (length A + (2 + 1) - 2 - length A)%nat with 1%nat by lia. }
    rewrite take_app_le, take_ge by lia. rewrite drop_app_ge by lia. by replace (length A + (2 + 1) - 1 - length A)%nat with 2%nat by lia.
  - lia.
Qed.

(** ** Arguments *)

Section correctness.
Context (snprintf : list Z -> Value -> list Z).
Context (queryPrintfString : Z -> option (list Z)) (is32Bit : bool).
Context (buffer : list Z) (bufferSize : Z).

Local Abbreviation Holds := (Holds buffer bufferSize).
Local Abbreviation space text := (Z.of_nat maxPrintfOutputLength ⊟ Z.of_nat (length text)).

(** A step of the printer that consumes [bytes] and writes [new]. *)
Definition Prints (text new bytes : list Z) (offset : Z) (r : option (list Z * nat * Z)) : Prop :=
  exists output', r = Some (output', length new, offset + Z.of_nat (length bytes)) /\ Written output' (text ++ new).

(** Printing behind what a token has already printed. *)
Lemma sprintf_more (text dn output fmt : list Z) v : Written output (text ++ dn) ->
  (length text + length dn + length (snprintf fmt v) < maxPrintfOutputLength)%nat ->
  exists output', simple_sprintf snprintf output (length text + length dn) (space text ⊟ Z.of_nat (length dn)) fmt v
    = Some (output', length (snprintf fmt v)) /\ Written output' (text ++ dn ++ snprintf fmt v).
Proof.
  intros HW Hl. rewrite app_assoc, <- length_app.
  replace (space text ⊟ Z.of_nat (length dn)) with (space (text ++ dn)).
  - apply sprintf_written; [done|]. by rewrite length_app.
  - rewrite length_app. unfold maxPrintfOutputLength in *. unwrap. lia.
Qed.

(** The rest of the elements, [text] and [dn] being written. *)
Lemma vectorLoop_prints fmt t vs : Forall (fits t) vs -> forall text dn output offset value post,
  let new := join (snprintf [37; 99] (Character 44)) (map (fun v => snprintf fmt (Number t v)) vs) in
  Holds offset ((vs ≫= le (sizeOfType t)) ++ post) -> Written output (text ++ dn) ->
  (length text + length dn + length new < maxPrintfOutputLength)%nat ->
  exists output', vectorLoop snprintf buffer bufferSize (length vs) t value (length dn) output (length text) (space text) fmt offset
    = Some (output', (length dn + length new)%nat, offset + Z.of_nat (length (vs ≫= le (sizeOfType t)))) /\
    Written output' (text ++ dn ++ new).
Proof.
  induction 1 as [|v vs Hv Hvs IH]; intros text dn output offset value post new HH HW Hl; subst new; cbv zeta in *.
  - simpl. rewrite Nat.add_0_r, Z.add_0_r, app_nil_r. by eexists.
  - cbn [length vectorLoop]. rewrite bind_cons, <- app_assoc in HH. rewrite bind_cons, length_app, le_length.
    apply (read_next _ _ _ _ _ _ value) in HH as [-> HH]; [|done]. simpl mbind. destruct vs as [|v' vs].
    + simpl in Hl. destruct (sprintf_more text dn output fmt (Number t v) HW Hl) as (o & -> & W).
      simpl. rewrite Z.add_0_r || rewrite Nat.add_0_r. by eexists.
    + remember (v' :: vs) as vs' eqn:Evs. assert (length vs' <> 0%nat) as Hne by (by subst). change (map ?f (v :: vs')) with (f v :: map f vs') in *. cbv beta in *.
      replace (join _ _) with (snprintf fmt (Number t v) ++ snprintf [37; 99] (Character 44) ++ join (snprintf [37; 99] (Character 44)) (map (fun v => snprintf fmt (Number t v)) vs')) in * by (by subst).
      rewrite !length_app in Hl.
      destruct (sprintf_more text dn output fmt (Number t v) HW) as (o & -> & W); [lia|]. simpl mbind.
      rewrite decide_False, <- length_app by done.
      destruct (sprintf_more text (dn ++ snprintf fmt (Number t v)) o [37; 99] (Character 44) W) as (o2 & -> & W2); [rewrite length_app; lia|].
      simpl mbind. rewrite <- length_app.
      destruct (IH text ((dn ++ snprintf fmt (Number t v)) ++ snprintf [37; 99] (Character 44)) o2 _ v post HH) as (o3 & E & W3).
      { done. } { rewrite !length_app. lia. }
      rewrite E. eexists. split; [|rewrite <- !app_assoc in W3; exact W3]. rewrite !length_app. f_equal. f_equal; [f_equal; lia|lia].
Qed.

(** ** Conversions *)

Lemma arg_prints fmt conv a text output offset post : argWf conv a -> Holds offset (argBytes a ++ post) -> Written output text ->
  let new := snprintf fmt (argValue queryPrintfString is32Bit a) in
  (length text + length new < maxPrintfOutputLength)%nat ->
  Prints text new (argBytes a) offset
    (if decide (conv = 115) then printStringToken snprintf queryPrintfString buffer bufferSize output (length text) (space text) fmt offset
     else printToken snprintf is32Bit buffer bufferSize output (length text) (space text) fmt offset).
Proof.
  intros Ha HH HW new Hl. destruct (sprintf_written snprintf output text fmt (argValue queryPrintfString is32Bit a) HW Hl) as (o & E & W).
  unfold Prints. unfold new. destruct a as [t v|v|index]; unfold argBytes, argWf in *; rewrite <- app_assoc in HH; rewrite length_app, !le_length;
    apply (read_next _ _ _ _ _ _ 0) in HH as [R HH]; try apply typeCode_range; simpl in E, W |- *.
  - destruct Ha as (Hc & Ht & Hv). rewrite decide_False by done. unfold printToken. rewrite R. simpl. rewrite typeCode_dataType, Ht.
    apply (read_next _ _ _ _ _ _ 0) in HH as [R2 _]; [|done]. unfold typedPrintToken. rewrite R2. simpl. rewrite E. simpl.
    eexists. split; [|exact W]. f_equal. f_equal. lia.
  - destruct Ha as (Hc & Hv). rewrite decide_False by done. unfold printToken. rewrite R. simpl.
    apply (read_next _ _ _ _ _ _ 0) in HH as [R2 _]; [|done]. unfold printPointerToken. rewrite R2. simpl.
    replace (if is32Bit then Z.land v (2 ^ 32 - 1) else v) with (if is32Bit then v mod 2 ^ 32 else v) by (by rewrite land_low_ones).
    rewrite E. simpl. eexists. split; [|exact W]. f_equal. f_equal. lia.
  - destruct Ha as [-> Hv]. rewrite decide_True by done. unfold printStringToken. rewrite R. simpl.
    apply (read_next _ _ _ _ _ _ 0) in HH as [R2 _]; [|done]. rewrite R2. simpl. rewrite E. simpl.
    eexists. split; [|exact W]. f_equal. f_equal. lia.
Qed.

Lemma vector_bytes_length t vs : length (vs ≫= le (sizeOfType t)) = (sizeOfType t * length vs)%nat.
Proof. induction vs as [|v vs IH]; [simpl; lia|]. rewrite bind_cons, length_app, le_length, IH. simpl. lia. Qed.

Lemma vector_prints flags width len conv t vs text output offset post :
  let p := VectorConversion flags width len conv t vs in
  let new := renderPiece snprintf queryPrintfString is32Bit p in
  pieceWf p -> Holds offset (pieceBytes p ++ post) -> Written output text ->
  (length text + length new < maxPrintfOutputLength)%nat ->
  Prints text new (pieceBytes p) offset (printToken snprintf is32Bit buffer bufferSize output (length text) (space text) (pieceFormat p) offset).
Proof.
  intros p new (Hf & Hh & (d & Hd & Hw) & Hlen & Hc & Hc' & Ht & Hvs & Hn) HH HW Hl. unfold p in *.
  cbn [pieceBytes] in HH |- *. unfold printToken. rewrite <- !app_assoc in HH.
  assert (exists pre post, buffer = pre ++ post /\ offset + Z.of_nat (length (pieceBytes p)) < 2 ^ 32) as (_ & _ & _ & Hsize).
  { destruct HH as (pre & po & E & -> & H). exists pre, (drop (length pre) buffer). split; [rewrite E, drop_app_length; done|].
    unfold p. cbn [pieceBytes]. rewrite !length_app in *. lia. }
  unfold p in Hsize. cbn [pieceBytes] in Hsize. rewrite !length_app, !le_length, length_replicate, vector_bytes_length in Hsize.
  assert (0 <= offset) as Ho by (destruct HH as (pre & po & _ & -> & _); lia).
  apply (read_next _ _ _ _ _ _ 0) in HH as [-> HH]; [|apply typeCode_range]. simpl mbind. rewrite typeCode_dataType.
  replace (isScalar (vectorOf t)) with false by (by destruct t). rewrite decide_False by (by destruct t).
  replace (elementType (vectorOf t)) with (Some t) by (by destruct t). unfold typedPrintVectorToken.
  apply (read_next _ _ _ _ _ _ 0) in HH as [-> HH]; [|simpl; lia]. simpl mbind.
  rewrite (strip_format flags width len conv d) by done. simpl mbind. rewrite strip_conversion by done.
  unfold int32. rewrite decide_True by done. rewrite Nat2Z.id.
  destruct (vectorLoop_prints (37 :: flags ++ (if decide (len = [104; 108]) then [] else len) ++ [conv]) t vs Hvs text [] output _ 0 _ HH) as (o & E & W).
  { by rewrite app_nil_r. } { unfold new in Hl. cbn [renderPiece] in Hl. simpl length. lia. }
  simpl length in E. rewrite E. simpl mbind. exists o. split; [|exact W].
  rewrite !length_app, !le_length, length_replicate, vector_bytes_length in *. f_equal. f_equal.
  assert (sizeOfType t = 1 \/ sizeOfType t = 2 \/ sizeOfType t = 4 \/ sizeOfType t = 8)%nat as Hs by (destruct t; simpl in *; (done || lia)).
  clear -Hsize Ho Hs Hn. destruct_or! Hs; rewrite Hs in *; clear Hs; case_decide; try rewrite wrap_small; unfold uint; lia.
Qed.

(** [printConversion] does one conversion of a format. *)
Lemma conversion_prints p pre rest text output offset post :
  let new := renderPiece snprintf queryPrintfString is32Bit p in
  pieceWf p -> (match p with Plain _ | Escaped _ => False | _ => True end) ->
  (length (pieceFormat p) < maxPrintfOutputLength)%nat ->
  Holds offset (pieceBytes p ++ post) -> Written output text -> (length text + length new < maxPrintfOutputLength)%nat ->
  Prints text new (pieceBytes p) offset
    (printConversion snprintf queryPrintfString is32Bit buffer bufferSize (pre ++ pieceFormat p ++ rest) (length pre)
       (length pre + length (pieceFormat p)) output (length text) offset).
Proof.
  intros new Hp Hk Hf HH HW Hl. unfold printConversion.
  replace (length pre + length (pieceFormat p) - length pre)%nat with (length (pieceFormat p)) by lia.
  rewrite decide_True by done. rewrite drop_app_length, take_app_length.
  assert (exists front conv, pieceFormat p = front ++ [conv] /\ match p with Conversion _ c _ | VectorConversion _ _ _ c _ _ => c = conv | _ => True end)
    as (front & conv & Ef & Ec).
  { destruct p as [| |fl c ?|fl w ln c ??]; [done|done|exists (37 :: fl), c|exists (37 :: fl ++ 118 :: w ++ ln), c]; done. }
  replace (charAt (pre ++ pieceFormat p ++ rest) (length pre + length (pieceFormat p) - 1)) with (Some conv).
  2: { rewrite Ef, length_app. simpl. replace (pre ++ (front ++ [conv]) ++ rest) with ((pre ++ front) ++ conv :: rest) by (rewrite <- !app_assoc; done).
       replace (length pre + (length front + 1) - 1)%nat with (length (pre ++ front)) by (rewrite length_app; lia). by rewrite charAt_mid. }
  simpl mbind. destruct p as [| |fl c a|fl w ln c t vs]; [done|done| |]; subst c.
  - destruct Hp as (_ & _ & Ha). by apply (arg_prints (pieceFormat (Conversion fl conv a)) conv a text output offset post).
  - rewrite decide_False by apply Hp. by eapply vector_prints.
Qed.

(** The scan for the end of a conversion. *)
Lemma scan_spec body pre conv rest len fuel : Forall (fun c => isConversionSpecifier c = false) body -> isConversionSpecifier conv = true ->
  (length (pre ++ body ++ [conv]) <= len)%nat -> (length body < fuel)%nat ->
  scanConversion fuel (pre ++ body ++ conv :: rest) len (length pre) = Some (length pre + length body + 1)%nat.
Proof.
  intros Hb Hc. revert pre fuel. induction Hb as [|c body Hn Hb IH]; intros pre fuel Hl Hf; (destruct fuel as [|fuel]; [simpl in Hf; lia|]); cbn [scanConversion].
  - simpl app. rewrite charAt_mid. simpl mbind. rewrite Hc. simpl. f_equal. lia.
  - simpl app. rewrite charAt_mid. simpl mbind. rewrite Hn. simpl in Hl. rewrite !length_app in Hl. simpl in Hl. rewrite length_app in Hl. simpl in Hl.
    rewrite bool_decide_eq_true_2 by lia. simpl.
    pose proof (IH (pre ++ [c]) fuel) as E. rewrite <- !app_assoc, !length_app in E. simpl in E. rewrite E; [f_equal; lia| |simpl in Hf; lia].
    simpl. lia.
Qed.

Lemma piece_scan p pre rest : pieceWf p -> (match p with Plain _ | Escaped _ => False | _ => True end) ->
  scanConversion (S (length (pre ++ pieceFormat p ++ rest))) (pre ++ pieceFormat p ++ rest) (length (pre ++ pieceFormat p ++ rest)) (length pre)
    = Some (length pre + length (pieceFormat p))%nat /\
  charAt (pre ++ pieceFormat p ++ rest) (length pre) = Some 37 /\
  charAt (pre ++ pieceFormat p ++ rest) (length pre + 1) <> Some 37.
Proof.
  intros Hp Hk.
  assert (exists body conv, pieceFormat p = 37 :: body ++ [conv] /\ Forall flag body /\ isConversionSpecifier conv = true) as (body & conv & -> & Hb & Hc).
  { destruct p as [| |fl c ?|fl w ln c ??]; [done|done|exists fl, c|exists (fl ++ 118 :: w ++ ln), c].
    - by destruct Hp as (? & ? & _).
    - destruct Hp as (Hf & _ & (d & Hd & Hw) & Hl & Hc & _). split; [done|]. split; [|done].
      assert (forall x, 48 <= x <= 57 -> flag x) as Hdig.
      { intros x Hx. unfold flag. assert (In x [48;49;50;51;52;53;54;55;56;57]) as Hi by (simpl; lia).
        simpl in Hi. destruct_or! Hi; try done; subst x; vm_compute; done. }
      apply Forall_app. split; [done|]. constructor; [done|]. apply Forall_app. split.
      + destruct Hw as [[_ ->] | ->]; repeat constructor; by apply Hdig.
      + set_unfold in Hl. destruct_or! Hl; subst; repeat constructor; done. }
  split.
  - replace (pre ++ (37 :: body ++ [conv]) ++ rest) with (pre ++ (37 :: body) ++ conv :: rest) by (simpl; by rewrite <- app_assoc).
    rewrite scan_spec; [f_equal; simpl; rewrite length_app; simpl; lia| |done| |].
    + constructor; [done|]. eapply Forall_impl; [done|]. by intros ? (_ & _ & ?).
    + rewrite !length_app. simpl. lia.
    + rewrite !length_app. simpl. lia.
  - split; [simpl app; by rewrite charAt_mid|]. simpl. destruct body as [|c body]; simpl; rewrite charAt_next.
    + apply specifier_chars in Hc. naive_solver.
    + inversion_clear Hb as [|?? (_ & H & _)]. congruence.
Qed.

(** ** Format strings and records *)

Local Abbreviation render := (renderPiece snprintf queryPrintfString is32Bit).

(** [print] from a piece's first character on. *)
Lemma printLoop_prints ps : Forall pieceWf ps -> forall pre text output offset post fuel,
  let format := pre ++ (ps ≫= pieceFormat) in let new := ps ≫= render in
  (length format < maxPrintfOutputLength)%nat -> (length (ps ≫= pieceFormat) + 2 <= fuel)%nat ->
  Holds offset ((ps ≫= pieceBytes) ++ post) -> Written output text -> (length text + length new < maxPrintfOutputLength)%nat ->
  exists output', printLoop snprintf queryPrintfString is32Bit buffer bufferSize fuel format (length format) (length pre) (length text) output offset
    = Some (output', offset + Z.of_nat (length (ps ≫= pieceBytes))) /\ Written output' (text ++ new ++ [0]).
Proof.
  induction 1 as [|p ps Hp Hps IH]; intros pre text output offset post fuel; cbv zeta; intros Hlen Hfuel HH HW Hl.
  - simpl in *. destruct fuel as [|[|fuel]]; [lia..|]. rewrite app_nil_r in *. cbn [printLoop]. rewrite decide_True by lia.
    rewrite charAt_end. simpl mbind.
    destruct (writeAt_written output text [0] HW) as (o & E & W); [simpl; lia|]. unfold put. rewrite E. simpl mbind.
    rewrite decide_False by lia. rewrite Z.add_0_r. by exists o.
  - rewrite !bind_cons in *. rewrite !length_app in *. rewrite <- app_assoc in HH.
    apply holds_app in HH as HH'. destruct HH' as [_ HH'].
    destruct fuel as [|fuel]; [lia|]. cbn [printLoop].
    (* the rest of the format, the piece being printed *)
    assert (forall output' offset' fuel', Written output' (text ++ render p) -> offset' = offset + Z.of_nat (length (pieceBytes p)) ->
      (length (ps ≫= pieceFormat) + 2 <= fuel')%nat ->
      exists output'', printLoop snprintf queryPrintfString is32Bit buffer bufferSize fuel' (pre ++ pieceFormat p ++ (ps ≫= pieceFormat))
        (length pre + (length (pieceFormat p) + length (ps ≫= pieceFormat))) (length pre + length (pieceFormat p)) (length text + length (render p)) output' offset'
        = Some (output'', offset + Z.of_nat (length (pieceBytes p) + length (ps ≫= pieceBytes))) /\
        Written output'' (text ++ (render p ++ (ps ≫= render)) ++ [0])) as Hrest.
    { intros o' off' f' W -> Hf'. destruct (IH (pre ++ pieceFormat p) (text ++ render p) o' (offset + Z.of_nat (length (pieceBytes p))) post f') as (o'' & E & W''); try done.
      - rewrite !length_app. lia.
      - rewrite !length_app. lia.
      - rewrite !length_app in E. rewrite <- !app_assoc in E, W''. rewrite <- Nat.add_assoc in E. exists o''. rewrite E. split; [|by rewrite <- !app_assoc].
        f_equal. f_equal. lia. }
    rewrite decide_True by lia. destruct p as [c|c|flags conv a|flags width len conv t vs].
    + destruct Hp as (H0 & H92 & H37). simpl app. rewrite charAt_mid. simpl mbind. rewrite !decide_False by done.
      destruct (writeAt_written output text [c] HW) as (o & E & W); [simpl in *; lia|]. unfold put. rewrite E. simpl mbind.
      apply (Hrest o offset fuel); [done|simpl; lia|simpl in Hfuel; lia].
    + simpl app. rewrite charAt_mid, charAt_next. simpl mbind. simpl in Hp.
      destruct (writeAt_written output text [escapeChar c] HW) as (o & E & W); [simpl in *; lia|]. unfold put. rewrite E. simpl mbind.
      apply (Hrest o offset fuel); [done|simpl; lia|simpl in Hfuel; lia].
    + destruct (piece_scan _ pre (ps ≫= pieceFormat) Hp I) as (Es & E0 & E1). rewrite !length_app in Es.
      rewrite E0. cbn [mbind option_bind]. rewrite decide_False, decide_True, decide_False by (done || tauto). rewrite Es. cbn [mbind option_bind].
      destruct (conversion_prints _ pre (ps ≫= pieceFormat) text output offset _ Hp I ltac:(lia) HH HW ltac:(lia)) as (o & E & W).
      rewrite E. simpl mbind. apply Hrest; [done|done|simpl in Hfuel; rewrite length_app in Hfuel; simpl in Hfuel; lia].
    + destruct (piece_scan _ pre (ps ≫= pieceFormat) Hp I) as (Es & E0 & E1). rewrite !length_app in Es.
      rewrite E0. cbn [mbind option_bind]. rewrite decide_False, decide_True, decide_False by (done || tauto). rewrite Es. cbn [mbind option_bind].
      destruct (conversion_prints _ pre (ps ≫= pieceFormat) text output offset _ Hp I ltac:(lia) HH HW ltac:(lia)) as (o & E & W).
      rewrite E. simpl mbind. apply Hrest; [done|done|simpl in Hfuel; rewrite length_app in Hfuel; simpl in Hfuel; lia].
Qed.

Definition recordText (r : Z * list Piece) : list Z := snd r ≫= render.

Lemma printString_prints ps garbage offset post : Forall pieceWf ps -> length garbage = maxPrintfOutputLength ->
  (length (ps ≫= pieceFormat) < maxPrintfOutputLength)%nat -> (length (ps ≫= render) < maxPrintfOutputLength)%nat ->
  Holds offset ((ps ≫= pieceBytes) ++ post) ->
  printString snprintf queryPrintfString is32Bit buffer bufferSize garbage (ps ≫= pieceFormat) offset
    = Some (cString (ps ≫= render), offset + Z.of_nat (length (ps ≫= pieceBytes))).
Proof.
  intros Hps Hg Hf Hl HH. unfold printString. rewrite Nat.min_l by lia.
  destruct (printLoop_prints ps Hps [] [] garbage offset post (length (ps ≫= pieceFormat) + 2)%nat Hf ltac:(lia) HH (written_start _ Hg) Hl)
    as (o & E & (rest & -> & _)).
  simpl app in E. simpl length in E. rewrite E. simpl. rewrite <- app_assoc. simpl. by rewrite cString_cut.
Qed.

Lemma recordLoop_prints garbage rs : length garbage = maxPrintfOutputLength ->
  Forall (recordWf queryPrintfString) rs -> Forall (fun r => length (recordText r) < maxPrintfOutputLength)%nat rs ->
  bufferSize < 2 ^ 32 - 4 -> forall fuel index offset, Holds offset (rs ≫= recordBytes) -> bufferSize = offset + Z.of_nat (length (rs ≫= recordBytes)) ->
  (length rs < fuel)%nat ->
  recordLoop snprintf queryPrintfString is32Bit buffer bufferSize fuel garbage index offset = Some (map (fun r => cString (recordText r)) rs).
Proof.
  intros Hg Hwf Hl Hs. induction Hwf as [|r rs (Hi & Hp & Hq & Hlen) Hwf IH]; intros fuel index offset HH Hsize Hf; (destruct fuel as [|fuel]; [simpl in Hf; lia|]); cbn [recordLoop].
  - simpl in Hsize. rewrite decide_False; [done|]. destruct HH as (? & ? & _ & -> & _). unwrap. lia.
  - inversion_clear Hl as [|?? Hr Hl']. rewrite bind_cons in HH, Hsize. unfold recordBytes in HH at 1. unfold recordBytes in Hsize at 1.
    rewrite !length_app, le_length in Hsize. rewrite <- app_assoc in HH.
    rewrite decide_True by (destruct HH as (? & ? & _ & -> & _); unwrap; lia).
    apply (read_next _ _ _ _ _ _ index) in HH as [-> HH]; [|done]. cbn [mbind option_bind]. rewrite Hq.
    rewrite (printString_prints (snd r) garbage _ (rs ≫= recordBytes)) by done. cbn [mbind option_bind].
    apply holds_app in HH as [_ HH]. rewrite IH; [done|done|done|lia|simpl in Hf; lia].
Qed.
End correctness.

(** ** Properties *)

(** The text of a record: what its pieces say, up to the first zero byte that a
    conversion may have printed. *)
Definition expectedOutput (snprintf : list Z -> Value -> list Z) (queryPrintfString : Z -> option (list Z)) (is32Bit : bool) (rs : list (Z * list Piece)) : list (list Z) :=
  map (fun r => cString (recordText snprintf queryPrintfString is32Bit r)) rs.

(** C29: a buffer that holds the records of printf calls, whose format
    strings are pieces with matching arguments, is turned into the texts of the
    records, in order: every character and escape is copied, every conversion is
    given its own argument (vectors element by element with commas), and no
    access leaves the buffer, the format strings or [output], when each text is
    shorter than [output]. *)
Theorem kernel_output_is_rendered snprintf queryPrintfString is32Bit garbage rs post :
  length garbage = maxPrintfOutputLength ->
  Forall (recordWf queryPrintfString) rs ->
  Forall (fun r => length (recordText snprintf queryPrintfString is32Bit r) < maxPrintfOutputLength)%nat rs ->
  4 + Z.of_nat (length (rs ≫= recordBytes)) < 2 ^ 32 - 4 ->
  printKernelOutput snprintf queryPrintfString is32Bit (bufferOf rs post) garbage = Some (expectedOutput snprintf queryPrintfString is32Bit rs).
Proof.
  intros Hg Hwf Hl Hs. unfold printKernelOutput.
  rewrite (read_holds _ 4 0 4 (4 + Z.of_nat (length (rs ≫= recordBytes)))); [|exists [], ((rs ≫= recordBytes) ++ post); rewrite le_length; repeat split; (done || lia)|simpl; lia].
  cbn [mbind option_bind]. apply recordLoop_prints; try done; try lia.
  - eexists (le 4 _), post. rewrite le_length. split; [reflexivity|]. lia.
  - unfold bufferOf. rewrite !length_app, le_length. clear. induction rs as [|r rs IH]; [simpl; lia|].
    rewrite bind_cons, length_app. unfold recordBytes at 1. rewrite length_app, le_length. simpl. lia.
Qed.

(** A C library that prints the low byte of numbers, characters and strings. *)
Definition sampleSnprintf (format : list Z) (v : Value) : list Z :=
  match v with Number _ bits => [bits mod 256] | Text (Some s) => s | Text None => [] | Character c => [c] end.
(** ["a%d\n"], ["%v4hld%s"] and ["%s"]. *)
Definition sampleStrings (i : Z) : option (list Z) :=
  if decide (i = 0) then Some [97; 37; 100; 92; 110] else
  if decide (i = 1) then Some [37; 118; 52; 104; 108; 100; 37; 115] else
  if decide (i = 2) then Some [37; 115] else
  if decide (i = 3) then Some [37; 37; 100] else
  if decide (i = 4) then Some [120] else None.
Definition sampleRecords : list (Z * list Piece) :=
  [(1, [VectorConversion [] [52] [104; 108] 100 INT [7; 8; 9; 10]; Conversion [] 115 (Str 4)]);
   (0, [Plain 97; Conversion [] 100 (Scalar SHORT 65); Escaped 110])].

Lemma kernel_output_is_rendered_witness :
  printKernelOutput sampleSnprintf sampleStrings false (bufferOf sampleRecords [1; 2; 3]) (repeat 204 1024)
    = Some [[7; 44; 8; 44; 9; 44; 10; 120]; [97; 65; 10]].
Proof.
  apply (kernel_output_is_rendered sampleSnprintf sampleStrings false (repeat 204 1024) sampleRecords [1; 2; 3]).
  - reflexivity.
  - repeat constructor; try (by vm_compute); try (exists 52; split; [lia|left; done]); try (vm_compute; by intros [? ?]).
  - repeat constructor; vm_compute; lia.
  - vm_compute. reflexivity.
Defined.

Lemma sprintf_full sn output fmt v : length output = maxPrintfOutputLength -> (maxPrintfOutputLength <= length (sn fmt v))%nat ->
  exists output', simple_sprintf sn output 0 (Z.of_nat maxPrintfOutputLength ⊟ 0) fmt v = Some (output', length (sn fmt v)) /\
    length output' = maxPrintfOutputLength.
Proof.
  intros Ho Hl. unfold simple_sprintf. rewrite decide_False by done.
  destruct (writeAt_spec 0 (take (Z.to_nat (Z.min ((Z.of_nat maxPrintfOutputLength ⊟ 0) - 1) (Z.of_nat (length (sn fmt v))))) (sn fmt v) ++ [0]) output) as (o & E & [Hlen _] & _).
  - rewrite length_app, length_take, Ho. change (Z.of_nat maxPrintfOutputLength ⊟ 0) with 1024. unfold maxPrintfOutputLength. simpl. lia.
  - rewrite E. exists o. split; [done|congruence].
Qed.

(** the text of a [%s] argument decides whether the 1024 characters
    of [output] suffice: a shorter text is printed, but with a longer one the
    terminator is written behind the array, because [snprintf] returns the
    length of the whole text and not what it wrote. *)
Theorem string_argument_bound snprintf queryPrintfString is32Bit garbage index str post :
  length garbage = maxPrintfOutputLength -> queryPrintfString index = Some [37; 115] -> fits INT index -> fits INT str ->
  let text := snprintf [37; 115] (Text (queryPrintfString str)) in
  printKernelOutput snprintf queryPrintfString is32Bit (bufferOf [(index, [Conversion [] 115 (Str str)])] post) garbage
    = if decide (length text < maxPrintfOutputLength)%nat then Some [cString text] else None.
Proof.
  intros Hg Hq Hi Hs text. set (p := Conversion [] 115 (Str str)).
  assert (recordWf queryPrintfString (index, [p])) as Hwf.
  { split; [done|]. split; [constructor; [by split; [constructor|]|constructor]|]. split; [done|]. simpl. unfold maxPrintfOutputLength. lia. }
  case_decide as Hl.
  - assert (recordText snprintf queryPrintfString is32Bit (index, [p]) = text) as Et by (apply app_nil_r).
    rewrite kernel_output_is_rendered; [unfold expectedOutput; simpl map; by rewrite Et|done|by constructor| |done].
    constructor; [by rewrite Et|constructor].
  - unfold printKernelOutput, bufferOf.
    assert (([(index, [p])] ≫= recordBytes) = le 4 index ++ le 4 (typeCode STRING) ++ le 4 str ++ []) as -> by done.
    set (record := le 4 index ++ _). change (4 + Z.of_nat (length record)) with 16. set (buffer := le 4 16 ++ record ++ post).
    rewrite (read_holds buffer 4 0 4 16); [|by exists [], (record ++ post)|done]. cbn [mbind option_bind].
    assert (Holds buffer 16 4 record) as HH by (by exists (le 4 16), post). unfold record in HH.
    change (0 + Z.of_nat 4) with 4. cbn [recordLoop]. rewrite decide_True by done.
    apply (read_next _ _ _ _ _ _ 0) in HH as [-> HH]; [|done]. cbn [mbind option_bind]. rewrite Hq.
    apply (read_next _ _ _ _ _ _ 0) in HH as [E1 HH]; [|done]. apply (read_next _ _ _ _ _ _ 0) in HH as [E2 _]; [|done].
    destruct (sprintf_full snprintf garbage [37; 115] (Text (queryPrintfString str)) Hg) as (o & E & Ho); [apply Nat.le_ngt; exact Hl|].
    change (0 + Z.of_nat 4) with 4. clearbody buffer. unfold printString.
    change (Nat.min (length [37; 115]) maxPrintfOutputLength) with 2%nat. change (2 + 2)%nat with 4%nat. cbn [printLoop].
    rewrite decide_True by lia. change (charAt [37; 115] 0) with (Some 37). cbn [mbind option_bind].
    rewrite decide_False, decide_True, decide_False by (done || (intros [_ ?]; done)).
    change (scanConversion 3 [37; 115] 2 0) with (Some 2%nat). cbn [mbind option_bind]. unfold printConversion. rewrite decide_True by (vm_compute; lia).
    change (take (2 - 0) (drop 0 [37; 115])) with [37; 115]. change (charAt [37; 115] (2 - 1)) with (Some 115). cbn [mbind option_bind].
    rewrite decide_True by done. unfold printStringToken. rewrite E1. cbn [mbind option_bind]. rewrite E2. cbn [mbind option_bind].
    rewrite typeCode_dataType, decide_True by done. change (Z.of_nat 0) with 0. rewrite E. cbn [mbind option_bind].
    rewrite decide_True by lia. change (charAt [37; 115] 2) with (Some 0). cbn [mbind option_bind]. rewrite !decide_False by done.
    unfold put, writeAt. rewrite decide_False; [done|]. rewrite Ho. simpl length. subst text. lia.
Qed.

Lemma string_argument_bound_witness :
  printKernelOutput sampleSnprintf (fun i => if decide (i = 2) then Some [37; 115] else Some (repeat 97 1024)) false
    (bufferOf [(2, [Conversion [] 115 (Str 4)])] []) (repeat 204 1024) = None.
Proof.
  rewrite (string_argument_bound sampleSnprintf _ false (repeat 204 1024) 2 4 []); [|done|done|done|done].
  vm_compute. reflexivity.
Defined.

(** The format ["%%d"] prints a percent sign and no [d]: the second [%] starts a
    conversion, which takes the next record's bytes for its argument, so that
    the record of ["x"] is lost. *)
Example escaped_percent_takes_argument :
  printKernelOutput sampleSnprintf sampleStrings false (le 4 12 ++ le 4 3 ++ le 4 4) (repeat 204 1024) = Some [[37]] /\
  printKernelOutput sampleSnprintf sampleStrings false (le 4 8 ++ le 4 4) (repeat 204 1024) = Some [[120]].
Proof. split; vm_compute; reflexivity. Qed.
