(* ===== verification/GraphicsAllocation.v ===== *)
(** * Graphics allocations and who uses them

    Model of the usage bookkeeping of
    [runtime/memory_manager/graphics_allocation.h] and [.cpp]: for every OS
    context an allocation records the last task that uses it, the last task that
    made it resident and an inspection id; [registeredContextsNum] counts the
    contexts that use it.  The array [usageInfos] is a function of the context;
    contexts are numbered from 0 in the order of their registration.  Addresses,
    locks, sharing and the GMM description are not modelled. *)

From S2P Require Import Prelude.
From stdpp Require Import functions.
#[local] Open Scope Z_scope.

Inductive AllocationType :=
  | UNKNOWN | BUFFER | BUFFER_COMPRESSED | BUFFER_HOST_MEMORY | COMMAND_BUFFER | CONSTANT_SURFACE | DYNAMIC_STATE_HEAP
  | EXTERNAL_HOST_PTR | FILL_PATTERN | GLOBAL_SURFACE | IMAGE | INDIRECT_OBJECT_HEAP | INSTRUCTION_HEAP | INTERNAL_HEAP
  | KERNEL_ISA | LINEAR_STREAM | PIPE | PRINTF_SURFACE | PRIVATE_SURFACE | PROFILING_TAG_BUFFER | SCRATCH_SURFACE
  | SHARED_RESOURCE_COPY | SURFACE_STATE_HEAP | SVM | TAG_BUFFER | TIMESTAMP_PACKET_TAG_BUFFER | UNDECIDED.
#[export] Instance AllocationType_eq_dec : EqDecision AllocationType. Proof. solve_decision. Defined.

Definition maxOsContextCount : nat := 2.
Definition objectNotUsed : Z := 2 ^ 32 - 1.
Definition objectNotResident : Z := 2 ^ 32 - 1.

Record UsageInfo := mkUsage { taskCount : Z; residencyTaskCount : Z; inspectionId : Z }.
Definition newUsage : UsageInfo := mkUsage objectNotUsed objectNotResident 0.

Record GraphicsAllocation := mkAllocation {
  allocationType : AllocationType;
  size : Z;
  evictable : bool;
  usageInfos : nat -> UsageInfo;
  registeredContextsNum : Z }.
Definition newAllocation (type : AllocationType) (sizeIn : Z) : GraphicsAllocation := mkAllocation type sizeIn true (fun _ => newUsage) 0.

Definition isCpuAccessRequired (type : AllocationType) : bool :=
  match type with LINEAR_STREAM | KERNEL_ISA | INTERNAL_HEAP | TIMESTAMP_PACKET_TAG_BUFFER | COMMAND_BUFFER => true | _ => false end.

Definition setEvictable (v : bool) (a : GraphicsAllocation) : GraphicsAllocation :=
  mkAllocation (allocationType a) (size a) v (usageInfos a) (registeredContextsNum a).
Definition setUsage (contextId : nat) (u : UsageInfo) (a : GraphicsAllocation) : GraphicsAllocation :=
  mkAllocation (allocationType a) (size a) (evictable a) (<[contextId := u]> (usageInfos a)) (registeredContextsNum a).
Definition setRegistered (n : Z) (a : GraphicsAllocation) : GraphicsAllocation :=
  mkAllocation (allocationType a) (size a) (evictable a) (usageInfos a) n.

Definition getTaskCount (contextId : nat) (a : GraphicsAllocation) : Z := taskCount (usageInfos a contextId).
Definition getResidencyTaskCount (contextId : nat) (a : GraphicsAllocation) : Z := residencyTaskCount (usageInfos a contextId).
Definition getInspectionId (contextId : nat) (a : GraphicsAllocation) : Z := inspectionId (usageInfos a contextId).
Definition isUsed (a : GraphicsAllocation) : bool := bool_decide (registeredContextsNum a > 0).
Definition isUsedByManyOsContexts (a : GraphicsAllocation) : bool := bool_decide (registeredContextsNum a > 1).
Definition isUsedByOsContext (contextId : nat) (a : GraphicsAllocation) : bool := bool_decide (objectNotUsed <> getTaskCount contextId a).

Definition updateTaskCount (newTaskCount : Z) (contextId : nat) (a : GraphicsAllocation) : GraphicsAllocation :=
  let a := if decide (getTaskCount contextId a = objectNotUsed) then setRegistered (w32 (registeredContextsNum a + 1)) a else a in
  let a := if decide (newTaskCount = objectNotUsed) then setRegistered (w32 (registeredContextsNum a - 1)) a else a in
  let u := usageInfos a contextId in
  setUsage contextId (mkUsage newTaskCount (residencyTaskCount u) (inspectionId u)) a.
Definition releaseUsageInOsContext (contextId : nat) (a : GraphicsAllocation) : GraphicsAllocation := updateTaskCount objectNotUsed contextId a.

Definition updateResidencyTaskCount (newTaskCount : Z) (contextId : nat) (a : GraphicsAllocation) : GraphicsAllocation :=
  let u := usageInfos a contextId in setUsage contextId (mkUsage (taskCount u) newTaskCount (inspectionId u)) a.
Definition isResident (contextId : nat) (a : GraphicsAllocation) : bool := bool_decide (objectNotResident <> getResidencyTaskCount contextId a).
Definition releaseResidencyInOsContext (contextId : nat) (a : GraphicsAllocation) : GraphicsAllocation :=
  updateResidencyTaskCount objectNotResident contextId a.
Definition isResidencyTaskCountBelow (n : Z) (contextId : nat) (a : GraphicsAllocation) : bool :=
  negb (isResident contextId a) || bool_decide (getResidencyTaskCount contextId a < n).
Definition setInspectionId (v : Z) (contextId : nat) (a : GraphicsAllocation) : GraphicsAllocation :=
  let u := usageInfos a contextId in setUsage contextId (mkUsage (taskCount u) (residencyTaskCount u) v) a.

(** ** The number of contexts *)

Definition used (a : GraphicsAllocation) (c : nat) : Prop := getTaskCount c a <> objectNotUsed.
#[export] Instance used_dec a c : Decision (used a c). Proof. unfold used. apply _. Defined.
Definition usedContexts (a : GraphicsAllocation) : list nat := filter (used a) (seq 0 maxOsContextCount).
(** The count is that of the contexts, and no context is out of range. *)
Definition counted (a : GraphicsAllocation) : Prop :=
  registeredContextsNum a = Z.of_nat (length (usedContexts a)) /\
  forall c, (maxOsContextCount <= c)%nat -> getTaskCount c a = objectNotUsed.

Lemma new_counted type s : counted (newAllocation type s).
Proof. split; [|done]. reflexivity. Qed.

(** Reading back what was written. *)
Lemma setUsage_lookup c c' u a : usageInfos (setUsage c u a) c' = if decide (c' = c) then u else usageInfos a c'.
Proof. simpl. case_decide as E; [subst; apply fn_lookup_insert|by apply fn_lookup_insert_ne]. Qed.

Lemma updateTaskCount_lookup n c c' a :
  usageInfos (updateTaskCount n c a) c' =
  if decide (c' = c) then mkUsage n (getResidencyTaskCount c a) (getInspectionId c a) else usageInfos a c'.
Proof.
  unfold updateTaskCount. rewrite setUsage_lookup.
  assert (forall d (b : bool) m, usageInfos (if b then setRegistered m d else d) = usageInfos d) as Hr by (by intros d [] m).
  repeat case_decide; done.
Qed.

Lemma updateTaskCount_count n c c' a : getTaskCount c' (updateTaskCount n c a) = if decide (c' = c) then n else getTaskCount c' a.
Proof. unfold getTaskCount. rewrite updateTaskCount_lookup. by case_decide. Qed.
Lemma updateTaskCount_residency n c c' a : getResidencyTaskCount c' (updateTaskCount n c a) = getResidencyTaskCount c' a.
Proof. unfold getResidencyTaskCount. rewrite updateTaskCount_lookup. by case_decide as E; [subst|]. Qed.
Lemma updateTaskCount_size n c a : size (updateTaskCount n c a) = size a.
Proof. unfold updateTaskCount. by repeat case_decide. Qed.
Lemma updateTaskCount_type n c a : allocationType (updateTaskCount n c a) = allocationType a.
Proof. unfold updateTaskCount. by repeat case_decide. Qed.
Lemma updateTaskCount_evictable n c a : evictable (updateTaskCount n c a) = evictable a.
Proof. unfold updateTaskCount. by repeat case_decide. Qed.

Lemma updateResidency_count n c c' a : getTaskCount c' (updateResidencyTaskCount n c a) = getTaskCount c' a.
Proof. unfold getTaskCount, updateResidencyTaskCount. rewrite setUsage_lookup. by case_decide as E; [subst|]. Qed.
Lemma updateResidency_residency n c c' a :
  getResidencyTaskCount c' (updateResidencyTaskCount n c a) = if decide (c' = c) then n else getResidencyTaskCount c' a.
Proof. unfold getResidencyTaskCount, updateResidencyTaskCount. rewrite setUsage_lookup. by case_decide. Qed.
Create Rewrite HintDb usage.
#[export] Hint Rewrite updateTaskCount_count updateTaskCount_residency updateTaskCount_size updateTaskCount_type updateTaskCount_evictable
  updateResidency_count updateResidency_residency : usage.

(** Counting the contexts below a bound after one of them changed. *)
Lemma filter_flip (P Q : nat -> Prop) `{forall x, Decision (P x), forall x, Decision (Q x)} l (c : nat) : NoDup l -> c ∈ l ->
  (forall x, x <> c -> P x <-> Q x) -> ~ P c -> Q c -> length (filter Q l) = S (length (filter P l)).
Proof.
  intros Hn Hc HPQ Hp Hq. induction Hn as [|x l Hx Hn IH]; [by apply elem_of_nil in Hc|].
  assert (forall k : list nat, c ∉ k -> filter P k = filter Q k) as Hrest.
  { intros k Hk. induction k as [|y k IHk]; [done|]. rewrite !filter_cons.
    assert (y <> c) as Hy by set_solver. rewrite IHk by set_solver. destruct (decide (P y)), (decide (Q y)); naive_solver. }
  rewrite !filter_cons. destruct (decide (x = c)) as [->|Hxc].
  - rewrite (decide_False (P := P c)), (decide_True (P := Q c)) by done. simpl. by rewrite Hrest.
  - assert (c ∈ l) as Hcl by set_solver. destruct (decide (P x)), (decide (Q x)); simpl; try (rewrite IH by done; done); naive_solver.
Qed.

Lemma registered_update n c a : registeredContextsNum (updateTaskCount n c a) =
  let r := if decide (getTaskCount c a = objectNotUsed) then w32 (registeredContextsNum a + 1) else registeredContextsNum a in
  if decide (n = objectNotUsed) then w32 (r - 1) else r.
Proof. unfold updateTaskCount. by repeat case_decide. Qed.

(** The counter follows the array. *)
Lemma update_counted n c a : counted a -> (c < maxOsContextCount)%nat -> counted (updateTaskCount n c a).
Proof.
  intros [Hc Ho] Hr. split.
  2: { intros c' Hc'. rewrite updateTaskCount_count, decide_False by lia. by apply Ho. }
  assert (0 <= Z.of_nat (length (usedContexts a)) <= 2) as Hb.
  { split; [lia|]. unfold usedContexts. pose proof (length_filter (used a) (seq 0 maxOsContextCount)) as Hl. rewrite length_seq in Hl. unfold maxOsContextCount in *. lia. }
  assert (NoDup (seq 0 maxOsContextCount) /\ c ∈ seq 0 maxOsContextCount) as [Hn Hin] by (split; [apply NoDup_seq|apply elem_of_seq; lia]).
  assert (forall x, x <> c -> getTaskCount x (updateTaskCount n c a) = getTaskCount x a) as Hx.
  { intros x Hx. by rewrite updateTaskCount_count, decide_False. }
  assert (getTaskCount c (updateTaskCount n c a) = n) as Hx0 by (by rewrite updateTaskCount_count, decide_True).
  rewrite registered_update, Hc. unfold usedContexts in *. cbv zeta.
  set (a' := updateTaskCount n c a) in *.
  assert (forall x, x <> c -> used a x <-> used a' x) as Hon by (intros x ?; unfold used; by rewrite Hx).
  destruct (decide (getTaskCount c a = objectNotUsed)) as [H0|H0], (decide (n = objectNotUsed)) as [H1|H1].
  - replace (filter (used a') (seq 0 maxOsContextCount)) with (filter (used a) (seq 0 maxOsContextCount)); [unwrap; lia|].
    apply list_filter_iff. intros x. destruct (decide (x = c)) as [->|]; [|by apply Hon]. unfold used. by rewrite Hx0, H0, H1.
  - rewrite (filter_flip (used a) (used a') (seq 0 maxOsContextCount) c); [unwrap; lia|done..| |]; unfold used; [by intros []|by rewrite Hx0].
  - assert (length (filter (used a) (seq 0 maxOsContextCount)) = S (length (filter (used a') (seq 0 maxOsContextCount)))) as Hf.
    { apply (filter_flip _ _ _ c); [done..| | |done]; [intros x ?; symmetry; by apply Hon|]. unfold used. rewrite Hx0. by intros []. }
    rewrite Hf in Hb |- *. unwrap. lia.
  - replace (filter (used a') (seq 0 maxOsContextCount)) with (filter (used a) (seq 0 maxOsContextCount)); [done|].
    apply list_filter_iff. intros x. destruct (decide (x = c)) as [->|]; [|by apply Hon]. unfold used. by rewrite Hx0.
Qed.

Lemma residency_counted n c a : counted a -> counted (updateResidencyTaskCount n c a).
Proof.
  intros [Hr Ho]. split; [|intros c' Hc; rewrite updateResidency_count; by apply Ho]. simpl. rewrite Hr. do 2 f_equal.
  apply list_filter_iff. intros x. unfold used. by rewrite updateResidency_count.
Qed.
Lemma inspection_counted n c a : counted a -> counted (setInspectionId n c a).
Proof.
  assert (forall x, getTaskCount x (setInspectionId n c a) = getTaskCount x a) as Hx.
  { intros x. unfold getTaskCount, setInspectionId. rewrite setUsage_lookup. by case_decide as E; [subst|]. }
  intros [Hr Ho]. split; [|intros c' Hc; rewrite Hx; by apply Ho]. simpl. rewrite Hr. do 2 f_equal.
  apply list_filter_iff. intros x. unfold used. by rewrite Hx.
Qed.

(** What the other components do to the usage of an allocation. *)
Inductive Update :=
  | UpdateTaskCount (newTaskCount : Z) (contextId : nat)
  | ReleaseUsage (contextId : nat)
  | UpdateResidencyTaskCount (newTaskCount : Z) (contextId : nat)
  | ReleaseResidency (contextId : nat)
  | SetInspectionId (v : Z) (contextId : nat)
  | SetEvictable (v : bool).
Definition runUpdate (u : Update) : GraphicsAllocation -> GraphicsAllocation :=
  match u with
  | UpdateTaskCount n c => updateTaskCount n c
  | ReleaseUsage c => releaseUsageInOsContext c
  | UpdateResidencyTaskCount n c => updateResidencyTaskCount n c
  | ReleaseResidency c => releaseResidencyInOsContext c
  | SetInspectionId v c => setInspectionId v c
  | SetEvictable v => setEvictable v
  end.
Definition contextOf (u : Update) : nat :=
  match u with
  | UpdateTaskCount _ c | ReleaseUsage c | UpdateResidencyTaskCount _ c | ReleaseResidency c | SetInspectionId _ c => c
  | SetEvictable _ => 0
  end.

Lemma update_any_counted u a : counted a -> (contextOf u < maxOsContextCount)%nat -> counted (runUpdate u a).
Proof.
  intros Ha. destruct u; simpl; intros Hc.
  - by apply update_counted. - by apply update_counted. - by apply residency_counted. - by apply residency_counted. - by apply inspection_counted. - exact Ha.
Qed.

(** after any sequence of updates in registered contexts, [registeredContextsNum] is the number of contexts with a task count: [isUsed] and [isUsedByManyOsContexts] tell whether one context, or both, use the allocation. *)
Theorem registered_contexts_counted type s us : (forall u, u ∈ us -> (contextOf u < maxOsContextCount)%nat) ->
  let a := fold_left (fun a u => runUpdate u a) us (newAllocation type s) in
  counted a /\ (isUsed a = true <-> isUsedByOsContext 0 a || isUsedByOsContext 1 a = true) /\
  (isUsedByManyOsContexts a = true <-> isUsedByOsContext 0 a && isUsedByOsContext 1 a = true).
Proof.
  intros Hus a. assert (counted a) as Ha.
  { unfold a. clear a. revert Hus. generalize (newAllocation type s) (new_counted type s). induction us as [|u us IH]; intros b Hb Hus; simpl; [done|].
    apply IH; [apply update_any_counted; [done|]|]; [apply Hus; set_solver|intros v Hv; apply Hus; set_solver]. }
  split; [done|]. destruct Ha as [Hr _].
  assert (forall c, isUsedByOsContext c a = bool_decide (used a c)) as Hc.
  { intros c. unfold isUsedByOsContext, used. apply bool_decide_ext. split; congruence. }
  unfold isUsed, isUsedByManyOsContexts. rewrite !Hc, Hr. unfold usedContexts. change (seq 0 maxOsContextCount) with [0%nat; 1%nat].
  rewrite !filter_cons, filter_nil, orb_true_iff, andb_true_iff, !bool_decide_eq_true. destruct (decide (used a 0)), (decide (used a 1)); simpl; intuition lia.
Qed.

Lemma registered_contexts_counted_witness :
  counted (fold_left (fun a u => runUpdate u a) [UpdateTaskCount 1 0; UpdateTaskCount 7 1; ReleaseUsage 0] (newAllocation BUFFER 4096)).
Proof.
  apply (registered_contexts_counted BUFFER 4096 [UpdateTaskCount 1 0; UpdateTaskCount 7 1; ReleaseUsage 0]).
  intros u Hu. unfold maxOsContextCount. repeat (apply elem_of_cons in Hu as [->|Hu]; [simpl; lia|]). by apply elem_of_nil in Hu.
Defined.
