(* ===== verification/AllocationLifetime.v ===== *)
(** * Lifetime of graphics allocations

    Model of the code that decides when memory used by the GPU may be released
    or given out again: residency and task counts of
    [command_stream_receiver.cpp], the end of [flushTask] and
    [flushBatchedSubmissions] in [command_stream_receiver_hw.inl],
    [internal_allocation_storage.cpp], [deferrable_allocation_deletion.cpp] and
    [checkGpuUsageAndDestroyGraphicsAllocations] of [memory_manager.cpp].

    Engine [k] has the OS context [k], as [createAndRegisterOsContext] numbers
    them.  The store [allocations] maps the name of an allocation to its state;
    freeing removes the name, so that a [None] is an access to freed memory.
    [submitted] lists what was given to the GPU: a context, a task count and the
    surfaces that the commands of the task use until the tag of the context
    reaches the count.  How [aggregateCommandBuffers] groups command buffers is
    the parameter [grouping] (see [Submissions]). *)

From S2P Require Import Prelude.
From S2P Require Import GraphicsAllocation.

Definition eventNotReady : Z := 0xFFFFFFF0.

Record Engine := mkEngine {
  csrTaskCount : Z;
  latestFlushedTaskCount : Z;
  tag : Z;
  immediateDispatch : bool;
  residencyAllocations : list Z;
  evictionAllocations : list Z;
  commandBuffers : list (Z * list Z);
  temporaryAllocations : list Z;
  allocationsForReuse : list Z;
  totalMemoryUsed : Z }.
Definition newEngine (immediate : bool) : Engine := mkEngine 0 0 0 immediate [] [] [] [] [] 0.

Definition setTaskCount (n : Z) (e : Engine) : Engine :=
  mkEngine n (latestFlushedTaskCount e) (tag e) (immediateDispatch e) (residencyAllocations e) (evictionAllocations e) (commandBuffers e) (temporaryAllocations e) (allocationsForReuse e) (totalMemoryUsed e).
Definition setLatestFlushed (n : Z) (e : Engine) : Engine :=
  mkEngine (csrTaskCount e) n (tag e) (immediateDispatch e) (residencyAllocations e) (evictionAllocations e) (commandBuffers e) (temporaryAllocations e) (allocationsForReuse e) (totalMemoryUsed e).
Definition setTag (n : Z) (e : Engine) : Engine :=
  mkEngine (csrTaskCount e) (latestFlushedTaskCount e) n (immediateDispatch e) (residencyAllocations e) (evictionAllocations e) (commandBuffers e) (temporaryAllocations e) (allocationsForReuse e) (totalMemoryUsed e).
Definition setResidency (l : list Z) (e : Engine) : Engine :=
  mkEngine (csrTaskCount e) (latestFlushedTaskCount e) (tag e) (immediateDispatch e) l (evictionAllocations e) (commandBuffers e) (temporaryAllocations e) (allocationsForReuse e) (totalMemoryUsed e).
Definition setEviction (l : list Z) (e : Engine) : Engine :=
  mkEngine (csrTaskCount e) (latestFlushedTaskCount e) (tag e) (immediateDispatch e) (residencyAllocations e) l (commandBuffers e) (temporaryAllocations e) (allocationsForReuse e) (totalMemoryUsed e).
Definition setCommandBuffers (l : list (Z * list Z)) (e : Engine) : Engine :=
  mkEngine (csrTaskCount e) (latestFlushedTaskCount e) (tag e) (immediateDispatch e) (residencyAllocations e) (evictionAllocations e) l (temporaryAllocations e) (allocationsForReuse e) (totalMemoryUsed e).
Definition setTemporary (l : list Z) (e : Engine) : Engine :=
  mkEngine (csrTaskCount e) (latestFlushedTaskCount e) (tag e) (immediateDispatch e) (residencyAllocations e) (evictionAllocations e) (commandBuffers e) l (allocationsForReuse e) (totalMemoryUsed e).
Definition setReuse (l : list Z) (e : Engine) : Engine :=
  mkEngine (csrTaskCount e) (latestFlushedTaskCount e) (tag e) (immediateDispatch e) (residencyAllocations e) (evictionAllocations e) (commandBuffers e) (temporaryAllocations e) l (totalMemoryUsed e).
Definition setMemoryUsed (n : Z) (e : Engine) : Engine :=
  mkEngine (csrTaskCount e) (latestFlushedTaskCount e) (tag e) (immediateDispatch e) (residencyAllocations e) (evictionAllocations e) (commandBuffers e) (temporaryAllocations e) (allocationsForReuse e) n.

(** [deferred] is the queue of [multiContextResourceDestructor]. *)
Record World := mkWorld {
  allocations : gmap Z GraphicsAllocation;
  engines : list Engine;
  deferred : list Z;
  submitted : list (nat * Z * list Z) }.

Definition putAllocation (a : Z) (d : GraphicsAllocation) (w : World) : World :=
  mkWorld (<[a := d]> (allocations w)) (engines w) (deferred w) (submitted w).
Definition putEngine (k : nat) (e : Engine) (w : World) : World :=
  mkWorld (allocations w) (<[k := e]> (engines w)) (deferred w) (submitted w).
Definition setDeferred (l : list Z) (w : World) : World := mkWorld (allocations w) (engines w) l (submitted w).
Definition submit (l : list (nat * Z * list Z)) (w : World) : World :=
  mkWorld (allocations w) (engines w) (deferred w) (submitted w ++ l).
Definition onEngine (k : nat) (f : Engine -> Engine) (w : World) : option World :=
  e ← engines w !! k; Some (putEngine k (f e) w).

(** ** Command stream receiver *)

Definition makeResident (k : nat) (a : Z) (w : World) : option World :=
  e ← engines w !! k;
  d ← allocations w !! a;
  let submissionTaskCount := w32 (csrTaskCount e + 1) in
  let '(e, d) :=
    if isResidencyTaskCountBelow submissionTaskCount k d then
      let e := setResidency (residencyAllocations e ++ [a]) e in
      let d := updateTaskCount submissionTaskCount k d in
      (if isResident k d then e else setMemoryUsed (w64 (totalMemoryUsed e + size d)) e, d)
    else (e, d) in
  Some (putEngine k e (putAllocation a (updateResidencyTaskCount submissionTaskCount k d) w)).

Definition processEviction (k : nat) (w : World) : option World := onEngine k (setEviction []) w.

Definition makeNonResident (k : nat) (w : World) (a : Z) : option World :=
  d ← allocations w !! a;
  e ← engines w !! k;
  let '(e, d) :=
    if isResident k d then
      if evictable d then (setEviction (evictionAllocations e ++ [a]) e, d) else (e, setEvictable true d)
    else (e, d) in
  Some (putEngine k e (putAllocation a (releaseResidencyInOsContext k d) w)).

Fixpoint makeAllNonResident (k : nat) (l : list Z) (w : World) : option World :=
  match l with [] => Some w | a :: l => w ← makeNonResident k w a; makeAllNonResident k l w end.
(** The container is emptied by the caller. *)
Definition makeSurfacePackNonResident (k : nat) (l : list Z) (w : World) : option World :=
  w ← makeAllNonResident k l w; processEviction k w.

Section csr.
Context (grouping : list (Z * list Z) -> list nat).

(** Consecutive groups of command buffers, none of them empty. *)
Fixpoint groupsOf (sizes : list nat) (l : list (Z * list Z)) : list (list (Z * list Z)) :=
  match l with
  | [] => []
  | b :: l' =>
      match sizes with
      | [] => [l]
      | n :: sizes => (b :: take n l') :: groupsOf sizes (drop n l')
      end
  end.

(** One group: [flush], the task count, residency. *)
Definition submitGroup (k : nat) (g : list (Z * list Z)) (w : World) : option World :=
  let surfacesForSubmit := remove_dups (mjoin (map snd g)) in
  let w := submit (map (fun b => (k, fst b, snd b)) g) w in
  w ← onEngine k (setLatestFlushed (default 0 (fst <$> last g))) w;
  makeSurfacePackNonResident k surfacesForSubmit w.

Fixpoint submitGroups (k : nat) (gs : list (list (Z * list Z))) (w : World) : option World :=
  match gs with [] => Some w | g :: gs => w ← submitGroup k g w; submitGroups k gs w end.

Definition flushBatchedSubmissions (k : nat) (w : World) : option World :=
  e ← engines w !! k;
  if immediateDispatch e then Some w
  else match commandBuffers e with
       | [] => Some w
       | bs =>
           w ← submitGroups k (groupsOf (grouping bs) bs) (putEngine k (setCommandBuffers [] e) w);
           onEngine k (setMemoryUsed 0) w
       end.

(** [flushTask] once the commands are written: [hasCommands] is [submitCSR |
    submitTask], [flushNow] is [blocking || implicitFlush]. *)
Definition finishTask (k : nat) (hasCommands flushNow : bool) (w : World) : option World :=
  e ← engines w !! k;
  let submissionTaskCount := w32 (csrTaskCount e + 1) in
  let surfaces := residencyAllocations e in
  w ← (if hasCommands then
         if immediateDispatch e then
           w ← onEngine k (setLatestFlushed submissionTaskCount) (submit [(k, submissionTaskCount, surfaces)] w);
           w ← makeSurfacePackNonResident k surfaces w;
           onEngine k (setResidency []) w
         else Some (putEngine k (setCommandBuffers (commandBuffers e ++ [(submissionTaskCount, surfaces)]) (setResidency [] e)) w)
       else w ← makeSurfacePackNonResident k surfaces w; onEngine k (setResidency []) w);
  w ← (if flushNow then flushBatchedSubmissions k w else Some w);
  onEngine k (fun e => setTaskCount (w32 (csrTaskCount e + 1)) e) w.

(** ** Freeing *)

Definition freeGraphicsMemory (a : Z) (w : World) : option World :=
  _ ← allocations w !! a;
  Some (mkWorld (delete a (allocations w)) (engines w) (deferred w) (submitted w)).

Inductive AllocationUsage := TEMPORARY_ALLOCATION | REUSABLE_ALLOCATION.
#[local] Instance AllocationUsage_eq_dec : EqDecision AllocationUsage. Proof. solve_decision. Defined.

Definition listOf (u : AllocationUsage) (e : Engine) : list Z :=
  match u with TEMPORARY_ALLOCATION => temporaryAllocations e | REUSABLE_ALLOCATION => allocationsForReuse e end.
Definition setListOf (u : AllocationUsage) (l : list Z) (e : Engine) : Engine :=
  match u with TEMPORARY_ALLOCATION => setTemporary l e | REUSABLE_ALLOCATION => setReuse l e end.

Definition storeAllocationWithTaskCount (disableResourceRecycling : bool) (k : nat) (a : Z) (u : AllocationUsage) (n : Z) (w : World) : option World :=
  match u, disableResourceRecycling with
  | REUSABLE_ALLOCATION, true => freeGraphicsMemory a w
  | _, _ =>
      d ← allocations w !! a;
      e ← engines w !! k;
      Some (putEngine k (setListOf u (listOf u e ++ [a]) e) (putAllocation a (updateTaskCount n k d) w))
  end.

Definition storeAllocation (disableResourceRecycling : bool) (k : nat) (a : Z) (u : AllocationUsage) (w : World) : option World :=
  d ← allocations w !! a;
  e ← engines w !! k;
  storeAllocationWithTaskCount disableResourceRecycling k a u
    (match u with REUSABLE_ALLOCATION => csrTaskCount e | TEMPORARY_ALLOCATION => getTaskCount k d end) w.

(** The nodes detached from a list: those that stay, in order. *)
Fixpoint freeLoop (k : nat) (waitTaskCount : Z) (l : list Z) (w : World) : option (list Z * World) :=
  match l with
  | [] => Some ([], w)
  | curr :: l =>
      d ← allocations w !! curr;
      if decide (getTaskCount k d <= waitTaskCount) then
        w ← freeGraphicsMemory curr w; freeLoop k waitTaskCount l w
      else '(allocationsLeft, w) ← freeLoop k waitTaskCount l w; Some (curr :: allocationsLeft, w)
  end.

(** [detachNodes] empties the list, [splice] appends to it. *)
Definition cleanAllocationList (k : nat) (waitTaskCount : Z) (u : AllocationUsage) (w : World) : option World :=
  e ← engines w !! k;
  '(allocationsLeft, w) ← freeLoop k waitTaskCount (listOf u e) (putEngine k (setListOf u [] e) w);
  onEngine k (fun e => setListOf u (listOf u e ++ allocationsLeft) e) w.

(** [detachAllocationImpl]: the first allocation that fits, and the list less
    its node. *)
Fixpoint detachLoop (k : nat) (tagValue requiredMinimalSize : Z) (type : AllocationType) (l : list Z) (w : World)
    : option (option Z * list Z) :=
  match l with
  | [] => Some (None, [])
  | curr :: l =>
      d ← allocations w !! curr;
      if bool_decide (type = allocationType d) && bool_decide (size d >= requiredMinimalSize) && bool_decide (tagValue >= getTaskCount k d)
      then Some (Some curr, l)
      else '(r, l) ← detachLoop k tagValue requiredMinimalSize type l w; Some (r, curr :: l)
  end.

Definition obtainReusableAllocation (k : nat) (requiredSize : Z) (type : AllocationType) (w : World) : option (option Z * World) :=
  e ← engines w !! k;
  '(r, l) ← detachLoop k (tag e) requiredSize type (allocationsForReuse e) w;
  Some (r, putEngine k (setReuse l e) w).

(** ** Deletion of allocations used by several contexts *)

(** The loop of [apply] over the engines, from engine [k] on. *)
Fixpoint applyLoop (n : nat) (k : nat) (a : Z) (w : World) : option World :=
  match n with
  | O => Some w
  | S n =>
      d ← allocations w !! a;
      e ← engines w !! k;
      w ← (if isUsedByOsContext k d then
             if decide (getTaskCount k d <= tag e) then Some (putAllocation a (releaseUsageInOsContext k d) w)
             else flushBatchedSubmissions k w
           else Some w);
      applyLoop n (S k) a w
  end.

(** [DeferrableAllocationDeletion::apply] *)
Definition apply (a : Z) (w : World) : option (bool * World) :=
  d ← allocations w !! a;
  if isUsed d then
    w ← applyLoop (length (engines w)) 0 a w;
    d ← allocations w !! a;
    if isUsed d then Some (false, w) else w ← freeGraphicsMemory a w; Some (true, w)
  else w ← freeGraphicsMemory a w; Some (true, w).

(** One round of [clearQueue]. *)
Definition clearOne (w : World) : option World :=
  match deferred w with
  | [] => Some w
  | a :: rest =>
      '(done, w) ← apply a (setDeferred rest w);
      Some (match done with true => w | false => setDeferred (deferred w ++ [a]) w end)
  end.

(** The loop over the engines that looks for one still using the allocation. *)
Fixpoint usingEngine (n k : nat) (a : Z) (w : World) : option (option nat) :=
  match n with
  | O => Some None
  | S n =>
      d ← allocations w !! a;
      e ← engines w !! k;
      if isUsedByOsContext k d && bool_decide (getTaskCount k d > tag e) then Some (Some k) else usingEngine n (S k) a w
  end.

(** [deferDeletion] is followed by [drain], which is [clearOne] repeated. *)
Definition checkGpuUsageAndDestroyGraphicsAllocations (a : Z) (w : World) : option World :=
  d ← allocations w !! a;
  if isUsed d then
    if isUsedByManyOsContexts d then Some (setDeferred (deferred w ++ [a]) w)
    else
      r ← usingEngine (length (engines w)) 0 a w;
      match r with
      | Some k => storeAllocation false k a TEMPORARY_ALLOCATION w
      | None => freeGraphicsMemory a w
      end
  else freeGraphicsMemory a w.

(** ** Executions *)

(** What is done by the client, the GPU ([GpuProgress]) and the deleter
    ([ClearOne]).  [HostSurface] is [createAllocationForHostSurface]. *)
Inductive Op :=
  | Create (a : Z) (type : AllocationType) (sizeIn : Z)
  | HostSurface (k : nat) (a : Z) (sizeIn : Z)
  | MakeResident (k : nat) (a : Z)
  | FinishTask (k : nat) (hasCommands flushNow : bool)
  | FlushBatched (k : nat)
  | GpuProgress (k : nat) (n : Z)
  | Clean (k : nat) (waitTaskCount : Z) (u : AllocationUsage)
  | Store (k : nat) (a : Z) (u : AllocationUsage)
  | Obtain (k : nat) (requiredSize : Z) (type : AllocationType)
  | Destroy (a : Z)
  | ClearOne.

Definition run (op : Op) (w : World) : option World :=
  match op with
  | Create a type s => Some (putAllocation a (newAllocation type s) w)
  | HostSurface k a s =>
      storeAllocation false k a TEMPORARY_ALLOCATION (putAllocation a (updateTaskCount eventNotReady k (newAllocation EXTERNAL_HOST_PTR s)) w)
  | MakeResident k a => makeResident k a w
  | FinishTask k hasCommands flushNow => finishTask k hasCommands flushNow w
  | FlushBatched k => flushBatchedSubmissions k w
  | GpuProgress k n => onEngine k (setTag n) w
  | Clean k n u => cleanAllocationList k n u w
  | Store k a u => storeAllocation false k a u w
  | Obtain k s type => snd <$> obtainReusableAllocation k s type w
  | Destroy a => checkGpuUsageAndDestroyGraphicsAllocations a w
  | ClearOne => clearOne w
  end.
End csr.

(** The allocations kept by the storages and the deleter. *)
Definition keptBy (e : Engine) : list Z := temporaryAllocations e ++ allocationsForReuse e.
Definition stored (w : World) : list Z := deferred w ++ (engines w ≫= keptBy).
Definition owned (w : World) (a : Z) : Prop := is_Some (allocations w !! a) /\ a ∉ stored w.
Definition tagOf (w : World) (c : nat) : Z := default 0 (tag <$> engines w !! c).

(** The task [n] of context [c] uses [a]: it was submitted, is recorded, or is
    the one that is being put together. *)
Definition uses (w : World) (c : nat) (n : Z) (a : Z) : Prop :=
  (exists l, (c, n, l) ∈ submitted w /\ a ∈ l) \/
  exists e, engines w !! c = Some e /\
    ((exists l, (n, l) ∈ commandBuffers e /\ a ∈ l) \/ (a ∈ residencyAllocations e /\ n = csrTaskCount e + 1)).
(** No task that the GPU has not completed uses [a] in context [c]. *)
Definition idleIn (w : World) (c : nat) (a : Z) : Prop := forall n, uses w c n a -> n <= tagOf w c.
Definition idle (w : World) (a : Z) : Prop := forall c, idleIn w c a.
Definition room (e : Engine) : Prop := csrTaskCount e + 1 < eventNotReady.

(** What callers take care of: they use and give away what they own, wait for
    the GPU before cleaning, store for one context only, and never an allocation
    of the task being put together for reuse. *)
Definition allowed (w : World) (op : Op) : Prop :=
  match op with
  | Create a _ _ => allocations w !! a = None /\ forall c n, ~ uses w c n a
  | HostSurface k a _ => allocations w !! a = None /\ (forall c n, ~ uses w c n a) /\ is_Some (engines w !! k)
  | MakeResident k a => exists e, engines w !! k = Some e /\ (owned w a \/ a ∈ temporaryAllocations e)
  | FinishTask k _ _ => exists e, engines w !! k = Some e /\ room e
  | FlushBatched k => is_Some (engines w !! k)
  | GpuProgress k n => exists e, engines w !! k = Some e /\ tag e <= n <= latestFlushedTaskCount e
  | Clean k n _ => exists e, engines w !! k = Some e /\ n <= tag e
  | Store k a u => owned w a /\ (forall c, c <> k -> idleIn w c a) /\ exists e, engines w !! k = Some e /\ (u = REUSABLE_ALLOCATION -> a ∉ residencyAllocations e)
  | Obtain k _ _ => is_Some (engines w !! k)
  | Destroy a => owned w a
  | ClearOne => True
  end.

Inductive reachable (grouping : list (Z * list Z) -> list nat) (w0 : World) : World -> Prop :=
  | reach_start : reachable grouping w0 w0
  | reach_step w op w' : reachable grouping w0 w -> allowed w op -> run grouping op w = Some w' -> reachable grouping w0 w'.

Definition newWorld (immediate : list bool) : World := mkWorld ∅ (map newEngine immediate) [] [].

(** ** The invariant *)

Record engine_ok (e : Engine) : Prop := {
  eo_tag : 0 <= tag e <= latestFlushedTaskCount e;
  eo_flushed : latestFlushedTaskCount e <= csrTaskCount e;
  eo_count : csrTaskCount e < eventNotReady;
  eo_recorded : forall n l, (n, l) ∈ commandBuffers e -> latestFlushedTaskCount e < n <= csrTaskCount e;
  eo_sorted : StronglySorted Z.lt (map fst (commandBuffers e));
  eo_immediate : immediateDispatch e = true -> commandBuffers e = [] }.

(** The residency count of an allocation tells whether it already belongs to the
    task that is being put together. *)
Definition residency_ok (k : nat) (e : Engine) (a : Z) (d : GraphicsAllocation) : Prop :=
  isResident k d = true -> getResidencyTaskCount k d <= csrTaskCount e + 1 /\
  (getResidencyTaskCount k d = csrTaskCount e + 1 -> used d k /\ csrTaskCount e + 1 <= getTaskCount k d /\ a ∈ residencyAllocations e).

Record Inv (w : World) : Prop := {
  (** a task that is not complete is covered by the task count of a live allocation *)
  inv_cover : forall c n a, uses w c n a -> tagOf w c < n -> exists d, allocations w !! a = Some d /\ used d c /\ n <= getTaskCount c d;
  inv_engine : forall k e, engines w !! k = Some e -> engine_ok e;
  inv_submitted : forall c n l, (c, n, l) ∈ submitted w -> exists e, engines w !! c = Some e /\ n <= latestFlushedTaskCount e;
  inv_residency : forall k e a d, engines w !! k = Some e -> allocations w !! a = Some d -> residency_ok k e a d;
  inv_counted : forall a d, allocations w !! a = Some d -> counted d /\ forall c, used d c -> (c < length (engines w))%nat;
  inv_contexts : (length (engines w) <= maxOsContextCount)%nat;
  inv_nodup : NoDup (stored w);
  inv_live : forall a, a ∈ stored w -> is_Some (allocations w !! a);
  (** what a storage keeps was used by its own engine only *)
  inv_single : forall k e a c, engines w !! k = Some e -> a ∈ keptBy e -> c <> k -> idleIn w c a }.

Lemma tagOf_engine w k e : engines w !! k = Some e -> tagOf w k = tag e.
Proof. intros E. unfold tagOf. by rewrite E. Qed.

Lemma kept_stored w k e a : engines w !! k = Some e -> a ∈ keptBy e -> a ∈ stored w.
Proof. intros E H. apply elem_of_app. right. apply list_elem_of_bind. exists e. split; [done|]. by eapply list_elem_of_lookup_2. Qed.

(** The lists of one engine apart from the others. *)
Definition storedElsewhere (k : nat) (w : World) : list Z := deferred w ++ (delete k (engines w) ≫= keptBy).
Lemma stored_split w k e : engines w !! k = Some e -> stored w ≡ₚ keptBy e ++ storedElsewhere k w.
Proof.
  intros E. unfold stored, storedElsewhere. rewrite (delete_Permutation _ _ _ E) at 1. rewrite bind_cons.
  rewrite !app_assoc. f_equiv. by rewrite Permutation_app_comm.
Qed.
Lemma elsewhere_putEngine k e w : storedElsewhere k (putEngine k e w) = storedElsewhere k w.
Proof. unfold storedElsewhere. simpl. f_equal. f_equal. apply list_eq. intros i. destruct (decide (i < k)%nat).
  - rewrite !list_lookup_delete_lt by done. by rewrite list_lookup_insert_ne by lia.
  - rewrite !list_lookup_delete_ge by lia. by rewrite list_lookup_insert_ne by lia.
Qed.
Lemma stored_putEngine w k e e' : engines w !! k = Some e -> stored (putEngine k e' w) ≡ₚ keptBy e' ++ storedElsewhere k w.
Proof.
  intros E. rewrite (stored_split _ k e'); [by rewrite elsewhere_putEngine|]. simpl. apply list_lookup_insert_eq. by eapply lookup_lt_Some.
Qed.

(** An allocation is kept at one place. *)
Lemma kept_once w k k' e e' a : NoDup (stored w) -> engines w !! k = Some e -> engines w !! k' = Some e' -> a ∈ keptBy e -> a ∈ keptBy e' -> k = k'.
Proof.
  intros Hn E E' H H'. destruct (decide (k = k')) as [|Hne]; [done|]. exfalso. rewrite (stored_split w k e E) in Hn.
  apply NoDup_app in Hn as (_ & Hd & _). apply (Hd a H). apply elem_of_app. right. apply list_elem_of_bind. exists e'. split; [done|].
  destruct (decide (k' < k)%nat).
  - apply list_elem_of_lookup. exists k'. by rewrite list_lookup_delete_lt.
  - apply list_elem_of_lookup. exists (k' - 1)%nat. rewrite list_lookup_delete_ge by lia. by replace (S (k' - 1)) with k' by lia.
Qed.

Lemma lookup_putEngine w k e e' j : engines w !! k = Some e' -> engines (putEngine k e w) !! j = if decide (j = k) then Some e else engines w !! j.
Proof.
  intros E. simpl. case_decide as Ej; [subst|by rewrite list_lookup_insert_ne]. apply list_lookup_insert_eq. by eapply lookup_lt_Some.
Qed.

Lemma uses_bound w k e n a : Inv w -> engines w !! k = Some e -> uses w k n a -> n <= csrTaskCount e + 1.
Proof.
  intros I E [(l & Hl & _)|(e' & E' & [(l & Hl & _)|[_ ->]])].
  - destruct (inv_submitted w I _ _ _ Hl) as (e' & E' & Hn). simplify_eq. destruct (inv_engine w I _ _ E). lia.
  - simplify_eq. apply (eo_recorded e (inv_engine w I _ _ E)) in Hl. lia.
  - simplify_eq. lia.
Qed.

Lemma uses_engine w c n a : Inv w -> uses w c n a -> exists e, engines w !! c = Some e.
Proof. intros I [(l & Hl & _)|(e & E & _)]; [destruct (inv_submitted w I _ _ _ Hl) as (e & E & _)|]; eauto. Qed.

Lemma not_used_idle w a d c : Inv w -> allocations w !! a = Some d -> ~ used d c -> idleIn w c a.
Proof.
  intros I E Hu n Hn. destruct (decide (n <= tagOf w c)) as [|Hlt]; [done|]. exfalso.
  destruct (inv_cover w I c n a Hn ltac:(lia)) as (d' & E' & H & _). by simplify_eq.
Qed.
Lemma count_idle w a d c : Inv w -> allocations w !! a = Some d -> getTaskCount c d <= tagOf w c -> idleIn w c a.
Proof.
  intros I E Hc n Hn. destruct (decide (n <= tagOf w c)) as [|Hlt]; [done|].
  destruct (inv_cover w I c n a Hn ltac:(lia)) as (d' & E' & _ & H). simplify_eq. lia.
Qed.

(** What is pending is live. *)
Lemma recorded_live w k e n l a : Inv w -> engines w !! k = Some e -> (n, l) ∈ commandBuffers e -> a ∈ l -> is_Some (allocations w !! a).
Proof.
  intros I E Hl Ha. destruct (inv_engine w I _ _ E) as [Ht Hf Hc Hr _ _]. specialize (Hr _ _ Hl).
  destruct (inv_cover w I k n a) as (d & Ed & _); [right; eauto 10|rewrite (tagOf_engine _ _ _ E); lia|]. eauto.
Qed.
Lemma residency_live w k e a : Inv w -> engines w !! k = Some e -> a ∈ residencyAllocations e -> is_Some (allocations w !! a).
Proof.
  intros I E Ha. destruct (inv_engine w I _ _ E) as [Ht Hf Hc Hr _ _].
  destruct (inv_cover w I k (csrTaskCount e + 1) a) as (d & Ed & _); [right; eauto 10|rewrite (tagOf_engine _ _ _ E); lia|]. eauto.
Qed.

(** ** Residency changes that keep every use *)

Definition sameUse (d d' : GraphicsAllocation) : Prop :=
  allocationType d' = allocationType d /\ size d' = size d /\ registeredContextsNum d' = registeredContextsNum d /\
  forall c, getTaskCount c d' = getTaskCount c d /\
    (getResidencyTaskCount c d' = getResidencyTaskCount c d \/ getResidencyTaskCount c d' = objectNotResident).

(** [w'] differs from [w] only in the eviction list of engine [k] (which is [e]
    in [w]) and in what is resident. *)
Record Evicted (k : nat) (e : Engine) (w w' : World) : Prop := {
  ev_engine : engines w !! k = Some e;
  ev_engines : exists l, engines w' = <[k := setEviction l e]> (engines w);
  ev_deferred : deferred w' = deferred w;
  ev_submitted : submitted w' = submitted w;
  ev_allocations : forall a, option_Forall2 sameUse (allocations w !! a) (allocations w' !! a) }.

Lemma sameUse_refl d : sameUse d d.
Proof. repeat split; by left. Qed.
Lemma sameUse_trans d1 d2 d3 : sameUse d1 d2 -> sameUse d2 d3 -> sameUse d1 d3.
Proof.
  intros (T1 & S1 & R1 & C1) (T2 & S2 & R2 & C2). split_and!; [congruence..|]. intros c. destruct (C1 c) as [A1 B1], (C2 c) as [A2 B2].
  split; [congruence|]. destruct B1, B2; [left|right..]; congruence.
Qed.
Lemma sameUse_counted d d' : sameUse d d' -> counted d -> counted d'.
Proof.
  intros (_ & _ & R & C) [Hr Ho]. split; [|intros c Hc; rewrite (proj1 (C c)); by apply Ho]. rewrite R, Hr. do 2 f_equal.
  apply list_filter_iff. intros c. unfold used. by rewrite (proj1 (C c)).
Qed.
Lemma sameUse_used d d' c : sameUse d d' -> used d' c <-> used d c.
Proof. intros (_ & _ & _ & C). unfold used. by rewrite (proj1 (C c)). Qed.

Lemma evicted_refl k e w : engines w !! k = Some e -> Evicted k e w w.
Proof.
  intros E. split; try done.
  - exists (evictionAllocations e). rewrite list_insert_id; [done|]. rewrite E. by destruct e.
  - intros a. destruct (allocations w !! a); constructor. apply sameUse_refl.
Qed.

Lemma evicted_lookup k e w w' : Evicted k e w w' -> exists l, engines w' !! k = Some (setEviction l e).
Proof. intros [E [l El] _ _ _]. exists l. rewrite El. apply list_lookup_insert_eq. by eapply lookup_lt_Some. Qed.

Lemma evicted_trans k e l w w1 w2 : Evicted k e w w1 -> engines w1 !! k = Some (setEviction l e) -> Evicted k (setEviction l e) w1 w2 -> Evicted k e w w2.
Proof.
  intros [E1 [l1 L1] D1 S1 A1] E [E2 [l2 L2] D2 S2 A2]. split; try congruence.
  - exists l2. rewrite L2, L1, list_insert_insert_eq. done.
  - intros a. specialize (A1 a). specialize (A2 a). destruct A1; inversion A2; subst; constructor. by eapply sameUse_trans.
Qed.

Lemma evicted_live k e w w' a : Evicted k e w w' -> is_Some (allocations w' !! a) <-> is_Some (allocations w !! a).
Proof. intros H. destruct (ev_allocations _ _ _ _ H a); split; intros [? ?]; simplify_eq; eauto. Qed.

Lemma releaseResidency_same k a d : sameUse d (releaseResidencyInOsContext k (if a : bool then d else setEvictable true d)).
Proof.
  destruct a; (split_and!; [done..|]); intros c; unfold releaseResidencyInOsContext;
    rewrite updateResidency_count, updateResidency_residency; (split; [done|]); case_decide; tauto.
Qed.

Lemma makeNonResident_spec k e a w : engines w !! k = Some e -> is_Some (allocations w !! a) ->
  exists w', makeNonResident k w a = Some w' /\ Evicted k e w w'.
Proof.
  intros E [d Ed]. unfold makeNonResident. rewrite Ed. cbn [mbind option_bind]. rewrite E. cbn [mbind option_bind].
  assert (forall l d', sameUse d d' -> Evicted k e w (putEngine k (setEviction l e) (putAllocation a d' w))) as H.
  { intros l d' Hs. split; try done; [by exists l|]. intros b. simpl. destruct (decide (b = a)) as [->|].
    - rewrite lookup_insert_eq, Ed. by constructor.
    - rewrite lookup_insert_ne by done. destruct (allocations w !! b); constructor. apply sameUse_refl. }
  assert (setEviction (evictionAllocations e) e = e) as Hid by (by destruct e).
  destruct (isResident k d); [destruct (evictable d)|]; eexists; (split; [done|]).
  - apply H. apply (releaseResidency_same k true).
  - rewrite <- Hid at 2. apply H. apply (releaseResidency_same k false).
  - rewrite <- Hid at 2. apply H. apply (releaseResidency_same k true).
Qed.

Lemma makeAllNonResident_spec k e l w : engines w !! k = Some e -> (forall a, a ∈ l -> is_Some (allocations w !! a)) ->
  exists w', makeAllNonResident k l w = Some w' /\ Evicted k e w w'.
Proof.
  revert e w. induction l as [|a l IH]; intros e w E Hl; cbn [makeAllNonResident].
  - exists w. split; [done|]. by apply evicted_refl.
  - destruct (makeNonResident_spec k e a w E) as (w1 & E1 & H1); [apply Hl; set_solver|]. rewrite E1. cbn [mbind option_bind].
    destruct (evicted_lookup _ _ _ _ H1) as [l1 L1]. destruct (IH _ _ L1) as (w2 & E2 & H2).
    { intros b Hb. apply (evicted_live _ _ _ _ _ H1). apply Hl. set_solver. }
    exists w2. split; [done|]. by eapply evicted_trans.
Qed.

Lemma makeSurfacePackNonResident_spec k e l w : engines w !! k = Some e -> (forall a, a ∈ l -> is_Some (allocations w !! a)) ->
  exists w', makeSurfacePackNonResident k l w = Some w' /\ Evicted k e w w'.
Proof.
  intros E Hl. unfold makeSurfacePackNonResident. destruct (makeAllNonResident_spec k e l w E Hl) as (w1 & -> & H1). cbn [mbind option_bind].
  unfold processEviction, onEngine. destruct (evicted_lookup _ _ _ _ H1) as [l1 L1]. rewrite L1. cbn [mbind option_bind].
  eexists. split; [done|]. eapply evicted_trans; [done|done|]. split; try done; [by exists []|].
  intros b. simpl. destruct (allocations w1 !! b); constructor. apply sameUse_refl.
Qed.

(** The invariant does not see the difference. *)
Lemma evicted_uses k e w w' c n a : Evicted k e w w' -> uses w' c n a <-> uses w c n a.
Proof.
  intros [E [l L] D S A]. unfold uses. rewrite S, L. destruct (decide (c = k)) as [->|Hne].
  - rewrite list_lookup_insert_eq by (by eapply lookup_lt_Some). rewrite E. split; (intros [H|(x & Hx & H)]; [by left|right]; simplify_eq; eexists; split; [done|]); exact H.
  - by rewrite list_lookup_insert_ne.
Qed.
Lemma evicted_tag k e w w' c : Evicted k e w w' -> tagOf w' c = tagOf w c.
Proof.
  intros [E [l L] _ _ _]. unfold tagOf. rewrite L. destruct (decide (c = k)) as [->|Hne].
  - rewrite list_lookup_insert_eq by (by eapply lookup_lt_Some). by rewrite E.
  - by rewrite list_lookup_insert_ne.
Qed.
Lemma evicted_stored k e w w' : Evicted k e w w' -> stored w' ≡ₚ stored w.
Proof.
  intros [E [l L] D S A]. rewrite (stored_split w k e E). rewrite <- (stored_putEngine w k e (setEviction l e) E : _ ≡ₚ keptBy e ++ _).
  unfold stored. by rewrite L, D.
Qed.

Lemma evicted_inv k e w w' : Evicted k e w w' -> Inv w -> Inv w'.
Proof.
  intros H I. pose proof H as [E [l L] D S A].
  assert (forall j x, engines w' !! j = Some x -> exists y l', engines w !! j = Some y /\ x = setEviction l' y) as He.
  { intros j x Hx. rewrite L in Hx. destruct (decide (j = k)) as [->|Hne].
    - rewrite list_lookup_insert_eq in Hx by (by eapply lookup_lt_Some). simplify_eq. eauto.
    - rewrite list_lookup_insert_ne in Hx by done. exists x, (evictionAllocations x). split; [done|]. by destruct x. }
  assert (forall a d', allocations w' !! a = Some d' -> exists d, allocations w !! a = Some d /\ sameUse d d') as Ha.
  { intros a d' Hd. specialize (A a). rewrite Hd in A. inversion A; eauto. }
  split.
  - intros c n a Hu Ht. rewrite (evicted_uses _ _ _ _ _ _ _ H) in Hu. rewrite (evicted_tag _ _ _ _ _ H) in Ht.
    destruct (inv_cover w I c n a Hu Ht) as (d & Ed & Hd & Hn). specialize (A a). rewrite Ed in A. inversion A as [? d' Hs|]; subst.
    exists d'. split; [done|]. split; [by apply (sameUse_used d)|]. destruct Hs as (_ & _ & _ & C). by rewrite (proj1 (C c)).
  - intros j x Hx. destruct (He _ _ Hx) as (y & l' & Hy & ->). destruct (inv_engine w I _ _ Hy). by split.
  - intros c n l0 Hl. rewrite S in Hl. destruct (inv_submitted w I _ _ _ Hl) as (y & Hy & Hn). rewrite L. destruct (decide (c = k)) as [->|].
    + rewrite list_lookup_insert_eq by (by eapply lookup_lt_Some). simplify_eq. eauto.
    + rewrite list_lookup_insert_ne by done. eauto.
  - intros j x a d' Hx Hd. destruct (He _ _ Hx) as (y & l' & Hy & ->). destruct (Ha _ _ Hd) as (d & Ed & Hs).
    pose proof (inv_residency w I _ _ _ _ Hy Ed) as Hr. intros Hres. destruct Hs as (T & Z & R & C). destruct (C j) as [Cj Rj].
    apply bool_decide_eq_true in Hres. destruct Rj as [Rj|Rj]; [|by rewrite Rj in Hres]. unfold used. rewrite Rj, Cj in *.
    apply Hr. by apply bool_decide_eq_true.
  - intros a d' Hd. destruct (Ha _ _ Hd) as (d & Ed & Hs). destruct (inv_counted w I _ _ Ed) as [Hc Hl]. split; [by apply (sameUse_counted d)|].
    intros c Hu. rewrite L, length_insert. apply Hl. by apply (sameUse_used d d').
  - rewrite L, length_insert. apply I.
  - rewrite (evicted_stored _ _ _ _ H). apply I.
  - intros a Hin. rewrite (evicted_stored _ _ _ _ H) in Hin. apply (evicted_live _ _ _ _ _ H). by apply I.
  - intros j x a c Hx Hk Hc n Hu. destruct (He _ _ Hx) as (y & l' & Hy & ->). rewrite (evicted_uses _ _ _ _ _ _ _ H) in Hu.
    rewrite (evicted_tag _ _ _ _ _ H). by apply (inv_single w I j y a c).
Qed.

(** ** Submission *)

(** A change of the engine that leaves the eviction list alone, and a
    submission, go through. *)
Lemma evicted_step k e f s w w' l : Evicted k e w w' -> (forall l e, f (setEviction l e) = setEviction l (f e)) ->
  engines w' !! k = Some (setEviction l e) ->
  Evicted k (f e) (submit s (putEngine k (f e) w)) (submit s (putEngine k (f (setEviction l e)) w')).
Proof.
  intros H Hf E'. pose proof H as [E [l0 L] D S A]. split; simpl; [|exists l|done|by rewrite S|done].
  - apply list_lookup_insert_eq. by eapply lookup_lt_Some.
  - rewrite Hf, L, !list_insert_insert_eq. done.
Qed.

Lemma onEngine_some k f w e : engines w !! k = Some e -> onEngine k f w = Some (putEngine k (f e) w).
Proof. intros E. unfold onEngine. by rewrite E. Qed.

Definition submission (k : nat) (g : list (Z * list Z)) : list (nat * Z * list Z) := map (fun b => (k, fst b, snd b)) g.
(** All the command buffers [bs] given to the GPU. *)
Definition submittedWorld (k : nat) (e : Engine) (bs : list (Z * list Z)) (w : World) : World :=
  submit (submission k bs) (putEngine k (setLatestFlushed (default (latestFlushedTaskCount e) (fst <$> last bs)) e) w).

Lemma submitGroup_spec k e g w : engines w !! k = Some e -> g <> [] -> (forall b a, b ∈ g -> a ∈ snd b -> is_Some (allocations w !! a)) ->
  exists w', submitGroup k g w = Some w' /\
    Evicted k (setLatestFlushed (default (latestFlushedTaskCount e) (fst <$> last g)) e) (submittedWorld k e g w) w'.
Proof.
  intros E Hg Hl. unfold submitGroup, submittedWorld.
  assert (default 0 (fst <$> last g) = default (latestFlushedTaskCount e) (fst <$> last g)) as ->.
  { destruct (last g) eqn:El; [done|]. by apply last_None in El. }
  rewrite (onEngine_some k _ (submit _ w) e) by done. cbn [mbind option_bind].
  destruct (makeSurfacePackNonResident_spec k (setLatestFlushed (default (latestFlushedTaskCount e) (fst <$> last g)) e) (remove_dups (mjoin (map snd g)))
    (putEngine k (setLatestFlushed (default (latestFlushedTaskCount e) (fst <$> last g)) e) (submit (submission k g) w))) as (w' & E' & H).
  - simpl. apply list_lookup_insert_eq. by eapply lookup_lt_Some.
  - intros a Ha. apply elem_of_remove_dups, list_elem_of_join in Ha as (s & Ha & Hs). apply list_elem_of_fmap in Hs as (b & -> & Hb). by eapply Hl.
  - exists w'. by split.
Qed.

Lemma last_app_default {A} (n : A) (l1 l2 : list (A * list Z)) : default (default n (fst <$> last l1)) (fst <$> last l2) = default n (fst <$> last (l1 ++ l2)).
Proof. rewrite last_app. by destruct (last l2). Qed.

Lemma submitGroups_spec k gs e w : engines w !! k = Some e -> (forall g, g ∈ gs -> g <> []) ->
  (forall b a, b ∈ mjoin gs -> a ∈ snd b -> is_Some (allocations w !! a)) ->
  exists w', submitGroups k gs w = Some w' /\
    Evicted k (setLatestFlushed (default (latestFlushedTaskCount e) (fst <$> last (mjoin gs))) e) (submittedWorld k e (mjoin gs) w) w'.
Proof.
  revert e w. induction gs as [|g gs IH]; intros e w E Hg Hl; cbn [submitGroups].
  - exists w. split; [done|]. unfold submittedWorld. simpl. assert (setLatestFlushed (latestFlushedTaskCount e) e = e) as -> by (by destruct e).
    assert (submit [] (putEngine k e w) = w) as ->; [|by apply evicted_refl].
    unfold submit, putEngine. simpl. rewrite app_nil_r, list_insert_id by done. by destruct w.
  - simpl mjoin in *. destruct (submitGroup_spec k e g w E) as (w1 & -> & H1); [apply Hg; set_solver|intros b a Hb; apply Hl; set_solver|].
    cbn [mbind option_bind]. destruct (evicted_lookup _ _ _ _ H1) as [l1 L1].
    destruct (IH _ w1 L1) as (w2 & -> & H2); [intros x Hx; apply Hg; set_solver| |].
    { intros b a Hb Ha. apply (evicted_live _ _ _ _ _ H1). apply (Hl b a); [set_solver|done]. }
    exists w2. split; [done|].
    pose proof (evicted_step _ _ (setLatestFlushed (default (default (latestFlushedTaskCount e) (fst <$> last g)) (fst <$> last (mjoin gs)))) (submission k (mjoin gs)) _ _ _ H1 ltac:(done) L1) as H3.
    unfold submittedWorld in H2. simpl latestFlushedTaskCount in H2.
    assert (submit (submission k (mjoin gs)) (putEngine k (setLatestFlushed (default (default (latestFlushedTaskCount e) (fst <$> last g)) (fst <$> last (mjoin gs))) (setLatestFlushed (default (latestFlushedTaskCount e) (fst <$> last g)) e)) (submittedWorld k e g w)) = submittedWorld k e (g ++ mjoin gs) w) as Heq.
    { unfold submittedWorld, submit, putEngine, submission. simpl. rewrite map_app, app_assoc, list_insert_insert_eq, <- last_app_default. done. }
    rewrite Heq in H3. rewrite last_app_default in H3, H2. simpl in H3, H2. eapply evicted_trans; [exact H3| |exact H2].
    simpl. apply list_lookup_insert_eq. by eapply lookup_lt_Some.
Qed.

Lemma groupsOf_join sizes l : mjoin (groupsOf sizes l) = l /\ forall g, g ∈ groupsOf sizes l -> g <> [].
Proof.
  revert l. induction sizes as [|n sizes IH]; intros [|b l]; simpl; try (split; [done|set_solver]).
  - split; [by rewrite app_nil_r|]. intros g Hg. by apply list_elem_of_singleton in Hg as ->.
  - destruct (IH (drop n l)) as [E H]. rewrite E. split; [by rewrite take_drop|]. intros g Hg. apply elem_of_cons in Hg as [->|Hg]; [done|by apply H].
Qed.

(** What is left of [flushBatchedSubmissions] up to residency. *)
Definition flushedWorld (k : nat) (e : Engine) (w : World) : World :=
  if immediateDispatch e then w
  else match commandBuffers e with [] => w | bs => putEngine k (setMemoryUsed 0 (setLatestFlushed (default (latestFlushedTaskCount e) (fst <$> last bs)) (setCommandBuffers [] e))) (submit (submission k bs) w) end.

Lemma flush_spec grouping k e w : engines w !! k = Some e ->
  (forall n l a, (n, l) ∈ commandBuffers e -> a ∈ l -> is_Some (allocations w !! a)) ->
  exists e' w', engines (flushedWorld k e w) !! k = Some e' /\ flushBatchedSubmissions grouping k w = Some w' /\ Evicted k e' (flushedWorld k e w) w'.
Proof.
  intros E Hl. unfold flushBatchedSubmissions, flushedWorld. rewrite E. cbn [mbind option_bind].
  destruct (immediateDispatch e); [exists e, w; split; [done|]; split; [done|by apply evicted_refl]|].
  destruct (commandBuffers e) as [|b bs] eqn:Eb; [exists e, w; split; [done|]; split; [done|by apply evicted_refl]|].
  destruct (groupsOf_join (grouping (b :: bs)) (b :: bs)) as [Ej Hg]. set (gs := groupsOf _ _) in *.
  assert (engines (putEngine k (setCommandBuffers [] e) w) !! k = Some (setCommandBuffers [] e)) as E1 by (simpl; apply list_lookup_insert_eq; by eapply lookup_lt_Some).
  destruct (submitGroups_spec k gs _ _ E1 Hg) as (w1 & -> & H1).
  { rewrite Ej. intros [n l] a Hb Ha. by apply (Hl n l). }
  cbn [mbind option_bind]. rewrite Ej in H1. destruct (evicted_lookup _ _ _ _ H1) as [l1 L1]. rewrite (onEngine_some _ _ _ _ L1).
  eexists _, _. split; [|split; [done|]]; [simpl; apply list_lookup_insert_eq; by eapply lookup_lt_Some|].
  pose proof (evicted_step _ _ (setMemoryUsed 0) [] _ _ _ H1 ltac:(done) L1) as H2.
  assert (forall x, submit [] x = x) as Hs0 by (intros [? ? ? ?]; unfold submit; simpl; by rewrite app_nil_r).
  rewrite !Hs0 in H2. unfold submittedWorld in H2. unfold putEngine, submit in *. simpl in *. rewrite !list_insert_insert_eq in H2. exact H2.
Qed.

(** The engine and the submissions after [finishTask], up to residency. *)
Definition taskEngine (k : nat) (hasCommands : bool) (e : Engine) : Engine * list (nat * Z * list Z) :=
  let n := w32 (csrTaskCount e + 1) in
  if hasCommands then
    if immediateDispatch e then (setResidency [] (setLatestFlushed n e), [(k, n, residencyAllocations e)])
    else (setCommandBuffers (commandBuffers e ++ [(n, residencyAllocations e)]) (setResidency [] e), [])
  else (setResidency [] e, []).
Definition flushEngine (k : nat) (flushNow : bool) (e : Engine) : Engine * list (nat * Z * list Z) :=
  if flushNow && negb (immediateDispatch e) then
    match commandBuffers e with
    | [] => (e, [])
    | bs => (setMemoryUsed 0 (setLatestFlushed (default (latestFlushedTaskCount e) (fst <$> last bs)) (setCommandBuffers [] e)), submission k bs)
    end
  else (e, []).

Lemma submit_nil w : submit [] w = w.
Proof. destruct w. unfold submit. simpl. by rewrite app_nil_r. Qed.
Lemma submit_put_put k e e' s s' w : submit s' (putEngine k e' (submit s (putEngine k e w))) = submit (s ++ s') (putEngine k e' w).
Proof. unfold submit, putEngine. simpl. by rewrite list_insert_insert_eq, app_assoc. Qed.
Lemma put_id k e w : engines w !! k = Some e -> putEngine k e w = w.
Proof. intros E. unfold putEngine. rewrite list_insert_id by done. by destruct w. Qed.
Lemma put_lookup k e e' s w : engines w !! k = Some e -> engines (submit s (putEngine k e' w)) !! k = Some e'.
Proof. intros E. simpl. apply list_lookup_insert_eq. by eapply lookup_lt_Some. Qed.

(** A command of the section seen up to residency. *)
Definition Becomes (k : nat) (w : World) (e' : Engine) (s : list (nat * Z * list Z)) (w' : World) : Prop :=
  Evicted k e' (submit s (putEngine k e' w)) w'.

Lemma becomes_step k w e' s w' f s' : Becomes k w e' s w' -> (forall l e, f (setEviction l e) = setEviction l (f e)) ->
  exists e0, engines w' !! k = Some e0 /\ Becomes k w (f e') (s ++ s') (submit s' (putEngine k (f e0) w')).
Proof.
  intros H Hf. destruct (evicted_lookup _ _ _ _ H) as [l L]. exists (setEviction l e'). split; [done|].
  pose proof (evicted_step _ _ f s' _ _ _ H Hf L) as H'. by rewrite submit_put_put in H'.
Qed.

Lemma becomes_pack k w e' s w' l : Becomes k w e' s w' -> (forall a, a ∈ l -> is_Some (allocations w !! a)) ->
  exists w2, makeSurfacePackNonResident k l w' = Some w2 /\ Becomes k w e' s w2.
Proof.
  intros H Hl. destruct (evicted_lookup _ _ _ _ H) as [l1 L1]. destruct (makeSurfacePackNonResident_spec k _ l w' L1) as (w2 & E & H2).
  { intros a Ha. apply (evicted_live _ _ _ _ _ H). by apply Hl. }
  exists w2. split; [done|]. by eapply evicted_trans.
Qed.

Lemma task_spec k (hasCommands : bool) e w : engines w !! k = Some e -> (forall a, a ∈ residencyAllocations e -> is_Some (allocations w !! a)) ->
  exists w', (if hasCommands then
         if immediateDispatch e then
           w ← onEngine k (setLatestFlushed (w32 (csrTaskCount e + 1))) (submit [(k, w32 (csrTaskCount e + 1), residencyAllocations e)] w);
           w ← makeSurfacePackNonResident k (residencyAllocations e) w;
           onEngine k (setResidency []) w
         else Some (putEngine k (setCommandBuffers (commandBuffers e ++ [(w32 (csrTaskCount e + 1), residencyAllocations e)]) (setResidency [] e)) w)
       else w ← makeSurfacePackNonResident k (residencyAllocations e) w; onEngine k (setResidency []) w) = Some w' /\
    Becomes k w (fst (taskEngine k hasCommands e)) (snd (taskEngine k hasCommands e)) w'.
Proof.
  intros E Hl. unfold taskEngine.
  assert (forall e' s w1, Becomes k w e' s w1 -> exists w2, (w2 ← makeSurfacePackNonResident k (residencyAllocations e) w1; onEngine k (setResidency []) w2) = Some w2 /\ Becomes k w (setResidency [] e') s w2) as Hpack.
  { intros e' s w1 H. destruct (becomes_pack _ _ _ _ _ _ H Hl) as (w2 & E2 & H2). rewrite E2. cbn [mbind option_bind].
    destruct (becomes_step _ _ _ _ _ (setResidency []) [] H2) as (e0 & E0 & H3); [done|]. rewrite (onEngine_some _ _ _ _ E0).
    rewrite submit_nil, app_nil_r in H3. eauto. }
  assert (Becomes k w e [] w) as H0 by (unfold Becomes; rewrite put_id, submit_nil by done; by apply evicted_refl).
  destruct hasCommands; [destruct (immediateDispatch e)|].
  - rewrite (onEngine_some k _ (submit _ w) e) by done. cbn [mbind option_bind]. apply (Hpack (setLatestFlushed (w32 (csrTaskCount e + 1)) e) [(k, w32 (csrTaskCount e + 1), residencyAllocations e)]).
    unfold Becomes. apply evicted_refl. simpl. apply list_lookup_insert_eq. by eapply lookup_lt_Some.
  - eexists. split; [done|]. unfold Becomes. simpl. rewrite submit_nil. apply evicted_refl. simpl. apply list_lookup_insert_eq. by eapply lookup_lt_Some.
  - by apply (Hpack e [] w).
Qed.

Lemma flush_becomes grouping k e' s w w' flushNow : Becomes k w e' s w' ->
  (forall n l a, (n, l) ∈ commandBuffers e' -> a ∈ l -> is_Some (allocations w !! a)) ->
  exists w2, (if flushNow : bool then flushBatchedSubmissions grouping k w' else Some w') = Some w2 /\
    Becomes k w (fst (flushEngine k flushNow e')) (s ++ snd (flushEngine k flushNow e')) w2.
Proof.
  intros H Hl. destruct (evicted_lookup _ _ _ _ H) as [l L]. unfold flushEngine. destruct flushNow; simpl; [|exists w'; by rewrite app_nil_r].
  destruct (flush_spec grouping k _ _ L) as (e2 & w2 & E2 & Ef & H2).
  { intros n l0 a Hn Ha. apply (evicted_live _ _ _ _ _ H). by apply (Hl n l0). }
  exists w2. split; [done|]. unfold flushedWorld in *. simpl in *. destruct (immediateDispatch e'); simpl.
  { rewrite app_nil_r. simplify_eq. by eapply evicted_trans. }
  destruct (commandBuffers e') as [|b bs] eqn:Eb; simpl.
  { rewrite app_nil_r. simplify_eq. by eapply evicted_trans. }
  destruct (becomes_step _ _ _ _ _ (fun e => setMemoryUsed 0 (setLatestFlushed (default (latestFlushedTaskCount e) (fst <$> last (b :: bs))) (setCommandBuffers [] e))) (submission k (b :: bs)) H) as (e0 & E0 & H3); [done|].
  assert (e0 = setEviction l e') as -> by congruence. simpl in H3, H2, E2.
  assert (e2 = setEviction l (setMemoryUsed 0 (setLatestFlushed (default (latestFlushedTaskCount e') (fst <$> last (b :: bs))) (setCommandBuffers [] e')))) as ->.
  { rewrite list_lookup_insert_eq in E2 by (by eapply lookup_lt_Some). by simplify_eq. }
  eapply evicted_trans; [exact H3| |exact H2]. simpl. apply list_lookup_insert_eq. by eapply lookup_lt_Some.
Qed.

Lemma finish_spec grouping k hasCommands flushNow e w : engines w !! k = Some e ->
  (forall a, a ∈ residencyAllocations e -> is_Some (allocations w !! a)) ->
  (forall n l a, (n, l) ∈ commandBuffers e -> a ∈ l -> is_Some (allocations w !! a)) ->
  let '(e1, s1) := taskEngine k hasCommands e in let '(e2, s2) := flushEngine k flushNow e1 in
  exists w', finishTask grouping k hasCommands flushNow w = Some w' /\
    Becomes k w (setTaskCount (w32 (csrTaskCount e2 + 1)) e2) (s1 ++ s2) w'.
Proof.
  intros E Hr Hl. unfold finishTask. rewrite E. cbn [mbind option_bind].
  destruct (task_spec k hasCommands e w E Hr) as (w1 & E1 & H1). destruct (taskEngine k hasCommands e) as [e1 s1] eqn:Et.
  rewrite E1. cbn [mbind option_bind]. simpl in H1.
  destruct (flush_becomes grouping k e1 s1 w w1 flushNow H1) as (w2 & E2 & H2).
  { intros n l a Hn Ha. unfold taskEngine in Et. destruct hasCommands; [destruct (immediateDispatch e)|]; simplify_eq/=; try by apply (Hl n l).
    apply elem_of_app in Hn as [Hn|Hn]; [by apply (Hl n l)|]. apply list_elem_of_singleton in Hn. simplify_eq. by apply Hr. }
  destruct (flushEngine k flushNow e1) as [e2 s2]. rewrite E2. cbn [mbind option_bind]. simpl in H2.
  destruct (becomes_step _ _ _ _ _ (fun e => setTaskCount (w32 (csrTaskCount e + 1)) e) [] H2) as (e0 & E0 & H3); [done|].
  rewrite (onEngine_some _ _ _ _ E0). rewrite submit_nil, app_nil_r in H3. eauto.
Qed.

(** ** Preservation *)

(** A change of one engine that adds no use. *)
Lemma inv_engine_step k e e' s w : Inv w -> engines w !! k = Some e -> engine_ok e' ->
  tag e <= tag e' -> latestFlushedTaskCount e <= latestFlushedTaskCount e' -> csrTaskCount e <= csrTaskCount e' ->
  (csrTaskCount e' = csrTaskCount e -> residencyAllocations e ⊆ residencyAllocations e') -> keptBy e' = keptBy e ->
  (forall c n l, (c, n, l) ∈ s -> c = k /\ n <= latestFlushedTaskCount e') ->
  (forall n a, uses (submit s (putEngine k e' w)) k n a -> uses w k n a) -> Inv (submit s (putEngine k e' w)).
Proof.
  intros I E Ho Ht Hf Hc Hr Hk Hs Hu. set (w' := submit s (putEngine k e' w)).
  assert (engines w' !! k = Some e') as E' by (by eapply put_lookup).
  assert (forall j x, engines w' !! j = Some x -> j <> k -> engines w !! j = Some x) as Hother.
  { intros j x Hx Hne. simpl in Hx. by rewrite list_lookup_insert_ne in Hx by done. }
  assert (forall c n a, uses w' c n a -> uses w c n a) as Huses.
  { intros c n a H. destruct (decide (c = k)) as [->|Hne]; [by apply Hu|]. destruct H as [(l & Hl & Ha)|(x & Hx & H)].
    - left. exists l. split; [|done]. apply elem_of_app in Hl as [Hl|Hl]; [done|]. by destruct (Hs _ _ _ Hl).
    - right. exists x. split; [by apply Hother|done]. }
  assert (forall c, tagOf w c <= tagOf w' c) as Htag.
  { intros c. destruct (decide (c = k)) as [->|Hne]; [by rewrite (tagOf_engine _ _ _ E), (tagOf_engine _ _ _ E')|].
    unfold tagOf. simpl. by rewrite list_lookup_insert_ne. }
  assert (stored w' ≡ₚ stored w) as Hst.
  { rewrite (stored_split w k e E), <- Hk. by apply (stored_putEngine w k e e' E). }
  split.
  - intros c n a H Hn. apply (inv_cover w I); [by apply Huses|]. specialize (Htag c). lia.
  - intros j x Hx. destruct (decide (j = k)) as [->|Hne]; [by simplify_eq|]. by apply (inv_engine w I j), Hother.
  - intros c n l Hl. destruct (decide (c = k)) as [->|Hne].
    + exists e'. split; [done|]. apply elem_of_app in Hl as [Hl|Hl]; [|by apply (Hs _ _ _ Hl)].
      destruct (inv_submitted w I _ _ _ Hl) as (y & Hy & Hn). simplify_eq. lia.
    + apply elem_of_app in Hl as [Hl|Hl]; [|by destruct (Hs _ _ _ Hl)]. destruct (inv_submitted w I _ _ _ Hl) as (y & Hy & Hn).
      exists y. split; [|done]. simpl. by rewrite list_lookup_insert_ne.
  - intros j x a d Hx Hd. destruct (decide (j = k)) as [->|Hne]; [|by apply (inv_residency w I); [apply Hother|]].
    simplify_eq. pose proof (inv_residency w I _ _ _ _ E Hd) as H. intros Hres. destruct (H Hres) as [H1 H2]. split; [lia|]. intros H3.
    destruct H2 as (? & ? & ?); [lia|]. split; [done|]. split; [lia|]. apply Hr; [lia|done].
  - intros a d Hd. destruct (inv_counted w I _ _ Hd) as [? H]. split; [done|]. simpl. by rewrite length_insert.
  - simpl. rewrite length_insert. apply I.
  - rewrite Hst. apply I.
  - intros a Ha. rewrite Hst in Ha. by apply I in Ha.
  - intros j x a c Hx Ha Hne n H. transitivity (tagOf w c); [|done]. destruct (decide (j = k)) as [->|Hj].
    + simplify_eq. rewrite Hk in Ha. by apply (inv_single w I k e a c E Ha Hne n), Huses.
    + by apply (inv_single w I j x a c (Hother _ _ Hx Hj) Ha Hne n), Huses.
Qed.

Lemma becomes_inv k e e' s w w' : Inv w -> engines w !! k = Some e -> engine_ok e' ->
  tag e <= tag e' -> latestFlushedTaskCount e <= latestFlushedTaskCount e' -> csrTaskCount e <= csrTaskCount e' ->
  (csrTaskCount e' = csrTaskCount e -> residencyAllocations e ⊆ residencyAllocations e') -> keptBy e' = keptBy e ->
  (forall c n l, (c, n, l) ∈ s -> c = k /\ n <= latestFlushedTaskCount e') ->
  (forall n a, uses (submit s (putEngine k e' w)) k n a -> uses w k n a) -> Becomes k w e' s w' -> Inv w'.
Proof. intros. eapply evicted_inv; [done|]. by eapply inv_engine_step. Qed.

Lemma uses_put k e e' s w n a : engines w !! k = Some e ->
  uses (submit s (putEngine k e' w)) k n a ->
  (exists l, (k, n, l) ∈ submitted w /\ a ∈ l) \/ (exists l, (k, n, l) ∈ s /\ a ∈ l) \/
  (exists l, (n, l) ∈ commandBuffers e' /\ a ∈ l) \/ (a ∈ residencyAllocations e' /\ n = csrTaskCount e' + 1).
Proof.
  intros E [(l & Hl & Ha)|(x & Hx & H)].
  - apply elem_of_app in Hl as [Hl|Hl]; [left|right; left]; eauto.
  - rewrite (put_lookup k e e' s w E) in Hx. simplify_eq. tauto.
Qed.

Lemma elem_of_submission k bs c n l : (c, n, l) ∈ submission k bs <-> c = k /\ (n, l) ∈ bs.
Proof.
  unfold submission. rewrite list_elem_of_fmap. split; [intros ([n' l'] & H & Hb); by simplify_eq/=|]. intros [-> Hb]. by exists (n, l).
Qed.

Lemma sorted_last (bs : list (Z * list Z)) n0 n l : StronglySorted Z.lt (map fst bs) -> (n, l) ∈ bs -> n <= default n0 (fst <$> last bs).
Proof.
  induction bs as [|b bs IH] using rev_ind; [by intros _ ?%elem_of_nil|]. intros Hs Hb. rewrite last_snoc. simpl.
  rewrite map_app in Hs. apply elem_of_app in Hb as [Hb|Hb]; [|apply list_elem_of_singleton in Hb; by simplify_eq/=].
  apply StronglySorted_app_1_elem_of with (x1 := n) (x2 := fst b) in Hs; [lia| |by apply list_elem_of_singleton].
  apply list_elem_of_fmap. by exists (n, l).
Qed.

(** ** Tasks *)

#[local] Arguments submission : simpl never.

Lemma flushEngine_ok k flushNow e : engine_ok e ->
  let '(e', s) := flushEngine k flushNow e in engine_ok e' /\ latestFlushedTaskCount e <= latestFlushedTaskCount e' /\
    tag e' = tag e /\ csrTaskCount e' = csrTaskCount e /\ residencyAllocations e' = residencyAllocations e /\ keptBy e' = keptBy e /\
    (forall c n l, (c, n, l) ∈ s -> c = k /\ n <= latestFlushedTaskCount e' /\ (n, l) ∈ commandBuffers e) /\
    (forall n l, (n, l) ∈ commandBuffers e' -> (n, l) ∈ commandBuffers e).
Proof.
  intros [Ht Hf Hc Hr Hs Him]. unfold flushEngine.
  destruct (flushNow && negb (immediateDispatch e)); [|split_and!; try done; [by set_solver]].
  destruct (commandBuffers e) as [|b bs] eqn:Eb; [split_and!; try done; [by split; rewrite ?Eb|set_solver|by rewrite Eb]|].
  assert (last (b :: bs) <> None) as Hl by (intros H; by apply last_None in H).
  destruct (last (b :: bs)) as [[n l]|] eqn:El; [|done]. simpl.
  assert ((n, l) ∈ b :: bs) as Hin by (by apply last_Some_elem_of).
  destruct (Hr n l Hin) as [H1 H2]. split_and!; simpl; try done; try lia.
  - split; simpl; try lia; try done; [set_solver|constructor].
  - intros c m s Hm. apply elem_of_submission in Hm as [-> Hm]. split; [done|]. split; [|done].
    pose proof (sorted_last (b :: bs) 0 m s Hs Hm) as H. by rewrite El in H.
  - set_solver.
Qed.

(** What the callers of a flush know of its effects. *)
Record Quiet (w w' : World) : Prop := {
  qu_live : forall b, is_Some (allocations w' !! b) <-> is_Some (allocations w !! b);
  qu_stored : stored w' ≡ₚ stored w;
  qu_deferred : deferred w' = deferred w;
  qu_length : length (engines w') = length (engines w);
  qu_tag : forall c, tagOf w' c = tagOf w c }.
#[global] Instance quiet_preorder : PreOrder Quiet.
Proof.
  split; [by split|]. intros w1 w2 w3 [A1 B1 C1 D1 E1] [A2 B2 C2 D2 E2]. split; try congruence.
  - intros b. by rewrite A2.
  - by rewrite B2.
Qed.

Lemma becomes_quiet k w e e' s w' : engines w !! k = Some e -> tag e' = tag e -> keptBy e' = keptBy e -> Becomes k w e' s w' -> Quiet w w'.
Proof.
  intros E Ht Hk H. split.
  - intros a. by rewrite (evicted_live _ _ _ _ a H).
  - rewrite (evicted_stored _ _ _ _ H), (stored_split w k e E), <- Hk. by apply (stored_putEngine w k e e' E).
  - by rewrite (ev_deferred _ _ _ _ H).
  - destruct (ev_engines _ _ _ _ H) as [l ->]. simpl. by rewrite !length_insert.
  - intros c. rewrite (evicted_tag _ _ _ _ c H). unfold tagOf. simpl. destruct (decide (c = k)) as [->|]; [|by rewrite list_lookup_insert_ne].
    rewrite list_lookup_insert_eq by (by eapply lookup_lt_Some). rewrite E. simpl. congruence.
Qed.

Lemma flush_inv grouping k w : Inv w -> is_Some (engines w !! k) -> exists w', flushBatchedSubmissions grouping k w = Some w' /\ Inv w' /\
  Quiet w w' /\ forall a, option_Forall2 sameUse (allocations w !! a) (allocations w' !! a).
Proof.
  intros I [e E]. pose proof (inv_engine w I _ _ E) as Ho.
  destruct (flush_becomes grouping k e [] w w true) as (w' & Ew & H).
  { unfold Becomes. rewrite put_id, submit_nil by done. by apply evicted_refl. }
  { intros n l a Hn Ha. by eapply recorded_live. }
  pose proof (flushEngine_ok k true e Ho) as Hfe. destruct (flushEngine k true e) as [e' s]. simpl in H.
  destruct Hfe as (Ho' & Hf & Ht & Hc & Hr & Hk & Hs & Hb). exists w'. split; [done|]. split; [|split].
  - eapply (becomes_inv k e e' s w); try done; try lia; [by rewrite Hr|intros c n l Hn; destruct (Hs _ _ _ Hn) as (? & ? & ?); done|].
    intros n a Hu. destruct (uses_put _ _ _ _ _ _ _ E Hu) as [?|[(l & Hl & Ha)|[(l & Hl & Ha)|[Ha ->]]]]; [by left|right; exists e..].
    + destruct (Hs _ _ _ Hl) as (_ & _ & Hl'). eauto 10.
    + apply Hb in Hl. eauto 10.
    + rewrite Hr in Ha. rewrite Hc. eauto 10.
  - by eapply becomes_quiet.
  - exact (ev_allocations _ _ _ _ H).
Qed.

Lemma finish_inv grouping k hasCommands flushNow e w : Inv w -> engines w !! k = Some e -> room e ->
  exists w', finishTask grouping k hasCommands flushNow w = Some w' /\ Inv w'.
Proof.
  intros I E Hroom. pose proof (inv_engine w I _ _ E) as [Ht Hf Hc Hr Hs Him]. unfold room in Hroom.
  assert (w32 (csrTaskCount e + 1) = csrTaskCount e + 1) as Hw by (unfold eventNotReady in *; by unwrap).
  pose proof (finish_spec grouping k hasCommands flushNow e w E (fun a H => residency_live w k e a I E H) (fun n l a H => recorded_live w k e n l a I E H)) as Hfin.
  destruct (taskEngine k hasCommands e) as [e1 s1] eqn:E1. unfold taskEngine in E1. rewrite Hw in E1.
  (* the engine with its task counted *)
  assert (engine_ok (setTaskCount (csrTaskCount e + 1) e1) /\ latestFlushedTaskCount e <= latestFlushedTaskCount e1 /\ tag e1 = tag e /\
    csrTaskCount e1 = csrTaskCount e /\ residencyAllocations e1 = [] /\ keptBy e1 = keptBy e /\
    (forall c n l, (c, n, l) ∈ s1 -> c = k /\ n <= latestFlushedTaskCount e1 /\ n = csrTaskCount e + 1 /\ l = residencyAllocations e) /\
    (forall n l, (n, l) ∈ commandBuffers e1 -> (n, l) ∈ commandBuffers e \/ n = csrTaskCount e + 1 /\ l = residencyAllocations e))
    as (Ho1 & Hf1 & Ht1 & Hc1 & Hr1 & Hk1 & Hs1 & Hb1).
  { assert (forall c n (l : list Z), (c, n, l) ∈ [] -> c = k /\ n <= latestFlushedTaskCount e /\ n = csrTaskCount e + 1 /\ l = residencyAllocations e) as Hnil by (intros ??? H; by apply elem_of_nil in H).
    destruct hasCommands; [destruct (immediateDispatch e) eqn:Ei|]; simplify_eq/=; (split; [|split_and!; try done; try lia]).
    - split; simpl; try lia; try done; rewrite (Him eq_refl); [intros ?? H; by apply elem_of_nil in H|constructor].
    - intros c n l Hn. apply list_elem_of_singleton in Hn. by simplify_eq.
    - intros n l Hn. by left.
    - split; simpl; try lia; try congruence; [|rewrite map_app; apply StronglySorted_app_2; [|done|by repeat constructor]].
      + intros n l Hn. apply elem_of_app in Hn as [Hn|Hn]; [specialize (Hr _ _ Hn); lia|]. apply list_elem_of_singleton in Hn. simplify_eq. lia.
      + intros x y Hx Hy. apply list_elem_of_singleton in Hy as ->. apply list_elem_of_fmap in Hx as ([n l] & -> & Hx). specialize (Hr _ _ Hx). simpl. lia.
    - intros n l Hn. apply elem_of_app in Hn as [Hn|Hn]; [by left|]. apply list_elem_of_singleton in Hn. simplify_eq. by right.
    - split; simpl; try lia; try done. intros n l Hn. specialize (Hr _ _ Hn). lia.
    - intros n l Hn. by left. }
  pose proof (flushEngine_ok k flushNow (setTaskCount (csrTaskCount e + 1) e1) Ho1) as Hfe.
  (* flushing and counting commute *)
  assert (exists e2 s2, flushEngine k flushNow e1 = (e2, s2) /\ flushEngine k flushNow (setTaskCount (csrTaskCount e + 1) e1) = (setTaskCount (csrTaskCount e + 1) e2, s2) /\ csrTaskCount e2 = csrTaskCount e1)
    as (e2 & s2 & E2 & E2' & Hc2).
  { unfold flushEngine. simpl. destruct (flushNow && negb (immediateDispatch e1)); [|by eexists _, _]. destruct (commandBuffers e1); by eexists _, _. }
  rewrite E2 in Hfin. rewrite E2' in Hfe. rewrite Hc2, Hc1, Hw in Hfin. destruct Hfin as (w' & Ew & H). exists w'. split; [done|].
  destruct Hfe as (Ho2 & Hf2 & Ht2 & _ & Hr2 & Hk2 & Hs2 & Hb2). simpl in *.
  eapply (becomes_inv k e _ _ w w'); try exact H; try done; simpl; try lia; [exact (eq_trans Hk2 Hk1)| |].
  - intros c n l Hn. apply elem_of_app in Hn as [Hn|Hn].
    + destruct (Hs1 _ _ _ Hn) as (? & ? & _). split; [done|lia].
    + by destruct (Hs2 _ _ _ Hn) as (? & ? & _).
  - intros n a Hu. apply (uses_put _ _ _ _ _ _ _ E) in Hu as [?|[(l & Hl & Ha)|[(l & Hl & Ha)|[Ha ->]]]]; [by left|right; exists e; split; [done|]..].
    + assert (((n, l) ∈ commandBuffers e \/ n = csrTaskCount e + 1 /\ l = residencyAllocations e)) as [Hn|[-> ->]]; [|by left; eauto|by right].
      apply elem_of_app in Hl as [Hl|Hl]; [right; by apply Hs1 in Hl as (_ & _ & ? & ?)|]. destruct (Hs2 _ _ _ Hl) as (_ & _ & Hl'). by apply Hb1.
    + simpl in Hl. apply Hb2, Hb1 in Hl as [Hl|[-> ->]]; [left; eauto|by right].
    + simpl in Ha. rewrite Hr2, Hr1 in Ha. by apply elem_of_nil in Ha.
Qed.

(** ** Allocations *)

Lemma uses_putAllocation a d w c n b : uses (putAllocation a d w) c n b <-> uses w c n b.
Proof. done. Qed.

Lemma inv_putAllocation a d w : Inv w -> counted d -> (forall c, used d c -> (c < length (engines w))%nat) ->
  (forall c n, uses w c n a -> tagOf w c < n -> used d c /\ n <= getTaskCount c d) ->
  (forall k e, engines w !! k = Some e -> residency_ok k e a d) -> Inv (putAllocation a d w).
Proof.
  intros I Hc Hl Hu Hr. split; try apply I; simpl.
  - intros c n b Hb Ht. destruct (decide (b = a)) as [->|Hne].
    + exists d. rewrite lookup_insert_eq. split; [done|]. by apply Hu.
    + rewrite lookup_insert_ne by done. by apply (inv_cover w I).
  - intros k e b x E Hx. destruct (decide (b = a)) as [->|Hne].
    + rewrite lookup_insert_eq in Hx. simplify_eq. by apply Hr.
    + rewrite lookup_insert_ne in Hx by done. by apply (inv_residency w I).
  - intros b x Hx. destruct (decide (b = a)) as [->|Hne].
    + rewrite lookup_insert_eq in Hx. simplify_eq. done.
    + rewrite lookup_insert_ne in Hx by done. by apply (inv_counted w I b).
  - intros b Hb. destruct (decide (b = a)) as [->|Hne]; [rewrite lookup_insert_eq; eauto|]. rewrite lookup_insert_ne by done. by apply I.
Qed.

Lemma inv_addUse k e a d m w : Inv w -> engines w !! k = Some e -> allocations w !! a = Some d -> used d k -> csrTaskCount e + 1 <= getTaskCount k d ->
  (a ∉ stored w \/ a ∈ keptBy e) -> Inv (putEngine k (setMemoryUsed m (setResidency (residencyAllocations e ++ [a]) e)) w).
Proof.
  intros I E Ed Hused Hn Ha. set (e' := setMemoryUsed m _). set (w' := putEngine k e' w).
  assert (engines w' !! k = Some e') as E' by (simpl; apply list_lookup_insert_eq; by eapply lookup_lt_Some).
  assert (forall j x, engines w' !! j = Some x -> j <> k -> engines w !! j = Some x) as Hother.
  { intros j x Hx Hne. simpl in Hx. by rewrite list_lookup_insert_ne in Hx by done. }
  assert (forall c n b, uses w' c n b -> uses w c n b \/ (c = k /\ n = csrTaskCount e + 1 /\ b = a)) as Hu.
  { intros c n b [Hs|(x & Hx & H)]; [by left; left|]. destruct (decide (c = k)) as [->|Hne]; [|by left; right; exists x; split; [apply Hother|]].
    simplify_eq. simpl in H. destruct H as [H|[H ->]]; [by left; right; eauto|]. apply elem_of_app in H as [H|H]; [by left; right; eauto|].
    apply list_elem_of_singleton in H. subst. by right. }
  assert (forall c, tagOf w' c = tagOf w c) as Htag.
  { intros c. destruct (decide (c = k)) as [->|Hne]; [by rewrite (tagOf_engine _ _ _ E), (tagOf_engine _ _ _ E')|].
    unfold tagOf. simpl. by rewrite list_lookup_insert_ne. }
  assert (stored w' ≡ₚ stored w) as Hst by (rewrite (stored_split w k e E); apply (stored_putEngine w k e e' E)).
  split.
  - intros c n b Hb Ht. rewrite Htag in Ht. destruct (Hu _ _ _ Hb) as [Hb'|(-> & -> & ->)]; [by apply (inv_cover w I)|]. by exists d.
  - intros j x Hx. destruct (decide (j = k)) as [->|Hne]; [|by apply (inv_engine w I j), Hother]. simplify_eq. by destruct (inv_engine w I _ _ E).
  - intros c n l Hl. destruct (inv_submitted w I _ _ _ Hl) as (y & Hy & Hn'). destruct (decide (c = k)) as [->|Hne]; [exists e'; by simplify_eq|].
    exists y. split; [|done]. simpl. by rewrite list_lookup_insert_ne.
  - intros j x b y Hx Hy. destruct (decide (j = k)) as [->|Hne]; [|by apply (inv_residency w I); [apply Hother|]]. simplify_eq. simpl in Hy.
    intros Hres. destruct (inv_residency w I _ _ _ _ E Hy Hres) as [H1 H2]. split; [done|]. intros H3. destruct (H2 H3) as (? & ? & ?).
    split; [done|]. split; [done|]. simpl. apply elem_of_app. by left.
  - intros b x Hx. destruct (inv_counted w I _ _ Hx) as [? H]. split; [done|]. simpl. by rewrite length_insert.
  - simpl. rewrite length_insert. apply I.
  - rewrite Hst. apply I.
  - intros b Hb. rewrite Hst in Hb. by apply I in Hb.
  - intros j x b c Hx Hb Hne n Hn'. rewrite Htag.
    assert (engines w !! j = Some (if decide (j = k) then e else x) /\ b ∈ keptBy (if decide (j = k) then e else x)) as [Hj Hb'].
    { case_decide as Hjk; [|split; [by apply Hother|done]]. subst. split; [done|]. simplify_eq. done. }
    destruct (Hu _ _ _ Hn') as [H|(-> & -> & ->)]; [by eapply (inv_single w I j _ b c Hj)|]. exfalso.
    destruct Ha as [Ha|Ha]; [apply Ha; by eapply kept_stored|]. apply Hne. symmetry. by eapply kept_once; [apply I|exact Hj|exact E|..].
Qed.

Lemma live_new_count n : n < eventNotReady + 1 -> n <> objectNotUsed.
Proof. unfold eventNotReady, objectNotUsed. lia. Qed.

(** A new task count in context [k] that covers what is not complete there. *)
Lemma inv_updateTaskCount k a d n w : Inv w -> allocations w !! a = Some d -> (k < length (engines w))%nat ->
  (forall m, uses w k m a -> tagOf w k < m -> n <> objectNotUsed /\ m <= n) ->
  (forall e, engines w !! k = Some e -> isResident k d = true -> getResidencyTaskCount k d = csrTaskCount e + 1 -> n <> objectNotUsed /\ csrTaskCount e + 1 <= n) ->
  Inv (putAllocation a (updateTaskCount n k d) w).
Proof.
  intros I Ed Hk Hu Hr. destruct (inv_counted w I _ _ Ed) as [Hcd Hcl]. pose proof (inv_contexts w I) as Hm.
  apply inv_putAllocation; [done|by apply update_counted; [|lia]| | |].
  - intros c. unfold used. rewrite updateTaskCount_count. case_decide; [by subst|]. apply Hcl.
  - intros c m Hc Ht. unfold used. rewrite updateTaskCount_count. destruct (inv_cover w I _ _ _ Hc Ht) as (d0 & Ed0 & H). simplify_eq.
    case_decide; [subst; by apply Hu|done].
  - intros j x Hx Hres. pose proof (inv_residency w I _ _ _ _ Hx Ed) as Hj. unfold isResident in Hres. unfold used. rewrite updateTaskCount_residency in Hres |- *.
    destruct (Hj Hres) as [H1 H2]. split; [done|]. intros H3. destruct (H2 H3) as (H4 & H5 & H6). rewrite updateTaskCount_count.
    destruct (decide (j = k)) as [->|]; [|done]. by destruct (Hr x Hx Hres H3).
Qed.

(** Marking the allocation as part of the task being put together. *)
Lemma inv_markResident k e a d w : Inv w -> engines w !! k = Some e -> allocations w !! a = Some d -> used d k ->
  csrTaskCount e + 1 <= getTaskCount k d -> a ∈ residencyAllocations e -> Inv (putAllocation a (updateResidencyTaskCount (csrTaskCount e + 1) k d) w).
Proof.
  intros I E Ed H1 H2 H3. destruct (inv_counted w I _ _ Ed) as [[Hcd1 Hcd2] Hcl].
  assert (forall c, used (updateResidencyTaskCount (csrTaskCount e + 1) k d) c <-> used d c) as Hused by (intros c; unfold used; by rewrite updateResidency_count).
  apply inv_putAllocation; [done| | | |].
  - split; [|intros c Hc'; rewrite updateResidency_count; by apply Hcd2]. simpl. rewrite Hcd1. do 2 f_equal. apply list_filter_iff. intros c. by rewrite Hused.
  - intros c Hc'. by apply Hcl, Hused.
  - intros c m' Hm' Hlt. destruct (inv_cover _ I _ _ _ Hm' Hlt) as (d0 & Ed0 & Hd0 & Hle). simplify_eq. by rewrite Hused, updateResidency_count.
  - intros j x Hx Hres'. unfold isResident in Hres'. rewrite Hused, updateResidency_count. rewrite updateResidency_residency in Hres' |- *.
    destruct (decide (j = k)) as [->|]; [simplify_eq; by split|]. by apply (inv_residency _ I _ _ _ _ Hx Ed).
Qed.

Lemma makeResident_inv k a e w : Inv w -> engines w !! k = Some e -> is_Some (allocations w !! a) -> (a ∉ stored w \/ a ∈ keptBy e) ->
  exists w', makeResident k a w = Some w' /\ Inv w' /\ uses w' k (csrTaskCount e + 1) a.
Proof.
  intros I E [d Ed] Ha. pose proof (inv_engine w I _ _ E) as [Ht Hf Hc Hr Hs Him].
  assert (w32 (csrTaskCount e + 1) = csrTaskCount e + 1) as Hw by (unfold eventNotReady in *; by unwrap).
  unfold makeResident. rewrite E. cbn [mbind option_bind]. rewrite Ed. cbn [mbind option_bind]. rewrite Hw.
  pose proof (inv_residency w I _ _ _ _ E Ed) as Hres. unfold isResidencyTaskCountBelow, residency_ok in *.
  destruct (negb (isResident k d) || bool_decide (getResidencyTaskCount k d < csrTaskCount e + 1)) eqn:Hb.
  - set (n := csrTaskCount e + 1) in *. set (d1 := updateTaskCount n k d).
    assert (n <> objectNotUsed) as Hn by (apply live_new_count; lia).
    assert (getTaskCount k d1 = n) as Hd1 by (unfold d1; by rewrite updateTaskCount_count, decide_True).
    assert (Inv (putAllocation a d1 w)) as I1.
    { apply inv_updateTaskCount; [done..|by eapply lookup_lt_Some| |].
      - intros m Hm _. split; [done|]. by apply (uses_bound w k e m a).
      - intros e' He' _ _. simplify_eq. done. }
    set (e2 := setMemoryUsed (if isResident k d1 then totalMemoryUsed e else w64 (totalMemoryUsed e + size d1)) (setResidency (residencyAllocations e ++ [a]) e)).
    assert (Inv (putEngine k e2 (putAllocation a d1 w))) as I2.
    { apply (inv_addUse k e a d1); try done; [simpl; by rewrite lookup_insert_eq|unfold used; by rewrite Hd1|by rewrite Hd1]. }
    replace (if isResident k d1 then _ else _) with e2 by (unfold e2; by destruct (isResident k d1), e).
    assert (engines (putEngine k e2 (putAllocation a d1 w)) !! k = Some e2) as E2 by (simpl; apply list_lookup_insert_eq; by eapply lookup_lt_Some).
    assert (a ∈ residencyAllocations e2) as Hin by (simpl; apply elem_of_app; right; by apply list_elem_of_singleton).
    eexists. split; [reflexivity|]. split; [|right; exists e2; eauto].
    replace (putEngine k e2 (putAllocation a _ w)) with (putAllocation a (updateResidencyTaskCount n k d1) (putEngine k e2 (putAllocation a d1 w))) by (unfold putEngine, putAllocation; simpl; by rewrite insert_insert_eq).
    apply (inv_markResident k e2); [done|done|simpl; by rewrite lookup_insert_eq|unfold used; by rewrite Hd1|by rewrite Hd1|done].
  - apply orb_false_iff in Hb as [Hb1 Hb2]. apply negb_false_iff in Hb1. apply bool_decide_eq_false in Hb2. destruct (Hres Hb1) as [H1 H2].
    destruct H2 as (H3 & H4 & H5); [lia|]. rewrite put_id by done. eexists. split; [reflexivity|].
    split; [by apply inv_markResident|]. right. exists e. split; [done|]. by right.
Qed.

(** ** Lists of allocations *)

Lemma inv_lists k e t r w : Inv w -> engines w !! k = Some e ->
  NoDup (t ++ r ++ storedElsewhere k w) -> (forall a, a ∈ t ++ r -> is_Some (allocations w !! a) /\ forall c, c <> k -> idleIn w c a) ->
  Inv (putEngine k (setTemporary t (setReuse r e)) w).
Proof.
  intros I E Hn Ha. set (e' := setTemporary t (setReuse r e)). set (w' := putEngine k e' w).
  assert (engines w' !! k = Some e') as E' by (simpl; apply list_lookup_insert_eq; by eapply lookup_lt_Some).
  assert (forall j x, engines w' !! j = Some x -> j <> k -> engines w !! j = Some x) as Hother.
  { intros j x Hx Hne. simpl in Hx. by rewrite list_lookup_insert_ne in Hx by done. }
  assert (forall c n b, uses w' c n b -> uses w c n b) as Hu.
  { intros c n b [Hs|(x & Hx & H)]; [by left|right]. destruct (decide (c = k)) as [->|Hne]; [exists e; by simplify_eq|exists x; split; [by apply Hother|done]]. }
  assert (forall c, tagOf w' c = tagOf w c) as Htag.
  { intros c. destruct (decide (c = k)) as [->|Hne]; [by rewrite (tagOf_engine _ _ _ E), (tagOf_engine _ _ _ E')|].
    unfold tagOf. simpl. by rewrite list_lookup_insert_ne. }
  assert (stored w' ≡ₚ (t ++ r) ++ storedElsewhere k w) as Hst by apply (stored_putEngine w k e e' E).
  split.
  - intros c n b Hb Ht. rewrite Htag in Ht. by apply (inv_cover w I); [apply Hu|].
  - intros j x Hx. destruct (decide (j = k)) as [->|Hne]; [|by apply (inv_engine w I j), Hother]. simplify_eq. by destruct (inv_engine w I _ _ E).
  - intros c n l Hl. destruct (inv_submitted w I _ _ _ Hl) as (y & Hy & Hn'). destruct (decide (c = k)) as [->|Hne]; [exists e'; by simplify_eq|].
    exists y. split; [|done]. simpl. by rewrite list_lookup_insert_ne.
  - intros j x b y Hx Hy. destruct (decide (j = k)) as [->|Hne]; [|by apply (inv_residency w I); [apply Hother|]]. simplify_eq. by apply (inv_residency w I _ _ _ _ E).
  - intros b x Hx. destruct (inv_counted w I _ _ Hx) as [? H]. split; [done|]. simpl. by rewrite length_insert.
  - simpl. rewrite length_insert. apply I.
  - by rewrite Hst, <- app_assoc.
  - intros b Hb. rewrite Hst in Hb. apply elem_of_app in Hb as [Hb|Hb]; [by apply Ha|]. apply I. rewrite (stored_split w k e E). set_solver.
  - intros j x b c Hx Hb Hne n Hn'. rewrite Htag. apply Hu in Hn'. destruct (decide (j = k)) as [->|Hj].
    + simplify_eq. by apply (Ha b Hb).
    + by apply (inv_single w I j x b c (Hother _ _ Hx Hj) Hb Hne).
Qed.

(** Giving an allocation to a list, taking the lists away, giving some back. *)
Lemma setListOf_lists u l e : exists t r, setListOf u l e = setTemporary t (setReuse r e) /\
  (u = TEMPORARY_ALLOCATION /\ t = l /\ r = allocationsForReuse e \/ u = REUSABLE_ALLOCATION /\ t = temporaryAllocations e /\ r = l).
Proof. destruct u; [exists l, (allocationsForReuse e)|exists (temporaryAllocations e), l]; (split; [by destruct e|tauto]). Qed.

Lemma inv_setListOf k e u l w : Inv w -> engines w !! k = Some e ->
  NoDup l -> (forall a, a ∈ l -> (a ∈ listOf u e \/ a ∉ stored w) /\ is_Some (allocations w !! a) /\ forall c, c <> k -> idleIn w c a) ->
  Inv (putEngine k (setListOf u l e) w).
Proof.
  intros I E Hl Ha. pose proof (inv_nodup w I) as Hn. rewrite (stored_split w k e E) in Hn. unfold keptBy in Hn. rewrite <- app_assoc in Hn.
  assert (forall a, a ∈ keptBy e -> is_Some (allocations w !! a) /\ forall c, c <> k -> idleIn w c a) as Hold.
  { intros a Hk. split; [apply I; by eapply kept_stored|]. intros c Hc. by eapply (inv_single w I k e). }
  assert (forall a, a ∈ keptBy e ++ storedElsewhere k w -> a ∈ stored w) as Hst by (intros a; by rewrite (stored_split w k e E)).
  assert (forall l1 l2, NoDup (l1 ++ l2) -> forall a : Z, a ∈ l1 -> a ∈ l2 -> False) as Hdis.
  { intros l1 l2 H a H1 H2. apply NoDup_app in H as (_ & H & _). by apply (H a). }
  destruct (setListOf_lists u l e) as (t & r & -> & [(-> & -> & ->)|(-> & -> & ->)]); simpl listOf in *.
  - apply inv_lists; [done|done| |].
    + apply NoDup_app. split; [done|]. split; [|by apply NoDup_app in Hn as (_ & _ & ?)]. intros a Hal Hrest. destruct (Ha a Hal) as [[H|H] _].
      * by apply (Hdis _ _ Hn a).
      * apply H, Hst. unfold keptBy. rewrite <- app_assoc. set_solver.
    + intros a [Hal|Har]%elem_of_app; [by apply Ha|]. apply Hold. unfold keptBy. set_solver.
  - apply inv_lists; [done|done| |].
    + apply NoDup_app in Hn as (Hn1 & Hn2 & Hn3). apply NoDup_app. split; [done|]. split.
      * intros a Hat [Hal|Hae]%elem_of_app; [|apply (Hn2 a Hat); set_solver]. destruct (Ha a Hal) as [[H|H] _]; [apply (Hn2 a Hat); set_solver|].
        apply H, Hst. unfold keptBy. set_solver.
      * apply NoDup_app. split; [done|]. split; [|by apply NoDup_app in Hn3 as (_ & _ & ?)]. intros a Hal Hae. destruct (Ha a Hal) as [[H|H] _].
        -- by apply (Hdis _ _ Hn3 a).
        -- apply H, Hst. set_solver.
    + intros a [Hat|Hal]%elem_of_app; [|by apply Ha]. apply Hold. unfold keptBy. set_solver.
Qed.

Lemma inv_free a w : Inv w -> is_Some (allocations w !! a) -> a ∉ stored w -> idle w a ->
  exists w', freeGraphicsMemory a w = Some w' /\ Inv w' /\ allocations w' = delete a (allocations w) /\ engines w' = engines w /\
    deferred w' = deferred w /\ submitted w' = submitted w.
Proof.
  intros I [d Ed] Hst Hi. unfold freeGraphicsMemory. rewrite Ed. cbn [mbind option_bind]. eexists. split; [done|]. split; [|done].
  split; try apply I; simpl.
  - intros c n b Hb Ht. destruct (decide (b = a)) as [->|Hne]; [specialize (Hi c n Hb); unfold tagOf in *; simpl in *; lia|].
    rewrite lookup_delete_ne by done. by apply (inv_cover w I).
  - intros k e b x E Hx. apply lookup_delete_Some in Hx as [_ Hx]. by apply (inv_residency w I _ _ _ _ E).
  - intros b x Hx. apply lookup_delete_Some in Hx as [_ Hx]. by apply (inv_counted w I b).
  - intros b Hb. assert (b <> a) by (by intros ->). rewrite lookup_delete_ne by done. by apply I.
Qed.

(** ** Cleaning and reuse *)

(** [freeLoop] on detached allocations: those with a count of at most
    [waitTaskCount] are freed, the others stay in order. *)
Lemma freeLoop_spec k e n l w : Inv w -> engines w !! k = Some e -> n <= tag e -> NoDup l ->
  (forall a, a ∈ l -> a ∉ stored w /\ is_Some (allocations w !! a) /\ forall c, c <> k -> idleIn w c a) ->
  exists left w', freeLoop k n l w = Some (left, w') /\ Inv w' /\ engines w' = engines w /\ deferred w' = deferred w /\ submitted w' = submitted w /\
    (forall b, allocations w' !! b = if decide (b ∈ l /\ b ∉ left) then None else allocations w !! b) /\
    left `sublist_of` l /\ (forall a d, a ∈ l -> allocations w !! a = Some d -> a ∈ left <-> n < getTaskCount k d).
Proof.
  revert w. induction l as [|a l IH]; intros w I E Hn Hnd Hl; cbn [freeLoop].
  { exists [], w. split_and!; try done. intros a d H. by apply elem_of_nil in H. }
  apply NoDup_cons in Hnd as [Hna Hnd]. destruct (Hl a) as (Ha1 & [d Ed] & Ha3); [set_solver|]. rewrite Ed. cbn [mbind option_bind].
  case_decide as Hc.
  - destruct (inv_free a w I) as (w1 & E1 & I1 & A1 & G1 & D1 & S1); [eauto|done| |].
    { intros c. destruct (decide (c = k)) as [->|]; [|by apply Ha3]. eapply count_idle; [done|done|]. rewrite (tagOf_engine _ _ _ E). lia. }
    rewrite E1. cbn [mbind option_bind].
    assert (stored w1 = stored w) as Hs by (unfold stored; by rewrite G1, D1).
    assert (forall b, b ∈ l -> allocations w1 !! b = allocations w !! b) as Hb.
    { intros b Hb. rewrite A1, lookup_delete_ne; [done|]. by intros ->. }
    destruct (IH w1 I1) as (left & w2 & E2 & I2 & G2 & D2 & S2 & A2 & Hsub & Hf); [by rewrite G1|done|done| |].
    { intros b Hbl. rewrite Hs, Hb by done. destruct (Hl b) as (? & ? & H); [set_solver|]. split_and!; [done..|]. intros c Hck m Hm.
      unfold tagOf. rewrite G1. apply (H c Hck m). unfold uses in *. by rewrite S1, G1 in Hm. }
    exists left, w2. rewrite E2. split; [done|]. split; [done|]. split; [congruence|]. split; [congruence|]. split; [congruence|].
    assert (a ∉ left) as Hal by (intros H; apply Hna; by eapply elem_of_sublist).
    split; [|split; [by apply sublist_cons|]].
    + intros b. rewrite A2, A1. destruct (decide (b = a)) as [->|Hne].
      * rewrite (decide_True (P := a ∈ a :: l /\ _)) by (split; [set_solver|done]). rewrite decide_False by tauto. by rewrite lookup_delete_eq.
      * rewrite lookup_delete_ne by done. apply decide_ext. set_solver.
    + intros b d' Hb' Ed'. apply elem_of_cons in Hb' as [->|Hb']; [|apply Hf; [done|by rewrite Hb]]. simplify_eq. split; [done|lia].
  - destruct (IH w I E Hn Hnd) as (left & w2 & E2 & I2 & G2 & D2 & S2 & A2 & Hsub & Hf); [intros b Hb; apply Hl; set_solver|].
    rewrite E2. cbn [mbind option_bind]. exists (a :: left), w2. split_and!; try done; [|by apply sublist_skip|].
    + intros b. rewrite A2. apply decide_ext. destruct (decide (b = a)) as [->|]; set_solver.
    + intros b d' Hb Ed'. destruct (decide (b = a)) as [->|Hne]; [simplify_eq; split; [lia|set_solver]|].
      rewrite elem_of_cons. rewrite <- (Hf b d'); [naive_solver| |done]. by apply elem_of_cons in Hb as [->|].
Qed.

Lemma keptBy_listOf u e a : a ∈ listOf u e -> a ∈ keptBy e.
Proof. unfold keptBy. destruct u; simpl; set_solver. Qed.

Lemma listOf_nodup w k e u : Inv w -> engines w !! k = Some e -> NoDup (listOf u e).
Proof.
  intros I E. pose proof (inv_nodup w I) as H. rewrite (stored_split w k e E) in H. apply NoDup_app in H as (H & _ & _).
  apply NoDup_app in H as (H1 & _ & H3). by destruct u.
Qed.

(** Detaching the nodes of a list. *)
Lemma detach_inv k e u w : Inv w -> engines w !! k = Some e -> Inv (putEngine k (setListOf u [] e) w) /\
  (forall a, a ∈ listOf u e -> a ∉ stored (putEngine k (setListOf u [] e) w)).
Proof.
  intros I E. split; [apply inv_setListOf; [done|done|constructor|]; intros a H; by apply elem_of_nil in H|].
  intros a Ha. rewrite (stored_putEngine w k e _ E). pose proof (inv_nodup w I) as Hn. rewrite (stored_split w k e E) in Hn.
  apply NoDup_app in Hn as (Hn1 & Hn2 & _). pose proof (Hn2 a (keptBy_listOf u e a Ha)) as Hne. apply NoDup_app in Hn1 as (_ & Hn1 & _).
  intros [H|H]%elem_of_app; [|done]. destruct u; unfold keptBy in H; simpl in *; [|rewrite app_nil_r in H]; [by apply (Hn1 a)|by apply (Hn1 a)].
Qed.

Lemma uses_setListOf k e u l w c n a : engines w !! k = Some e -> uses (putEngine k (setListOf u l e) w) c n a <-> uses w c n a.
Proof.
  intros E. unfold uses. destruct (decide (c = k)) as [->|Hne].
  - rewrite (lookup_putEngine w k _ e k E), decide_True by done. rewrite E. destruct u; (split; (intros [H|(x & Hx & H)]; [by left|right]; simplify_eq; eexists; (split; [done|]); exact H)).
  - by rewrite (lookup_putEngine w k _ e c E), decide_False.
Qed.
Lemma tag_setListOf k e u l w c : engines w !! k = Some e -> tagOf (putEngine k (setListOf u l e) w) c = tagOf w c.
Proof.
  intros E. unfold tagOf. rewrite (lookup_putEngine w k _ e c E). case_decide; [subst|done]. rewrite E. by destruct u.
Qed.
Lemma idle_setListOf k e u l w c a : engines w !! k = Some e -> idleIn (putEngine k (setListOf u l e) w) c a <-> idleIn w c a.
Proof. intros E. unfold idleIn. rewrite (tag_setListOf k e u l w c E). setoid_rewrite (uses_setListOf k e u l w c _ a E). done. Qed.

Lemma clean_spec k e n u w : Inv w -> engines w !! k = Some e -> n <= tag e ->
  exists left w', cleanAllocationList k n u w = Some w' /\ Inv w' /\ engines w' = <[k := setListOf u left e]> (engines w) /\
    (forall b, allocations w' !! b = if decide (b ∈ listOf u e /\ b ∉ left) then None else allocations w !! b) /\
    left `sublist_of` listOf u e /\ (forall a d, a ∈ listOf u e -> allocations w !! a = Some d -> a ∈ left <-> n < getTaskCount k d).
Proof.
  intros I E Hn. unfold cleanAllocationList. rewrite E. cbn [mbind option_bind].
  destruct (detach_inv k e u w I E) as [I1 Hd]. set (w1 := putEngine k (setListOf u [] e) w) in *.
  assert (engines w1 !! k = Some (setListOf u [] e)) as E1 by (unfold w1; by rewrite (lookup_putEngine w k _ e k E), decide_True).
  destruct (freeLoop_spec k _ n (listOf u e) w1 I1 E1) as (left & w2 & E2 & I2 & G2 & D2 & S2 & A2 & Hsub & Hf).
  { by destruct u. } { by apply (listOf_nodup w k). }
  { intros a Ha. split; [by apply Hd|]. split; [apply (inv_live w I); eapply kept_stored; [done|by eapply keptBy_listOf]|].
    intros c Hc. apply (idle_setListOf k e u [] w c a E). by apply (inv_single w I k e a c E (keptBy_listOf u e a Ha)). }
  rewrite E2. cbn [mbind option_bind].
  assert (engines w2 !! k = Some (setListOf u [] e)) as E3 by (by rewrite G2).
  rewrite (onEngine_some _ _ _ _ E3).
  assert (setListOf u (listOf u (setListOf u [] e) ++ left) (setListOf u [] e) = setListOf u left e) as Heq by (by destruct u, e).
  rewrite Heq. exists left. eexists. split; [done|].
  split; [|split; [|split; [exact A2|split; [done|exact Hf]]]].
  - rewrite <- Heq. apply (inv_setListOf k (setListOf u [] e) u _ w2); [done|done| |].
    { assert (NoDup left) by (eapply sublist_NoDup; [by eapply (listOf_nodup w k e u)|done]). by destruct u. }
    intros a Ha. assert (a ∈ left) as Hal by (by destruct u). assert (a ∈ listOf u e) as Hae by (by eapply elem_of_sublist).
    split; [right|split].
    + unfold stored. rewrite D2, G2. by apply Hd.
    + rewrite A2, decide_False by tauto. apply (inv_live w I). eapply kept_stored; [done|by eapply keptBy_listOf].
    + intros c Hc m Hm. unfold tagOf. rewrite G2. unfold uses in Hm. rewrite S2, G2 in Hm.
      apply (idle_setListOf k e u [] w c a E); [by apply (inv_single w I k e a c E (keptBy_listOf u e a Hae))|done].
  - simpl. rewrite G2. unfold w1. simpl. by rewrite list_insert_insert_eq.
Qed.

(** The first allocation of the list that fits. *)
Definition fits (k : nat) (tagValue requiredMinimalSize : Z) (type : AllocationType) (d : GraphicsAllocation) : Prop :=
  allocationType d = type /\ requiredMinimalSize <= size d /\ getTaskCount k d <= tagValue.

#[export] Instance fits_dec k t s type d : Decision (fits k t s type d). Proof. unfold fits. apply _. Defined.

Lemma detachLoop_spec k t s type l w : (forall a, a ∈ l -> is_Some (allocations w !! a)) ->
  exists r l', detachLoop k t s type l w = Some (r, l') /\
    match r with
    | Some a => exists l1 l2 d, l = l1 ++ a :: l2 /\ l' = l1 ++ l2 /\ allocations w !! a = Some d /\ fits k t s type d /\
        forall b y, b ∈ l1 -> allocations w !! b = Some y -> ~ fits k t s type y
    | None => l' = l /\ forall b y, b ∈ l -> allocations w !! b = Some y -> ~ fits k t s type y
    end.
Proof.
  induction l as [|a l IH]; intros Hl; cbn [detachLoop].
  { exists None, []. split; [done|]. split; [done|]. intros b y Hb. by apply elem_of_nil in Hb. }
  destruct (Hl a) as [d Ed]; [set_solver|]. rewrite Ed. cbn [mbind option_bind].
  assert (bool_decide (type = allocationType d) && bool_decide (size d >= s) && bool_decide (t >= getTaskCount k d) = bool_decide (fits k t s type d)) as ->.
  { unfold fits. rewrite <- !bool_decide_and. apply bool_decide_ext. intuition (congruence || lia). }
  case_bool_decide as Hf.
  - exists (Some a), l. split; [done|]. exists [], l, d. split_and!; try done. intros b y Hb. by apply elem_of_nil in Hb.
  - destruct IH as (r & l' & E & Hr); [set_solver|]. rewrite E. cbn [mbind option_bind]. exists r, (a :: l'). split; [done|].
    assert (forall b y, b = a -> allocations w !! b = Some y -> ~ fits k t s type y) as Ha by (intros b y -> Ey; by simplify_eq).
    destruct r as [x|].
    + destruct Hr as (l1 & l2 & y & -> & -> & Ey & Hy & Hb). exists (a :: l1), l2, y. split_and!; try done.
      intros b z [?|?]%elem_of_cons; eauto.
    + destruct Hr as [-> Hb]. split; [done|]. intros b y [?|?]%elem_of_cons; eauto.
Qed.

Lemma obtain_spec k e s type w : Inv w -> engines w !! k = Some e ->
  exists r l' w', obtainReusableAllocation k s type w = Some (r, w') /\ Inv w' /\ w' = putEngine k (setReuse l' e) w /\
    match r with
    | Some a => exists d, a ∈ allocationsForReuse e /\ allocations w !! a = Some d /\ fits k (tag e) s type d /\ owned w' a
    | None => l' = allocationsForReuse e /\ forall b y, b ∈ allocationsForReuse e -> allocations w !! b = Some y -> ~ fits k (tag e) s type y
    end.
Proof.
  intros I E. unfold obtainReusableAllocation. rewrite E. cbn [mbind option_bind].
  assert (forall a, a ∈ allocationsForReuse e -> is_Some (allocations w !! a) /\ forall c, c <> k -> idleIn w c a) as Hl.
  { intros a Ha. pose proof (keptBy_listOf REUSABLE_ALLOCATION e a Ha) as Hk. split; [apply (inv_live w I); by eapply kept_stored|].
    intros c Hc. by apply (inv_single w I k e). }
  destruct (detachLoop_spec k (tag e) s type (allocationsForReuse e) w) as (r & l' & Ed & Hr); [intros a Ha; by apply Hl|].
  rewrite Ed. cbn [mbind option_bind]. exists r, l'. eexists. split; [done|].
  pose proof (listOf_nodup w k e REUSABLE_ALLOCATION I E) as Hnd. simpl in Hnd.
  assert (NoDup l' /\ l' ⊆ allocationsForReuse e) as [Hn' Hs'].
  { destruct r as [a|]; [destruct Hr as (l1 & l2 & d & Hl1 & -> & _)|by destruct Hr as [-> _]]. rewrite Hl1 in *.
    split; [eapply sublist_NoDup; [done|]; apply sublist_app; [done|by apply sublist_cons]|set_solver]. }
  split; [|split; [done|]].
  - apply (inv_setListOf k e REUSABLE_ALLOCATION l' w); [done..|]. intros a Ha. split; [by left; apply Hs'|]. by apply Hl, Hs'.
  - destruct r as [a|]; [|done]. destruct Hr as (l1 & l2 & d & Hl1 & -> & Ea & Hf & _). exists d.
    assert (a ∈ allocationsForReuse e) as Ha by (rewrite Hl1; set_solver). split_and!; try done. split; [simpl; eauto|].
    rewrite (stored_putEngine w k e _ E). pose proof (inv_nodup w I) as Hn. rewrite (stored_split w k e E) in Hn.
    unfold keptBy in *. simpl. rewrite Hl1 in Hn. apply NoDup_app in Hn as (Hn1 & Hn2 & _). apply NoDup_app in Hn1 as (_ & Hn1 & Hn3).
    intros [[Hi|Hi]%elem_of_app|Hi]%elem_of_app; [apply (Hn1 a Hi); set_solver| |by apply (Hn2 a); [set_solver|]].
    rewrite Permutation_app_comm in Hn3. simpl in Hn3. apply NoDup_cons in Hn3 as [Hn3 _]. set_solver.
Qed.

(** ** Giving allocations to a storage *)

Lemma inv_store k e u a d n w : Inv w -> engines w !! k = Some e -> allocations w !! a = Some d -> a ∉ stored w ->
  (forall c, c <> k -> idleIn w c a) ->
  (forall m, uses w k m a -> tagOf w k < m -> n <> objectNotUsed /\ m <= n) ->
  (isResident k d = true -> getResidencyTaskCount k d = csrTaskCount e + 1 -> n <> objectNotUsed /\ csrTaskCount e + 1 <= n) ->
  Inv (putEngine k (setListOf u (listOf u e ++ [a]) e) (putAllocation a (updateTaskCount n k d) w)).
Proof.
  intros I E Ed Ha Hi Hu Hr.
  assert (Inv (putAllocation a (updateTaskCount n k d) w)) as I1.
  { apply inv_updateTaskCount; [done|done|by eapply lookup_lt_Some|done|]. intros e' E'. by simplify_eq. }
  apply inv_setListOf; [done|done| |].
  - apply NoDup_app. split; [by apply (listOf_nodup w k)|]. split; [|apply NoDup_singleton]. intros b Hb Hba. apply list_elem_of_singleton in Hba as ->.
    apply Ha. eapply kept_stored; [done|]. by eapply keptBy_listOf.
  - intros b [Hb|Hb]%elem_of_app.
    + split; [by left|]. pose proof (keptBy_listOf u e b Hb) as Hk. split; [apply (inv_live _ I1); by eapply (kept_stored (putAllocation a _ w))|].
      intros c Hc. by apply (inv_single w I k e b c).
    + apply list_elem_of_singleton in Hb as ->. split; [by right|]. split; [simpl; rewrite lookup_insert_eq; eauto|done].
Qed.

Lemma storeAllocation_inv k e u a w : Inv w -> engines w !! k = Some e -> owned w a -> (forall c, c <> k -> idleIn w c a) ->
  (u = REUSABLE_ALLOCATION -> a ∉ residencyAllocations e) -> exists w', storeAllocation false k a u w = Some w' /\ Inv w'.
Proof.
  intros I E [[d Ed] Ha] Hi Hu. unfold storeAllocation, storeAllocationWithTaskCount.
  rewrite Ed. cbn [mbind option_bind]. rewrite E. cbn [mbind option_bind].
  pose proof (inv_engine w I _ _ E) as [Ht Hf Hc Hr Hs Him]. pose proof (inv_residency w I _ _ _ _ E Ed) as Hres.
  destruct u; (eexists; split; [reflexivity|]).
  - apply (inv_store k e TEMPORARY_ALLOCATION a d (getTaskCount k d)); try done.
    + intros m Hm Hlt. destruct (inv_cover w I _ _ _ Hm Hlt) as (d' & Ed' & H). by simplify_eq.
    + intros H1 H2. destruct (Hres H1) as [_ H3]. by destruct (H3 H2) as (? & ? & _).
  - specialize (Hu eq_refl). assert (csrTaskCount e <> objectNotUsed) by (apply live_new_count; lia).
    apply (inv_store k e REUSABLE_ALLOCATION a d (csrTaskCount e)); try done.
    + intros m [(l & Hl & _)|(e' & E' & [(l & Hl & _)|[Hl _]])] _; (split; [done|]); simplify_eq.
      * destruct (inv_submitted w I _ _ _ Hl) as (e' & E' & Hm). simplify_eq. lia.
      * specialize (Hr _ _ Hl). lia.
    + intros H1 H2. destruct (Hres H1) as [_ H3]. destruct (H3 H2) as (_ & _ & H4). done.
Qed.

Lemma residency_new k e a type s : residency_ok k e a (newAllocation type s).
Proof. by intros H%bool_decide_eq_true. Qed.

Lemma create_inv a type s w : Inv w -> (forall c n, ~ uses w c n a) -> Inv (putAllocation a (newAllocation type s) w).
Proof.
  intros I Hu. apply inv_putAllocation; [done|apply new_counted|by intros c []| |by intros; apply residency_new].
  intros c n Hn. by destruct (Hu c n).
Qed.

Lemma hostSurface_inv k e a s w : Inv w -> engines w !! k = Some e -> allocations w !! a = None -> (forall c n, ~ uses w c n a) ->
  exists w', storeAllocation false k a TEMPORARY_ALLOCATION (putAllocation a (updateTaskCount eventNotReady k (newAllocation EXTERNAL_HOST_PTR s)) w) = Some w' /\ Inv w'.
Proof.
  intros I E Ha Hu. pose proof (lookup_lt_Some _ _ _ E) as Hk.
  assert (putAllocation a (updateTaskCount eventNotReady k (newAllocation EXTERNAL_HOST_PTR s)) w =
    putAllocation a (updateTaskCount eventNotReady k (newAllocation EXTERNAL_HOST_PTR s)) (putAllocation a (newAllocation EXTERNAL_HOST_PTR s) w)) as ->.
  { unfold putAllocation. simpl. by rewrite insert_insert_eq. }
  apply (storeAllocation_inv k e); try done.
  - apply (inv_updateTaskCount k a (newAllocation EXTERNAL_HOST_PTR s)); [by apply create_inv|simpl; by rewrite lookup_insert_eq|done| |].
    + intros m Hm. by destruct (Hu k m).
    + by intros e' _ H%bool_decide_eq_true.
  - split; [simpl; rewrite lookup_insert_eq; eauto|]. intros Hst. apply (inv_live w I) in Hst as [d Hd]. congruence.
  - intros c _ n Hn. by destruct (Hu c n).
Qed.

Lemma progress_inv k e n w : Inv w -> engines w !! k = Some e -> tag e <= n <= latestFlushedTaskCount e -> Inv (putEngine k (setTag n e) w).
Proof.
  intros I E Hn. rewrite <- (submit_nil (putEngine _ _ _)). pose proof (inv_engine w I _ _ E) as [Ht Hf Hc Hr Hs Him].
  eapply (inv_engine_step k e); try done; simpl; try lia.
  - split; simpl; try done; lia.
  - intros c m l Hl. by apply elem_of_nil in Hl.
  - intros m a Hu. rewrite submit_nil in Hu. destruct Hu as [?|(x & Hx & H)]; [by left|]. right. exists e. split; [done|].
    rewrite (lookup_putEngine w k _ e k E), decide_True in Hx by done. by simplify_eq.
Qed.

(** ** Destroying *)

Lemma inv_setDeferred l w : Inv w -> NoDup (l ++ (engines w ≫= keptBy)) -> (forall a, a ∈ l -> is_Some (allocations w !! a)) -> Inv (setDeferred l w).
Proof.
  intros I Hn Hl. split; try apply I; [exact Hn|]. intros a [Ha|Ha]%elem_of_app; [by apply Hl|]. apply (inv_live w I). by apply elem_of_app; right.
Qed.

Lemma defer_inv a w : Inv w -> owned w a -> Inv (setDeferred (deferred w ++ [a]) w).
Proof.
  intros I [Hl Ha]. apply inv_setDeferred; [done| |].
  - rewrite <- app_assoc. simpl. rewrite <- Permutation_middle. by constructor; [|apply I].
  - intros b [Hb|Hb]%elem_of_app; [apply (inv_live w I); by apply elem_of_app; left|by apply list_elem_of_singleton in Hb as ->].
Qed.

Lemma counted_unused d c : counted d -> isUsed d = false -> ~ used d c.
Proof.
  intros [Hr Ho] Hu%bool_decide_eq_false Hc. destruct (decide (c < maxOsContextCount)%nat) as [Hlt|]; [|apply Hc, Ho; lia].
  assert (c ∈ usedContexts d) as Hin by (apply list_elem_of_filter; split; [done|apply elem_of_seq; lia]).
  destruct (usedContexts d) as [|x l]; [by apply elem_of_nil in Hin|]. simpl in Hr. lia.
Qed.
Lemma counted_single d c c' : counted d -> isUsedByManyOsContexts d = false -> used d c -> used d c' -> c = c'.
Proof.
  intros [Hr Ho] Hu%bool_decide_eq_false Hc Hc'.
  assert (forall x, used d x -> x ∈ usedContexts d) as Hin.
  { intros x Hx. apply list_elem_of_filter. split; [done|]. apply elem_of_seq. destruct (decide (x < maxOsContextCount)%nat); [lia|]. destruct Hx. apply Ho. lia. }
  apply Hin in Hc. apply Hin in Hc'. destruct (usedContexts d) as [|x [|y l]]; [by apply elem_of_nil in Hc| |simpl in Hr; lia].
  apply list_elem_of_singleton in Hc. apply list_elem_of_singleton in Hc'. congruence.
Qed.

Lemma idle_all w a : Inv w -> (forall c, (c < length (engines w))%nat -> idleIn w c a) -> idle w a.
Proof. intros I H c n Hn. destruct (uses_engine w c n a I Hn) as [e E]. by apply (H c (lookup_lt_Some _ _ _ E)). Qed.

Lemma usingEngine_spec n k a d w : allocations w !! a = Some d -> length (engines w) = (k + n)%nat ->
  exists r, usingEngine n k a w = Some r /\
    match r with
    | Some j => (k <= j < length (engines w))%nat /\ used d j /\ tagOf w j < getTaskCount j d
    | None => forall j, (k <= j < length (engines w))%nat -> used d j -> getTaskCount j d <= tagOf w j
    end.
Proof.
  intros Ed. revert k. induction n as [|n IH]; intros k Hl; cbn [usingEngine].
  { exists None. split; [done|]. intros; lia. }
  destruct (lookup_lt_is_Some_2 (engines w) k) as [e E]; [lia|]. rewrite Ed. cbn [mbind option_bind]. rewrite E. cbn [mbind option_bind].
  assert (isUsedByOsContext k d && bool_decide (getTaskCount k d > tag e) = bool_decide (used d k /\ tagOf w k < getTaskCount k d)) as ->.
  { unfold isUsedByOsContext. rewrite <- bool_decide_and. apply bool_decide_ext. rewrite (tagOf_engine _ _ _ E). unfold used. intuition (congruence || lia). }
  case_bool_decide as Hu; [exists (Some k); split; [done|]; split; [lia|done]|]. destruct (IH (S k)) as (r & Er & Hr); [lia|]. exists r. split; [done|].
  destruct r as [j|]; [split; [lia|apply Hr]|]. intros j Hj Hused.
  destruct (decide (j = k)) as [->|]; [|apply Hr; [lia|done]]. apply Z.nlt_ge. by intros ?; apply Hu.
Qed.

Lemma destroy_inv a w : Inv w -> owned w a -> exists w', checkGpuUsageAndDestroyGraphicsAllocations a w = Some w' /\ Inv w' /\
  (is_Some (allocations w' !! a) \/ idle w a) /\ (is_Some (allocations w' !! a) -> a ∈ stored w').
Proof.
  intros I Ho. pose proof Ho as [[d Ed] Ha]. unfold checkGpuUsageAndDestroyGraphicsAllocations. rewrite Ed. cbn [mbind option_bind].
  destruct (inv_counted w I _ _ Ed) as [Hcd Hcl].
  assert (idle w a -> exists w', freeGraphicsMemory a w = Some w' /\ Inv w' /\ (is_Some (allocations w' !! a) \/ idle w a) /\ (is_Some (allocations w' !! a) -> a ∈ stored w')) as Hfree.
  { intros Hi. destruct (inv_free a w I (ex_intro _ d Ed) Ha Hi) as (w' & E' & I' & A' & _). exists w'. split_and!; [done..|by right|].
    rewrite A', lookup_delete_eq. by intros []. }
  destruct (isUsed d) eqn:Hu.
  2: { apply Hfree. intros c. eapply not_used_idle; [done..|]. by apply counted_unused. }
  destruct (isUsedByManyOsContexts d) eqn:Hm.
  { eexists. split; [done|]. split; [by apply defer_inv|]. split; [left; simpl; eauto|]. intros _. apply elem_of_app. left. simpl. set_solver. }
  destruct (usingEngine_spec (length (engines w)) 0 a d w Ed eq_refl) as (r & Er & Hr). rewrite Er. cbn [mbind option_bind]. destruct r as [k|].
  - destruct Hr as (Hk & Huk & Hlt). destruct (lookup_lt_is_Some_2 (engines w) k) as [e E]; [lia|].
    destruct (storeAllocation_inv k e TEMPORARY_ALLOCATION a w I E Ho) as (w' & E' & I'); [|done|].
    { intros c Hc. eapply not_used_idle; [done..|]. intros Huc. apply Hc. by eapply counted_single. }
    exists w'. split; [done|]. split; [done|]. unfold storeAllocation, storeAllocationWithTaskCount in E'.
    rewrite Ed in E'. cbn [mbind option_bind] in E'. rewrite E in E'. cbn [mbind option_bind] in E'. simplify_eq.
    split; [left; simpl; rewrite lookup_insert_eq; eauto|]. intros _.
    rewrite (stored_putEngine (putAllocation a (updateTaskCount (getTaskCount k d) k d) w) k e); [|done]. apply elem_of_app. left. unfold keptBy. simpl. set_solver.
  - apply Hfree. apply idle_all; [done|]. intros c Hc. destruct (decide (used d c)) as [Huc|Huc]; [|by eapply not_used_idle].
    eapply count_idle; [done..|]. apply Hr; [lia|done].
Qed.

(** ** Deferred deletion *)

Lemma counted_used d : counted d -> isUsed d = true -> exists c, used d c /\ (c < maxOsContextCount)%nat.
Proof.
  intros [Hr _] Hu%bool_decide_eq_true. destruct (usedContexts d) as [|c l] eqn:E; [simpl in Hr; lia|]. exists c.
  assert (c ∈ usedContexts d) as Hc by (rewrite E; set_solver). apply list_elem_of_filter in Hc as [Hc Hs]. apply elem_of_seq in Hs. split; [done|lia].
Qed.

Lemma release_inv k a d w : Inv w -> allocations w !! a = Some d -> (k < length (engines w))%nat -> getTaskCount k d <= tagOf w k ->
  Inv (putAllocation a (releaseUsageInOsContext k d) w).
Proof.
  intros I Ed Hk Hc. apply inv_updateTaskCount; [done..| |].
  - intros m Hm Hlt. pose proof (count_idle w a d k I Ed Hc m Hm). lia.
  - intros e E Hr1 Hr2. destruct (inv_residency w I _ _ _ _ E Ed Hr1) as [_ H]. destruct (H Hr2) as (_ & H1 & _).
    rewrite (tagOf_engine _ _ _ E) in Hc. destruct (inv_engine w I _ _ E) as [Ht Hf _ _ _ _]. lia.
Qed.

Lemma quiet_put a d d' w : allocations w !! a = Some d -> Quiet w (putAllocation a d' w).
Proof.
  intros E. split; try done. intros b. simpl. destruct (decide (b = a)) as [->|]; [rewrite lookup_insert_eq, E; split; eauto|by rewrite lookup_insert_ne].
Qed.

Lemma applyLoop_spec grouping n k a d w : Inv w -> allocations w !! a = Some d -> length (engines w) = (k + n)%nat ->
  exists w' d', applyLoop grouping n k a w = Some w' /\ Inv w' /\ Quiet w w' /\ allocations w' !! a = Some d' /\
    forall c, getTaskCount c d' =
      if decide ((k <= c < length (engines w))%nat /\ getTaskCount c d <= tagOf w c) then objectNotUsed else getTaskCount c d.
Proof.
  revert k d w. induction n as [|n IH]; intros k d w I Ed Hl; cbn [applyLoop].
  { exists w, d. split_and!; try done. intros c. by rewrite decide_False by lia. }
  destruct (lookup_lt_is_Some_2 (engines w) k) as [e E]; [lia|]. rewrite Ed. cbn [mbind option_bind]. rewrite E. cbn [mbind option_bind].
  assert (exists w1 d1, (if isUsedByOsContext k d then
             if decide (getTaskCount k d <= tag e) then Some (putAllocation a (releaseUsageInOsContext k d) w) else flushBatchedSubmissions grouping k w
           else Some w) = Some w1 /\ Inv w1 /\ Quiet w w1 /\ allocations w1 !! a = Some d1 /\
    forall c, getTaskCount c d1 = if decide (c = k /\ getTaskCount k d <= tagOf w k) then objectNotUsed else getTaskCount c d) as (w1 & d1 & E1 & I1 & Q1 & Ed1 & H1).
  { rewrite (tagOf_engine _ _ _ E). unfold isUsedByOsContext. case_bool_decide as Hu.
    - case_decide as Hc.
      + exists (putAllocation a (releaseUsageInOsContext k d) w), (releaseUsageInOsContext k d). split; [done|]. split; [|split; [by eapply quiet_put|]].
        * apply release_inv; [done..|lia|]. by rewrite (tagOf_engine _ _ _ E).
        * split; [simpl; by rewrite lookup_insert_eq|]. intros c. unfold releaseUsageInOsContext. rewrite updateTaskCount_count. apply decide_ext. tauto.
      + destruct (flush_inv grouping k w I) as (w1 & Ef & I1 & Q1 & HS); [eauto|]. specialize (HS a). rewrite Ed in HS. inversion HS as [? d1 Hs Hx Hy|]; subst.
        exists w1, d1. split_and!; try done. intros c. rewrite decide_False by tauto. by apply Hs.
    - exists w, d. split_and!; try done. intros c. case_decide as Hc; [|done]. by destruct Hc as [-> _]. }
  rewrite E1. cbn [mbind option_bind]. destruct (IH (S k) d1 w1 I1 Ed1) as (w2 & d2 & E2 & I2 & Q2 & Ed2 & H2); [rewrite (qu_length _ _ Q1); lia|].
  exists w2, d2. split_and!; try done; [by etransitivity|]. intros c. rewrite H2, (qu_length _ _ Q1), (qu_tag _ _ Q1). rewrite H1.
  destruct (decide (c = k)) as [->|Hne].
  - rewrite (decide_False (P := (S k <= k < _)%nat /\ _)) by lia. apply decide_ext. split; [intros [_ ?]; split; [lia|done]|tauto].
  - rewrite (decide_False (P := c = k /\ _)) by tauto. apply decide_ext. split; (intros [? ?]; split; [lia|done]).
Qed.

(** Every context has completed the task that the allocation records. *)
Definition complete (w : World) (d : GraphicsAllocation) : Prop := forall c, used d c -> getTaskCount c d <= tagOf w c.

Lemma apply_spec grouping a d w : Inv w -> owned w a -> allocations w !! a = Some d ->
  exists b w', apply grouping a w = Some (b, w') /\ Inv w' /\ stored w' ≡ₚ stored w /\ deferred w' = deferred w /\
    (b = true <-> complete w d) /\ (b = true -> allocations w' !! a = None) /\ (b = false -> owned w' a).
Proof.
  intros I [Hlive Ha] Ed. unfold apply. rewrite Ed. cbn [mbind option_bind]. destruct (inv_counted w I _ _ Ed) as [Hcd Hcl].
  assert (forall w1 d1, Inv w1 -> Quiet w w1 -> allocations w1 !! a = Some d1 -> isUsed d1 = false ->
    exists w', freeGraphicsMemory a w1 = Some w' /\ Inv w' /\ stored w' ≡ₚ stored w /\ deferred w' = deferred w /\ allocations w' !! a = None) as Hfree.
  { intros w1 d1 I1 Q1 Ed1 Hu1. destruct (inv_counted w1 I1 _ _ Ed1) as [Hc1 _].
    destruct (inv_free a w1 I1) as (w' & E' & I' & A' & G' & D' & _); [eauto|by rewrite (qu_stored _ _ Q1)| |].
    { intros c. eapply not_used_idle; [done..|]. by apply counted_unused. }
    exists w'. split_and!; try done; [unfold stored; rewrite G', D'; exact (qu_stored _ _ Q1)|by rewrite D', (qu_deferred _ _ Q1)|by rewrite A', lookup_delete_eq]. }
  destruct (isUsed d) eqn:Hu.
  2: { destruct (Hfree w d I ltac:(done) Ed Hu) as (w' & -> & I' & S' & D' & A'). exists true, w'. split_and!; try done.
       split; [intros _ c Hc|done]. by destruct (counted_unused d c Hcd Hu). }
  destruct (applyLoop_spec grouping (length (engines w)) 0 a d w I Ed eq_refl) as (w1 & d1 & E1 & I1 & Q1 & Ed1 & H1).
  rewrite E1. cbn [mbind option_bind]. rewrite Ed1. cbn [mbind option_bind]. destruct (inv_counted w1 I1 _ _ Ed1) as [Hc1 _].
  assert (forall c, used d1 c <-> used d c /\ ~ getTaskCount c d <= tagOf w c) as Hused.
  { intros c. unfold used. rewrite H1. case_decide as Hc; [tauto|]. split; [|by intros []]. intros Huc. split; [done|]. intros Hle. apply Hc.
    split; [|done]. split; [lia|]. by apply Hcl. }
  destruct (isUsed d1) eqn:Hu1.
  - exists false, w1. split_and!; try done; [apply Q1|apply Q1| |].
    + split; [done|]. intros Hall. destruct (counted_used d1 Hc1 Hu1) as (c & Hc & _). apply Hused in Hc as [Hc Hn]. by destruct (Hn (Hall c Hc)).
    + intros _. split; [eauto|]. by rewrite (qu_stored _ _ Q1).
  - destruct (Hfree w1 d1 I1 Q1 Ed1 Hu1) as (w' & -> & I' & S' & D' & A'). exists true, w'. split_and!; try done. split; [intros _ c Hc|done].
    destruct (decide (getTaskCount c d <= tagOf w c)) as [|Hn]; [done|]. destruct (counted_unused d1 c Hc1 Hu1). by apply Hused.
Qed.

Lemma clearOne_inv grouping w : Inv w -> exists w', clearOne grouping w = Some w' /\ Inv w'.
Proof.
  intros I. unfold clearOne. destruct (deferred w) as [|a rest] eqn:Ed; [eauto|].
  pose proof (inv_nodup w I) as Hn. unfold stored in Hn. rewrite Ed in Hn. simpl in Hn. apply NoDup_cons in Hn as [Ha Hn].
  assert (Inv (setDeferred rest w)) as I1.
  { apply inv_setDeferred; [done..|]. intros b Hb. apply (inv_live w I). unfold stored. rewrite Ed. set_solver. }
  assert (owned (setDeferred rest w) a) as Ho.
  { split; [|done]. apply (inv_live w I). unfold stored. rewrite Ed. set_solver. }
  destruct (proj1 Ho) as [d E]. destruct (apply_spec grouping a d _ I1 Ho E) as (b & w' & E' & I' & S' & D' & _ & _ & Hb).
  rewrite E'. cbn [mbind option_bind]. eexists. split; [done|]. destruct b; [done|]. apply defer_inv; [done|by apply Hb].
Qed.

(** ** Executions *)

Lemma newWorld_engines immediate k e : engines (newWorld immediate) !! k = Some e -> exists b, e = newEngine b.
Proof. intros H. simpl in H. rewrite list_lookup_fmap in H. destruct (immediate !! k); simplify_eq/=; eauto. Qed.
Lemma newWorld_unused immediate c n a : ~ uses (newWorld immediate) c n a.
Proof.
  intros [(l & Hl' & _)|(e & E & H)]; [by apply elem_of_nil in Hl'|]. destruct (newWorld_engines _ _ _ E) as [b ->]. simpl in H.
  destruct H as [(l & H & _)|[H _]]; by apply elem_of_nil in H.
Qed.

Lemma newWorld_inv immediate : (length immediate <= maxOsContextCount)%nat -> Inv (newWorld immediate).
Proof.
  intros Hl.
  pose proof (newWorld_engines immediate) as He.
  assert (stored (newWorld immediate) = []) as Hs.
  { unfold stored. simpl. clear. induction immediate as [|b l IH]; [done|]. simpl. exact IH. }
  pose proof (newWorld_unused immediate) as Hu. split.
  - intros c n a H. by destruct (Hu c n a).
  - intros k e E. destruct (He _ _ E) as [b ->]. split; simpl; try done; [intros ?? H; by apply elem_of_nil in H|constructor].
  - intros c n l H. by apply elem_of_nil in H.
  - intros k e a d _ H. by apply (lookup_empty_Some a d) in H.
  - intros a d H. by apply (lookup_empty_Some a d) in H.
  - simpl. by rewrite length_fmap.
  - rewrite Hs. constructor.
  - intros a Ha. rewrite Hs in Ha. by apply elem_of_nil in Ha.
  - intros k e a c _ _ _ n H. by destruct (Hu c n a).
Qed.

Lemma step_inv grouping w op : Inv w -> allowed w op -> exists w', run grouping op w = Some w' /\ Inv w'.
Proof.
  intros I. destruct op as [a type s|k a s|k a|k h f|k|k n|k n u|k a u|k s type|a|]; simpl; intros H.
  - destruct H as [Ha Hu]. eexists. split; [done|]. by apply create_inv.
  - destruct H as (Ha & Hu & [e E]). by apply (hostSurface_inv k e).
  - destruct H as (e & E & Ha). destruct (makeResident_inv k a e w I E) as (w' & E' & I' & _); [| |eauto].
    + destruct Ha as [[Ha _]|Ha]; [done|]. apply (inv_live w I). eapply kept_stored; [done|]. unfold keptBy. set_solver.
    + destruct Ha as [[_ Ha]|Ha]; [by left|right]. unfold keptBy. set_solver.
  - destruct H as (e & E & Hr). by apply (finish_inv grouping k h f e).
  - destruct (flush_inv grouping k w I H) as (w' & E' & I' & _). eauto.
  - destruct H as (e & E & Hn). rewrite (onEngine_some _ _ _ _ E). eexists. split; [done|]. by apply progress_inv.
  - destruct H as (e & E & Hn). destruct (clean_spec k e n u w I E Hn) as (l & w' & E' & I' & _). eauto.
  - destruct H as (Ho & Hi & e & E & Hu). by apply (storeAllocation_inv k e).
  - destruct H as [e E]. destruct (obtain_spec k e s type w I E) as (r & l & w' & E' & I' & _). rewrite E'. simpl. eauto.
  - destruct (destroy_inv a w I H) as (w' & E' & I' & _). eauto.
  - apply (clearOne_inv grouping w I).
Qed.

Lemma reachable_inv grouping immediate w : (length immediate <= maxOsContextCount)%nat -> reachable grouping (newWorld immediate) w -> Inv w.
Proof.
  intros Hl. induction 1 as [|w op w' Hr IH Ha Er]; [by apply newWorld_inv|]. destruct (step_inv grouping w op IH Ha) as (w'' & E & I). by simplify_eq.
Qed.

(** A run that the witnesses share: one engine that batches its command buffers,
    and an allocation that a completed task used. *)
Definition together (l : list (Z * list Z)) : list nat := [length l].
Definition after (op : Op) (w : World) : World := default w (run together op w).
Definition demo : World :=
  after (GpuProgress 0 1) (after (FinishTask 0 true true) (after (MakeResident 0 1) (after (Create 1 INTERNAL_HEAP 4096) (newWorld [false])))).

Lemma reach_after op w : reachable together (newWorld [false]) w -> allowed w op -> reachable together (newWorld [false]) (after op w).
Proof.
  intros Hr Ha. destruct (step_inv together w op (reachable_inv together [false] w ltac:(simpl; unfold maxOsContextCount; lia) Hr) Ha) as (w' & E & _).
  unfold after. rewrite E. by apply (reach_step _ _ w op).
Qed.

Lemma demo_world_reachable : reachable together (newWorld [false]) demo.
Proof.
  repeat apply reach_after; [apply reach_start|..].
  - split; [done|]. intros c n. apply newWorld_unused.
  - eexists. split; [reflexivity|]. left. split; [by eexists|]. intros H. by apply elem_of_nil in H.
  - eexists. split; [reflexivity|]. by vm_compute.
  - eexists. split; [reflexivity|]. by vm_compute.
Qed.

Lemma demo_store u : reachable together (newWorld [false]) (after (Store 0 1 u) demo).
Proof.
  apply reach_after; [apply demo_world_reachable|]. split; [|split].
  - split; [by eexists|]. intros H. by apply elem_of_nil in H.
  - intros c Hc n Hn. destruct (uses_engine demo c n 1) as [e E]; [eapply (reachable_inv together [false]), demo_world_reachable; simpl; unfold maxOsContextCount; lia|done|].
    apply lookup_lt_Some in E. assert (length (engines demo) = 1%nat) by reflexivity. lia.
  - eexists. split; [reflexivity|]. intros _ H. by apply elem_of_nil in H.
Qed.

(** ** Properties *)

(** C2: in every execution, a task that the GPU may still run uses only memory that was not freed; and no operation of the host touches freed memory.  The lists of the storages and of the deleter hold live allocations, each at one place. *)
Theorem pending_memory_is_live grouping immediate w : (length immediate <= maxOsContextCount)%nat -> reachable grouping (newWorld immediate) w ->
  (forall c n a, uses w c n a -> n <= tagOf w c \/ exists d, allocations w !! a = Some d /\ used d c /\ n <= getTaskCount c d) /\
  (forall op, allowed w op -> exists w', run grouping op w = Some w') /\
  NoDup (stored w) /\ (forall a, a ∈ stored w -> is_Some (allocations w !! a)).
Proof.
  intros Hl Hr. pose proof (reachable_inv grouping immediate w Hl Hr) as I. split; [|split; [|split; apply I]].
  - intros c n a Hu. destruct (decide (n <= tagOf w c)); [by left|right]. apply (inv_cover w I); [done|lia].
  - intros op Ha. destruct (step_inv grouping w op I Ha) as (w' & E & _). eauto.
Qed.

Lemma pending_memory_is_live_witness : exists w', run together (MakeResident 0 1) demo = Some w'.
Proof.
  apply (pending_memory_is_live together [false] demo); [simpl; unfold maxOsContextCount; lia|apply demo_world_reachable|].
  eexists. split; [reflexivity|]. left. split; [by eexists|]. intros H. by apply elem_of_nil in H.
Defined.

(** C30: [obtainReusableAllocation] finds an allocation exactly when the storage of the engine has one of the type, large enough and with a task count that the tag has reached; what it gives has no pending use in any context, and belongs to the caller only. *)
Theorem reused_allocation_is_idle grouping immediate w k e s type : (length immediate <= maxOsContextCount)%nat ->
  reachable grouping (newWorld immediate) w -> engines w !! k = Some e ->
  exists r w', obtainReusableAllocation k s type w = Some (r, w') /\
    match r with
    | Some a => exists d, a ∈ allocationsForReuse e /\ allocations w !! a = Some d /\ fits k (tag e) s type d /\ idle w a /\ owned w' a
    | None => w' = w /\ forall b y, b ∈ allocationsForReuse e -> allocations w !! b = Some y -> ~ fits k (tag e) s type y
    end.
Proof.
  intros Hl Hr E. pose proof (reachable_inv grouping immediate w Hl Hr) as I.
  destruct (obtain_spec k e s type w I E) as (r & l & w' & Eo & _ & -> & H). exists r. eexists. split; [done|]. destruct r as [a|].
  - destruct H as (d & Ha & Ed & Hf & Ho). exists d. split_and!; try done. intros c. destruct (decide (c = k)) as [->|Hne].
    + eapply count_idle; [done..|]. rewrite (tagOf_engine _ _ _ E). apply Hf.
    + apply (inv_single w I k e a c E (keptBy_listOf REUSABLE_ALLOCATION e a Ha) Hne).
  - destruct H as [-> H]. split; [|done]. assert (setReuse (allocationsForReuse e) e = e) as -> by (by destruct e). by apply put_id.
Qed.

Lemma reused_allocation_is_idle_witness :
  let w := after (Store 0 1 REUSABLE_ALLOCATION) demo in
  (fst <$> obtainReusableAllocation 0 4096 INTERNAL_HEAP w = Some (Some 1)) /\
  exists r w', obtainReusableAllocation 0 4096 INTERNAL_HEAP w = Some (r, w').
Proof.
  intros w. split; [reflexivity|]. destruct (engines w !! 0%nat) as [e|] eqn:E; [|discriminate].
  destruct (reused_allocation_is_idle together [false] w 0 e 4096 INTERNAL_HEAP) as (r & w' & Eo & _);
    [simpl; unfold maxOsContextCount; lia|apply demo_store|exact E|]. exists r, w'. exact Eo.
Defined.

(** [cleanAllocationList] up to a task count that the GPU has completed frees exactly the allocations of the list with at most that count, and keeps the others, in order. *)
Theorem clean_frees_completed grouping immediate w k e n u : (length immediate <= maxOsContextCount)%nat ->
  reachable grouping (newWorld immediate) w -> engines w !! k = Some e -> n <= tag e ->
  exists left w', cleanAllocationList k n u w = Some w' /\ engines w' = <[k := setListOf u left e]> (engines w) /\
    left `sublist_of` listOf u e /\
    (forall a d, a ∈ listOf u e -> allocations w !! a = Some d -> a ∈ left <-> n < getTaskCount k d) /\
    (forall b, allocations w' !! b = if decide (b ∈ listOf u e /\ b ∉ left) then None else allocations w !! b).
Proof.
  intros Hl Hr E Hn. pose proof (reachable_inv grouping immediate w Hl Hr) as I.
  destruct (clean_spec k e n u w I E Hn) as (left & w' & Ec & _ & G & A & Hs & Hf). exists left, w'. by split_and!.
Qed.

Lemma clean_frees_completed_witness :
  let w := after (Store 0 1 TEMPORARY_ALLOCATION) demo in
  exists w', cleanAllocationList 0 1 TEMPORARY_ALLOCATION w = Some w' /\ allocations w' !! 1 = None.
Proof.
  intros w. destruct (engines w !! 0%nat) as [e|] eqn:E; [|discriminate].
  assert (1 <= tag e /\ temporaryAllocations e = [1]) as [Ht Hl] by (vm_compute in E; injection E as <-; by split).
  destruct (clean_frees_completed together [false] w 0 e 1 TEMPORARY_ALLOCATION) as (left & w' & Ec & _ & Hs & Hf & Ha);
    [simpl; unfold maxOsContextCount; lia|apply demo_store|exact E|exact Ht|].
  exists w'. split; [exact Ec|]. change (listOf TEMPORARY_ALLOCATION e) with (temporaryAllocations e) in Ha, Hf. rewrite Hl in Ha, Hf. rewrite Ha. case_decide as Hd; [reflexivity|]. exfalso. apply Hd. split; [by apply list_elem_of_singleton|]. intros Hleft.
  destruct (allocations w !! 1) as [d|] eqn:Ed; [|discriminate].
  assert (getTaskCount 0 d = 1) as Hc by (vm_compute in Ed; injection Ed as <-; reflexivity).
  assert (1 < getTaskCount 0 d) as Hlt; [|lia]. apply (Hf 1 d); [by apply list_elem_of_singleton|exact Ed|exact Hleft].
Defined.

(** [DeferrableAllocationDeletion::apply] reports success, and frees the allocation, exactly when every context has completed the task recorded for it; otherwise the allocation stays with the deleter, which submits the command buffers still recorded. *)
Theorem apply_frees_when_complete grouping immediate w a d : (length immediate <= maxOsContextCount)%nat ->
  reachable grouping (newWorld immediate) w -> owned w a -> allocations w !! a = Some d ->
  exists done w', apply grouping a w = Some (done, w') /\ (done = true <-> complete w d) /\
    (done = true -> allocations w' !! a = None /\ idle w a) /\ (done = false -> owned w' a) /\ stored w' ≡ₚ stored w.
Proof.
  intros Hl Hr Ho Ed. pose proof (reachable_inv grouping immediate w Hl Hr) as I.
  destruct (apply_spec grouping a d w I Ho Ed) as (b & w' & E' & _ & S' & _ & Hb & Ht & Hf). exists b, w'. split_and!; try done.
  intros Hbt. split; [by apply Ht|]. intros c. destruct (decide (used d c)) as [Hu|Hu]; [|by eapply not_used_idle].
  eapply count_idle; [done..|]. by apply Hb.
Qed.

Lemma apply_frees_when_complete_witness : exists done w', apply together 1 demo = Some (done, w') /\ stored w' ≡ₚ stored demo.
Proof.
  destruct (allocations demo !! 1) as [d|] eqn:Ed; [|discriminate].
  destruct (apply_frees_when_complete together [false] demo 1 d) as (b & w' & E & _ & _ & _ & S);
    [simpl; unfold maxOsContextCount; lia|apply demo_world_reachable|split; [by eexists|]; intros H; by apply elem_of_nil in H|exact Ed|].
  exists b, w'. by split.
Defined.

(** [checkGpuUsageAndDestroyGraphicsAllocations] frees the allocation at once only when no context has a pending use; otherwise exactly one storage (of the engine that uses it, or the deleter) keeps it. *)
Theorem destroy_waits_for_gpu grouping immediate w a : (length immediate <= maxOsContextCount)%nat ->
  reachable grouping (newWorld immediate) w -> owned w a ->
  exists w', checkGpuUsageAndDestroyGraphicsAllocations a w = Some w' /\
    (allocations w' !! a = None /\ idle w a \/ is_Some (allocations w' !! a) /\ a ∈ stored w' /\ NoDup (stored w')).
Proof.
  intros Hl Hr Ho. pose proof (reachable_inv grouping immediate w Hl Hr) as I. destruct (destroy_inv a w I Ho) as (w' & E & I' & H1 & H2).
  exists w'. split; [done|]. destruct (allocations w' !! a) as [d|] eqn:Ed.
  - right. split; [eauto|]. split; [apply H2; eauto|apply I'].
  - left. split; [done|]. destruct H1 as [[? ?]|]; done.
Qed.

Lemma destroy_waits_for_gpu_witness : exists w', checkGpuUsageAndDestroyGraphicsAllocations 1 demo = Some w'.
Proof.
  destruct (destroy_waits_for_gpu together [false] demo 1) as (w' & E & _);
    [simpl; unfold maxOsContextCount; lia|apply demo_world_reachable|split; [by eexists|]; intros H; by apply elem_of_nil in H|by exists w'].
Defined.

(** The obligation on [Store] for reuse is needed: an allocation of the task
    being put together gets the task count of the previous task. *)
Example reuse_while_recording :
  let w := after (Store 0 1 REUSABLE_ALLOCATION) (after (MakeResident 0 1) demo) in
  (fst <$> obtainReusableAllocation 0 4096 INTERNAL_HEAP w = Some (Some 1)) /\ uses w 0 2 1 /\ tagOf w 0 = 1.
Proof. split; [reflexivity|]. split; [|reflexivity]. right. eexists. split; [reflexivity|]. right. split; [vm_compute; left|reflexivity]. Qed.
