(* ===== verification/HwCommands.v ===== *)
(** * Commands of the graphics processor

    The commands that the command stream receiver writes, with the fields that
    the code sets to values that vary and the sizes that the command headers of
    [gen8], [gen9] and [gen10] assert; [command_stream/linear_stream.h], the
    buffer they are written to; and what the commands leave in the state of the
    engine ([exec]), which the hardware keeps from one submission to the next. *)

From S2P Require Import Prelude.
From S2P Require Import AlignedMemory.

(** Broadwell, Skylake and Cannonlake: generations 8, 9 and 10. *)
Inductive Family := BDWFamily | SKLFamily | CNLFamily.
#[export] Instance Family_eq_dec : EqDecision Family. Proof. solve_decision. Defined.

Record PipeControl := mkPipeControl {
  commandStreamerStallEnable : bool;
  dcFlushEnable : bool;
  textureCacheInvalidationEnable : bool;
  renderTargetCacheFlushEnable : bool;
  depthCacheFlushEnable : bool;
  protectedMemoryDisable : bool;
  (** address and value *)
  immediateData : option (Z * Z) }.

Record MediaVfeState := mkMediaVfeState {
  maximumNumberOfThreads : Z;
  urbEntryAllocationSize : Z;
  perThreadScratchSpace : Z;
  stackSize : Z;
  scratchSpaceBasePointer : Z;
  scratchSpaceBasePointerHigh : Z }.

Record StateBaseAddress := mkStateBaseAddress {
  generalStateBaseAddress : Z;
  dynamicStateBaseAddress : Z;
  dynamicStateBufferSize : Z;
  indirectObjectBaseAddress : Z;
  indirectObjectBufferSize : Z;
  surfaceStateBaseAddress : Z;
  instructionBaseAddress : Z;
  statelessMocs : Z }.

Inductive Cmd :=
  | PIPE_CONTROL (p : PipeControl)
  | MI_LOAD_REGISTER_IMM (registerOffset dataDword : Z)
  | PIPELINE_SELECT (maskBits : Z) (mediaSamplerDopClockGateEnable : bool)
  | MEDIA_VFE_STATE (v : MediaVfeState)
  | STATE_BASE_ADDRESS (s : StateBaseAddress)
  | GPGPU_CSR_BASE_ADDRESS (address : Z)
  | STATE_SIP (systemInstructionPointer : Z)
  | MI_SEMAPHORE_WAIT (address compareData : Z)
  | MI_ATOMIC_DECREMENT (address : Z)
  | MI_BATCH_BUFFER_START (address : Z)
  | MI_BATCH_BUFFER_END
  (** zeroed bytes *)
  | MI_NOOP (bytes : Z).

Definition sizeOfStateBaseAddress (f : Family) : Z := match f with BDWFamily => 64 | SKLFamily => 76 | CNLFamily => 88 end.
Definition sizeOf (f : Family) (c : Cmd) : Z :=
  match c with
  | PIPE_CONTROL _ => 24
  | MI_LOAD_REGISTER_IMM _ _ => 12
  | PIPELINE_SELECT _ _ => 4
  | MEDIA_VFE_STATE _ => 36
  | STATE_BASE_ADDRESS _ => sizeOfStateBaseAddress f
  | GPGPU_CSR_BASE_ADDRESS _ => 12
  | STATE_SIP _ => 12
  | MI_SEMAPHORE_WAIT _ _ => 16
  | MI_ATOMIC_DECREMENT _ => 44
  | MI_BATCH_BUFFER_START _ => 12
  | MI_BATCH_BUFFER_END => 4
  | MI_NOOP n => n
  end.
Definition bytes (f : Family) (l : list Cmd) : Z := foldr (fun c n => sizeOf f c + n) 0 l.

Definition cmdInitPipeControl : PipeControl := mkPipeControl false false false false false false None.
(** Setters of the command, by the names of the code. *)
Definition setCommandStreamerStallEnable (v : bool) (p : PipeControl) : PipeControl :=
  mkPipeControl v (dcFlushEnable p) (textureCacheInvalidationEnable p) (renderTargetCacheFlushEnable p) (depthCacheFlushEnable p) (protectedMemoryDisable p) (immediateData p).
Definition setDcFlushEnable (v : bool) (p : PipeControl) : PipeControl :=
  mkPipeControl (commandStreamerStallEnable p) v (textureCacheInvalidationEnable p) (renderTargetCacheFlushEnable p) (depthCacheFlushEnable p) (protectedMemoryDisable p) (immediateData p).
Definition setTextureCacheInvalidationEnable (v : bool) (p : PipeControl) : PipeControl :=
  mkPipeControl (commandStreamerStallEnable p) (dcFlushEnable p) v (renderTargetCacheFlushEnable p) (depthCacheFlushEnable p) (protectedMemoryDisable p) (immediateData p).
Definition setRenderTargetCacheFlushEnable (v : bool) (p : PipeControl) : PipeControl :=
  mkPipeControl (commandStreamerStallEnable p) (dcFlushEnable p) (textureCacheInvalidationEnable p) v (depthCacheFlushEnable p) (protectedMemoryDisable p) (immediateData p).
Definition setDepthCacheFlushEnable (v : bool) (p : PipeControl) : PipeControl :=
  mkPipeControl (commandStreamerStallEnable p) (dcFlushEnable p) (textureCacheInvalidationEnable p) (renderTargetCacheFlushEnable p) v (protectedMemoryDisable p) (immediateData p).
Definition setProtectedMemoryDisable (v : bool) (p : PipeControl) : PipeControl :=
  mkPipeControl (commandStreamerStallEnable p) (dcFlushEnable p) (textureCacheInvalidationEnable p) (renderTargetCacheFlushEnable p) (depthCacheFlushEnable p) v (immediateData p).
Definition setImmediateData (address data : Z) (p : PipeControl) : PipeControl :=
  mkPipeControl (commandStreamerStallEnable p) (dcFlushEnable p) (textureCacheInvalidationEnable p) (renderTargetCacheFlushEnable p) (depthCacheFlushEnable p) (protectedMemoryDisable p) (Some (address, data)).

(** ** Linear stream *)

(** [commands]: what was written, in order. *)
Record LinearStream := mkLinearStream {
  gpuAddress : Z;
  maxAvailableSpace : Z;
  sizeUsed : Z;
  commands : list Cmd }.
Definition getUsed : LinearStream -> Z := sizeUsed.
Definition getAvailableSpace (s : LinearStream) : Z := w64 (maxAvailableSpace s - sizeUsed s).
Definition replaceBuffer (buffer bufferSize : Z) : LinearStream := mkLinearStream buffer bufferSize 0 [].

(** [getSpace] and the command put there; [None] is the abort of
    [UNRECOVERABLE_IF]. *)
Definition getSpace (f : Family) (c : Cmd) (s : LinearStream) : option LinearStream :=
  if decide (w64 (sizeUsed s + sizeOf f c) > maxAvailableSpace s) then None
  else Some (mkLinearStream (gpuAddress s) (maxAvailableSpace s) (w64 (sizeUsed s + sizeOf f c)) (commands s ++ [c])).
Fixpoint write (f : Family) (l : list Cmd) (s : LinearStream) : option LinearStream :=
  match l with [] => Some s | c :: l => s ← getSpace f c s; write f l s end.

Definition cacheLineSize : Z := 64.
Definition alignToCacheLine (f : Family) (s : LinearStream) : option LinearStream :=
  let partialCacheline := Z.land (getUsed s) (cacheLineSize - 1) in
  if decide (partialCacheline = 0) then Some s else getSpace f (MI_NOOP (cacheLineSize - partialCacheline)) s.
Definition emitNoop (f : Family) (bytesToUpdate : Z) (s : LinearStream) : option LinearStream :=
  if decide (bytesToUpdate = 0) then Some s else getSpace f (MI_NOOP bytesToUpdate) s.

(** ** State of the engine *)

Record Hardware := mkHardware {
  registers : gmap Z Z;
  pipelineSelect : option (Z * bool);
  vfeState : option MediaVfeState;
  stateBaseAddress : option StateBaseAddress;
  csrBaseAddress : option Z;
  sip : option Z }.

Definition exec (h : Hardware) (c : Cmd) : Hardware :=
  match c with
  | MI_LOAD_REGISTER_IMM r d => mkHardware (<[r := d]> (registers h)) (pipelineSelect h) (vfeState h) (stateBaseAddress h) (csrBaseAddress h) (sip h)
  | PIPELINE_SELECT m b => mkHardware (registers h) (Some (m, b)) (vfeState h) (stateBaseAddress h) (csrBaseAddress h) (sip h)
  | MEDIA_VFE_STATE v => mkHardware (registers h) (pipelineSelect h) (Some v) (stateBaseAddress h) (csrBaseAddress h) (sip h)
  | STATE_BASE_ADDRESS s => mkHardware (registers h) (pipelineSelect h) (vfeState h) (Some s) (csrBaseAddress h) (sip h)
  | GPGPU_CSR_BASE_ADDRESS a => mkHardware (registers h) (pipelineSelect h) (vfeState h) (stateBaseAddress h) (Some a) (sip h)
  | STATE_SIP a => mkHardware (registers h) (pipelineSelect h) (vfeState h) (stateBaseAddress h) (csrBaseAddress h) (Some a)
  | _ => h
  end.
Definition execAll (l : list Cmd) (h : Hardware) : Hardware := foldl exec h l.

(** A command that holds the engine until what came before is complete. *)
Definition stalls (c : Cmd) : bool := match c with PIPE_CONTROL p => commandStreamerStallEnable p | _ => false end.

(** ** Lemmas *)

Lemma bytes_app f l1 l2 : bytes f (l1 ++ l2) = bytes f l1 + bytes f l2.
Proof. induction l1 as [|c l1 IH]; simpl; [done|]. rewrite IH. lia. Qed.
Lemma execAll_app l1 l2 h : execAll (l1 ++ l2) h = execAll l2 (execAll l1 h).
Proof. apply foldl_app. Qed.

(** No command has a negative size. *)
Definition sized (c : Cmd) : Prop := match c with MI_NOOP n => 0 <= n | _ => True end.
Lemma sizeOf_nonneg f c : sized c -> 0 <= sizeOf f c.
Proof. destruct c, f; simpl; lia. Qed.
Lemma bytes_nonneg f l : Forall sized l -> 0 <= bytes f l.
Proof. induction 1 as [|c l Hc _ IH]; simpl; [done|]. pose proof (sizeOf_nonneg f c Hc). lia. Qed.

Record stream_ok (s : LinearStream) : Prop := {
  so_used : 0 <= sizeUsed s <= maxAvailableSpace s;
  so_max : maxAvailableSpace s < 2 ^ 63 }.

(** Commands that fit are written. *)
Lemma write_fits f l s : stream_ok s -> Forall sized l -> sizeUsed s + bytes f l <= maxAvailableSpace s ->
  write f l s = Some (mkLinearStream (gpuAddress s) (maxAvailableSpace s) (sizeUsed s + bytes f l) (commands s ++ l)).
Proof.
  intros [Hu Hm] Hl. revert s Hu Hm. induction Hl as [|c l Hc Hl IH]; intros s Hu Hm Hs; simpl in *.
  - rewrite app_nil_r, Z.add_0_r. by destruct s.
  - pose proof (sizeOf_nonneg f c Hc). pose proof (bytes_nonneg f l Hl). unfold getSpace. unwrap.
    rewrite decide_False by lia. cbn [mbind option_bind]. rewrite IH; simpl; try lia. by rewrite <- app_assoc, Z.add_assoc.
Qed.

(** Writing never moves a stream that is [stream_ok] out of its buffer. *)
Lemma write_app f l1 l2 s : write f (l1 ++ l2) s = (s ← write f l1 s; write f l2 s).
Proof. revert s. induction l1 as [|c l1 IH]; intros s; simpl; [done|]. destruct (getSpace f c s); simpl; [apply IH|done]. Qed.
