(* ===== verification/Preamble.v ===== *)
(** * Engine set-up commands

    [helpers/preamble.inl], [command_stream/preemption.inl] and [preemption.cpp]
    with their specialisations in [gen8], [gen9] and [gen10], [DwordBuilder] of
    [helpers/hw_helper.h] and the register values of [reg_configs.h].  A function
    that writes commands returns them; [None] is the abort of [UNRECOVERABLE_IF].
    [Device] holds what the functions read of the device and does not change. *)

From S2P Require Import Prelude.
From S2P Require Import HwCommands.

(** Products with an L3 configuration of their own. *)
Inductive Product := IGFX_BROADWELL | IGFX_SKYLAKE | IGFX_BROXTON | IGFX_CANNONLAKE | IGFX_OTHER.

(** The order of the constructors is that of their values. *)
Inductive PreemptionMode := Initial | Disabled | MidBatch | ThreadGroup | MidThread.
#[export] Instance PreemptionMode_eq_dec : EqDecision PreemptionMode. Proof. solve_decision. Defined.
Definition preemptionValue (m : PreemptionMode) : Z := match m with Initial => 0 | Disabled => 1 | MidBatch => 2 | ThreadGroup => 3 | MidThread => 4 end.

(** Thread arbitration policies. *)
Definition AgeBased : Z := 0.
Definition RoundRobin : Z := 1.
Definition RoundRobinAfterDependency : Z := 2.
Definition NotPresent : Z := 0xffffffff.

Record Device := mkDevice {
  family : Family;
  eProductFamily : Product;
  getPreemptionMode : PreemptionMode;
  isSourceLevelDebuggerActive : bool;
  waSendMIFLUSHBeforeVFE : bool;
  waSamplerCacheFlushBetweenRedescribedSurfaceReads : bool;
  EUCount : Z;
  ThreadCount : Z;
  extraQuantityThreadsPerEU : Z;
  computeUnitsUsedForScratch : Z;
  sipAddress : Z;
  internalHeapBaseAddress : Z;
  (** the base of the 32-bit allocator when allocations are forced there *)
  force32BitAllocations : option Z;
  tagAddress : Z;
  preemptionCsrAllocation : option Z;
  timestampPacketWriteEnabled : bool;
  immediateDispatch : bool;
  forceCsrReprogramming : bool }.

Definition dwordBuild (bitNumberToSet : Z) (masked set : bool) (initValue : Z) : Z :=
  let dword := if set then Z.lor initValue (Z.shiftl 1 bitNumberToSet) else initValue in
  if masked then Z.lor dword (Z.shiftl 1 (bitNumberToSet + 16)) else dword.

(** ** L3 *)

Definition L3CNTLRegisterOffset : Z := 0x7034.
Definition getL3ConfigHelper (p : Product) (useSLM : bool) : Z :=
  match p with
  | IGFX_CANNONLAKE => if useSLM then 0xA0000321 else 0xc0000340
  | _ => if useSLM then 0x60000321 else 0x80000340
  end.
Definition getL3Config (dev : Device) (useSLM : bool) : Z :=
  match family dev, eProductFamily dev with
  | BDWFamily, IGFX_BROADWELL => getL3ConfigHelper IGFX_BROADWELL useSLM
  | BDWFamily, _ => getL3ConfigHelper IGFX_BROADWELL true
  | SKLFamily, IGFX_SKYLAKE => getL3ConfigHelper IGFX_SKYLAKE useSLM
  | SKLFamily, IGFX_BROXTON => getL3ConfigHelper IGFX_BROXTON useSLM
  | SKLFamily, _ => getL3ConfigHelper IGFX_SKYLAKE true
  | CNLFamily, IGFX_CANNONLAKE => getL3ConfigHelper IGFX_CANNONLAKE useSLM
  | CNLFamily, _ => getL3ConfigHelper IGFX_CANNONLAKE true
  end.
Definition programL3 (l3Config : Z) : list Cmd := [MI_LOAD_REGISTER_IMM L3CNTLRegisterOffset l3Config].

(** ** Thread arbitration *)

Definition getDefaultThreadArbitrationPolicy (f : Family) : Z :=
  match f with BDWFamily => 0 | SKLFamily => RoundRobin | CNLFamily => RoundRobinAfterDependency end.
Definition arbitrationRegister (f : Family) : Z := match f with CNLFamily => 0xE48C | _ => 0xE404 end.
(** An index of the table behind its end is undefined. *)
Definition arbitrationData (f : Family) (policy : Z) : option Z :=
  match f with
  | CNLFamily => [0xC0000; 0xC0004; 0xC0008] !! Z.to_nat policy
  | _ => Some (if decide (policy = RoundRobin) then 0x100 else 0)
  end.
Definition programThreadArbitration (f : Family) (requiredThreadArbitrationPolicy : Z) : option (list Cmd) :=
  match f with
  | BDWFamily => Some []
  | _ =>
      if decide (requiredThreadArbitrationPolicy = NotPresent) then None
      else
        data ← arbitrationData f requiredThreadArbitrationPolicy;
        Some [PIPE_CONTROL (setCommandStreamerStallEnable true cmdInitPipeControl); MI_LOAD_REGISTER_IMM (arbitrationRegister f) data]
  end.
Definition getThreadArbitrationCommandsSize (f : Family) : Z := match f with BDWFamily => 0 | _ => 12 + 24 end.

(** ** Preemption *)

Definition preemptionMmioAddress (f : Family) : Z := match f with BDWFamily => 0x2248 | _ => 0x2580 end.
Definition preemptionMask (f : Family) : Z := match f with BDWFamily => 0 | _ => Z.shiftl (Z.lor 2 4) 16 end.
Definition preemptionRegVal (f : Family) (newPreemptionMode : PreemptionMode) : Z :=
  match f, newPreemptionMode with
  | BDWFamily, ThreadGroup => 0
  | BDWFamily, _ => 4
  | _, MidThread => Z.lor 0 (preemptionMask f)
  | _, ThreadGroup => Z.lor 2 (preemptionMask f)
  | _, _ => Z.lor 4 (preemptionMask f)
  end.
Definition programCmdStream (f : Family) (newPreemptionMode oldPreemptionMode : PreemptionMode) : list Cmd :=
  if decide (oldPreemptionMode = newPreemptionMode) then []
  else [MI_LOAD_REGISTER_IMM (preemptionMmioAddress f) (preemptionRegVal f newPreemptionMode)].
Definition preemptionCmdStreamSize (newPreemptionMode oldPreemptionMode : PreemptionMode) : Z :=
  if decide (newPreemptionMode = oldPreemptionMode) then 0 else 12.

Definition programCsrBaseAddress (dev : Device) : option (list Cmd) :=
  match family dev with
  | BDWFamily => Some []
  | _ => if decide (getPreemptionMode dev = MidThread) then a ← preemptionCsrAllocation dev; Some [GPGPU_CSR_BASE_ADDRESS a] else Some []
  end.
Definition getRequiredPreambleSize (dev : Device) : Z :=
  match family dev with BDWFamily => 0 | _ => if decide (getPreemptionMode dev = MidThread) then 12 else 0 end.

Definition programStateSip (dev : Device) : list Cmd :=
  match family dev with
  | BDWFamily => []
  | _ => if bool_decide (getPreemptionMode dev = MidThread) || isSourceLevelDebuggerActive dev then [STATE_SIP (sipAddress dev)] else []
  end.
Definition getRequiredStateSipCmdSize (dev : Device) : Z :=
  match family dev with
  | BDWFamily => 0
  | _ => if bool_decide (getPreemptionMode dev = MidThread) || isSourceLevelDebuggerActive dev then 12 else 0
  end.

(** ** Debugger, pipeline, scratch space *)

Definition programKernelDebugging : list Cmd :=
  [MI_LOAD_REGISTER_IMM 0x20ec (Z.lor (Z.shiftl 1 6) (Z.shiftl 1 22)); MI_LOAD_REGISTER_IMM 0xe400 (Z.lor (Z.shiftl 1 4) (Z.shiftl 1 7))].
Definition getKernelDebuggingCommandsSize (debuggingActive : bool) : Z := if debuggingActive then 2 * 12 else 0.
Definition getAdditionalCommandsSize (dev : Device) : Z :=
  match family dev with
  | BDWFamily => getKernelDebuggingCommandsSize (isSourceLevelDebuggerActive dev)
  | _ => getRequiredPreambleSize dev + getKernelDebuggingCommandsSize (isSourceLevelDebuggerActive dev)
  end.

Definition programPipelineSelect (f : Family) (mediaSamplerRequired : bool) : list Cmd :=
  match f with
  | BDWFamily => [PIPELINE_SELECT 0x3 false]
  | _ => [PIPELINE_SELECT (Z.lor 0x3 0x10) (negb mediaSamplerRequired)]
  end.

Definition addPipeControlBeforeVfeCmd (dev : Device) : list Cmd :=
  let p := setCommandStreamerStallEnable true cmdInitPipeControl in
  match family dev with
  | BDWFamily => [PIPE_CONTROL (setDcFlushEnable true p)]
  | _ =>
      if waSendMIFLUSHBeforeVFE dev then [PIPE_CONTROL (setDcFlushEnable true (setDepthCacheFlushEnable true (setRenderTargetCacheFlushEnable true p)))]
      else [PIPE_CONTROL p]
  end.
Definition getUrbEntryAllocationSize (f : Family) : Z := match f with CNLFamily => 1024 | _ => 0x782 end.
Definition getMaxThreadsForVfe (dev : Device) : Z :=
  let threadsPerEU := w32 (ThreadCount dev / EUCount dev + extraQuantityThreadsPerEU dev) in w32 (EUCount dev * threadsPerEU).

(** [Kernel::getScratchSizeValueToProgramMediaVfeState]; an [int] is 0 after 31
    halvings. *)
Fixpoint scratchLoop (fuel : nat) (scratchSize valueToProgram : Z) : Z :=
  match fuel with
  | O => valueToProgram
  | S fuel => let scratchSize := Z.shiftr scratchSize 1 in if decide (scratchSize = 0) then valueToProgram else scratchLoop fuel scratchSize (valueToProgram + 1)
  end.
Definition getScratchSizeValueToProgramMediaVfeState (scratchSize : Z) : Z := scratchLoop 32 (Z.shiftr scratchSize 10) 0.

Definition vfeStateFor (dev : Device) (scratchSize scratchAddress : Z) : MediaVfeState :=
  mkMediaVfeState (getMaxThreadsForVfe dev) (getUrbEntryAllocationSize (family dev))
    (getScratchSizeValueToProgramMediaVfeState scratchSize) (getScratchSizeValueToProgramMediaVfeState scratchSize)
    (Z.land 0xFFFFFFFF scratchAddress) (Z.land 0xFFFFFFFF (Z.shiftr scratchAddress 32)).
Definition programVFEState (dev : Device) (scratchSize scratchAddress : Z) : list Cmd :=
  addPipeControlBeforeVfeCmd dev ++ [MEDIA_VFE_STATE (vfeStateFor dev scratchSize scratchAddress)].

(** [programGenSpecificPreambleWorkArounds] writes nothing. *)
Definition programPreamble (dev : Device) (l3Config requiredThreadArbitrationPolicy : Z) : option (list Cmd) :=
  arbitration ← programThreadArbitration (family dev) requiredThreadArbitrationPolicy;
  csrBase ← programCsrBaseAddress dev;
  Some (programL3 l3Config ++ arbitration ++ csrBase ++ (if isSourceLevelDebuggerActive dev then programKernelDebugging else [])).

(** ** The mode of a task *)

(** What the functions read of a kernel. *)
Record Kernel := mkKernel {
  usesFencesForReadWriteImages : bool;
  disableMidThreadPreemption : bool;
  isSchedulerKernel : bool;
  isVmeKernel : bool }.
Record PreemptionCaps := mkPreemptionCaps {
  devicePreemptionMode : PreemptionMode;
  vmeAvcSupportsPreemption : bool;
  waDisablePerCtxtPreemptionGranularityControl : bool;
  waDisableLSQCROPERFforOCL : bool }.

Definition allowThreadGroupPreemption (kernel : option Kernel) (dev : PreemptionCaps) : bool :=
  if waDisablePerCtxtPreemptionGranularityControl dev then false
  else match kernel with
       | Some k => if usesFencesForReadWriteImages k && waDisableLSQCROPERFforOCL dev then false else negb (isSchedulerKernel k || isVmeKernel k)
       | None => true
       end.
Definition modeGe (a b : PreemptionMode) : bool := bool_decide (preemptionValue a >= preemptionValue b).
Definition allowMidThreadPreemption (kernel : option Kernel) (dev : PreemptionCaps) : bool :=
  let allowedByKernel := match kernel with
                         | Some k => negb (disableMidThreadPreemption k) && negb (isVmeKernel k && negb (vmeAvcSupportsPreemption dev))
                         | None => true
                         end in
  modeGe (devicePreemptionMode dev) MidThread && allowedByKernel.
Definition taskPreemptionMode (dev : PreemptionCaps) (kernel : option Kernel) : PreemptionMode :=
  if decide (devicePreemptionMode dev = Disabled) then Disabled
  else if modeGe (devicePreemptionMode dev) MidThread && allowMidThreadPreemption kernel dev then MidThread
  else if modeGe (devicePreemptionMode dev) ThreadGroup && allowThreadGroupPreemption kernel dev then ThreadGroup
  else MidBatch.
(** Over the dispatches of a command. *)
Definition multiDispatchPreemptionMode (dev : PreemptionCaps) (kernels : list (option Kernel)) : PreemptionMode :=
  foldl (fun devMode kernel => let taskMode := taskPreemptionMode dev kernel in if modeGe taskMode devMode then devMode else taskMode)
    (devicePreemptionMode dev) kernels.
Definition adjustDefaultPreemptionMode (defaultPreemptionMode : PreemptionMode) (allowMidThread allowThreadGroup allowMidBatch : bool) : PreemptionMode :=
  if modeGe defaultPreemptionMode MidThread && allowMidThread then MidThread
  else if modeGe defaultPreemptionMode ThreadGroup && allowThreadGroup then ThreadGroup
  else if modeGe defaultPreemptionMode MidBatch && allowMidBatch then MidBatch
  else Disabled.

(** ** Lemmas *)

Definition arbitrationOk (f : Family) (policy : Z) : Prop := policy <> NotPresent /\ (f = CNLFamily -> 0 <= policy <= 2).

Lemma programThreadArbitration_ok f p : arbitrationOk f p ->
  exists l, programThreadArbitration f p = Some l /\ bytes f l = getThreadArbitrationCommandsSize f /\ Forall sized l /\
    (forall h, execAll l h = match arbitrationData f p, f with
                             | Some d, (SKLFamily | CNLFamily) => exec h (MI_LOAD_REGISTER_IMM (arbitrationRegister f) d)
                             | _, _ => h
                             end) /\ (f <> BDWFamily -> is_Some (arbitrationData f p)).
Proof.
  intros [Hp Hr]. unfold programThreadArbitration.
  destruct f; [exists []; split_and!; try done; intros; simpl; by destruct (decide (p = RoundRobin))|..]; rewrite decide_False by done; simpl arbitrationData; cbn [mbind option_bind].
  - eexists. split_and!; [done..|by repeat constructor|done|eauto].
  - specialize (Hr eq_refl). assert (p = 0 \/ p = 1 \/ p = 2) as [-> | [-> | ->]] by lia; (eexists; split_and!; [done..|by repeat constructor|done|intros _; simpl; eauto]).
Qed.

Definition preemptionCsrOk (dev : Device) : Prop := getPreemptionMode dev = MidThread -> is_Some (preemptionCsrAllocation dev).

Lemma programCsrBaseAddress_ok dev : preemptionCsrOk dev ->
  exists l, programCsrBaseAddress dev = Some l /\ bytes (family dev) l = getRequiredPreambleSize dev /\ Forall sized l /\
    forall h, execAll l h = match family dev, decide (getPreemptionMode dev = MidThread), preemptionCsrAllocation dev with
                            | (SKLFamily | CNLFamily), left _, Some a => exec h (GPGPU_CSR_BASE_ADDRESS a)
                            | _, _, _ => h
                            end.
Proof.
  intros Hp. unfold programCsrBaseAddress, getRequiredPreambleSize, preemptionCsrOk in *. destruct (decide (getPreemptionMode dev = MidThread)) as [Hm|Hm].
  - destruct (Hp Hm) as [a Ha]. rewrite Ha. destruct (family dev); (eexists; split_and!; [done..|by repeat constructor|done]).
  - destruct (family dev); (exists []; split_and!; [done..|by repeat constructor|done]).
Qed.

(** the preemption mode of a command is the lowest that its dispatches allow, never above that of the device; mid-thread preemption is chosen only for kernels that allow it, and thread-group preemption is left out for the scheduler and motion-estimation kernels. *)
Theorem preemption_mode_of_dispatches dev kernels : devicePreemptionMode dev <> Initial ->
  let m := multiDispatchPreemptionMode dev kernels in
  preemptionValue m <= preemptionValue (devicePreemptionMode dev) /\
  (forall k, k ∈ kernels -> preemptionValue m <= preemptionValue (taskPreemptionMode dev k)) /\
  (m = devicePreemptionMode dev \/ exists k, k ∈ kernels /\ m = taskPreemptionMode dev k) /\
  (forall k, Some k ∈ kernels -> m = MidThread -> disableMidThreadPreemption k = false /\ (isVmeKernel k = true -> vmeAvcSupportsPreemption dev = true)) /\
  (forall k, Some k ∈ kernels -> m = ThreadGroup -> isSchedulerKernel k || isVmeKernel k = true -> disableMidThreadPreemption k = false).
Proof.
  intros Hd m.
  assert (preemptionValue m <= preemptionValue (devicePreemptionMode dev) /\ (forall k, k ∈ kernels -> preemptionValue m <= preemptionValue (taskPreemptionMode dev k)) /\
    (m = devicePreemptionMode dev \/ exists k, k ∈ kernels /\ m = taskPreemptionMode dev k)) as (H1 & H2 & H3).
  { unfold m, multiDispatchPreemptionMode. clear m. induction kernels as [|k l IH] using rev_ind; simpl; [split_and!; [done|intros k Hk; by apply elem_of_nil in Hk|by left]|].
    rewrite foldl_snoc. set (m := foldl _ _ _) in *. destruct IH as (H1 & H2 & H3). unfold modeGe. case_bool_decide as Hc.
    - split_and!; [done| |destruct H3 as [H3|(k' & H3 & H4)]; [by left|right; exists k'; set_solver]].
      intros k' [Hk|Hk]%elem_of_app; [by apply H2|]. apply list_elem_of_singleton in Hk as ->. lia.
    - split_and!; [lia| |right; exists k; set_solver]. intros k' [Hk|Hk]%elem_of_app; [specialize (H2 _ Hk); lia|]. by apply list_elem_of_singleton in Hk as ->. }
  assert (forall k, Some k ∈ kernels -> m = MidThread -> taskPreemptionMode dev (Some k) = MidThread) as HM.
  { intros k Hk Em. specialize (H2 _ Hk). rewrite Em in H2. simpl in H2. destruct (taskPreemptionMode dev (Some k)); simpl in H2; [lia..|done]. }
  split_and!; try done.
  - intros k Hk Em. specialize (HM k Hk Em). unfold taskPreemptionMode, allowMidThreadPreemption in HM. case_decide; [done|].
    destruct (modeGe (devicePreemptionMode dev) MidThread), (disableMidThreadPreemption k), (isVmeKernel k), (vmeAvcSupportsPreemption dev); simpl in HM; try done; by repeat case_match.
  - intros k Hk Em Hs. specialize (H2 _ Hk). rewrite Em in H2. destruct (disableMidThreadPreemption k) eqn:Ek; [exfalso|done].
    unfold taskPreemptionMode, allowMidThreadPreemption, allowThreadGroupPreemption in H2. rewrite Ek, Hs in H2. case_decide; [simpl in H2; lia|].
    simpl in H2. rewrite !andb_false_r in H2. simpl in H2.
    destruct (modeGe (devicePreemptionMode dev) ThreadGroup), (waDisablePerCtxtPreemptionGranularityControl dev), (usesFencesForReadWriteImages k && waDisableLSQCROPERFforOCL dev); simpl in H2; lia.
Qed.

Example preemption_mode_of_dispatches_witness :
  let dev := mkPreemptionCaps MidThread false false false in
  let m := multiDispatchPreemptionMode dev [Some (mkKernel false false false false); Some (mkKernel false true false false)] in
  m = ThreadGroup /\ preemptionValue m <= 4.
Proof.
  intros dev m. split; [reflexivity|].
  apply (preemption_mode_of_dispatches dev [Some (mkKernel false false false false); Some (mkKernel false true false false)]). discriminate.
Defined.
