(* ===== verification/FlushTask.v ===== *)
(** * Flushing a task

    [CommandStreamReceiverHw::flushTask] of
    [command_stream/command_stream_receiver_hw.inl] with the code it calls:
    [getCS] and [ensureCommandBufferAllocation] of [command_stream_receiver.cpp],
    [scratch_space_controller_base.cpp], [helpers/dirty_state_helpers.cpp],
    [helpers/state_base_address.inl], [helpers/timestamp_packet.h] and the
    specialisations of the three generations.  The receiver remembers what it has
    programmed and writes only what changed; the commands of the task itself are
    in the stream of the queue.

    Functions that write commands are in the monad [W]: the commands in order and
    a result, [None] being an abort or an access through a null pointer.  Parameters
    are the cache settings of the GMM library and [groups], into how many
    submissions a flush of recorded command buffers falls (see [Submissions]).
    Residency is in [AllocationLifetime].  Left out: debug variables other than
    [ForceCsrReprogramming] at values other than their defaults, injected
    experimental command buffers and the fields of the command headers that never
    change. *)

From S2P Require Import Prelude.
From S2P Require Import AlignedMemory.
From S2P Require Import HwCommands.
From S2P Require Import Preamble.

(** ** Heaps *)

(** Address and base of the allocation. *)
Record IndirectHeap := mkHeap {
  graphicsAllocation : option (Z * Z);
  heapMaxAvailableSpace : Z;
  canBeUtilizedAs4GbHeap : bool }.
Definition sizeOf4GBinPageEntities : Z := (2 ^ 32 - 4096) / 4096.
Definition getHeapSizeInPages (h : IndirectHeap) : Z :=
  if canBeUtilizedAs4GbHeap h then sizeOf4GBinPageEntities else w32 ((w32 (heapMaxAvailableSpace h) + 4095) / 4096).
Definition getHeapGpuBase (h : IndirectHeap) : option Z :=
  '(gpuAddress, gpuBaseAddress) ← graphicsAllocation h; Some (if canBeUtilizedAs4GbHeap h then gpuBaseAddress else gpuAddress).

Record HeapDirtyState := mkHeapState { gpuBaseAddress : Z; sizeInPages : Z }.
Definition updateAndCheck (h : IndirectHeap) (s : HeapDirtyState) : bool * HeapDirtyState :=
  match getHeapGpuBase h with
  | None => (true, mkHeapState (gpuBaseAddress s) 0)
  | Some base =>
      let dirty := bool_decide (gpuBaseAddress s <> base) || bool_decide (sizeInPages s <> getHeapSizeInPages h) in
      (dirty, if dirty then mkHeapState base (getHeapSizeInPages h) else s)
  end.

(** ** State of the receiver *)

(** What was programmed last.  The flags of [int8_t] type are -1 before. *)
Record Sent := mkSent {
  isPreambleSent : bool;
  isStateSipSent : bool;
  mediaVfeStateDirty : bool;
  GSBAFor32BitProgrammed : bool;
  lastPreemptionMode : PreemptionMode;
  lastSentL3Config : Z;
  lastSentCoherencyRequest : Z;
  lastMediaSamplerConfig : Z;
  lastSentThreadArbitrationPolicy : Z;
  latestSentStatelessMocsConfig : Z;
  dshState : HeapDirtyState;
  iohState : HeapDirtyState;
  sshState : HeapDirtyState }.

(** Address of the allocation, and relative to its base. *)
Record Scratch := mkScratch { requiredScratchSize : Z; scratchAllocation : option (Z * Z); scratchSizeBytes : Z }.

Inductive SamplerCacheFlushState := samplerCacheFlushNotRequired | samplerCacheFlushBefore | samplerCacheFlushAfter.

(** What other code asks of the next flush. *)
Record Requests := mkRequests {
  requiredThreadArbitrationPolicy : Z;
  disableL3Cache : bool;
  stallingPipeControlOnNextFlushRequired : bool;
  samplerCacheFlushRequired : SamplerCacheFlushState }.

(** [recorded]: the task counts of the command buffers in the aggregator. *)
Record Counts := mkCounts { taskLevel : Z; taskCount : Z; latestSentTaskCount : Z; latestFlushedTaskCount : Z; recorded : list Z }.

Record Csr := mkCsr { sent : Sent; scratch : Scratch; requests : Requests; counts : Counts; commandStream : LinearStream }.

Definition setIsPreambleSent (v : bool) (s : Sent) : Sent :=
  mkSent v (isStateSipSent s) (mediaVfeStateDirty s) (GSBAFor32BitProgrammed s) (lastPreemptionMode s) (lastSentL3Config s) (lastSentCoherencyRequest s) (lastMediaSamplerConfig s) (lastSentThreadArbitrationPolicy s) (latestSentStatelessMocsConfig s) (dshState s) (iohState s) (sshState s).
Definition setIsStateSipSent (v : bool) (s : Sent) : Sent :=
  mkSent (isPreambleSent s) v (mediaVfeStateDirty s) (GSBAFor32BitProgrammed s) (lastPreemptionMode s) (lastSentL3Config s) (lastSentCoherencyRequest s) (lastMediaSamplerConfig s) (lastSentThreadArbitrationPolicy s) (latestSentStatelessMocsConfig s) (dshState s) (iohState s) (sshState s).
Definition setMediaVFEStateDirty (v : bool) (s : Sent) : Sent :=
  mkSent (isPreambleSent s) (isStateSipSent s) v (GSBAFor32BitProgrammed s) (lastPreemptionMode s) (lastSentL3Config s) (lastSentCoherencyRequest s) (lastMediaSamplerConfig s) (lastSentThreadArbitrationPolicy s) (latestSentStatelessMocsConfig s) (dshState s) (iohState s) (sshState s).
Definition setGSBAFor32BitProgrammed (v : bool) (s : Sent) : Sent :=
  mkSent (isPreambleSent s) (isStateSipSent s) (mediaVfeStateDirty s) v (lastPreemptionMode s) (lastSentL3Config s) (lastSentCoherencyRequest s) (lastMediaSamplerConfig s) (lastSentThreadArbitrationPolicy s) (latestSentStatelessMocsConfig s) (dshState s) (iohState s) (sshState s).
Definition setLastPreemptionMode (v : PreemptionMode) (s : Sent) : Sent :=
  mkSent (isPreambleSent s) (isStateSipSent s) (mediaVfeStateDirty s) (GSBAFor32BitProgrammed s) v (lastSentL3Config s) (lastSentCoherencyRequest s) (lastMediaSamplerConfig s) (lastSentThreadArbitrationPolicy s) (latestSentStatelessMocsConfig s) (dshState s) (iohState s) (sshState s).
Definition setLastSentL3Config (v : Z) (s : Sent) : Sent :=
  mkSent (isPreambleSent s) (isStateSipSent s) (mediaVfeStateDirty s) (GSBAFor32BitProgrammed s) (lastPreemptionMode s) v (lastSentCoherencyRequest s) (lastMediaSamplerConfig s) (lastSentThreadArbitrationPolicy s) (latestSentStatelessMocsConfig s) (dshState s) (iohState s) (sshState s).
Definition setLastSentCoherencyRequest (v : Z) (s : Sent) : Sent :=
  mkSent (isPreambleSent s) (isStateSipSent s) (mediaVfeStateDirty s) (GSBAFor32BitProgrammed s) (lastPreemptionMode s) (lastSentL3Config s) v (lastMediaSamplerConfig s) (lastSentThreadArbitrationPolicy s) (latestSentStatelessMocsConfig s) (dshState s) (iohState s) (sshState s).
Definition setLastMediaSamplerConfig (v : Z) (s : Sent) : Sent :=
  mkSent (isPreambleSent s) (isStateSipSent s) (mediaVfeStateDirty s) (GSBAFor32BitProgrammed s) (lastPreemptionMode s) (lastSentL3Config s) (lastSentCoherencyRequest s) v (lastSentThreadArbitrationPolicy s) (latestSentStatelessMocsConfig s) (dshState s) (iohState s) (sshState s).
Definition setLastSentThreadArbitrationPolicy (v : Z) (s : Sent) : Sent :=
  mkSent (isPreambleSent s) (isStateSipSent s) (mediaVfeStateDirty s) (GSBAFor32BitProgrammed s) (lastPreemptionMode s) (lastSentL3Config s) (lastSentCoherencyRequest s) (lastMediaSamplerConfig s) v (latestSentStatelessMocsConfig s) (dshState s) (iohState s) (sshState s).
Definition setLatestSentStatelessMocsConfig (v : Z) (s : Sent) : Sent :=
  mkSent (isPreambleSent s) (isStateSipSent s) (mediaVfeStateDirty s) (GSBAFor32BitProgrammed s) (lastPreemptionMode s) (lastSentL3Config s) (lastSentCoherencyRequest s) (lastMediaSamplerConfig s) (lastSentThreadArbitrationPolicy s) v (dshState s) (iohState s) (sshState s).
Definition setHeapStates (dsh ioh ssh : HeapDirtyState) (s : Sent) : Sent :=
  mkSent (isPreambleSent s) (isStateSipSent s) (mediaVfeStateDirty s) (GSBAFor32BitProgrammed s) (lastPreemptionMode s) (lastSentL3Config s) (lastSentCoherencyRequest s) (lastMediaSamplerConfig s) (lastSentThreadArbitrationPolicy s) (latestSentStatelessMocsConfig s) dsh ioh ssh.

Record DispatchFlags := mkFlags {
  preemptionMode : PreemptionMode;
  blocking : bool;
  dcFlush : bool;
  useSLM : bool;
  guardCommandBufferWithPipeControl : bool;
  GSBA32BitRequired : bool;
  mediaSamplerRequired : bool;
  requiresCoherency : bool;
  implicitFlush : bool;
  outOfOrderExecutionAllowed : bool;
  (** the time-stamp packets to wait for: address of the value, of the counter *)
  csrDependencies : list (Z * Z) }.

(** ** Commands written *)

Definition W (A : Type) : Type := option (list Cmd * A).
Definition ret {A} (a : A) : W A := Some ([], a).
Definition emit (l : list Cmd) : W unit := Some (l, tt).
Definition lift (o : option (list Cmd)) : W unit := match o with Some l => emit l | None => None end.
Definition bind {A B} (m : W A) (k : A -> W B) : W B :=
  match m with
  | Some (l1, a) => match k a with Some (l2, b) => Some (l1 ++ l2, b) | None => None end
  | None => None
  end.
Declare Scope write_scope.
Delimit Scope write_scope with write.
Notation "x <- m ;; k" := (bind m (fun x => k)) (at level 100, m at level 99, right associativity) : write_scope.
Notation "m ;;; k" := (bind m (fun _ => k)) (at level 100, right associativity) : write_scope.
#[local] Open Scope write_scope.

Section receiver.
Context (dev : Device) (l3CacheOn l3CacheOff : Z).
Definition unknownMocs : Z := 0.

(** *** Pipe controls *)

Definition addPipeControlWA (flushDC : bool) : list Cmd :=
  match family dev with
  | BDWFamily => []
  | _ => [PIPE_CONTROL (setCommandStreamerStallEnable true (setDcFlushEnable flushDC cmdInitPipeControl))]
  end.
Definition addDcFlushToPipeControl (flushDC : bool) (p : PipeControl) : PipeControl :=
  match family dev with BDWFamily => setDcFlushEnable flushDC p | _ => p end.
Definition addClearSLMWorkAround (p : PipeControl) : PipeControl :=
  match family dev with BDWFamily => setProtectedMemoryDisable true p | _ => p end.
Definition getRequiredPipeControlSize : Z := match family dev with BDWFamily => 24 | _ => 2 * 24 end.
Definition addPipeControlCmd : PipeControl := setCommandStreamerStallEnable true cmdInitPipeControl.
Definition addPipeControl (flushDC : bool) : list Cmd := addPipeControlWA flushDC ++ [PIPE_CONTROL (addDcFlushToPipeControl true addPipeControlCmd)].

(** *** Engine state *)

(** What changed with respect to the last flush. *)
Record CsrSizeRequestFlags := mkSizeFlags { l3ConfigChanged : bool; coherencyRequestChanged : bool; mediaSamplerConfigChanged : bool }.
Definition sizeRequestFlags (flags : DispatchFlags) (newL3Config : Z) (s : Sent) : CsrSizeRequestFlags :=
  mkSizeFlags (bool_decide (lastSentL3Config s <> newL3Config)) (bool_decide (lastSentCoherencyRequest s <> Z.b2z (requiresCoherency flags)))
    (bool_decide (lastMediaSamplerConfig s <> Z.b2z (mediaSamplerRequired flags))).

Definition programPreemption (flags : DispatchFlags) (s : Sent) : W Sent :=
  emit (programCmdStream (family dev) (preemptionMode flags) (lastPreemptionMode s));;;
  ret (setLastPreemptionMode (preemptionMode flags) s).

Definition programComputeMode (flags : DispatchFlags) (changed : CsrSizeRequestFlags) (s : Sent) : W Sent :=
  match family dev with
  | CNLFamily =>
      if coherencyRequestChanged changed then
        emit [MI_LOAD_REGISTER_IMM 0xE5F0 (dwordBuild 4 true (negb (requiresCoherency flags)) 0)];;;
        ret (setLastSentCoherencyRequest (Z.b2z (requiresCoherency flags)) s)
      else ret s
  | _ => ret s
  end.

Definition programL3 (changed : CsrSizeRequestFlags) (newL3Config : Z) (s : Sent) : W Sent :=
  if l3ConfigChanged changed && isPreambleSent s then
    emit [PIPE_CONTROL (addClearSLMWorkAround (setDcFlushEnable true addPipeControlCmd))];;;
    emit (Preamble.programL3 newL3Config);;;
    ret (setLastSentL3Config newL3Config s)
  else ret s.

Definition programPipelineSelect (flags : DispatchFlags) (changed : CsrSizeRequestFlags) (s : Sent) : W Sent :=
  if mediaSamplerConfigChanged changed || negb (isPreambleSent s) then
    emit (Preamble.programPipelineSelect (family dev) (mediaSamplerRequired flags));;;
    ret (setLastMediaSamplerConfig (Z.b2z (mediaSamplerRequired flags)) s)
  else ret s.

Definition programPreamble (newL3Config : Z) (r : Requests) (s : Sent) : W Sent :=
  if isPreambleSent s then ret s
  else
    lift (Preamble.programPreamble dev newL3Config (requiredThreadArbitrationPolicy r));;;
    ret (setLastSentThreadArbitrationPolicy (requiredThreadArbitrationPolicy r) (setLastSentL3Config newL3Config (setIsPreambleSent true s))).

Definition programThreadArbitrationIfChanged (r : Requests) (s : Sent) : W Sent :=
  if decide (lastSentThreadArbitrationPolicy s <> requiredThreadArbitrationPolicy r) then
    lift (programThreadArbitration (family dev) (requiredThreadArbitrationPolicy r));;;
    ret (setLastSentThreadArbitrationPolicy (requiredThreadArbitrationPolicy r) s)
  else ret s.

Definition force32 : bool := bool_decide (is_Some (force32BitAllocations dev)).
Definition scratchSpaceOffsetFor64bit : Z := 4096.
Definition getScratchPatchAddress (k : Scratch) : Z :=
  match scratchAllocation k with
  | None => 0
  | Some (_, gpuAddressToPatch) => if force32 then gpuAddressToPatch else scratchSpaceOffsetFor64bit
  end.
Definition programVFEState (k : Scratch) (s : Sent) : W Sent :=
  if mediaVfeStateDirty s then
    emit (Preamble.programVFEState dev (requiredScratchSize k) (getScratchPatchAddress k));;;
    ret (setMediaVFEStateDirty false s)
  else ret s.

(** [setRequiredScratchSpace]; [allocate] is [createScratchSpaceAllocation].
    Gives the flags for the base addresses and for the media state. *)
Definition setRequiredScratchSpace (allocate : Z -> option (Z * Z)) (k : Scratch) : option (Scratch * bool * bool) :=
  let requiredScratchSizeInBytes := w32 (requiredScratchSize k * computeUnitsUsedForScratch dev) in
  if negb (bool_decide (requiredScratchSizeInBytes = 0)) && (bool_decide (scratchAllocation k = None) || bool_decide (scratchSizeBytes k < requiredScratchSizeInBytes)) then
    a ← allocate requiredScratchSizeInBytes;
    Some (mkScratch (requiredScratchSize k) (Some a) requiredScratchSizeInBytes, negb force32, true)
  else Some (k, false, false).
Definition calculateNewGSH (gpuAddress : Z) : Z := w64 (gpuAddress - scratchSpaceOffsetFor64bit).
Definition decanonize (address : Z) : Z := Z.land address 0xFFFFFFFFFFFF.

(** The general state base, and whether it is that of the 32-bit allocator. *)
Definition newGSHbase (flags : DispatchFlags) (k : Scratch) : Z * bool :=
  match scratchAllocation k, force32BitAllocations dev with
  | Some (gpuAddress, _), None => (calculateNewGSH gpuAddress, false)
  | _, Some base => if GSBA32BitRequired flags then (base, true) else (0, false)
  | _, _ => (0, false)
  end.

Definition programStateBaseAddress (dsh ioh ssh : IndirectHeap) (generalStateBase statelessMocsIndex : Z) : option StateBaseAddress :=
  dshBase ← getHeapGpuBase dsh;
  sshBase ← getHeapGpuBase ssh;
  iohBase ← getHeapGpuBase ioh;
  Some (mkStateBaseAddress (decanonize generalStateBase) dshBase (w32 (w64 (heapMaxAvailableSpace dsh + 4095) / 4096))
    iohBase (getHeapSizeInPages ioh) sshBase (internalHeapBaseAddress dev) statelessMocsIndex).
(** Only checks that the command has the address of the allocation. *)
Definition programBindingTableBaseAddress (ssh : IndirectHeap) (sba : StateBaseAddress) : W unit :=
  match graphicsAllocation ssh with
  | Some (gpuAddress, _) => if decide (surfaceStateBaseAddress sba <> gpuAddress) then None else ret tt
  | None => None
  end.

Definition programStateSip (s : Sent) : W Sent :=
  if negb (isStateSipSent s) || isSourceLevelDebuggerActive dev then emit (Preamble.programStateSip dev);;; ret (setIsStateSipSent true s) else ret s.

(** Heaps, caches and the base addresses, lines 288 to 344. *)
Definition programBaseAddresses (flags : DispatchFlags) (dsh ioh ssh : IndirectHeap) (stateBaseAddressDirty : bool) (k : Scratch) (r : Requests) (s : Sent)
    : W (Sent * Requests) :=
  let '(dshDirty, dshS) := updateAndCheck dsh (dshState s) in
  let '(iohDirty, iohS) := updateAndCheck ioh (iohState s) in
  let '(sshDirty, sshS) := updateAndCheck ssh (sshState s) in
  let s := setHeapStates dshS iohS sshS s in
  let isStateBaseAddressDirty := dshDirty || iohDirty || sshDirty || stateBaseAddressDirty in
  let requiredL3Index := if disableL3Cache r then l3CacheOff else l3CacheOn in
  let r := mkRequests (requiredThreadArbitrationPolicy r) false (stallingPipeControlOnNextFlushRequired r) (samplerCacheFlushRequired r) in
  let isStateBaseAddressDirty := isStateBaseAddressDirty || bool_decide (requiredL3Index <> latestSentStatelessMocsConfig s) in
  if isStateBaseAddressDirty || isSourceLevelDebuggerActive dev then
    emit [PIPE_CONTROL (setDcFlushEnable true (setTextureCacheInvalidationEnable true addPipeControlCmd))];;;
    let '(base, GSBA) := newGSHbase flags k in
    match programStateBaseAddress dsh ioh ssh base requiredL3Index with
    | None => None
    | Some sba =>
        emit [STATE_BASE_ADDRESS sba];;;
        (if sshDirty then programBindingTableBaseAddress ssh sba else ret tt);;;
        s <- programStateSip (setGSBAFor32BitProgrammed GSBA s);;
        ret (setLatestSentStatelessMocsConfig requiredL3Index s, r)
    end
  else ret (s, r).

Definition programSamplerCacheFlush (r : Requests) : W Requests :=
  if waSamplerCacheFlushBetweenRedescribedSurfaceReads dev then
    match samplerCacheFlushRequired r with
    | samplerCacheFlushNotRequired => ret r
    | f =>
        emit [PIPE_CONTROL (setTextureCacheInvalidationEnable true addPipeControlCmd)];;;
        ret (mkRequests (requiredThreadArbitrationPolicy r) (disableL3Cache r) (stallingPipeControlOnNextFlushRequired r)
          (match f with samplerCacheFlushBefore => samplerCacheFlushAfter | _ => samplerCacheFlushNotRequired end))
    end
  else ret r.

Definition programCsrDependencies (nodes : list (Z * Z)) : list Cmd :=
  mjoin (map (fun '(compareAddress, dependenciesCountAddress) => [MI_SEMAPHORE_WAIT compareAddress 1; MI_ATOMIC_DECREMENT dependenciesCountAddress]) nodes).
Definition programStall (r : Requests) : W Requests :=
  if stallingPipeControlOnNextFlushRequired r then
    emit [PIPE_CONTROL addPipeControlCmd];;; ret (mkRequests (requiredThreadArbitrationPolicy r) (disableL3Cache r) false (samplerCacheFlushRequired r))
  else ret r.

Definition initProgrammingFlags (s : Sent) : Sent :=
  mkSent false (isStateSipSent s) true false Initial 0 (-1) (-1) (lastSentThreadArbitrationPolicy s) 0 (dshState s) (iohState s) (sshState s).

(** *** Sizes *)

Definition getRequiredCmdSizeForPreamble (r : Requests) (s : Sent) : Z :=
  (if mediaVfeStateDirty s then 24 + 36 else 0) + (if negb (isPreambleSent s) then getAdditionalCommandsSize dev else 0) +
  (if negb (isPreambleSent s) || bool_decide (lastSentThreadArbitrationPolicy s <> requiredThreadArbitrationPolicy r) then getThreadArbitrationCommandsSize (family dev) else 0).
Definition getCmdSizeForPipelineSelect (changed : CsrSizeRequestFlags) (s : Sent) : Z := if mediaSamplerConfigChanged changed || negb (isPreambleSent s) then 4 else 0.
Definition getCmdSizeForL3Config (changed : CsrSizeRequestFlags) (s : Sent) : Z :=
  if negb (isPreambleSent s) then 12 else if l3ConfigChanged changed then 12 + 24 else 0.
Definition getCmdSizeForComputeMode (changed : CsrSizeRequestFlags) : Z :=
  match family dev with CNLFamily => if coherencyRequestChanged changed then 12 else 0 | _ => 0 end.
Definition getRequiredStateBaseAddressSize : Z := sizeOfStateBaseAddress (family dev) + 24.
Definition getRequiredCmdStreamSize (flags : DispatchFlags) (changed : CsrSizeRequestFlags) (r : Requests) (s : Sent) : Z :=
  getRequiredCmdSizeForPreamble r s + getRequiredStateBaseAddressSize +
  (if negb (isStateSipSent s) || isSourceLevelDebuggerActive dev then getRequiredStateSipCmdSize dev else 0) +
  getRequiredPipeControlSize + 12 + getCmdSizeForL3Config changed s + getCmdSizeForComputeMode changed + getCmdSizeForPipelineSelect changed s +
  preemptionCmdStreamSize (preemptionMode flags) (lastPreemptionMode s) +
  (if waSamplerCacheFlushBetweenRedescribedSurfaceReads dev then match samplerCacheFlushRequired r with samplerCacheFlushNotRequired => 0 | _ => 24 end else 0) +
  Z.of_nat (length (csrDependencies flags)) * (16 + 44) + (if stallingPipeControlOnNextFlushRequired r then 24 else 0).
Definition getRequiredCmdStreamSizeAligned (flags : DispatchFlags) (changed : CsrSizeRequestFlags) (r : Requests) (s : Sent) : Z :=
  alignUp 64 (getRequiredCmdStreamSize flags changed r s) cacheLineSize.

(** [newBuffer] is the address of the allocation that is obtained. *)
Definition ensureCommandBufferAllocation (newBuffer minimumRequiredSize additionalAllocationSize : Z) (s : LinearStream) : LinearStream :=
  if decide (getAvailableSpace s >= minimumRequiredSize) then s
  else
    let allocationSize := alignUp 64 (minimumRequiredSize + additionalAllocationSize) (64 * 1024) in
    replaceBuffer newBuffer (w64 (allocationSize - additionalAllocationSize)).
Definition getCS (newBuffer minRequiredSize : Z) (s : LinearStream) : LinearStream := ensureCommandBufferAllocation newBuffer minRequiredSize (64 + 4096) s.

(** *** The flush *)

(** The end of the task's own commands: the tag write, whether it closes the
    level, and whether a later command buffer may erase it. *)
Definition setDcFlush (v : bool) (f : DispatchFlags) : DispatchFlags :=
  mkFlags (preemptionMode f) (blocking f) v (useSLM f) (guardCommandBufferWithPipeControl f) (GSBA32BitRequired f) (mediaSamplerRequired f)
    (requiresCoherency f) (implicitFlush f) (outOfOrderExecutionAllowed f) (csrDependencies f).
Definition needsEpilogue (f : DispatchFlags) : bool := blocking f || dcFlush f || guardCommandBufferWithPipeControl f.
Definition epilogueFlags (f : DispatchFlags) : DispatchFlags :=
  if needsEpilogue f && immediateDispatch dev && guardCommandBufferWithPipeControl f then setDcFlush true f else f.
Definition epilogueCommands (taskCount : Z) (f : DispatchFlags) : list Cmd :=
  if needsEpilogue f then
    addPipeControlWA (dcFlush (epilogueFlags f)) ++
    [PIPE_CONTROL (addDcFlushToPipeControl (dcFlush (epilogueFlags f)) (setImmediateData (tagAddress dev) (w32 (taskCount + 1)) addPipeControlCmd))]
  else [].
Definition levelClosed (f : DispatchFlags) : bool := needsEpilogue f && immediateDispatch dev.
Definition pipeControlMayBeErased (f : DispatchFlags) : bool :=
  needsEpilogue f && (outOfOrderExecutionAllowed f || timestampPacketWriteEnabled dev) && negb (dcFlush (epilogueFlags f)).

Record Task := mkTask {
  flags : DispatchFlags;
  dsh : IndirectHeap; ioh : IndirectHeap; ssh : IndirectHeap;
  requiredTaskLevel : Z;
  (** the stream of the queue and where the task begins *)
  commandStreamTask : LinearStream;
  commandStreamStartTask : Z;
  (** whether the memory budget is exceeded, and what is allocated *)
  overBudget : bool;
  newBuffer : Z;
  allocateScratch : Z -> option (Z * Z) }.

Definition programTaskLevel (t : Task) (level : Z) : W Z :=
  if decide (requiredTaskLevel t > level) then
    (if timestampPacketWriteEnabled dev then ret tt else emit (addPipeControl false));;; ret (requiredTaskLevel t)
  else ret level.

(** What goes to the stream of the receiver before the task. *)
Definition programCsr (t : Task) (changed : CsrSizeRequestFlags) (newL3Config : Z) (stateBaseAddressDirty : bool) (k : Scratch) (level : Z) (r : Requests) (s : Sent)
    : W (Sent * Requests * Z) :=
  emit (programCsrDependencies (csrDependencies (flags t)));;;
  r <- programStall r;;
  s <- programPreemption (flags t) s;;
  s <- programComputeMode (flags t) changed s;;
  s <- programL3 changed newL3Config s;;
  s <- programPipelineSelect (flags t) changed s;;
  s <- programPreamble newL3Config r s;;
  s <- programThreadArbitrationIfChanged r s;;
  let stateBaseAddressDirty := stateBaseAddressDirty || (xorb (GSBAFor32BitProgrammed s) (GSBA32BitRequired (flags t)) && force32) in
  s <- programVFEState k s;;
  sr <- programBaseAddresses (flags t) (dsh t) (ioh t) (ssh t) stateBaseAddressDirty k r s;;
  r <- programSamplerCacheFlush (snd sr);;
  level <- programTaskLevel t level;;
  ret (fst sr, r, level).

(** Ends of batch buffers, chaining and alignment of the two streams. *)
Definition bbEndPaddingSize : Z := if immediateDispatch dev then 0 else 12 - 4.
Definition endBatch (s : LinearStream) : option LinearStream :=
  s ← write (family dev) [MI_BATCH_BUFFER_END] s; s ← emitNoop (family dev) bbEndPaddingSize s; alignToCacheLine (family dev) s.
Definition closeStreams (submitTask submitCSR : bool) (start : Z) (task csr : LinearStream) : option (LinearStream * LinearStream) :=
  if submitTask then
    task ← endBatch task;
    if submitCSR then
      csr ← write (family dev) [MI_BATCH_BUFFER_START (w64 (gpuAddress task + start))] csr;
      csr ← alignToCacheLine (family dev) csr; Some (task, csr)
    else Some (task, csr)
  else if submitCSR then csr ← endBatch csr; Some (task, csr)
  else Some (task, csr).

(** Task level and flushed count after [flushBatchedSubmissions]. *)
Definition flushRecorded (groups : list Z -> nat) (n : Counts) : Counts :=
  match last (recorded n) with
  | Some lastTaskCount => if immediateDispatch dev then n else
      mkCounts (w32 (taskLevel n + Z.of_nat (groups (recorded n)))) (taskCount n) (latestSentTaskCount n) lastTaskCount []
  | None => n
  end.

Record Flushed := mkFlushed {
  csrCommands : list Cmd;
  epilogue : list Cmd;
  submitTask : bool;
  submitCSR : bool;
  (** the completion stamp *)
  stampTaskCount : Z;
  stampTaskLevel : Z }.

(** [setRequiredScratchSpace] as [flushTask] calls it. *)
Definition updateScratch (t : Task) (k : Scratch) : option (Scratch * bool * bool) :=
  if decide (requiredScratchSize k = 0) then Some (k, false, false)
  else '(k, a, b) ← setRequiredScratchSpace (allocateScratch t) k; _ ← scratchAllocation k; Some (k, a, b).

Definition flushTask (groups : list Z -> nat) (t : Task) (c : Csr) : option (Csr * LinearStream * Flushed) :=
  let n := counts c in
  let s := if forceCsrReprogramming dev then initProgrammingFlags (sent c) else sent c in
  task ← write (family dev) (epilogueCommands (taskCount n) (flags t)) (commandStreamTask t);
  let latestSent := if needsEpilogue (flags t) then w32 (taskCount n + 1) else latestSentTaskCount n in
  let newL3Config := getL3Config dev (useSLM (flags t)) in
  let changed := sizeRequestFlags (flags t) newL3Config s in
  '(k, stateBaseAddressDirty, vfeStateDirty) ← updateScratch t (scratch c);
  let s := if vfeStateDirty : bool then setMediaVFEStateDirty true s else s in
  let csr := getCS (newBuffer t) (getRequiredCmdStreamSizeAligned (flags t) changed (requests c) s) (commandStream c) in
  let commandStreamStartCSR := getUsed csr in
  '(l, (s, r, level)) ← programCsr t changed newL3Config stateBaseAddressDirty k (taskLevel n) (requests c) s;
  csr ← write (family dev) l csr;
  let submitTask := negb (bool_decide (commandStreamStartTask t = getUsed task)) in
  let submitCSR := negb (bool_decide (commandStreamStartCSR = getUsed csr)) in
  '(task, csr) ← closeStreams submitTask submitCSR (commandStreamStartTask t) task csr;
  let submissionTaskCount := w32 (taskCount n + 1) in
  let n := mkCounts level (taskCount n) latestSent
             (if (submitCSR || submitTask) && immediateDispatch dev then submissionTaskCount else latestFlushedTaskCount n)
             (if (submitCSR || submitTask) && negb (immediateDispatch dev) then recorded n ++ [submissionTaskCount] else recorded n) in
  let n := if negb (immediateDispatch dev) && (blocking (flags t) || implicitFlush (flags t) || overBudget t) then flushRecorded groups n else n in
  Some (mkCsr s k r (mkCounts (w32 (taskLevel n + Z.b2z (levelClosed (flags t)))) submissionTaskCount (latestSentTaskCount n) (latestFlushedTaskCount n) (recorded n)) csr,
        task, mkFlushed l (epilogueCommands (taskCount (counts c)) (flags t)) submitTask submitCSR submissionTaskCount (taskLevel n)).

End receiver.

Definition newCsr (f : Family) : Csr :=
  mkCsr (mkSent false false true false Initial 0 (-1) (-1) NotPresent unknownMocs (mkHeapState 0 0) (mkHeapState 0 0) (mkHeapState 0 0))
    (mkScratch 0 None 0) (mkRequests (getDefaultThreadArbitrationPolicy f) false false samplerCacheFlushNotRequired)
    (mkCounts 0 0 0 0 []) (replaceBuffer 0 0).

(** ** What the receiver knows of the engine *)

(** The general state base of the last [STATE_BASE_ADDRESS]. *)
Definition sentGSH (dev : Device) (k : Scratch) (s : Sent) : Z :=
  match scratchAllocation k, force32BitAllocations dev with
  | Some (gpuAddress, _), None => calculateNewGSH gpuAddress
  | _, Some base => if GSBAFor32BitProgrammed s then base else 0
  | _, _ => 0
  end.
Definition sentStateBaseAddress (dev : Device) (k : Scratch) (s : Sent) : StateBaseAddress :=
  mkStateBaseAddress (decanonize (sentGSH dev k s)) (gpuBaseAddress (dshState s)) (sizeInPages (dshState s)) (gpuBaseAddress (iohState s)) (sizeInPages (iohState s))
    (gpuBaseAddress (sshState s)) (internalHeapBaseAddress dev) (latestSentStatelessMocsConfig s).
(** The size of scratch space that the allocation was made for. *)
Definition scratchFor (dev : Device) (k : Scratch) (r : Z) : Prop :=
  match scratchAllocation k with None => r = 0 | Some _ => 0 < r /\ scratchSizeBytes k = r * computeUnitsUsedForScratch dev end.

(** [valid]: the base addresses still are those of the scratch allocation. *)
Record Agrees (dev : Device) (valid : bool) (k : Scratch) (s : Sent) (h : Hardware) : Prop := {
  ag_l3 : isPreambleSent s = true -> registers h !! L3CNTLRegisterOffset = Some (lastSentL3Config s);
  ag_arbitration : isPreambleSent s = true -> family dev <> BDWFamily -> registers h !! arbitrationRegister (family dev) = arbitrationData (family dev) (lastSentThreadArbitrationPolicy s);
  ag_csrBase : isPreambleSent s = true -> family dev <> BDWFamily -> getPreemptionMode dev = MidThread -> csrBaseAddress h = preemptionCsrAllocation dev;
  ag_debug : isPreambleSent s = true -> isSourceLevelDebuggerActive dev = true -> registers h !! 0x20ec = Some 0x400040 /\ registers h !! 0xe400 = Some 0x90;
  ag_preemption : lastPreemptionMode s <> Initial -> registers h !! preemptionMmioAddress (family dev) = Some (preemptionRegVal (family dev) (lastPreemptionMode s));
  ag_coherency : lastSentCoherencyRequest s <> -1 -> family dev = CNLFamily -> registers h !! 0xE5F0 = Some (dwordBuild 4 true (negb (bool_decide (lastSentCoherencyRequest s = 1))) 0);
  ag_pipeline : lastMediaSamplerConfig s <> -1 -> pipelineSelect h = Some (match family dev with BDWFamily => (0x3, false) | _ => (0x13, negb (bool_decide (lastMediaSamplerConfig s = 1))) end);
  ag_vfe : mediaVfeStateDirty s = false -> exists r, scratchFor dev k r /\ vfeState h = Some (vfeStateFor dev r (getScratchPatchAddress dev k));
  ag_sip : isStateSipSent s = true -> family dev <> BDWFamily -> getPreemptionMode dev = MidThread \/ isSourceLevelDebuggerActive dev = true -> sip h = Some (sipAddress dev);
  ag_sba : valid = true -> latestSentStatelessMocsConfig s <> unknownMocs -> stateBaseAddress h = Some (sentStateBaseAddress dev k s) }.

(** A piece of [programCsr]: it gives [a], writes at most [n] bytes and takes an
    engine with [P] to one with [Q]. *)
Definition Step {A} (f : Family) (m : W A) (n : Z) (a : A) (P Q : Hardware -> Prop) : Prop :=
  exists l, m = Some (l, a) /\ bytes f l <= n /\ Forall sized l /\ forall h, P h -> Q (execAll l h).

Lemma step_ret {A} f (a : A) (P : Hardware -> Prop) : Step f (ret a) 0 a P P.
Proof. exists []. split_and!; [done|simpl; lia|constructor|done]. Qed.
Lemma step_bind {A B} f (m : W A) (k : A -> W B) n1 n2 a b P Q R : Step f m n1 a P Q -> Step f (k a) n2 b Q R -> Step f (bind m k) (n1 + n2) b P R.
Proof.
  intros (l1 & E1 & B1 & S1 & H1) (l2 & E2 & B2 & S2 & H2). exists (l1 ++ l2). unfold bind. rewrite E1, E2. split; [done|].
  rewrite bytes_app. split; [lia|]. split; [by apply Forall_app|]. intros h Hh. rewrite execAll_app. auto.
Qed.
Lemma step_emit f l (P Q : Hardware -> Prop) : Forall sized l -> (forall h, P h -> Q (execAll l h)) -> Step f (emit l) (bytes f l) tt P Q.
Proof. intros Hs H. exists l. split_and!; [done|lia|done|done]. Qed.
Lemma step_le {A} f (m : W A) n n' a P Q : Step f m n a P Q -> n <= n' -> Step f m n' a P Q.
Proof. intros (l & E & B & S & H) Hn. exists l. split_and!; try done. lia. Qed.

(** Emitting, then giving the state. *)
Lemma step_emit_ret {A} f l (a : A) n P Q : Forall sized l -> bytes f l <= n -> (forall h, P h -> Q (execAll l h)) -> Step f (emit l;;; ret a) n a P Q.
Proof. intros Hs Hn H. exists l. unfold bind, emit, ret. rewrite app_nil_r. by split_and!. Qed.
(** Commands that the engine does not remember. *)
Definition transient (c : Cmd) : bool :=
  match c with
  | PIPE_CONTROL _ | MI_SEMAPHORE_WAIT _ _ | MI_ATOMIC_DECREMENT _ | MI_BATCH_BUFFER_START _ | MI_BATCH_BUFFER_END | MI_NOOP _ => true
  | _ => false
  end.
Lemma execAll_transient l h : forallb transient l = true -> execAll l h = h.
Proof. induction l as [|c l IH]; simpl; [done|]. intros [Hc Hl]%andb_true_iff. destruct c; try done; by apply IH. Qed.

#[local] Arguments dwordBuild : simpl never.
#[local] Arguments preemptionRegVal : simpl never.
#[local] Arguments arbitrationData : simpl never.
#[local] Arguments sentStateBaseAddress : simpl never.
#[local] Arguments vfeStateFor : simpl never.
(** Agreement after a change: each field by its hypothesis, registers by their
    addresses. *)
Ltac agree :=
  let h := fresh "h" in intros h []; constructor; simpl in *; intros;
  repeat match goal with F : family _ = _ |- _ => rewrite F in *; clear F end; simpl in *; unfold L3CNTLRegisterOffset in *;
  repeat match goal with
  | |- context [<[?a := ?b]> ?m !! ?c] => first [rewrite (lookup_insert_eq m a b) | rewrite (lookup_insert_ne m a c b) by discriminate]
  end; try done; auto.

Section steps.
Context (dev : Device) (valid : bool) (k : Scratch).
Notation agrees s := (Agrees dev valid k s).

Lemma programPreemption_step flags s : preemptionMode flags <> Initial ->
  Step (family dev) (programPreemption dev flags s) (preemptionCmdStreamSize (preemptionMode flags) (lastPreemptionMode s))
    (setLastPreemptionMode (preemptionMode flags) s) (agrees s) (agrees (setLastPreemptionMode (preemptionMode flags) s)).
Proof.
  intros Hm. apply step_emit_ret; unfold programCmdStream, preemptionCmdStreamSize.
  - case_decide; by repeat constructor.
  - destruct (decide (lastPreemptionMode s = preemptionMode flags)), (decide (preemptionMode flags = lastPreemptionMode s)); simpl; lia || congruence.
  - case_decide as E; [rewrite <- E; by destruct s|]. simpl. destruct (family dev) eqn:F; agree.
Qed.

Lemma b2z_1 b : bool_decide (Z.b2z b = 1) = b.
Proof. by destruct b. Qed.
Lemma b2z_neg b : Z.b2z b <> -1.
Proof. by destruct b. Qed.
Hint Resolve b2z_neg : core.

Lemma programComputeMode_step flags changed s : coherencyRequestChanged changed = bool_decide (lastSentCoherencyRequest s <> Z.b2z (requiresCoherency flags)) ->
  let s' := setLastSentCoherencyRequest (match family dev with CNLFamily => Z.b2z (requiresCoherency flags) | _ => lastSentCoherencyRequest s end) s in
  Step (family dev) (programComputeMode dev flags changed s) (getCmdSizeForComputeMode dev changed) s' (agrees s) (agrees s').
Proof.
  intros Hc s'. unfold s', programComputeMode, getCmdSizeForComputeMode.
  assert (setLastSentCoherencyRequest (lastSentCoherencyRequest s) s = s) as Hid by (by destruct s).
  destruct (family dev) eqn:F; [rewrite Hid; apply step_ret..|]. rewrite Hc. case_bool_decide as Hb.
  - apply step_emit_ret; [by repeat constructor|done|]. agree. by rewrite b2z_1.
  - rewrite <- Hb, Hid. apply step_ret.
Qed.

Lemma programL3_step changed cfg s : l3ConfigChanged changed = bool_decide (lastSentL3Config s <> cfg) ->
  let s' := setLastSentL3Config (if isPreambleSent s then cfg else lastSentL3Config s) s in
  Step (family dev) (programL3 dev changed cfg s) (if isPreambleSent s then if l3ConfigChanged changed then 12 + 24 else 0 else 0) s' (agrees s) (agrees s').
Proof.
  intros Hc s'. unfold s', programL3. assert (setLastSentL3Config (lastSentL3Config s) s = s) as Hid by (by destruct s).
  destruct (isPreambleSent s) eqn:Hp; rewrite ?andb_true_r, ?andb_false_r; [|rewrite Hid; apply step_ret]. rewrite Hc. case_bool_decide as Hb.
  - exists [PIPE_CONTROL (addClearSLMWorkAround dev (setDcFlushEnable true addPipeControlCmd)); MI_LOAD_REGISTER_IMM L3CNTLRegisterOffset cfg].
    split; [done|]. split; [done|]. split; [by repeat constructor|]. simpl. destruct (family dev) eqn:F; agree.
  - rewrite <- Hb, Hid. apply step_ret.
Qed.

Lemma programPipelineSelect_step flags changed s : mediaSamplerConfigChanged changed = bool_decide (lastMediaSamplerConfig s <> Z.b2z (mediaSamplerRequired flags)) ->
  let s' := setLastMediaSamplerConfig (Z.b2z (mediaSamplerRequired flags)) s in
  Step (family dev) (programPipelineSelect dev flags changed s) (getCmdSizeForPipelineSelect changed s) s' (agrees s) (agrees s').
Proof.
  intros Hc s'. unfold s', programPipelineSelect, getCmdSizeForPipelineSelect. rewrite Hc. case_bool_decide as Hb; [|destruct (isPreambleSent s) eqn:Hp]; simpl.
  2: { rewrite <- Hb. replace (setLastMediaSamplerConfig _ s) with s by (by destruct s). apply step_ret. }
  all: destruct (family dev) eqn:F; (apply step_emit_ret; [by repeat constructor|done|]); agree; by rewrite b2z_1.
Qed.

Lemma programPreamble_step cfg r s : arbitrationOk (family dev) (requiredThreadArbitrationPolicy r) -> preemptionCsrOk dev ->
  let s' := if isPreambleSent s then s else setLastSentThreadArbitrationPolicy (requiredThreadArbitrationPolicy r) (setLastSentL3Config cfg (setIsPreambleSent true s)) in
  Step (family dev) (programPreamble dev cfg r s)
    (if isPreambleSent s then 0 else 12 + getThreadArbitrationCommandsSize (family dev) + getAdditionalCommandsSize dev) s' (agrees s) (agrees s').
Proof.
  intros Ha Hp s'. unfold s', programPreamble. destruct (isPreambleSent s) eqn:Hs; [apply step_ret|].
  destruct (programThreadArbitration_ok _ _ Ha) as (l1 & E1 & B1 & S1 & X1 & Hd). destruct (programCsrBaseAddress_ok dev Hp) as (l2 & E2 & B2 & S2 & X2).
  unfold Preamble.programPreamble, lift. rewrite E1. cbn [mbind option_bind]. rewrite E2. cbn [mbind option_bind].
  apply step_emit_ret.
  - rewrite !Forall_app. split_and!; [by repeat constructor|done|done|]. unfold programKernelDebugging. destruct (isSourceLevelDebuggerActive dev); repeat constructor.
  - rewrite !bytes_app, B1, B2. change (bytes (family dev) (Preamble.programL3 cfg)) with 12.
    assert (bytes (family dev) (if isSourceLevelDebuggerActive dev then programKernelDebugging else []) = getKernelDebuggingCommandsSize (isSourceLevelDebuggerActive dev)) as ->
      by (by destruct (isSourceLevelDebuggerActive dev)).
    unfold getAdditionalCommandsSize, getRequiredPreambleSize. destruct (family dev); lia.
  - intros h [H1 H2 H3 H4 H5 H6 H7 H8 H9 H10]. rewrite !execAll_app, X1, X2.
    destruct (arbitrationData (family dev) (requiredThreadArbitrationPolicy r)) as [d|] eqn:Ed; destruct (family dev) eqn:F; try (destruct (Hd ltac:(done)); congruence).
    all: destruct (decide (getPreemptionMode dev = MidThread)) as [Hm|Hm]; [destruct (Hp Hm) as [a Ha']; rewrite ?Ha'|];
      destruct (isSourceLevelDebuggerActive dev) eqn:Hdbg; simpl; constructor; rewrite ?F, ?Hdbg; simpl; intros; unfold L3CNTLRegisterOffset in *;
      try match goal with H : preemptionCsrAllocation dev = _ |- _ => rewrite H end;
      repeat match goal with
      | |- context [<[?a := ?b]> ?m !! ?c] => first [rewrite (lookup_insert_eq m a b) | rewrite (lookup_insert_ne m a c b) by discriminate]
      end; try done; auto.
Qed.

Lemma programThreadArbitrationIfChanged_step r s : isPreambleSent s = true -> arbitrationOk (family dev) (requiredThreadArbitrationPolicy r) ->
  let s' := setLastSentThreadArbitrationPolicy (requiredThreadArbitrationPolicy r) s in
  Step (family dev) (programThreadArbitrationIfChanged dev r s)
    (if bool_decide (lastSentThreadArbitrationPolicy s <> requiredThreadArbitrationPolicy r) then getThreadArbitrationCommandsSize (family dev) else 0) s' (agrees s) (agrees s').
Proof.
  intros Hp Ha s'. unfold s', programThreadArbitrationIfChanged. case_decide as Hb; case_bool_decide; try done.
  - destruct (programThreadArbitration_ok _ _ Ha) as (l1 & E1 & B1 & S1 & X1 & Hd). unfold lift. rewrite E1. apply step_emit_ret; [done|lia|].
    intros h. rewrite X1. revert h. destruct (arbitrationData (family dev) (requiredThreadArbitrationPolicy r)) as [d|] eqn:Ed; destruct (family dev) eqn:F; try (destruct (Hd ltac:(done)); congruence).
    all: agree; congruence.
  - assert (lastSentThreadArbitrationPolicy s = requiredThreadArbitrationPolicy r) as <- by (destruct (decide (lastSentThreadArbitrationPolicy s = requiredThreadArbitrationPolicy r)); [done|by destruct Hb]).
    replace (setLastSentThreadArbitrationPolicy _ s) with s by (by destruct s). apply step_ret.
Qed.

Lemma programVFEState_step s : scratchFor dev k (requiredScratchSize k) ->
  let s' := setMediaVFEStateDirty false s in
  Step (family dev) (programVFEState dev k s) (if mediaVfeStateDirty s then 24 + 36 else 0) s' (agrees s) (agrees s').
Proof.
  intros Hk s'. unfold s', programVFEState. destruct (mediaVfeStateDirty s) eqn:Hd.
  2: { replace (setMediaVFEStateDirty false s) with s by (clear - Hd; destruct s; simpl in Hd; by subst). apply step_ret. }
  assert (forallb transient (addPipeControlBeforeVfeCmd dev) = true /\ Forall sized (addPipeControlBeforeVfeCmd dev) /\ bytes (family dev) (addPipeControlBeforeVfeCmd dev) = 24) as (H1 & H2 & H3).
  { unfold addPipeControlBeforeVfeCmd. destruct (family dev), (waSendMIFLUSHBeforeVFE dev); split_and!; try done; repeat constructor. }
  apply step_emit_ret; unfold Preamble.programVFEState.
  - apply Forall_app. split; [done|by repeat constructor].
  - rewrite bytes_app, H3. simpl. lia.
  - intros h. rewrite execAll_app, (execAll_transient (addPipeControlBeforeVfeCmd dev)) by done. revert h. simpl. agree. eauto.
Qed.

(** Commands without a trace in the engine, for any continuation. *)
Lemma transient_step {A} f l (a : A) n P : forallb transient l = true -> Forall sized l -> bytes f l <= n -> Step f (emit l;;; ret a) n a P P.
Proof. intros Ht Hs Hn. apply step_emit_ret; [done..|]. intros h. by rewrite execAll_transient. Qed.

Lemma programCsrDependencies_spec f nodes :
  forallb transient (programCsrDependencies nodes) = true /\ Forall sized (programCsrDependencies nodes) /\
  bytes f (programCsrDependencies nodes) = Z.of_nat (length nodes) * (16 + 44).
Proof.
  induction nodes as [|[a b] l (H1 & H2 & H3)]; [done|]. unfold programCsrDependencies in *. simpl. split_and!; [done|by repeat constructor|lia].
Qed.

Lemma addPipeControl_spec flushDC : forallb transient (addPipeControl dev flushDC) = true /\ Forall sized (addPipeControl dev flushDC) /\
  bytes (family dev) (addPipeControl dev flushDC) = getRequiredPipeControlSize dev /\ existsb stalls (addPipeControl dev flushDC) = true.
Proof. unfold addPipeControl, addPipeControlWA, addDcFlushToPipeControl, getRequiredPipeControlSize. destruct (family dev); split_and!; try done; repeat constructor. Qed.

Lemma programStall_step r P : let r' := mkRequests (requiredThreadArbitrationPolicy r) (disableL3Cache r) false (samplerCacheFlushRequired r) in
  Step (family dev) (programStall r) (if stallingPipeControlOnNextFlushRequired r then 24 else 0) r' P P.
Proof.
  intros r'. unfold r', programStall. destruct (stallingPipeControlOnNextFlushRequired r) eqn:E; [by apply transient_step; [|repeat constructor|]|].
  replace (mkRequests _ _ _ _) with r by (clear - E; destruct r; simpl in E; by subst). apply step_ret.
Qed.

Definition nextSamplerFlush (f : SamplerCacheFlushState) : SamplerCacheFlushState :=
  if waSamplerCacheFlushBetweenRedescribedSurfaceReads dev then match f with samplerCacheFlushBefore => samplerCacheFlushAfter | _ => samplerCacheFlushNotRequired end else f.
Lemma programSamplerCacheFlush_step r P :
  let r' := mkRequests (requiredThreadArbitrationPolicy r) (disableL3Cache r) (stallingPipeControlOnNextFlushRequired r) (nextSamplerFlush (samplerCacheFlushRequired r)) in
  Step (family dev) (programSamplerCacheFlush dev r)
    (if waSamplerCacheFlushBetweenRedescribedSurfaceReads dev then match samplerCacheFlushRequired r with samplerCacheFlushNotRequired => 0 | _ => 24 end else 0) r' P P.
Proof.
  intros r'. unfold r', programSamplerCacheFlush, nextSamplerFlush.
  assert (mkRequests (requiredThreadArbitrationPolicy r) (disableL3Cache r) (stallingPipeControlOnNextFlushRequired r) (samplerCacheFlushRequired r) = r) as Hid by (by destruct r).
  destruct (waSamplerCacheFlushBetweenRedescribedSurfaceReads dev); [|rewrite Hid; apply step_ret].
  destruct (samplerCacheFlushRequired r) eqn:Hd; [rewrite Hid; apply step_ret|..]; (apply transient_step; [done|repeat constructor|done]).
Qed.

Lemma programTaskLevel_step t level P : Step (family dev) (programTaskLevel dev t level) (getRequiredPipeControlSize dev) (Z.max level (requiredTaskLevel t)) P P.
Proof.
  assert (0 <= getRequiredPipeControlSize dev) as Hn by (unfold getRequiredPipeControlSize; by destruct (family dev)).
  unfold programTaskLevel. case_decide as Hl.
  - replace (Z.max level (requiredTaskLevel t)) with (requiredTaskLevel t) by lia. destruct (timestampPacketWriteEnabled dev).
    + eapply step_le; [|exact Hn]. apply (step_ret (family dev) (requiredTaskLevel t)).
    + destruct (addPipeControl_spec false) as (H1 & H2 & H3 & _). apply transient_step; [done|done|lia].
  - replace (Z.max level (requiredTaskLevel t)) with level by lia. eapply step_le; [apply step_ret|done].
Qed.
End steps.

(** *** Base addresses *)

#[export] Instance HeapDirtyState_eq_dec : EqDecision HeapDirtyState. Proof. solve_decision. Defined.

Definition heapStateOf (h : IndirectHeap) : HeapDirtyState := mkHeapState (default 0 (getHeapGpuBase h)) (getHeapSizeInPages h).
Lemma updateAndCheck_spec h s : is_Some (graphicsAllocation h) -> updateAndCheck h s = (bool_decide (s <> heapStateOf h), heapStateOf h).
Proof.
  intros [[a b] E]. unfold updateAndCheck, heapStateOf, getHeapGpuBase. rewrite E. simpl. destruct s as [g p]; simpl.
  set (base := if canBeUtilizedAs4GbHeap h then b else a).
  assert (bool_decide (g <> base) || bool_decide (p <> getHeapSizeInPages h) = bool_decide (mkHeapState g p <> mkHeapState base (getHeapSizeInPages h))) as ->.
  { rewrite <- bool_decide_or. apply bool_decide_ext. split; [intros [H|H] [=]; done|]. intros H.
    destruct (decide (g = base)) as [->|]; [right|by left]. by intros ->. }
  case_bool_decide as H; [done|]. by rewrite H.
Qed.

Lemma base_some h : is_Some (graphicsAllocation h) -> exists a, getHeapGpuBase h = Some a.
Proof. intros [[a b] E]. unfold getHeapGpuBase. rewrite E. simpl. eauto. Qed.

(** Heaps as their callers pass them: only the indirect object heap is the 4 GB
    heap, and sizes are far from 4 GB. *)
Record heaps_ok (t : Task) : Prop := {
  hp_dsh : is_Some (graphicsAllocation (dsh t)) /\ canBeUtilizedAs4GbHeap (dsh t) = false /\ 0 <= heapMaxAvailableSpace (dsh t) < 2 ^ 32 - 4096;
  hp_ioh : is_Some (graphicsAllocation (ioh t));
  hp_ssh : is_Some (graphicsAllocation (ssh t)) /\ canBeUtilizedAs4GbHeap (ssh t) = false }.

Lemma dsh_pages t : heaps_ok t -> w32 (w64 (heapMaxAvailableSpace (dsh t) + 4095) / 4096) = getHeapSizeInPages (dsh t).
Proof. intros [(_ & H4 & Hs) _ _]. unfold getHeapSizeInPages. rewrite H4. unwrap. done. Qed.

Section base.
Context (dev : Device) (l3CacheOn l3CacheOff : Z) (k : Scratch).

Definition mocsIndex (r : Requests) : Z := if disableL3Cache r then l3CacheOff else l3CacheOn.
Record sent_ok (s : Sent) : Prop := {
  sk_sip : latestSentStatelessMocsConfig s <> unknownMocs -> isStateSipSent s = true;
  sk_gsba : force32 dev = false -> GSBAFor32BitProgrammed s = false }.

Definition afterBaseAddresses (t : Task) (r : Requests) (s : Sent) : Sent :=
  setLatestSentStatelessMocsConfig (mocsIndex r) (setGSBAFor32BitProgrammed (snd (newGSHbase dev (flags t) k)) (setIsStateSipSent true (setHeapStates (heapStateOf (dsh t)) (heapStateOf (ioh t)) (heapStateOf (ssh t)) s))).

Lemma newGSHbase_sent t r s : fst (newGSHbase dev (flags t) k) = sentGSH dev k (afterBaseAddresses t r s).
Proof. unfold newGSHbase, sentGSH. simpl. unfold newGSHbase. destruct (scratchAllocation k) as [[? ?]|], (force32BitAllocations dev); try done; by destruct (GSBA32BitRequired (flags t)). Qed.

Lemma newGSHbase_gsba t : snd (newGSHbase dev (flags t) k) = force32 dev && GSBA32BitRequired (flags t).
Proof. unfold newGSHbase, force32. destruct (scratchAllocation k) as [[? ?]|], (force32BitAllocations dev); simpl; try done; by destruct (GSBA32BitRequired (flags t)). Qed.

Lemma programStateBaseAddress_sent t r s : heaps_ok t ->
  programStateBaseAddress dev (dsh t) (ioh t) (ssh t) (fst (newGSHbase dev (flags t) k)) (mocsIndex r) = Some (sentStateBaseAddress dev k (afterBaseAddresses t r s)).
Proof.
  intros Ht. pose proof Ht as [(Hd & _) Hi [Hs _]]. unfold programStateBaseAddress, sentStateBaseAddress.
  rewrite (newGSHbase_sent t r s), (dsh_pages t Ht). destruct (base_some _ Hd) as [a Ea], (base_some _ Hi) as [b Eb], (base_some _ Hs) as [c Ec].
  rewrite Ea, Eb, Ec. cbn [mbind option_bind]. unfold afterBaseAddresses, heapStateOf. simpl. by rewrite Ea, Eb, Ec.
Qed.

Lemma binding_check t sba : heaps_ok t -> surfaceStateBaseAddress sba = default 0 (getHeapGpuBase (ssh t)) -> programBindingTableBaseAddress (ssh t) sba = ret tt.
Proof. intros [_ _ [[[a b] E] H4]]. unfold programBindingTableBaseAddress, getHeapGpuBase. rewrite E, H4. simpl. intros ->. by rewrite decide_False by (by intros []). Qed.

Lemma programBaseAddresses_step t dirty r s : heaps_ok t -> sent_ok s -> mocsIndex r <> unknownMocs ->
  (dirty = false -> force32 dev = true -> GSBAFor32BitProgrammed s = GSBA32BitRequired (flags t)) ->
  Step (family dev) (programBaseAddresses dev l3CacheOn l3CacheOff (flags t) (dsh t) (ioh t) (ssh t) dirty k r s)
    (sizeOfStateBaseAddress (family dev) + 24 + (if negb (isStateSipSent s) || isSourceLevelDebuggerActive dev then getRequiredStateSipCmdSize dev else 0))
    (afterBaseAddresses t r s, mkRequests (requiredThreadArbitrationPolicy r) false (stallingPipeControlOnNextFlushRequired r) (samplerCacheFlushRequired r))
    (Agrees dev (negb dirty) k s) (Agrees dev true k (afterBaseAddresses t r s)).
Proof.
  intros Ht Hs Hm Hg. pose proof Ht as [(Hd & _) Hi [Hss _]]. unfold programBaseAddresses.
  rewrite (updateAndCheck_spec (dsh t)), (updateAndCheck_spec (ioh t)), (updateAndCheck_spec (ssh t)) by done. cbv zeta. fold (mocsIndex r).
  set (r' := mkRequests _ _ _ _). set (s1 := setHeapStates _ _ _ s).
  assert (0 <= getRequiredStateSipCmdSize dev) as Hn by (unfold getRequiredStateSipCmdSize; destruct (family dev); [done|case_match; done..]).
  assert (0 <= sizeOfStateBaseAddress (family dev)) as Hn2 by (by destruct (family dev)).
  match goal with |- Step _ (if ?b then _ else _) _ _ _ _ => destruct b eqn:Hb end.
  - (* programmed *)
    pose proof (programStateBaseAddress_sent t r s Ht) as Esba. destruct (newGSHbase dev (flags t) k) as [base gs] eqn:Eg. simpl in Esba. rewrite Esba.
    set (sba := sentStateBaseAddress dev k (afterBaseAddresses t r s)) in *.
    assert ((if bool_decide (sshState s <> heapStateOf (ssh t)) then programBindingTableBaseAddress (ssh t) sba else ret tt) = ret tt) as ->
      by (destruct (bool_decide (sshState s <> heapStateOf (ssh t))); [by apply binding_check|done]).
    assert (afterBaseAddresses t r s = setLatestSentStatelessMocsConfig (mocsIndex r) (setIsStateSipSent true (setGSBAFor32BitProgrammed gs s1))) as Ea by (unfold afterBaseAddresses; by rewrite Eg).
    set (sip := if negb (isStateSipSent s) || isSourceLevelDebuggerActive dev then Preamble.programStateSip dev else []).
    assert (programStateSip dev (setGSBAFor32BitProgrammed gs s1) = Some (sip, setIsStateSipSent true (setGSBAFor32BitProgrammed gs s1))) as Esip.
    { unfold programStateSip, sip. simpl. destruct (negb (isStateSipSent s) || isSourceLevelDebuggerActive dev) eqn:Hsip; [unfold bind, emit, ret; by rewrite app_nil_r|].
      apply orb_false_iff in Hsip as [Hsip _]. apply negb_false_iff in Hsip. unfold ret. do 2 f_equal. unfold s1. destruct s; simpl in *. by subst. }
    exists ([PIPE_CONTROL (setDcFlushEnable true (setTextureCacheInvalidationEnable true addPipeControlCmd)); STATE_BASE_ADDRESS sba] ++ sip).
    split; [unfold bind, emit, ret; rewrite Esip; rewrite Ea; by rewrite ?app_nil_r|]. rewrite bytes_app.
    assert (bytes (family dev) sip = if negb (isStateSipSent s) || isSourceLevelDebuggerActive dev then getRequiredStateSipCmdSize dev else 0) as Hsize.
    { unfold sip. case_match; [|done]. unfold Preamble.programStateSip, getRequiredStateSipCmdSize. destruct (family dev); [done|case_match; done..]. }
    split; [rewrite Hsize; simpl; lia|]. split; [apply Forall_app; split; [by repeat constructor|unfold sip, Preamble.programStateSip; repeat case_match; by repeat constructor]|].
    intros h [H1 H2 H3 H4 H5 H6 H7 H8 H9 H10]. rewrite execAll_app.
    assert (forall x, registers (execAll sip x) = registers x /\ csrBaseAddress (execAll sip x) = csrBaseAddress x /\ pipelineSelect (execAll sip x) = pipelineSelect x /\ vfeState (execAll sip x) = vfeState x /\
      stateBaseAddress (execAll sip x) = stateBaseAddress x /\ HwCommands.sip (execAll sip x) = (if bool_decide (sip = []) then HwCommands.sip x else Some (sipAddress dev))) as Hx.
    { intros x. unfold sip, Preamble.programStateSip. repeat case_match; done. }
    match goal with |- Agrees _ _ _ _ (execAll sip ?y) => destruct (Hx y) as (X1 & X2 & X3 & X4 & X5 & X6) end.
    constructor; rewrite ?X1, ?X2, ?X3, ?X4, ?X5, ?X6; simpl; auto.
    intros _ Hf Hmode. case_bool_decide as Hnil; [|done]. unfold sip, Preamble.programStateSip in Hnil.
    destruct (isStateSipSent s) eqn:Esent; simpl in Hnil; [by apply H9|]. exfalso.
    destruct (family dev); [done|..]; (destruct Hmode as [Hmode|Hmode]; [rewrite bool_decide_eq_true_2 in Hnil by done|rewrite Hmode, orb_true_r in Hnil]; done).
  - (* nothing changed *)
    apply orb_false_iff in Hb as [Hb Hdbg]. apply orb_false_iff in Hb as [Hb Hmocs]. rewrite !orb_false_iff in Hb. destruct Hb as (((E1 & E2) & E3) & ->).
    apply bool_decide_eq_false, dec_stable in E1, E2, E3, Hmocs. simpl in Hmocs.
    assert (s1 = s) as Es1 by (unfold s1; rewrite <- E1, <- E2, <- E3; by destruct s).
    assert (afterBaseAddresses t r s = s) as ->.
    { destruct Hs as [Hsip Hgsba]. unfold afterBaseAddresses. fold s1. rewrite Es1, newGSHbase_gsba, Hmocs.
      assert (isStateSipSent s = true) as Esip by (apply Hsip; by rewrite <- Hmocs).
      assert (force32 dev && GSBA32BitRequired (flags t) = GSBAFor32BitProgrammed s) as -> by (destruct (force32 dev); simpl; [symmetry; by apply Hg|by rewrite Hgsba]).
      clear - Esip. destruct s; simpl in *. by subst. }
    rewrite Es1. eapply step_le; [apply step_ret|]. case_match; lia.
Qed.

Lemma programBaseAddresses_to t dirty r s s' : heaps_ok t -> sent_ok s -> mocsIndex r <> unknownMocs ->
  (dirty = false -> force32 dev = true -> GSBAFor32BitProgrammed s = GSBA32BitRequired (flags t)) -> afterBaseAddresses t r s = s' ->
  Step (family dev) (programBaseAddresses dev l3CacheOn l3CacheOff (flags t) (dsh t) (ioh t) (ssh t) dirty k r s)
    (sizeOfStateBaseAddress (family dev) + 24 + (if negb (isStateSipSent s) || isSourceLevelDebuggerActive dev then getRequiredStateSipCmdSize dev else 0))
    (s', mkRequests (requiredThreadArbitrationPolicy r) false (stallingPipeControlOnNextFlushRequired r) (samplerCacheFlushRequired r))
    (Agrees dev (negb dirty) k s) (Agrees dev true k s').
Proof. intros ? ? ? ? <-. by apply programBaseAddresses_step. Qed.
End base.

(** *** The commands before a task *)

Section csr.
Context (dev : Device) (l3CacheOn l3CacheOff : Z).

Lemma sent_ext s s' : isPreambleSent s = isPreambleSent s' -> isStateSipSent s = isStateSipSent s' -> mediaVfeStateDirty s = mediaVfeStateDirty s' ->
  GSBAFor32BitProgrammed s = GSBAFor32BitProgrammed s' -> lastPreemptionMode s = lastPreemptionMode s' -> lastSentL3Config s = lastSentL3Config s' ->
  lastSentCoherencyRequest s = lastSentCoherencyRequest s' -> lastMediaSamplerConfig s = lastMediaSamplerConfig s' ->
  lastSentThreadArbitrationPolicy s = lastSentThreadArbitrationPolicy s' -> latestSentStatelessMocsConfig s = latestSentStatelessMocsConfig s' ->
  dshState s = dshState s' -> iohState s = iohState s' -> sshState s = sshState s' -> s = s'.
Proof. destruct s, s'. simpl. by intros -> -> -> -> -> -> -> -> -> -> -> -> ->. Qed.

(** The receiver after a flush. *)
Definition configured (k : Scratch) (t : Task) (r : Requests) (s : Sent) : Sent :=
  mkSent true true false (snd (newGSHbase dev (flags t) k)) (preemptionMode (flags t)) (getL3Config dev (useSLM (flags t)))
    (match family dev with CNLFamily => Z.b2z (requiresCoherency (flags t)) | _ => lastSentCoherencyRequest s end) (Z.b2z (mediaSamplerRequired (flags t)))
    (requiredThreadArbitrationPolicy r) (mocsIndex l3CacheOn l3CacheOff r) (heapStateOf (dsh t)) (heapStateOf (ioh t)) (heapStateOf (ssh t)).
Definition answered (r : Requests) : Requests := mkRequests (requiredThreadArbitrationPolicy r) false false (nextSamplerFlush dev (samplerCacheFlushRequired r)).

Record task_ok (t : Task) (k : Scratch) (r : Requests) : Prop := {
  tk_heaps : heaps_ok t;
  tk_mode : preemptionMode (flags t) <> Initial;
  tk_arbitration : arbitrationOk (family dev) (requiredThreadArbitrationPolicy r);
  tk_csrBase : preemptionCsrOk dev;
  tk_mocs : l3CacheOn <> unknownMocs /\ l3CacheOff <> unknownMocs;
  tk_scratch : scratchFor dev k (requiredScratchSize k) }.

Lemma mocsIndex_known r : l3CacheOn <> unknownMocs /\ l3CacheOff <> unknownMocs -> mocsIndex l3CacheOn l3CacheOff r <> unknownMocs.
Proof. intros []. unfold mocsIndex. by destruct (disableL3Cache r). Qed.

Definition basesDirty (t : Task) (dirty : bool) (s : Sent) : bool := dirty || (xorb (GSBAFor32BitProgrammed s) (GSBA32BitRequired (flags t)) && force32 dev).

Lemma programCsr_step t k r s dirty level : task_ok t k r -> sent_ok dev s ->
  let cfg := getL3Config dev (useSLM (flags t)) in
  let changed := sizeRequestFlags (flags t) cfg s in
  Step (family dev) (programCsr dev l3CacheOn l3CacheOff t changed cfg dirty k level r s) (getRequiredCmdStreamSize dev (flags t) changed r s - 12)
    (configured k t r s, answered r, Z.max level (requiredTaskLevel t)) (Agrees dev (negb (basesDirty t dirty s)) k s) (Agrees dev true k (configured k t r s)).
Proof.
  intros [Hh Hm Ha Hp Hi Hk] [Hs1 Hs2] cfg changed. set (valid := negb (basesDirty t dirty s)).
  destruct (programCsrDependencies_spec (family dev) (csrDependencies (flags t))) as (D1 & D2 & D3).
  eapply step_le.
  - unfold programCsr.
    eapply step_bind. { apply step_emit; [done|]. intros h H. rewrite execAll_transient by done. exact H. }
    eapply step_bind. { apply programStall_step. }
    eapply step_bind. { by apply programPreemption_step. }
    eapply step_bind. { by apply programComputeMode_step. }
    eapply step_bind. { by apply programL3_step. }
    eapply step_bind. { by apply programPipelineSelect_step. }
    eapply step_bind. { by apply programPreamble_step. }
    eapply step_bind. { apply programThreadArbitrationIfChanged_step; [|done]. simpl. by destruct (isPreambleSent s) eqn:E. }
    cbv zeta. eapply step_bind. { by apply programVFEState_step. }
    eapply step_bind.
    { match goal with |- Step _ (programBaseAddresses _ _ _ _ _ _ _ ?d _ _ _) _ _ _ _ => assert (d = basesDirty t dirty s) as -> end.
      { unfold basesDirty. do 3 f_equal. simpl. by destruct (isPreambleSent s). }
      apply (programBaseAddresses_to _ _ _ _ _ _ _ _ (configured k t r s)); [done| |by apply mocsIndex_known| |].
      - split; simpl; destruct (isPreambleSent s); simpl; auto.
      - unfold basesDirty. intros Hd Hf. apply orb_false_iff in Hd as [_ Hd]. rewrite Hf, andb_true_r in Hd. simpl.
        destruct (isPreambleSent s); simpl; by destruct (GSBAFor32BitProgrammed s), (GSBA32BitRequired (flags t)).
      - destruct (isPreambleSent s) eqn:E; apply sent_ext; simpl; rewrite ?E; simpl; first [exact E|reflexivity]. }
    eapply step_bind. { apply programSamplerCacheFlush_step. }
    eapply step_bind. { apply programTaskLevel_step. }
    apply step_ret.
  - rewrite D3. unfold getRequiredCmdStreamSize, getRequiredCmdSizeForPreamble, getRequiredStateBaseAddressSize, getCmdSizeForL3Config, getCmdSizeForPipelineSelect. simpl.
    destruct (isPreambleSent s) eqn:E; simpl; rewrite ?E; simpl.
    + destruct (family dev); simpl; lia.
    + rewrite (bool_decide_eq_false_2 (requiredThreadArbitrationPolicy r <> requiredThreadArbitrationPolicy r)) by (by intros []). destruct (family dev); simpl; lia.
Qed.

(** *** Scratch space *)

(** The allocation is for a size that was required at some time. *)
Definition scratch_ok (k : Scratch) : Prop := exists r, 0 <= r <= requiredScratchSize k /\ scratchFor dev k r.

Lemma updateScratch_spec t k : scratch_ok k -> 0 < computeUnitsUsedForScratch dev -> requiredScratchSize k * computeUnitsUsedForScratch dev < 2 ^ 32 ->
  (forall n, is_Some (allocateScratch t n)) ->
  exists k' vfe, updateScratch dev t k = Some (k', vfe && negb (force32 dev), vfe) /\ requiredScratchSize k' = requiredScratchSize k /\
    scratchFor dev k' (requiredScratchSize k') /\ (vfe = false -> k' = k).
Proof.
  intros (r & Hr & Hk) Hu Hb Ha. unfold updateScratch. case_decide as Hz.
  { exists k, false. split_and!; try done. unfold scratchFor in *. rewrite Hz. destruct (scratchAllocation k); [lia|done]. }
  unfold setRequiredScratchSpace. rewrite (wrap_small 32) by word_lia. set (n := requiredScratchSize k * computeUnitsUsedForScratch dev) in *.
  rewrite (bool_decide_eq_false_2 (n = 0)) by nia. simpl. destruct (Ha n) as [a Ea]. rewrite Ea. unfold scratchFor in *.
  destruct (scratchAllocation k) as [b|] eqn:Es.
  - rewrite (bool_decide_eq_false_2 (Some b = None)) by done. simpl. case_bool_decide as Hlt.
    + eexists _, true. simpl. split_and!; try done; simpl; lia.
    + exists k, false. simpl. rewrite Es. simpl. destruct Hk as [H0 H1]. split_and!; try done; [lia|]. rewrite H1 in *. unfold n in *. nia.
  - eexists _, true. simpl. split_and!; try done; simpl; lia.
Qed.

(** The dirty flags that the flush derives from a new scratch allocation. *)
Lemma agrees_scratch k k' vfe s h : (vfe = false -> k' = k) -> Agrees dev true k s h ->
  Agrees dev (negb (vfe && negb (force32 dev))) k' (if vfe then setMediaVFEStateDirty true s else s) h.
Proof.
  intros Hk H. destruct vfe; [|by rewrite (Hk eq_refl)]. destruct H as [H1 H2 H3 H4 H5 H6 H7 H8 H9 H10]. constructor; simpl; try done.
  intros Hf Hm. rewrite H10 by done. unfold sentStateBaseAddress, sentGSH. simpl. unfold force32 in Hf. destruct (force32BitAllocations dev); [|done].
  by destruct (scratchAllocation k) as [[]|], (scratchAllocation k') as [[]|].
Qed.

Lemma agrees_valid k s h (v : bool) : Agrees dev true k s h -> Agrees dev v k s h.
Proof. intros []; constructor; auto. Qed.
Lemma agrees_weaken k s h (v v' : bool) : (v' = true -> v = true) -> Agrees dev v k s h -> Agrees dev v' k s h.
Proof. intros Hv []; constructor; auto. Qed.

Lemma agrees_init k s h (v : bool) : Agrees dev v k s h -> Agrees dev v k (initProgrammingFlags s) h.
Proof. intros []; constructor; simpl; intros; try done; auto. Qed.
Lemma sent_ok_init s : sent_ok dev (initProgrammingFlags s).
Proof. by split. Qed.

(** *** Streams *)

Definition csr_stream_ok (s : LinearStream) : Prop := stream_ok s /\ sizeUsed s mod 64 = 0.

Lemma alignToCacheLine_spec s n : stream_ok s -> sizeUsed s <= n <= maxAvailableSpace s -> n mod 64 = 0 ->
  exists s', alignToCacheLine (family dev) s = Some s' /\ csr_stream_ok s' /\ sizeUsed s <= sizeUsed s' < sizeUsed s + 64 /\ sizeUsed s' <= n /\
    gpuAddress s' = gpuAddress s /\ maxAvailableSpace s' = maxAvailableSpace s.
Proof.
  intros Hs Hn Hm. pose proof Hs as [Hu Hx]. unfold alignToCacheLine, getUsed. change (cacheLineSize - 1) with (Z.ones 6).
  rewrite Z.land_ones by done. change (2 ^ 6) with 64. unfold cacheLineSize. case_decide as Hp; [exists s; repeat split; try done; lia|].
  assert (sizeUsed s + (64 - sizeUsed s mod 64) <= n /\ (sizeUsed s + (64 - sizeUsed s mod 64)) mod 64 = 0) as [H1 H2] by (Z.div_mod_to_equations; lia).
  pose proof (Z.mod_pos_bound (sizeUsed s) 64).
  unfold getSpace. simpl. unwrap. rewrite decide_False by lia. eexists. split; [done|]. repeat split; simpl; try done; lia.
Qed.

Lemma getCS_spec nb n s : csr_stream_ok s -> 0 <= n < 2 ^ 61 ->
  let s' := getCS nb n s in csr_stream_ok s' /\ sizeUsed s' + n <= maxAvailableSpace s' /\ (s' = s \/ sizeUsed s' = 0 /\ commands s' = []).
Proof.
  intros [[Hu Hx] Hm] Hn. unfold getCS, ensureCommandBufferAllocation, getAvailableSpace. unwrap. case_decide as Hd; [split_and!; [done|lia|by left]|].
  destruct (alignUp_spec 64 (n + 4160) 16) as (H1 & H2 & _); [word_lia|lia..|]. change (64 * 1024) with (2 ^ 16). change (64 + 4096) with 4160.
  cbv zeta. unwrap. unfold replaceBuffer. repeat split; simpl; try done; try lia. by right.
Qed.

Lemma write_stream_ok l s s' : stream_ok s -> Forall sized l -> sizeUsed s + bytes (family dev) l <= maxAvailableSpace s ->
  write (family dev) l s = Some s' -> stream_ok s'.
Proof.
  intros Hs Hl Hb. rewrite write_fits by done. intros [= <-]. pose proof (bytes_nonneg (family dev) l Hl). destruct Hs. split; simpl; lia.
Qed.

Lemma endBatch_spec s n : stream_ok s -> sizeUsed s + 12 <= n <= maxAvailableSpace s -> n mod 64 = 0 ->
  exists s', endBatch dev s = Some s' /\ csr_stream_ok s' /\ sizeUsed s <= sizeUsed s' < sizeUsed s + 76 /\ sizeUsed s' <= n /\
    gpuAddress s' = gpuAddress s /\ maxAvailableSpace s' = maxAvailableSpace s.
Proof.
  intros Hs Hn Hm. pose proof Hs as [Hu Hx]. unfold endBatch. rewrite write_fits by (first [done|simpl; lia|by repeat constructor]). cbn [mbind option_bind].
  set (s1 := mkLinearStream _ _ _ _). unfold emitNoop, bbEndPaddingSize. destruct (immediateDispatch dev).
  - rewrite decide_True by done. cbn [mbind option_bind]. destruct (alignToCacheLine_spec s1 n) as (s' & E & H1 & H2 & H3 & H4 & H5); [split; simpl; lia|simpl; lia|done|].
    rewrite E. exists s'. simpl in *. split_and!; try done; lia.
  - rewrite decide_False by done. unfold getSpace. simpl. rewrite (wrap_small 64) by word_lia. rewrite decide_False by lia. cbn [mbind option_bind].
    set (s2 := mkLinearStream _ _ _ _). destruct (alignToCacheLine_spec s2 n) as (s' & E & H1 & H2 & H3 & H4 & H5); [split; simpl; lia|simpl; lia|done|].
    rewrite E. exists s'. simpl in *. split_and!; try done; lia.
Qed.

Lemma closeStreams_spec (submitTask submitCSR : bool) start task csr n : stream_ok task -> sizeUsed task + 12 + 63 <= maxAvailableSpace task ->
  stream_ok csr -> sizeUsed csr + 12 <= n <= maxAvailableSpace csr -> n mod 64 = 0 -> (submitCSR = false -> sizeUsed csr mod 64 = 0) ->
  exists task' csr', closeStreams dev submitTask submitCSR start task csr = Some (task', csr') /\ stream_ok task' /\ csr_stream_ok csr' /\
    sizeUsed task <= sizeUsed task' < sizeUsed task + 76 /\ sizeUsed csr <= sizeUsed csr' <= n /\ maxAvailableSpace csr' = maxAvailableSpace csr.
Proof.
  intros Ht Hst Hc Hn Hm Ha. unfold closeStreams. destruct submitTask.
  - destruct (endBatch_spec task (sizeUsed task + 12 + (64 - (sizeUsed task + 12) mod 64) mod 64)) as (task' & E & [H1 _] & H2 & _ & H3 & _); [done| |Z.div_mod_to_equations; lia|].
    { pose proof (Z.mod_pos_bound (64 - (sizeUsed task + 12) mod 64) 64). lia. }
    rewrite E. cbn [mbind option_bind]. destruct submitCSR; [|exists task', csr; split_and!; try done; try lia; split; auto].
    rewrite write_fits by (first [done|simpl; lia|by repeat constructor]). cbn [mbind option_bind]. set (s1 := mkLinearStream _ _ _ _). destruct Hc as [Hu Hx].
    destruct (alignToCacheLine_spec s1 n) as (s' & E' & H4 & H5 & H6 & _ & H7); [split; simpl; lia|simpl; lia|done|].
    rewrite E'. exists task', s'. simpl in *. split_and!; try done; lia.
  - destruct submitCSR; [|exists task, csr; split_and!; try done; try lia; split; auto].
    destruct (endBatch_spec csr n) as (csr' & E & H1 & H2 & H3 & H4 & H5); [done..|]. rewrite E. exists task, csr'. split_and!; try done; lia.
Qed.

(** *** One flush *)

Record device_ok : Prop := {
  do_units : 0 < computeUnitsUsedForScratch dev;
  do_csrBase : preemptionCsrOk dev;
  do_mocs : l3CacheOn <> unknownMocs /\ l3CacheOff <> unknownMocs }.
Record receiver_ok (c : Csr) (h : Hardware) : Prop := {
  ro_agrees : Agrees dev true (scratch c) (sent c) h;
  ro_sent : sent_ok dev (sent c);
  ro_scratch : scratch_ok (scratch c);
  ro_bytes : requiredScratchSize (scratch c) * computeUnitsUsedForScratch dev < 2 ^ 32;
  ro_stream : csr_stream_ok (commandStream c);
  ro_arbitration : arbitrationOk (family dev) (requiredThreadArbitrationPolicy (requests c));
  ro_level : 0 <= taskLevel (counts c) < 2 ^ 32 }.

Definition minCommandQueueCommandStreamSize : Z := 2 * cacheLineSize.
(** What the queue sees to before a flush; time-stamp nodes are in memory. *)
Record flush_ok (t : Task) : Prop := {
  fo_heaps : heaps_ok t;
  fo_mode : preemptionMode (flags t) <> Initial;
  fo_scratch : forall n, is_Some (allocateScratch t n);
  fo_level : 0 <= requiredTaskLevel t < 2 ^ 32;
  fo_stream : stream_ok (commandStreamTask t);
  fo_room : sizeUsed (commandStreamTask t) + minCommandQueueCommandStreamSize <= maxAvailableSpace (commandStreamTask t);
  fo_deps : Z.of_nat (length (csrDependencies (flags t))) < 2 ^ 32 }.

(** The engine as a task needs it. *)
Record engine_ready (t : Task) (r : Requests) (k : Scratch) (h : Hardware) : Prop := {
  er_l3 : registers h !! L3CNTLRegisterOffset = Some (getL3Config dev (useSLM (flags t)));
  er_preemption : registers h !! preemptionMmioAddress (family dev) = Some (preemptionRegVal (family dev) (preemptionMode (flags t)));
  er_arbitration : family dev <> BDWFamily -> registers h !! arbitrationRegister (family dev) = arbitrationData (family dev) (requiredThreadArbitrationPolicy r);
  er_coherency : family dev = CNLFamily -> registers h !! 0xE5F0 = Some (dwordBuild 4 true (negb (requiresCoherency (flags t))) 0);
  er_pipeline : pipelineSelect h = Some (match family dev with BDWFamily => (0x3, false) | _ => (0x13, negb (mediaSamplerRequired (flags t))) end);
  er_vfe : vfeState h = Some (vfeStateFor dev (requiredScratchSize k) (getScratchPatchAddress dev k));
  er_scratch : scratchFor dev k (requiredScratchSize k);
  er_sba : stateBaseAddress h = programStateBaseAddress dev (dsh t) (ioh t) (ssh t) (fst (newGSHbase dev (flags t) k)) (mocsIndex l3CacheOn l3CacheOff r);
  er_csrBase : family dev <> BDWFamily -> getPreemptionMode dev = MidThread -> csrBaseAddress h = preemptionCsrAllocation dev;
  er_sip : family dev <> BDWFamily -> getPreemptionMode dev = MidThread \/ isSourceLevelDebuggerActive dev = true -> sip h = Some (sipAddress dev) }.

Lemma configured_ready t k r s h : task_ok t k r -> 0 < computeUnitsUsedForScratch dev -> Agrees dev true k (configured k t r s) h -> engine_ready t r k h.
Proof.
  intros [Hh Hm Ha Hp Hi Hk] Hu [H1 H2 H3 H4 H5 H6 H7 H8 H9 H10]. simpl in *. constructor; auto.
  - intros F. rewrite F in *. rewrite H6 by (done || by destruct (requiresCoherency (flags t))). do 3 f_equal. by destruct (requiresCoherency (flags t)).
  - rewrite H7 by (by destruct (mediaSamplerRequired (flags t))). destruct (family dev), (mediaSamplerRequired (flags t)); done.
  - destruct (H8 eq_refl) as (r0 & Hr0 & Hv). rewrite Hv. replace (requiredScratchSize k) with r0; [done|].
    unfold scratchFor in *. destruct (scratchAllocation k); nia.
  - rewrite H10 by (try done; by apply mocsIndex_known). symmetry.
    rewrite (programStateBaseAddress_sent dev l3CacheOn l3CacheOff k t r s Hh). do 2 f_equal.
Qed.

Lemma epilogueCommands_spec n f : Forall sized (epilogueCommands dev n f) /\ bytes (family dev) (epilogueCommands dev n f) <= 48 /\
  (needsEpilogue f = true -> existsb stalls (epilogueCommands dev n f) = true).
Proof.
  unfold epilogueCommands, addPipeControlWA, addDcFlushToPipeControl. destruct (needsEpilogue f); [|split_and!; simpl; lia || constructor || done].
  destruct (family dev); (split_and!; [repeat constructor|simpl; lia|done]).
Qed.

Lemma required_size_bound f changed r s : Z.of_nat (length (csrDependencies f)) < 2 ^ 32 ->
  12 <= getRequiredCmdStreamSize dev f changed r s < 2 ^ 40.
Proof.
  intros Hd. unfold getRequiredCmdStreamSize.
  assert (0 <= getAdditionalCommandsSize dev <= 100) as Ha.
  { unfold getAdditionalCommandsSize, getRequiredPreambleSize, getKernelDebuggingCommandsSize. repeat case_match; lia. }
  assert (0 <= getThreadArbitrationCommandsSize (family dev) <= 36) as Ht by (by destruct (family dev)).
  assert (0 <= getRequiredCmdSizeForPreamble dev r s <= 300) by (unfold getRequiredCmdSizeForPreamble; clear - Ha Ht; repeat case_match; lia).
  assert (0 <= getRequiredStateBaseAddressSize dev <= 200) by (unfold getRequiredStateBaseAddressSize; by destruct (family dev)).
  assert (0 <= getRequiredStateSipCmdSize dev <= 12) by (unfold getRequiredStateSipCmdSize; repeat case_match; lia).
  assert (0 <= getRequiredPipeControlSize dev <= 48) by (unfold getRequiredPipeControlSize; by destruct (family dev)).
  assert (0 <= getCmdSizeForL3Config changed s <= 36) by (unfold getCmdSizeForL3Config; repeat case_match; lia).
  assert (0 <= getCmdSizeForComputeMode dev changed <= 12) by (unfold getCmdSizeForComputeMode; repeat case_match; lia).
  assert (0 <= getCmdSizeForPipelineSelect changed s <= 4) by (unfold getCmdSizeForPipelineSelect; repeat case_match; lia).
  assert (0 <= preemptionCmdStreamSize (preemptionMode f) (lastPreemptionMode s) <= 12) by (unfold preemptionCmdStreamSize; case_decide; lia).
  set (sampler := if waSamplerCacheFlushBetweenRedescribedSurfaceReads dev then _ else _).
  assert (0 <= sampler <= 24) by (unfold sampler; repeat case_match; lia). clearbody sampler.
  destruct (negb _ || _), (stallingPipeControlOnNextFlushRequired r); lia.
Qed.

Lemma required_size_aligned f changed r s : Z.of_nat (length (csrDependencies f)) < 2 ^ 32 ->
  let n := getRequiredCmdStreamSizeAligned dev f changed r s in
  getRequiredCmdStreamSize dev f changed r s <= n < 2 ^ 41 /\ n mod 64 = 0.
Proof.
  intros Hd n. pose proof (required_size_bound f changed r s Hd). unfold n, getRequiredCmdStreamSizeAligned.
  destruct (alignUp_spec 64 (getRequiredCmdStreamSize dev f changed r s) 6) as (H1 & H2 & _); [word_lia|lia..|]. change cacheLineSize with (2 ^ 6). split; [lia|done].
Qed.

Lemma bind_Some {A B} (m : W A) (k : A -> W B) l b : bind m k = Some (l, b) -> exists l1 a l2, m = Some (l1, a) /\ k a = Some (l2, b) /\ l = l1 ++ l2.
Proof.
  unfold bind. destruct m as [[l1 a]|]; [|done]. destruct (k a) as [[l2 b']|] eqn:E; [|done]. intros [= <- <-]. by exists l1, a, l2.
Qed.

(** A task of a higher level waits for those before. *)
Lemma programCsr_stalls t changed cfg dirty k level r s l x : timestampPacketWriteEnabled dev = false -> requiredTaskLevel t > level ->
  programCsr dev l3CacheOn l3CacheOff t changed cfg dirty k level r s = Some (l, x) -> existsb stalls l = true.
Proof.
  intros Ht Hl. unfold programCsr, programTaskLevel.
  do 11 (let H := fresh in intros H; apply bind_Some in H as (? & ? & ? & _ & H & ->); rewrite existsb_app; apply orb_true_iff; right; revert H).
  rewrite decide_True, Ht by done. unfold bind, emit, ret. intros [= <- _]. rewrite !app_nil_r. by apply addPipeControl_spec.
Qed.

(** The state that the size of the commands is computed from. *)
Definition sentBefore (t : Task) (c : Csr) : Sent :=
  let s := if forceCsrReprogramming dev then initProgrammingFlags (sent c) else sent c in
  match updateScratch dev t (scratch c) with Some (_, _, true) => setMediaVFEStateDirty true s | _ => s end.
Definition csrReservation (t : Task) (c : Csr) : Z :=
  let s := sentBefore t c in getRequiredCmdStreamSizeAligned dev (flags t) (sizeRequestFlags (flags t) (getL3Config dev (useSLM (flags t))) s) (requests c) s.

Record flush_outcome (t : Task) (c : Csr) (h : Hardware) (c' : Csr) (task' : LinearStream) (f : Flushed) : Prop := {
  oc_receiver : receiver_ok c' (execAll (csrCommands f) h);
  oc_engine : engine_ready t (requests c) (scratch c') (execAll (csrCommands f) h);
  oc_requests : requests c' = answered (requests c);
  oc_required : requiredScratchSize (scratch c') = requiredScratchSize (scratch c);
  oc_task : stream_ok task' /\ sizeUsed (commandStreamTask t) <= sizeUsed task' < sizeUsed (commandStreamTask t) + minCommandQueueCommandStreamSize;
  oc_csr : bytes (family dev) (csrCommands f) + 12 <= csrReservation t c;
  oc_used : sizeUsed (commandStream c') <= sizeUsed (getCS (newBuffer t) (csrReservation t c) (commandStream c)) + csrReservation t c;
  oc_epilogue : epilogue f = epilogueCommands dev (taskCount (counts c)) (flags t);
  oc_count : taskCount (counts c') = w32 (taskCount (counts c) + 1) /\ stampTaskCount f = w32 (taskCount (counts c) + 1);
  oc_stall : timestampPacketWriteEnabled dev = false -> requiredTaskLevel t > taskLevel (counts c) -> existsb stalls (csrCommands f) = true;
  oc_level : stampTaskLevel f = Z.max (taskLevel (counts c)) (requiredTaskLevel t) \/ immediateDispatch dev = false /\ recorded (counts c') = [];
  oc_next : taskLevel (counts c') = w32 (stampTaskLevel f + Z.b2z (levelClosed dev (flags t))) }.

Lemma sent_ok_configured t k r s : sent_ok dev (configured k t r s).
Proof. split; simpl; [done|]. intros Hf. by rewrite newGSHbase_gsba, Hf. Qed.

Lemma flushRecorded_recorded groups n : flushRecorded dev groups n = n \/ immediateDispatch dev = false /\ recorded (flushRecorded dev groups n) = [].
Proof. unfold flushRecorded. destruct (last (recorded n)); [|by left]. destruct (immediateDispatch dev); [by left|by right]. Qed.

(** The commands that a flush programs. *)
Lemma flush_programs t c h : device_ok -> receiver_ok c h -> flush_ok t ->
  let s0 := if forceCsrReprogramming dev then initProgrammingFlags (sent c) else sent c in
  let cfg := getL3Config dev (useSLM (flags t)) in
  exists k vfe l, updateScratch dev t (scratch c) = Some (k, vfe && negb (force32 dev), vfe) /\ (if vfe then setMediaVFEStateDirty true s0 else s0) = sentBefore t c /\
    programCsr dev l3CacheOn l3CacheOff t (sizeRequestFlags (flags t) cfg s0) cfg (vfe && negb (force32 dev)) k (taskLevel (counts c)) (requests c) (sentBefore t c) =
      Some (l, (configured k t (requests c) (sentBefore t c), answered (requests c), Z.max (taskLevel (counts c)) (requiredTaskLevel t))) /\
    getRequiredCmdStreamSizeAligned dev (flags t) (sizeRequestFlags (flags t) cfg s0) (requests c) (sentBefore t c) = csrReservation t c /\
    bytes (family dev) l + 12 <= csrReservation t c < 2 ^ 41 /\ csrReservation t c mod 64 = 0 /\ Forall sized l /\
    task_ok t k (requests c) /\ requiredScratchSize k = requiredScratchSize (scratch c) /\
    Agrees dev true k (configured k t (requests c) (sentBefore t c)) (execAll l h).
Proof.
  intros [Du Dp Dm] [Ra Rs Rk Rb Rst Rar Rl] [Fh Fm Fs Fl Ft Fr Fd] s0 cfg.
  assert (Agrees dev true (scratch c) s0 h /\ sent_ok dev s0) as [Ha Hs] by (unfold s0; destruct (forceCsrReprogramming dev); [split; [by apply agrees_init|apply sent_ok_init]|done]).
  destruct (updateScratch_spec t (scratch c) Rk Du Rb Fs) as (k & vfe & Ek & Hreq & Hk & Hsame).
  assert (sentBefore t c = if vfe then setMediaVFEStateDirty true s0 else s0) as Hb by (unfold sentBefore; rewrite Ek; by destruct vfe).
  assert (sizeRequestFlags (flags t) cfg s0 = sizeRequestFlags (flags t) cfg (sentBefore t c)) as Hc by (rewrite Hb; by destruct vfe).
  assert (Agrees dev (negb (vfe && negb (force32 dev))) k (sentBefore t c) h) as Hag by (rewrite Hb; by apply (agrees_scratch (scratch c))).
  assert (sent_ok dev (sentBefore t c)) as Hso by (rewrite Hb; destruct vfe; [by destruct Hs|done]).
  assert (task_ok t k (requests c)) as Hok by done. exists k, vfe. rewrite <- Hb, Hc. clearbody s0.
  destruct (programCsr_step t k (requests c) (sentBefore t c) (vfe && negb (force32 dev)) (taskLevel (counts c)) Hok Hso) as (l & El & Bl & Sl & Xl).
  destruct (required_size_aligned (flags t) (sizeRequestFlags (flags t) cfg (sentBefore t c)) (requests c) (sentBefore t c) Fd) as (Hn1 & Hn2).
  assert (getRequiredCmdStreamSizeAligned dev (flags t) (sizeRequestFlags (flags t) cfg (sentBefore t c)) (requests c) (sentBefore t c)
    = csrReservation t c) as Eres by (unfold csrReservation; reflexivity).
  rewrite Eres in Hn1, Hn2. exists l. fold cfg in Bl. split_and!; try done; [lia..|].
  apply Xl. eapply agrees_weaken; [|exact Hag]. unfold basesDirty. by destruct (vfe && negb (force32 dev)).
Qed.

Lemma flushTask_outcome groups t c h : device_ok -> receiver_ok c h -> flush_ok t ->
  exists c' task' f, flushTask dev l3CacheOn l3CacheOff groups t c = Some (c', task', f) /\ flush_outcome t c h c' task' f.
Proof.
  intros Hd Hr Hf. destruct (flush_programs t c h Hd Hr Hf) as (k & vfe & l & Ek & Es & El & En & Hn1 & Hn2 & Sl & Hok & Hreq & Hag).
  pose proof (fun H1 H2 => programCsr_stalls _ _ _ _ _ _ _ _ _ _ H1 H2 El) as Hstall.
  destruct Hr as [_ _ Rk Rb Rst Rar Rl], Hf as [_ _ _ Fl Ft Fr _]. unfold minCommandQueueCommandStreamSize, cacheLineSize in Fr.
  unfold flushTask. cbv zeta. destruct (epilogueCommands_spec (taskCount (counts c)) (flags t)) as (E1 & E2 & _). pose proof (bytes_nonneg (family dev) _ E1) as E3.
  rewrite write_fits by (first [done|lia]). cbn [mbind option_bind]. set (task1 := mkLinearStream _ _ _ _).
  assert (stream_ok task1) as Ht1 by (destruct Ft; split; simpl; lia).
  rewrite Ek. cbn [mbind option_bind]. rewrite Es, El. cbn [mbind option_bind]. rewrite En. pose proof (bytes_nonneg (family dev) l Sl) as Hl0.
  destruct (getCS_spec (newBuffer t) (csrReservation t c) (commandStream c) Rst) as (Hcs & Hroom & _); [lia|].
  set (csr := getCS _ _ _) in *. destruct Hcs as [Hcs Hal]. pose proof Hcs as [Hu Hx].
  rewrite write_fits by (first [done|lia]). cbn [mbind option_bind]. set (csr1 := mkLinearStream _ _ _ _).
  destruct (closeStreams_spec (negb (bool_decide (commandStreamStartTask t = getUsed task1))) (negb (bool_decide (getUsed csr = getUsed csr1)))
    (commandStreamStartTask t) task1 csr1 (sizeUsed csr + csrReservation t c)) as (task2 & csr2 & Ec & Ht2 & Hc2 & Hg1 & Hg2 & Hmx).
  { done. } { simpl. lia. } { split; simpl; lia. } { simpl. lia. } { rewrite Z.add_mod, Hal, Hn2 by done. done. }
  { unfold getUsed. simpl. intros Hb'. apply negb_false_iff, bool_decide_eq_true in Hb'. rewrite <- Hb'. done. }
  rewrite Ec. cbn [mbind option_bind]. clear Ec.
  match goal with |- context [if ?b then flushRecorded dev groups ?x else ?x] => set (n0 := x) in *;
    assert (exists n1, n1 = (if b then flushRecorded dev groups n0 else n0) /\ (n1 = n0 \/ immediateDispatch dev = false /\ recorded n1 = [])) as (n1 & En1 & Hn)
      by (destruct b; [eexists; split; [done|apply flushRecorded_recorded]|eexists; split; [done|by left]])
  end.
  rewrite <- En1. eexists _, _, _. split; [done|].
  assert (taskLevel n0 = Z.max (taskLevel (counts c)) (requiredTaskLevel t)) as Hlev by done. clearbody n0. clear En1.
  constructor; [| |reflexivity|exact Hreq| | | |reflexivity|split; reflexivity|exact Hstall| |reflexivity].
  - constructor; [exact Hag|apply sent_ok_configured| |simpl; by rewrite Hreq|exact Hc2|exact Rar|apply wrap_range; lia].
    exists (requiredScratchSize k). rewrite Hreq. destruct Rk as (r0 & ? & _). split; [simpl; lia|]. rewrite <- Hreq. apply Hok.
  - eapply configured_ready; [exact Hok|apply Hd|exact Hag].
  - split; [exact Ht2|]. simpl in Hg1. unfold minCommandQueueCommandStreamSize, cacheLineSize. lia.
  - apply Hn1.
  - fold csr. apply Hg2.
  - destruct Hn as [-> | Hn]; [left; exact Hlev|by right].
Qed.

(** *** Sequences of calls *)

Definition setRequiredScratchSize (newRequiredScratchSize : Z) (c : Csr) : Csr :=
  if decide (newRequiredScratchSize > requiredScratchSize (scratch c)) then
    mkCsr (sent c) (mkScratch newRequiredScratchSize (scratchAllocation (scratch c)) (scratchSizeBytes (scratch c))) (requests c) (counts c) (commandStream c)
  else c.
Definition setRequests (r : Requests) (c : Csr) : Csr := mkCsr (sent c) (scratch c) r (counts c) (commandStream c).
Inductive Call :=
  | SetRequiredScratchSize (n : Z)
  | RequestThreadArbitrationPolicy (requiredPolicy : Z)
  | RequestStallingPipeControlOnNextFlush
  | SetSamplerCacheFlushRequired (value : SamplerCacheFlushState)
  | SetDisableL3Cache (val : bool)
  | SetMediaVFEStateDirty
  | FlushTask (t : Task).
Definition request (o : Call) (c : Csr) : Csr :=
  let r := requests c in
  match o with
  | SetRequiredScratchSize n => setRequiredScratchSize n c
  | RequestThreadArbitrationPolicy p => setRequests (mkRequests p (disableL3Cache r) (stallingPipeControlOnNextFlushRequired r) (samplerCacheFlushRequired r)) c
  | RequestStallingPipeControlOnNextFlush => setRequests (mkRequests (requiredThreadArbitrationPolicy r) (disableL3Cache r) true (samplerCacheFlushRequired r)) c
  | SetSamplerCacheFlushRequired v => setRequests (mkRequests (requiredThreadArbitrationPolicy r) (disableL3Cache r) (stallingPipeControlOnNextFlushRequired r) v) c
  | SetDisableL3Cache b => setRequests (mkRequests (requiredThreadArbitrationPolicy r) b (stallingPipeControlOnNextFlushRequired r) (samplerCacheFlushRequired r)) c
  | SetMediaVFEStateDirty => mkCsr (setMediaVFEStateDirty true (sent c)) (scratch c) r (counts c) (commandStream c)
  | FlushTask _ => c
  end.

(** What the engine does, in order: commands, a task with the level it required
    and the level of its stamp, and the end of all that was submitted.  The
    epilogues of recorded tasks are left out: they may be erased. *)
Inductive Entry := Command (c : Cmd) | Ran (required stamp : Z) | Submitted.
Definition entriesOf (t : Task) (f : Flushed) (c' : Csr) : list Entry :=
  map Command (csrCommands f) ++ [Ran (requiredTaskLevel t) (stampTaskLevel f)] ++ (if immediateDispatch dev then map Command (epilogue f) else []) ++
  (if negb (immediateDispatch dev) && bool_decide (recorded (counts c') = []) then [Submitted] else []).

Record World := mkWorld { receiver : Csr; engine : Hardware; log : list Entry }.
Definition call (groups : list Z -> nat) (o : Call) (w : World) : option World :=
  match o with
  | FlushTask t =>
      '(c', _, f) ← flushTask dev l3CacheOn l3CacheOff groups t (receiver w);
      Some (mkWorld c' (execAll (csrCommands f) (engine w)) (log w ++ entriesOf t f c'))
  | _ => Some (mkWorld (request o (receiver w)) (engine w) (log w))
  end.
Fixpoint calls (groups : list Z -> nat) (l : list Call) (w : World) : option World :=
  match l with [] => Some w | o :: l => w ← call groups o w; calls groups l w end.
Definition start (h : Hardware) : World := mkWorld (newCsr (family dev)) h [].

Definition call_ok (o : Call) : Prop :=
  match o with
  | SetRequiredScratchSize n => n * computeUnitsUsedForScratch dev < 2 ^ 32
  | RequestThreadArbitrationPolicy p => arbitrationOk (family dev) p
  | FlushTask t => flush_ok t
  | _ => True
  end.

Lemma start_ok h : device_ok -> receiver_ok (newCsr (family dev)) h.
Proof.
  intros [Hu _ _]. constructor; simpl; try done.
  - exists 0. split; [simpl; lia|done].
  - by destruct (family dev).
Qed.

Lemma request_ok o c h : call_ok o -> receiver_ok c h -> receiver_ok (request o c) h.
Proof.
  intros Ho [Ra Rs Rk Rb Rst Rar Rl]. destruct o; simpl in *; try (by constructor).
  - unfold setRequiredScratchSize. case_decide as Hd; [|done]. constructor; simpl; try done; [by destruct Ra; constructor|].
    destruct Rk as (r & Hr & Hk). exists r. split; [simpl; lia|done].
  - constructor; simpl; try done; [destruct Ra; constructor; simpl; auto; discriminate|by destruct Rs].
Qed.

Definition separates (e : Entry) : bool := match e with Command c => stalls c | Ran _ _ => false | Submitted => true end.
(** Every task below [level] has ended. *)
Definition ended (level : Z) (l : list Entry) : Prop := forall pre q s post, l = pre ++ Ran q s :: post -> s < level -> existsb separates post = true.
Definition dependents_wait (l : list Entry) : Prop :=
  forall pre q1 s1 mid q2 s2 post, l = pre ++ Ran q1 s1 :: mid ++ Ran q2 s2 :: post -> s1 < q2 -> existsb separates mid = true.

(** *** Logs *)

Definition quiet (e : list Entry) : Prop := Forall (fun x => match x with Ran _ _ => False | _ => True end) e.
Lemma quiet_commands l : quiet (map Command l).
Proof. induction l; by constructor. Qed.
Lemma separates_commands l : existsb separates (map Command l) = existsb stalls l.
Proof. induction l as [|c l IH]; simpl; [done|]. by rewrite IH. Qed.

Lemma app_cons_split {A} (l e pre post : list A) x : l ++ e = pre ++ x :: post ->
  (exists k, l = pre ++ x :: k /\ post = k ++ e) \/ (exists k, e = k ++ x :: post /\ pre = l ++ k).
Proof.
  intros H. apply app_eq_inv in H as [[[|y k] [-> H]]|[k [-> ->]]]; [|injection H as <- ->|]; eauto.
  right. exists []. by rewrite !app_nil_r.
Qed.
Lemma quiet_no_ran e k q s post : quiet e -> e <> k ++ Ran q s :: post.
Proof. intros H ->. apply Forall_app in H as [_ H]. by inversion H. Qed.

Lemma ended_quiet n l e : quiet e -> ended n l \/ existsb separates e = true -> ended n (l ++ e).
Proof.
  intros Hq Hn pre q s post H Hs. apply app_cons_split in H as [(k & -> & ->)|(k & H & _)]; [|by apply quiet_no_ran in H].
  rewrite existsb_app. destruct Hn as [Hn|Hn]; [rewrite (Hn _ _ _ _ eq_refl Hs)|rewrite Hn, orb_true_r]; done.
Qed.
Lemma ended_ran n l q s : n <= s -> ended n l -> ended n (l ++ [Ran q s]).
Proof.
  intros Hs Hn pre q' s' post H Hs'. apply app_cons_split in H as [(k & -> & ->)|(k & H & _)].
  - rewrite existsb_app. by rewrite (Hn _ _ _ _ eq_refl Hs').
  - destruct k as [|? [|? ?]]; simplify_list_eq. lia.
Qed.
Lemma ended_le n m l : m <= n -> ended n l -> ended m l.
Proof. intros Hm Hn pre q s post H Hs. eapply Hn; [done|lia]. Qed.
Lemma waits_quiet l e : quiet e -> dependents_wait l -> dependents_wait (l ++ e).
Proof.
  intros Hq Hl pre q1 s1 mid q2 s2 post H Hs. change (pre ++ Ran q1 s1 :: mid ++ Ran q2 s2 :: post) with (pre ++ (Ran q1 s1 :: mid) ++ Ran q2 s2 :: post) in H.
  rewrite app_assoc in H. apply app_cons_split in H as [(k & -> & ->)|(k & H & _)]; [|by apply quiet_no_ran in H].
  eapply (Hl pre q1 s1 mid q2 s2 k); [by rewrite <- app_assoc|done].
Qed.
Lemma waits_ran l q s : ended q l -> dependents_wait l -> dependents_wait (l ++ [Ran q s]).
Proof.
  intros Hq Hl pre q1 s1 mid q2 s2 post H Hs. change (pre ++ Ran q1 s1 :: mid ++ Ran q2 s2 :: post) with (pre ++ (Ran q1 s1 :: mid) ++ Ran q2 s2 :: post) in H.
  rewrite app_assoc in H. apply app_cons_split in H as [(k & -> & ->)|(k & H & E)].
  - eapply (Hl pre q1 s1 mid q2 s2 k); [by rewrite <- app_assoc|done].
  - destruct k as [|? [|? ?]]; simplify_list_eq. by eapply (Hq pre q1 s1 mid).
Qed.

Lemma entries_wait t c h c' task' f l : timestampPacketWriteEnabled dev = false -> receiver_ok c h -> flush_ok t -> flush_outcome t c h c' task' f ->
  ended (taskLevel (counts c)) l /\ dependents_wait l ->
  ended (taskLevel (counts c')) (l ++ entriesOf t f c') /\ dependents_wait (l ++ entriesOf t f c').
Proof.
  intros Ht Hr Hf Ho [He Hw]. unfold entriesOf. set (A := map Command (csrCommands f)). set (B := if immediateDispatch dev then _ else _).
  set (C := if negb (immediateDispatch dev) && _ then _ else _).
  assert (quiet A) as HA by apply quiet_commands. assert (quiet B) as HB by (unfold B; destruct (immediateDispatch dev); [apply quiet_commands|by constructor]).
  assert (quiet C) as HC by (unfold C; destruct (negb _ && _); by repeat constructor).
  assert (ended (Z.max (taskLevel (counts c)) (requiredTaskLevel t)) (l ++ A)) as H1.
  { apply ended_quiet; [done|]. destruct (decide (requiredTaskLevel t > taskLevel (counts c))) as [Hd|Hd].
    - right. unfold A. rewrite separates_commands. by apply (oc_stall _ _ _ _ _ _ Ho).
    - left. by replace (Z.max _ _) with (taskLevel (counts c)) by lia. }
  rewrite !app_assoc. split.
  2: { do 2 (apply waits_quiet; [done|]). apply waits_ran; [eapply ended_le; [|exact H1]; lia|]. by apply waits_quiet. }
  rewrite (oc_next _ _ _ _ _ _ Ho). destruct (oc_level _ _ _ _ _ _ Ho) as [Hl|[Hi Hl]].
  - rewrite Hl. pose proof (ro_level _ _ Hr). pose proof (fo_level _ Hf).
    apply ended_quiet; [done|]. left. apply ended_quiet; [done|]. destruct (levelClosed dev (flags t)) eqn:Hc.
    + right. unfold levelClosed in Hc. apply andb_true_iff in Hc as [Hn Hi]. unfold B. rewrite Hi, separates_commands, (oc_epilogue _ _ _ _ _ _ Ho).
      by apply epilogueCommands_spec.
    + left. simpl. rewrite Z.add_0_r, wrap_small by word_lia. apply ended_ran; [lia|done].
  - apply ended_quiet; [done|]. right. unfold C. rewrite Hi, bool_decide_eq_true_2 by done. done.
Qed.

(** What holds after any calls. *)
Record world_ok (w : World) : Prop := {
  wo_receiver : receiver_ok (receiver w) (engine w);
  wo_ended : timestampPacketWriteEnabled dev = false -> ended (taskLevel (counts (receiver w))) (log w) /\ dependents_wait (log w) }.

Lemma start_world_ok h : device_ok -> world_ok (start h).
Proof. intros Hd. split; [by apply start_ok|]. intros _. split; [intros [|] ? ? ? [=]|intros [|] ? ? ? ? ? ? [=]]. Qed.

Lemma call_world_ok groups o w : device_ok -> call_ok o -> world_ok w -> exists w', call groups o w = Some w' /\ world_ok w'.
Proof.
  intros Hd Ho [Hr He].
  assert (world_ok (mkWorld (request o (receiver w)) (engine w) (log w))) as Hreq.
  { split; simpl; [by apply request_ok|]. intros Ht. destruct (He Ht). destruct o; try done. simpl. unfold setRequiredScratchSize. by case_decide. }
  destruct o as [| | | | | |t]; try by (eexists; split; [reflexivity|exact Hreq]).
  destruct (flushTask_outcome groups t (receiver w) (engine w) Hd Hr Ho) as (c' & task' & f & E & H). simpl. rewrite E. cbn [mbind option_bind].
  eexists. split; [reflexivity|]. split; simpl; [by apply (oc_receiver _ _ _ _ _ _ H)|]. intros Ht. eapply entries_wait; eauto.
Qed.

Lemma calls_world_ok groups l w : device_ok -> Forall call_ok l -> world_ok w -> exists w', calls groups l w = Some w' /\ world_ok w'.
Proof.
  intros Hd Hl. revert w. induction Hl as [|o l Ho _ IH]; intros w Hw; simpl; [eauto|].
  destruct (call_world_ok groups o w Hd Ho Hw) as (w' & E & Hw'). rewrite E. by apply IH.
Qed.
End csr.

(** ** Properties *)

(** C9: whatever was requested and flushed before, a flush of any task finds room for all it writes: what it programs, with the jump to the task and the padding, fits the size computed before anything is written, the two cache lines kept free in the stream of the queue hold the closing commands, and the stream of the receiver stays aligned; no flush aborts. *)
Theorem flush_fits_the_streams dev l3CacheOn l3CacheOff groups l h : device_ok dev l3CacheOn l3CacheOff -> Forall (call_ok dev) l ->
  exists w, calls dev l3CacheOn l3CacheOff groups l (start dev h) = Some w /\
  forall t, flush_ok t ->
    exists c' task' f, flushTask dev l3CacheOn l3CacheOff groups t (receiver w) = Some (c', task', f) /\
      bytes (family dev) (csrCommands f) + 12 <= csrReservation dev t (receiver w) /\
      sizeUsed (commandStream c') <= sizeUsed (getCS (newBuffer t) (csrReservation dev t (receiver w)) (commandStream (receiver w))) + csrReservation dev t (receiver w) /\
      sizeUsed (commandStream c') <= maxAvailableSpace (commandStream c') /\ sizeUsed (commandStream c') mod 64 = 0 /\
      sizeUsed task' < sizeUsed (commandStreamTask t) + minCommandQueueCommandStreamSize <= maxAvailableSpace (commandStreamTask t).
Proof.
  intros Hd Hl. destruct (calls_world_ok dev _ _ groups l (start dev h) Hd Hl) as (w & E & [Hr _]); [by apply (start_world_ok dev l3CacheOn l3CacheOff)|]. exists w. split; [exact E|].
  intros t Ht. destruct (flushTask_outcome dev _ _ groups t (receiver w) (engine w) Hd Hr Ht) as (c' & task' & f & Ef & Ho).
  exists c', task', f. destruct Ho as [[_ _ _ _ [[Hu _] Ha] _ _] _ _ _ [_ H1] H2 H3 _ _ _ _ _]. pose proof (fo_room t Ht).
  split; [exact Ef|]. split_and!; try done; lia.
Qed.

(** C5: although a flush writes only what differs from what the receiver remembers, when the task begins the engine has the L3 configuration, preemption mode, thread arbitration, coherency, pipeline, scratch space, base addresses, context-save area and system routine that the task, the requests and the heaps ask for, whatever the engine had at first and whatever was requested and flushed before. *)
Theorem engine_is_ready dev l3CacheOn l3CacheOff groups l h : device_ok dev l3CacheOn l3CacheOff -> Forall (call_ok dev) l ->
  exists w, calls dev l3CacheOn l3CacheOff groups l (start dev h) = Some w /\
  forall t, flush_ok t ->
    exists c' task' f, flushTask dev l3CacheOn l3CacheOff groups t (receiver w) = Some (c', task', f) /\
      engine_ready dev l3CacheOn l3CacheOff t (requests (receiver w)) (scratch c') (execAll (csrCommands f) (engine w)) /\
      requiredScratchSize (scratch c') = requiredScratchSize (scratch (receiver w)) /\ requests c' = answered dev (requests (receiver w)).
Proof.
  intros Hd Hl. destruct (calls_world_ok dev _ _ groups l (start dev h) Hd Hl) as (w & E & [Hr _]); [by apply (start_world_ok dev l3CacheOn l3CacheOff)|]. exists w. split; [exact E|].
  intros t Ht. destruct (flushTask_outcome dev _ _ groups t (receiver w) (engine w) Hd Hr Ht) as (c' & task' & f & Ef & [_ H1 H2 H3 _ _ _ _ _ _ _ _]).
  exists c', task', f. split; [exact Ef|]. by split_and!.
Qed.

(** without time-stamp packets, a task that requires a level above the level that an earlier task was stamped with starts after it has ended: between the two, the engine executes a pipe control that stalls it, or all that was recorded is submitted. *)
Theorem dependent_tasks_wait dev l3CacheOn l3CacheOff groups l h : device_ok dev l3CacheOn l3CacheOff -> timestampPacketWriteEnabled dev = false -> Forall (call_ok dev) l ->
  exists w, calls dev l3CacheOn l3CacheOff groups l (start dev h) = Some w /\
  forall pre required1 stamp1 mid required2 stamp2 post, log w = pre ++ Ran required1 stamp1 :: mid ++ Ran required2 stamp2 :: post ->
    stamp1 < required2 -> existsb separates mid = true.
Proof.
  intros Hd Ht Hl. destruct (calls_world_ok dev _ _ groups l (start dev h) Hd Hl) as (w & E & [_ Hw]); [by apply (start_world_ok dev l3CacheOn l3CacheOff)|]. exists w. split; [exact E|].
  apply (Hw Ht).
Qed.

(** *** Witnesses *)

Definition exampleDevice (timestamps : bool) : Device :=
  mkDevice SKLFamily IGFX_SKYLAKE MidThread false false true 24 168 0 2048 0x5000 0x100000 None 0x7000 (Some 0x9000) timestamps true false.
Definition exampleHeap (address : Z) : IndirectHeap := mkHeap (Some (address, 0)) 0x10000 false.
Definition exampleTask (level : Z) (slm : bool) : Task :=
  mkTask (mkFlags MidThread false false slm false false false false false false []) (exampleHeap 0x10000) (exampleHeap 0x20000) (exampleHeap 0x30000) level
    (mkLinearStream 0x40000 0x1000 0x40 [MI_NOOP 0x40]) 0 false 0x50000 (fun n => Some (0x60000, 0x60000)).
Definition exampleCalls : list Call := [SetRequiredScratchSize 1024; FlushTask (exampleTask 0 true); FlushTask (exampleTask 0 true); FlushTask (exampleTask 1 false)].
Definition blankEngine : Hardware := mkHardware ∅ None None None None None.

Lemma example_task_ok level slm : 0 <= level < 2 ^ 32 -> flush_ok (exampleTask level slm).
Proof. intros Hl. by constructor. Qed.
Lemma example_ok ts : device_ok (exampleDevice ts) 2 3 /\ Forall (call_ok (exampleDevice ts)) exampleCalls.
Proof. split; [constructor; try done; intros _; simpl; eauto|]. repeat constructor; try (apply example_task_ok; lia); done. Qed.

Example flush_fits_the_streams_witness : exists w c' task' f,
  calls (exampleDevice false) 2 3 (fun _ => 1%nat) exampleCalls (start (exampleDevice false) blankEngine) = Some w /\
  flushTask (exampleDevice false) 2 3 (fun _ => 1%nat) (exampleTask 2 true) (receiver w) = Some (c', task', f) /\
  bytes SKLFamily (csrCommands f) + 12 <= csrReservation (exampleDevice false) (exampleTask 2 true) (receiver w).
Proof.
  destruct (flush_fits_the_streams (exampleDevice false) 2 3 (fun _ => 1%nat) exampleCalls blankEngine) as (w & E & H); [apply example_ok..|].
  destruct (H (exampleTask 2 true)) as (c' & task' & f & Ef & Hb & _); [apply example_task_ok; lia|]. exists w, c', task', f. split; [exact E|]. split; [exact Ef|exact Hb].
Defined.

Example engine_is_ready_witness : exists w c' task' f,
  calls (exampleDevice false) 2 3 (fun _ => 1%nat) exampleCalls (start (exampleDevice false) blankEngine) = Some w /\
  flushTask (exampleDevice false) 2 3 (fun _ => 1%nat) (exampleTask 1 false) (receiver w) = Some (c', task', f) /\
  registers (execAll (csrCommands f) (engine w)) !! L3CNTLRegisterOffset = Some 0x80000340.
Proof.
  destruct (engine_is_ready (exampleDevice false) 2 3 (fun _ => 1%nat) exampleCalls blankEngine) as (w & E & H); [apply example_ok..|].
  destruct (H (exampleTask 1 false)) as (c' & task' & f & Ef & Hr & _); [apply example_task_ok; lia|]. exists w, c', task', f. split; [exact E|]. split; [exact Ef|exact (er_l3 _ _ _ _ _ _ _ Hr)].
Defined.

Example dependent_tasks_wait_witness : exists w pre mid post,
  calls (exampleDevice false) 2 3 (fun _ => 1%nat) exampleCalls (start (exampleDevice false) blankEngine) = Some w /\
  log w = pre ++ Ran 0 0 :: mid ++ Ran 1 1 :: post /\ existsb separates mid = true.
Proof.
  destruct (dependent_tasks_wait (exampleDevice false) 2 3 (fun _ => 1%nat) exampleCalls blankEngine) as (w & E & H); [apply example_ok|reflexivity|apply example_ok|].
  assert (log w = take 11 (log w) ++ Ran 0 0 :: take 5 (drop 12 (log w)) ++ Ran 1 1 :: []) as El by (revert E; vm_compute; intros [= <-]; reflexivity).
  exists w, (take 11 (log w)), (take 5 (drop 12 (log w))), []. split; [exact E|]. split; [exact El|]. apply (H _ _ _ _ _ _ _ El). lia.
Defined.

(** The system routine is not programmed again for an engine that lost its
    state, although [initProgrammingFlags] is called for such an engine. *)
Example reset_leaves_sip :
  let dev := exampleDevice false in let t := exampleTask 0 true in
  match calls dev 2 3 (fun _ => 1%nat) [FlushTask t] (start dev blankEngine) with
  | Some (mkWorld (mkCsr s k r n b) _ _) =>
      match flushTask dev 2 3 (fun _ => 1%nat) t (mkCsr (initProgrammingFlags s) k r n b) with
      | Some (_, _, f) => sip (execAll (csrCommands f) blankEngine) = None /\ stateBaseAddress (execAll (csrCommands f) blankEngine) <> None
      | None => False
      end
  | None => False
  end.
Proof. vm_compute. by split. Qed.
