(* ===== verification/BuiltinCopy.v ===== *)
(** * Copying and filling buffers on the GPU

    The dispatch builders [CopyBufferToBuffer], [CopyBufferRect] and [FillBuffer]
    of [built_ins/built_ins.cpp], the kernels they launch
    ([built_ins/kernels/*.igdrcl_built_in]), the operations of the command queue
    that use them ([command_queue/enqueue_*_buffer*.h], [enqueue_svm.h]) and the
    checks of a rectangle in [mem_obj/buffer.cpp].  The walkers are those of the
    builder in [Dispatch].

    Memory maps addresses to bytes.  A work item reads bytes and writes them
    elsewhere; work items run in any order.  Parameters: the addresses of the
    graphics allocations, and the deduction of local sizes ([WorkSizeDeduction]).
    [None] is undefined behaviour: a division by zero.  Left out: the paths that
    copy on the CPU or need no copy, and images. *)

From S2P Require Import Prelude.
From S2P Require Import AlignedMemory.
From S2P Require Import Bytes.
From S2P Require Import LocalWorkSize.
From S2P Require Import Dispatch.

(** ** Work items *)

Definition Mem := Z -> Z.
Definition poke (m : Mem) (a v : Z) : Mem := fun b => if decide (b = a) then v else m b.
(** Destinations and sources of the bytes that an item copies. *)
Definition Item := list (Z * Z).
Definition execItem (m : Mem) (i : Item) : Mem := foldl (fun m' '(d, s) => poke m' d (m s)) m i.
Definition execItems (m : Mem) (l : list Item) : Mem := foldl execItem m l.

(** The kernels with their arguments; the pitches are of a row and of a slice. *)
Inductive BuiltinKernel :=
  | CopyBufferToBufferLeftLeftover (pSrc pDst srcOffsetInBytes dstOffsetInBytes : Z)
  | CopyBufferToBufferMiddle (pSrc pDst srcOffsetInBytes dstOffsetInBytes : Z)
  | CopyBufferToBufferRightLeftover (pSrc pDst srcOffsetInBytes dstOffsetInBytes : Z)
  | FillBufferLeftLeftover (pDst dstOffsetInBytes pPattern patternSizeInEls : Z)
  | FillBufferMiddle (pDst dstOffsetInBytes pPattern patternSizeInEls : Z)
  | FillBufferRightLeftover (pDst dstOffsetInBytes pPattern patternSizeInEls : Z)
  | CopyBufferRectBytes2d (src dst : Z) (SrcOrigin DstOrigin : Vec3) (SrcPitch DstPitch : Z * Z)
  | CopyBufferRectBytes3d (src dst : Z) (SrcOrigin DstOrigin : Vec3) (SrcPitch DstPitch : Z * Z).

Definition copyByte (pSrc pDst srcOffsetInBytes dstOffsetInBytes gid : Z) : Item :=
  [(pDst + w32 (gid + dstOffsetInBytes), pSrc + w32 (gid + srcOffsetInBytes))].
Definition fillByte (pDst dstOffsetInBytes pPattern patternSizeInEls gid : Z) : Item :=
  [(pDst + w32 (gid + dstOffsetInBytes), pPattern + Z.land gid (w32 (patternSizeInEls - 1)))].
Definition rectOffset2d (gid origin : Vec3) (pitch : Z * Z) : Z := w32 (x gid + x origin + (y gid + y origin) * pitch.1).
Definition rectOffset3d (gid origin : Vec3) (pitch : Z * Z) : Z :=
  w32 (x gid + x origin + (y gid + y origin) * pitch.1 + (z gid + z origin) * pitch.2).
Definition copyWords (pSrc pDst srcOffsetInBytes dstOffsetInBytes gid : Z) : Item :=
  let pDst := pDst + 4 * Z.shiftr dstOffsetInBytes 2 in
  let pSrc := pSrc + 4 * Z.shiftr srcOffsetInBytes 2 in
  map (fun j => (pDst + 16 * gid + j, pSrc + 16 * gid + j)) (seqZ 0 16).
Definition fillWord (pDst dstOffsetInBytes pPattern patternSizeInEls gid : Z) : Item :=
  map (fun j => (pDst + dstOffsetInBytes + 4 * gid + j, pPattern + 4 * Z.land gid (w32 (patternSizeInEls - 1)) + j)) (seqZ 0 4).
Definition workItem (k : BuiltinKernel) (g : Vec3) : Item :=
  let gid := w32 (x g) in
  match k with
  | CopyBufferToBufferLeftLeftover pSrc pDst so d => copyByte pSrc pDst so d gid
  | CopyBufferToBufferRightLeftover pSrc pDst so d => copyByte pSrc pDst so d gid
  | CopyBufferToBufferMiddle pSrc pDst so d => copyWords pSrc pDst so d gid
  | FillBufferLeftLeftover pDst d pPattern n => fillByte pDst d pPattern n gid
  | FillBufferRightLeftover pDst d pPattern n => fillByte pDst d pPattern n gid
  | FillBufferMiddle pDst d pPattern n => fillWord pDst d pPattern n gid
  | CopyBufferRectBytes2d src dst so d sp dp => [(dst + rectOffset2d g d dp, src + rectOffset2d g so sp)]
  | CopyBufferRectBytes3d src dst so d sp dp => [(dst + rectOffset3d g d dp, src + rectOffset3d g so sp)]
  end.

(** ** Builders *)

(** A memory object is the address of its allocation. *)
Record BuiltinOpParams := mkParams {
  srcPtr : Z; dstPtr : Z;
  srcMemObj : option Z; dstMemObj : option Z;
  srcSvmAlloc : bool; dstSvmAlloc : bool;
  srcOffset : Vec3; dstOffset : Vec3; opSize : Vec3;
  srcRowPitch : Z; dstRowPitch : Z; srcSlicePitch : Z; dstSlicePitch : Z }.

(** The pointer that the kernel gets. *)
Definition kernelPointer (svmAlloc : bool) (memObj : option Z) (ptr : Z) : Z := if svmAlloc then ptr else default ptr memObj.

Section builders.
Context `{D : WorkSizeDeduction BuiltinKernel}.

Definition setKernelAt (id : nat) (k : BuiltinKernel) (b : list (@DispatchInfo BuiltinKernel)) : list (@DispatchInfo BuiltinKernel) :=
  alter (setKernelInfo (Some k)) id b.
Definition split1D (left middle right : BuiltinKernel) (leftSize middleSizeEls rightSize : Z) : option (list (@DispatchInfo BuiltinKernel)) :=
  let at1 c := getDispatchId KernelSplit c First First in
  let geometry c n := setDispatchGeometry (at1 c) 1 (mkVec3 n 0 0) zero3 zero3 zero3 zero3 zero3 zero3 zero3 in
  let b := newBuilder KernelSplit 0 in
  let b := setKernelAt (at1 First) left b in
  let b := setKernelAt (at1 Middle) middle b in
  let b := setKernelAt (at1 Last) right b in
  let b := geometry First leftSize b in
  let b := geometry Middle middleSizeEls b in
  let b := geometry Last rightSize b in
  bake KernelSplit b.

(** Bytes before the first cache line, in whole cache lines and after the last. *)
Definition splitSizes (start n : Z) : Z * Z * Z :=
  let middleAlignment := 64 in
  let leftSize := start mod middleAlignment in
  let leftSize := if decide (leftSize > 0) then middleAlignment - leftSize else 0 in
  let leftSize := Z.min leftSize n in
  let rightSize := w64 (start + n) mod middleAlignment in
  let rightSize := Z.min rightSize (n - leftSize) in
  (leftSize, n - leftSize - rightSize, rightSize).

Definition copyBufferToBuffer (p : BuiltinOpParams) : option (list (@DispatchInfo BuiltinKernel)) :=
  let start := w64 (dstPtr p + x (dstOffset p)) in
  let middleElSize := 4 * 4 in
  let '(leftSize, middleSizeBytes, rightSize) := splitSizes start (x (opSize p)) in
  let '(leftSize, middleSizeBytes) :=
    if isAligned 4 (w64 (srcPtr p + x (srcOffset p) + leftSize)) then (leftSize, middleSizeBytes) else (leftSize + middleSizeBytes, 0) in
  let middleSizeEls := middleSizeBytes / middleElSize in
  let arg0 := kernelPointer (srcSvmAlloc p) (srcMemObj p) (srcPtr p) in
  let arg1 := kernelPointer (dstSvmAlloc p) (dstMemObj p) (dstPtr p) in
  let s := x (srcOffset p) in let d := x (dstOffset p) in
  split1D (CopyBufferToBufferLeftLeftover arg0 arg1 (w32 s) (w32 d))
    (CopyBufferToBufferMiddle arg0 arg1 (w32 (s + leftSize)) (w32 (d + leftSize)))
    (CopyBufferToBufferRightLeftover arg0 arg1 (w32 (s + leftSize + middleSizeBytes)) (w32 (d + leftSize + middleSizeBytes)))
    leftSize middleSizeEls rightSize.

(** [patternSize] is the size of the memory object with the pattern. *)
Definition fillBuffer (p : BuiltinOpParams) (pattern patternSize : Z) : option (list (@DispatchInfo BuiltinKernel)) :=
  let start := w64 (dstPtr p + x (dstOffset p)) in
  let middleElSize := 4 in
  let '(leftSize, middleSizeBytes, rightSize) := splitSizes start (x (opSize p)) in
  let middleSizeEls := middleSizeBytes / middleElSize in
  let arg0 := kernelPointer (dstSvmAlloc p) (dstMemObj p) (dstPtr p) in
  let d := x (dstOffset p) in
  split1D (FillBufferLeftLeftover arg0 (w32 d) pattern (w32 patternSize))
    (FillBufferMiddle arg0 (w32 (d + leftSize)) pattern (w32 (patternSize / middleElSize)))
    (FillBufferRightLeftover arg0 (w32 (d + leftSize + middleSizeBytes)) pattern (w32 patternSize))
    leftSize middleSizeEls rightSize.

Definition v32 (v : Vec3) : Vec3 := mkVec3 (w32 (x v)) (w32 (y v)) (w32 (z v)).
Definition is3D (p : BuiltinOpParams) : bool :=
  match srcMemObj p, dstMemObj p with
  | Some _, Some _ => bool_decide (z (opSize p) > 1) || bool_decide (z (srcOffset p) > 0) || bool_decide (z (dstOffset p) > 0)
  | _, _ =>
      if decide (srcPtr p <> 0) then bool_decide (z (opSize p) > 1) || bool_decide (z (dstOffset p) > 0)
      else if decide (dstPtr p <> 0) then bool_decide (z (opSize p) > 1) || bool_decide (z (srcOffset p) > 0)
      else false
  end.
(** The kernel and its arguments; for two dimensions the slice is in the pointer. *)
Definition rectKernel (p : BuiltinOpParams) : BuiltinKernel :=
  let pointer (memObj : option Z) (ptr : Z) (o : Vec3) (slicePitch : Z) :=
    match memObj with Some a => a | None => if is3D p then ptr else w64 (ptr + w64 (z o * slicePitch)) end in
  let arg0 := pointer (srcMemObj p) (srcPtr p) (srcOffset p) (srcSlicePitch p) in
  let arg1 := pointer (dstMemObj p) (dstPtr p) (dstOffset p) (dstSlicePitch p) in
  (if is3D p then CopyBufferRectBytes3d else CopyBufferRectBytes2d) arg0 arg1 (v32 (srcOffset p)) (v32 (dstOffset p))
    (w32 (srcRowPitch p), w32 (srcSlicePitch p)) (w32 (dstRowPitch p), w32 (dstSlicePitch p)).
Definition copyBufferRect (p : BuiltinOpParams) : option (list (@DispatchInfo BuiltinKernel)) :=
  let b := setKernel (Some (rectKernel p)) (newBuilder NoSplit 2) in
  let b := setDispatchGeometry 0 3 (opSize p) zero3 zero3 zero3 zero3 zero3 zero3 zero3 b in
  bake NoSplit b.

(** The work items of the walkers: the global ids that the groups cover. *)
Definition box (g : Vec3) : list Vec3 := c ← seqZ 0 (z g); b ← seqZ 0 (y g); a ← seqZ 0 (x g); [mkVec3 a b c].
Definition itemsOf (d : @DispatchInfo BuiltinKernel) : list Item :=
  match kernel d with Some k => map (workItem k) (filter (fun p => runs (lws d) p d = true) (box (gws d))) | None => [] end.
Definition items (l : list (@DispatchInfo BuiltinKernel)) : list Item := l ≫= itemsOf.
End builders.

(** ** The operations of the queue *)

Definition along (a : Z) : Vec3 := mkVec3 a 0 0.
(** [hostPtr]: the address of the allocation made for the host memory. *)
Definition enqueueReadBuffer (buffer offset size hostPtr : Z) : BuiltinOpParams :=
  let alignedDstPtr := alignDown 64 hostPtr 4 in
  mkParams 0 alignedDstPtr (Some buffer) None false false (along offset) (along (w64 (hostPtr - alignedDstPtr))) (along size) 0 0 0 0.
Definition enqueueWriteBuffer (buffer offset size hostPtr : Z) : BuiltinOpParams :=
  let alignedSrcPtr := alignDown 64 hostPtr 4 in
  mkParams alignedSrcPtr 0 None (Some buffer) false false (along (w64 (hostPtr - alignedSrcPtr))) (along offset) (along size) 0 0 0 0.
Definition enqueueCopyBuffer (srcBuffer dstBuffer srcOffset dstOffset size : Z) : BuiltinOpParams :=
  mkParams 0 0 (Some srcBuffer) (Some dstBuffer) false false (along srcOffset) (along dstOffset) (along size) 0 0 0 0.
Definition enqueueSVMMemcpy (dstPtr srcPtr size : Z) : BuiltinOpParams :=
  mkParams srcPtr dstPtr None None true true zero3 zero3 (along size) 0 0 0 0.
Definition enqueueFillBuffer (buffer offset size : Z) : BuiltinOpParams :=
  mkParams 0 0 None (Some buffer) false false zero3 (along offset) (along size) 0 0 0 0.
Definition enqueueSVMMemFill (svmPtr size : Z) : BuiltinOpParams :=
  mkParams 0 svmPtr None None false true zero3 zero3 (along size) 0 0 0 0.

Inductive Transfer :=
  | ReadBuffer (buffer offset n hostPtr : Z)
  | WriteBuffer (buffer offset n hostPtr : Z)
  | CopyBuffer (srcBuffer dstBuffer srcOffset dstOffset n : Z)
  | SVMMemcpy (dst src n : Z).
Definition transferParams (t : Transfer) : BuiltinOpParams :=
  match t with
  | ReadBuffer buffer o n hostPtr => enqueueReadBuffer buffer o n hostPtr
  | WriteBuffer buffer o n hostPtr => enqueueWriteBuffer buffer o n hostPtr
  | CopyBuffer srcBuffer dstBuffer so d n => enqueueCopyBuffer srcBuffer dstBuffer so d n
  | SVMMemcpy dst src n => enqueueSVMMemcpy dst src n
  end.

(** What is to be copied. *)
Definition transferSource (t : Transfer) : Z :=
  match t with ReadBuffer buffer o _ _ => buffer + o | WriteBuffer _ _ _ hostPtr => hostPtr | CopyBuffer s _ o _ _ => s + o | SVMMemcpy _ s _ => s end.
Definition transferTarget (t : Transfer) : Z :=
  match t with ReadBuffer _ _ _ hostPtr => hostPtr | WriteBuffer buffer o _ _ => buffer + o | CopyBuffer _ d _ o _ => d + o | SVMMemcpy d _ _ => d end.
Definition transferBytes (t : Transfer) : Z :=
  match t with ReadBuffer _ _ n _ | WriteBuffer _ _ n _ | CopyBuffer _ _ _ _ n | SVMMemcpy _ _ n => n end.

Inductive Fill :=
  | FillBuffer (buffer offset n : Z)
  | SVMMemFill (svmPtr n : Z).
Definition fillParams (f : Fill) : BuiltinOpParams :=
  match f with FillBuffer buffer o n => enqueueFillBuffer buffer o n | SVMMemFill svmPtr n => enqueueSVMMemFill svmPtr n end.
Definition fillTarget (f : Fill) : Z := match f with FillBuffer buffer o _ => buffer + o | SVMMemFill svmPtr _ => svmPtr end.
Definition fillStart (f : Fill) : Z := match f with FillBuffer _ o _ => o | SVMMemFill svmPtr _ => svmPtr end.
Definition fillBytes (f : Fill) : Z := match f with FillBuffer _ _ n | SVMMemFill _ n => n end.

(** The check of [clEnqueueFillBuffer], on the size cast to 32 bits. *)
Definition validPatternSize (ps : Z) : bool := bool_decide (w32 ps ∈ [128; 64; 32; 16; 8; 4; 2; 1]).
(** The bytes put in the allocation of the pattern. *)
Definition patternBytes (pattern : list Z) : list Z :=
  let patternSize := length pattern in
  if decide (patternSize = 1)%nat then
    let b := unle (take 1 pattern) in
    le 4 (w32 (Z.lor (Z.lor (Z.lor (Z.shiftl b 24) (Z.shiftl b 16)) (Z.shiftl b 8)) b))
  else if decide (patternSize = 2)%nat then
    let h := unle (take 2 pattern) in
    le 4 (w32 (Z.lor (Z.shiftl h 16) h))
  else pattern.
(** The size of the memory object made for the pattern. *)
Definition patternMemObjSize (pattern : list Z) : Z := alignUp 64 (Z.of_nat (length pattern)) 4.

(** Under what a transfer is right: offsets that fit 32 bits, host ranges inside
    the address space, no byte that is both copied and overwritten, and for SVM
    not two pointers that are off a multiple of 4 by the same amount with a
    cache line or more to copy.  The API does not exclude the last case; see
    [unaligned_svm_copy_skips_bytes]. *)
Record transfer_ok (t : Transfer) : Prop := {
  to_size : 0 <= transferBytes t;
  to_offsets : match t with
    | ReadBuffer _ o n hostPtr | WriteBuffer _ o n hostPtr => 0 <= o /\ o + n < 2 ^ 32 /\ n + 4 <= 2 ^ 32 /\ 0 <= hostPtr /\ hostPtr + n < 2 ^ 64
    | CopyBuffer _ _ so d n => 0 <= so /\ 0 <= d /\ so + n < 2 ^ 32 /\ d + n < 2 ^ 32
    | SVMMemcpy dst src n => 0 <= dst /\ 0 <= src /\ (64 <= n -> dst mod 4 = src mod 4 -> dst mod 4 = 0) /\ n < 2 ^ 32 /\ dst + n < 2 ^ 64 /\ src + n < 2 ^ 64
    end;
  to_apart : transferTarget t + transferBytes t <= transferSource t \/ transferSource t + transferBytes t <= transferTarget t }.

Record fill_ok (f : Fill) (pattern : list Z) (patternPtr : Z) : Prop := {
  fo_pattern : validPatternSize (Z.of_nat (length pattern)) = true /\ Z.of_nat (length pattern) < 2 ^ 32;
  fo_bytes : Forall (fun b => 0 <= b < 256) pattern;
  fo_start : 0 <= fillStart f /\ fillStart f mod Z.of_nat (length pattern) = 0 /\ fillStart f + fillBytes f < 2 ^ 64;
  fo_size : 0 <= fillBytes f < 2 ^ 32 /\ fillBytes f mod Z.of_nat (length pattern) = 0;
  fo_offset : match f with FillBuffer _ o n => o + n < 2 ^ 32 | SVMMemFill _ _ => True end;
  fo_apart : fillTarget f + fillBytes f <= patternPtr \/ patternPtr + patternMemObjSize pattern <= fillTarget f }.

(** ** Executing items *)

Definition functional (i : Item) : Prop := forall d s s', (d, s) ∈ i -> (d, s') ∈ i -> s = s'.

Lemma execItem_spec m i : functional i ->
  (forall d s, (d, s) ∈ i -> execItem m i d = m s) /\ (forall d, (forall s, (d, s) ∉ i) -> execItem m i d = m d).
Proof.
  intros Hf. assert (forall j, (forall p, p ∈ j -> p ∈ i) ->
    (forall d s, (d, s) ∈ j -> execItem m j d = m s) /\ (forall d, (forall s, (d, s) ∉ j) -> execItem m j d = m d)) as H; [|by apply H].
  induction j as [|[d1 s1] j IH] using rev_ind; intros Hj.
  { split; [intros d s H; by apply elem_of_nil in H|done]. }
  destruct IH as [H1 H2]; [set_solver|]. unfold execItem in *. rewrite foldl_snoc. unfold poke. split.
  - intros d s Hd. case_decide as E; [subst d; f_equal; apply (Hf d1); apply Hj; set_solver|].
    apply elem_of_app in Hd as [Hd|Hd]; [by apply H1|]. apply list_elem_of_singleton in Hd. congruence.
  - intros d Hd. case_decide as E; [subst d; destruct (Hd s1); set_solver|]. apply H2. intros s Hs. apply (Hd s). set_solver.
Qed.

(** Copies whose destinations are no sources can be made in any order. *)
Record independent (i : Item) : Prop := {
  in_functional : functional i;
  in_apart : forall d s d' s', (d, s) ∈ i -> (d', s') ∈ i -> d <> s' }.

Lemma execItems_spec m l : independent (mjoin l) ->
  (forall d s, (d, s) ∈ mjoin l -> execItems m l d = m s) /\ (forall d, (forall s, (d, s) ∉ mjoin l) -> execItems m l d = m d).
Proof.
  intros [Hf Ha]. assert (forall k, (forall p, p ∈ mjoin k -> p ∈ mjoin l) ->
    (forall d s, (d, s) ∈ mjoin k -> execItems m k d = m s) /\ (forall d, (forall s, (d, s) ∉ mjoin k) -> execItems m k d = m d)) as H; [|by apply H].
  induction k as [|i k IH] using rev_ind; intros Hk.
  { split; [intros d s H; by apply elem_of_nil in H|done]. }
  assert (forall p, p ∈ mjoin (k ++ [i]) <-> p ∈ mjoin k \/ p ∈ i) as Hm by (intros p; rewrite join_app; simpl; rewrite app_nil_r; apply elem_of_app).
  destruct IH as [H1 H2]; [intros p Hp; apply Hk, Hm; by left|].
  assert (forall d s, (d, s) ∈ i -> execItems m k s = m s) as Hs.
  { intros d s Hd. apply H2. intros s' Hs'. apply (Ha s s' d s); [apply Hk, Hm; by left|apply Hk, Hm; by right|done]. }
  destruct (execItem_spec (execItems m k) i) as [H3 H4].
  { intros d s s' Hd Hd'. apply (Hf d); apply Hk, Hm; by right. }
  unfold execItems in *. rewrite foldl_snoc. split.
  - intros d s Hd. assert ((exists s', (d, s') ∈ i) \/ ~ exists s', (d, s') ∈ i) as [[s' Hs']|Hn].
    { destruct (decide (d ∈ i.*1)) as [Hi|Hi]; [left|right].
      - apply list_elem_of_fmap in Hi as ([a b] & -> & Hi). by exists b.
      - intros [s' Hs']. apply Hi, list_elem_of_fmap. by exists (d, s'). }
    + rewrite (H3 d s') by done. rewrite (Hs d s') by done. f_equal. apply (Hf d); [apply Hk, Hm; by right|by apply Hk].
    + apply Hm in Hd as [Hd|Hd]; [|destruct Hn; by exists s]. rewrite H4 by (intros s' Hs'; apply Hn; by exists s'). by apply H1.
  - intros d Hd. rewrite H4 by (intros s Hs'; apply (Hd s), Hm; by right). apply H2. intros s Hs'. apply (Hd s), Hm. by left.
Qed.

Lemma elem_of_mjoin {A} (l : list (list A)) p : p ∈ mjoin l <-> exists i, i ∈ l /\ p ∈ i.
Proof. rewrite list_elem_of_join. naive_solver. Qed.

(** The items of [l] copy what [R] relates, in any order. *)
Lemma execItems_any m (l order : list Item) (R : Z -> Z -> Prop) : order ≡ₚ l -> (forall d s, (d, s) ∈ mjoin l <-> R d s) ->
  (forall d s s', R d s -> R d s' -> s = s') -> (forall d s d' s', R d s -> R d' s' -> d <> s') ->
  (forall d s, R d s -> execItems m order d = m s) /\ (forall d, (forall s, ~ R d s) -> execItems m order d = m d).
Proof.
  intros Ho HR Hf Ha.
  assert (forall d s, (d, s) ∈ mjoin order <-> R d s) as Hm.
  { intros d s. rewrite <- HR, !elem_of_mjoin. by setoid_rewrite Ho. }
  destruct (execItems_spec m order) as [H1 H2].
  - split; [intros d s s'; rewrite !Hm; apply Hf|intros d s d' s'; rewrite !Hm; apply Ha].
  - split; [intros d s H; by apply H1, Hm|intros d H; apply H2; intros s; by rewrite Hm].
Qed.

(** ** Walkers *)

Section walkers.
Context `{D : WorkSizeDeduction BuiltinKernel} (all_ok : forall k : BuiltinKernel, kernel_ok k).

Lemma elem_of_box g p : p ∈ box g <-> 0 <= x p < x g /\ 0 <= y p < y g /\ 0 <= z p < z g.
Proof.
  unfold box. rewrite list_elem_of_bind. split.
  - intros (c & H & Hc). apply list_elem_of_bind in H as (b & H & Hb). apply list_elem_of_bind in H as (a & H & Hx).
    apply list_elem_of_singleton in H as ->. apply elem_of_seqZ in Hx, Hb, Hc. simpl. lia.
  - intros (Hx & Hy & Hz). exists (z p). split; [|apply elem_of_seqZ; lia]. apply list_elem_of_bind. exists (y p). split; [|apply elem_of_seqZ; lia].
    apply list_elem_of_bind. exists (x p). split; [|apply elem_of_seqZ; lia]. apply list_elem_of_singleton. by destruct p.
Qed.

Definition plain (d : @DispatchInfo BuiltinKernel) (k : BuiltinKernel) : Prop :=
  kernel d = Some k /\ 1 <= dim d <= 3 /\ elws d = zero3 /\ offset d = zero3 /\ agws d = zero3 /\ lws d = zero3 /\ twgs d = zero3 /\ nwgs d = zero3 /\ swgs d = zero3.

(** Every point of the range is run, by a group size that divides it. *)
Lemma bake_plain d k g : plain d k -> nonEmpty (dim d) (gws d) = true -> canonizeWorkgroup (gws d) = g -> pos3 g -> x g * y g * z g < 2 ^ 64 ->
  calculateDispatchDim (gws d) zero3 = calculateDispatchDim g zero3 ->
  exists d', bakeInfo None d = Some [d'] /\ forall i, i ∈ itemsOf d' <-> exists p, p ∈ box g /\ i = workItem k p.
Proof.
  intros (Hk & Hd & He & Ho & Ha & Hl & Ht & Hn & Hs) Hne Hc Hg Hp Hdim. unfold bakeInfo. rewrite Hne. cbv zeta. rewrite Hc, Ha, Ho, Hdim, (decide_True (P := zero3 = zero3)) by done.
  destruct (dispatchDim_range g zero3 Hg) as (HD & HD1 & HD2). rewrite nonEmpty_pos by done.
  destruct (deduce_valid k g (calculateDispatchDim g zero3) (all_ok k)) as (l & mx & El & Hv); [unfold gws_ok; destruct Hg as (? & ? & ?); naive_solver|].
  rewrite Hl, He, Hk, (decide_True (P := x zero3 = 0)) by done. unfold generateWorkgroupSize. change (canonizeWorkgroup zero3) with zero3.
  rewrite decide_True by done. rewrite El. cbn [mbind option_bind]. rewrite (canonize_pos l) by (destruct Hv; by split_and!).
  rewrite Ht, Hn, !(decide_True (P := x zero3 = 0)) by done. destruct Hg as (Gx & Gy & Gz).
  destruct (groups_exact g l mx Gx Gy Gz Hv) as (n & En & Nx & Ny & Nz). destruct Hv as [Lx Ly Lz _ _ _ _].
  unfold generateWorkgroupsNumber. rewrite decide_True by done. rewrite En. cbn [mbind option_bind].
  rewrite (canonize_pos n) by (unfold pos3; nia). eexists. split; [done|]. intros i. unfold itemsOf. simpl. rewrite list_elem_of_fmap.
  assert (forall p, p ∈ box g -> runs l p (mkDispatchInfo (Some k) (calculateDispatchDim g zero3) g zero3 zero3 g l n n (swgs d)) = true) as Hr.
  { intros p Hp'%elem_of_box. assert (forall a b c, 0 < b -> 0 <= a < c * b -> runs1 b 0 c b a = true) as R1.
    { intros a b c Hb Hab. unfold runs1. rewrite !bool_decide_true; [done|by apply Z.mod_pos_bound|apply Z.div_lt_upper_bound; lia|apply Z.div_pos; lia]. }
    unfold runs. simpl. rewrite Hs. simpl. rewrite !R1 by lia. done. }
  split.
  - intros (p & -> & Hp'%list_elem_of_filter). exists p. by destruct Hp'.
  - intros (p & Hp' & ->). exists p. split; [done|]. apply list_elem_of_filter. split; [by apply Hr|done].
Qed.

Lemma bake_empty d : nonEmpty (dim d) (gws d) = false -> bakeInfo None d = Some [].
Proof. unfold bakeInfo. by intros ->. Qed.

Lemma split1D_spec left middle right a b c : 0 <= a < 2 ^ 64 -> 0 <= b < 2 ^ 64 -> 0 <= c < 2 ^ 64 ->
  exists out, split1D left middle right a b c = Some out /\
    forall i, i ∈ items out <-> exists n k, (k = left /\ 0 <= n < a \/ k = middle /\ 0 <= n < b \/ k = right /\ 0 <= n < c) /\ i = workItem k (mkVec3 n 0 0).
Proof.
  intros Ha Hb Hc.
  assert (forall k n, 0 <= n < 2 ^ 64 -> exists out, bakeInfo None (mkDispatchInfo (Some k) 1 (mkVec3 n 0 0) zero3 zero3 zero3 zero3 zero3 zero3 zero3) = Some out /\
    forall i, i ∈ items out <-> exists q, 0 <= q < n /\ i = workItem k (mkVec3 q 0 0)) as H.
  { intros k n Hn. destruct (decide (n = 0)) as [->|Hz].
    - exists []. split; [done|]. intros i. split; [intros Hi; by apply elem_of_nil in Hi|intros (q & Hq & _); lia].
    - destruct (bake_plain (mkDispatchInfo (Some k) 1 (mkVec3 n 0 0) zero3 zero3 zero3 zero3 zero3 zero3 zero3) k (mkVec3 n 1 1)) as (d' & E & Hi); try done.
      + unfold nonEmpty. simpl. rewrite bool_decide_true by lia. done.
      + unfold canonizeWorkgroup. simpl. by rewrite decide_True by lia.
      + unfold pos3. simpl. lia.
      + simpl. lia.
      + exists [d']. split; [exact E|]. intros i. unfold items. simpl. rewrite app_nil_r, Hi. split.
        * intros (p & Hp%elem_of_box & ->). simpl in Hp. exists (x p). split; [lia|]. f_equal. destruct p as [px py pz]. simpl in *. f_equal; lia.
        * intros (q & Hq & ->). exists (mkVec3 q 0 0). split; [apply elem_of_box; simpl; lia|done]. }
  destruct (H left a Ha) as (o1 & E1 & H1), (H middle b Hb) as (o2 & E2 & H2), (H right c Hc) as (o3 & E3 & H3).
  exists (o1 ++ o2 ++ o3). unfold split1D, bake. cbv zeta. simpl. unfold setKernelInfo. simpl. rewrite E1, E2, E3. simpl. rewrite app_nil_r. split; [done|].
  intros i. unfold items in *. rewrite !bind_app, !elem_of_app, H1, H2, H3. naive_solver.
Qed.

(** The pairs of the three walkers. *)
Lemma split1D_pairs left middle right a b c (R1 R2 R3 : Z -> Z -> Prop) : 0 <= a < 2 ^ 64 -> 0 <= b < 2 ^ 64 -> 0 <= c < 2 ^ 64 ->
  (forall d s, (exists q, 0 <= q < a /\ (d, s) ∈ workItem left (mkVec3 q 0 0)) <-> R1 d s) ->
  (forall d s, (exists q, 0 <= q < b /\ (d, s) ∈ workItem middle (mkVec3 q 0 0)) <-> R2 d s) ->
  (forall d s, (exists q, 0 <= q < c /\ (d, s) ∈ workItem right (mkVec3 q 0 0)) <-> R3 d s) ->
  exists out, split1D left middle right a b c = Some out /\ forall d s, (d, s) ∈ mjoin (items out) <-> R1 d s \/ R2 d s \/ R3 d s.
Proof.
  intros Ha Hb Hc H1 H2 H3. destruct (split1D_spec left middle right a b c Ha Hb Hc) as (out & E & Hi). exists out. split; [exact E|].
  intros d s. rewrite elem_of_mjoin, <- H1, <- H2, <- H3. split.
  - intros (i & Hi' & Hm). apply Hi in Hi' as (q & k & [[-> Hq]|[[-> Hq]|[-> Hq]]] & ->); [left|right; left|right; right]; by exists q.
  - intros [(q & Hq & Hm)|[(q & Hq & Hm)|(q & Hq & Hm)]]; eexists; (split; [apply Hi; exists q; eexists; split; [|reflexivity]|exact Hm]); [left|right; left|right; right]; done.
Qed.
End walkers.

(** ** Walkers without a split *)

Section rect_walker.
Context `{D : WorkSizeDeduction BuiltinKernel} (all_ok : forall k : BuiltinKernel, kernel_ok k).

Lemma copyBufferRect_items p : pos3 (opSize p) -> x (opSize p) * y (opSize p) * z (opSize p) < 2 ^ 64 ->
  exists out, copyBufferRect p = Some out /\ forall i, i ∈ items out <-> exists q, q ∈ box (opSize p) /\ i = workItem (rectKernel p) q.
Proof.
  intros Hg Hb. destruct (bake_plain all_ok (mkDispatchInfo (Some (rectKernel p)) 3 (opSize p) zero3 zero3 zero3 zero3 zero3 zero3 zero3) (rectKernel p) (opSize p)) as (d' & E & Hi);
    [by split_and!|by apply nonEmpty_pos|by apply canonize_pos|done|done|done|].
  exists [d']. split; [|intros i; unfold items; simpl; by rewrite app_nil_r].
  unfold copyBufferRect, bake. cbv zeta. simpl. unfold setKernelInfo. simpl. by rewrite E.
Qed.
End rect_walker.

(** ** Copies *)

Ltac destruct_exists := repeat match goal with H : exists _, _ |- _ => destruct H end.

Definition spans (d s n d' s' : Z) : Prop := exists i, 0 <= i < n /\ d' = d + i /\ s' = s + i.

Lemma splitSizes_spec start n : 0 <= start -> 0 <= n -> start + n < 2 ^ 64 ->
  exists l m r, splitSizes start n = (l, m, r) /\ 0 <= l /\ 0 <= m /\ 0 <= r /\ l + m + r = n /\ m mod 64 = 0 /\ (0 < m + r -> (start + l) mod 64 = 0).
Proof.
  intros Hs Hn Hb. unfold splitSizes. unwrap. pose proof (Z.mod_pos_bound start 64 ltac:(lia)). pose proof (Z.mod_pos_bound (start + n) 64 ltac:(lia)).
  eexists _, _, _. split; [done|]. case_decide; Z.div_mod_to_equations; split_and!; lia.
Qed.

(** The parts of a fill start at multiples of the pattern's size. *)
Lemma splitSizes_pattern start n k : 0 <= start -> 0 <= n -> start + n < 2 ^ 64 -> 0 <= k <= 7 -> start mod 2 ^ k = 0 -> n mod 2 ^ k = 0 ->
  exists l m r, splitSizes start n = (l, m, r) /\ 0 <= l /\ 0 <= m /\ 0 <= r /\ l + m + r = n /\ m mod 4 = 0 /\
    (0 < m + r -> l mod 2 ^ k = 0) /\ (0 < r -> (l + m) mod 2 ^ k = 0).
Proof.
  intros Hs Hn Hb Hk Ms Mn. destruct (splitSizes_spec start n Hs Hn Hb) as (l & m & r & E & Hl & Hm & Hr & Hsum & Hm64 & Hal).
  exists l, m, r. split; [done|]. split_and!; try lia; [Z.div_mod_to_equations; lia|..]; (assert (k = 7 \/ k <= 6) as [->|Hk6] by lia; [
    (* the last part of a pattern of two cache lines *)
    assert (start mod 64 = 0 /\ (start + n) mod 64 = 0) as [A B] by (change (2 ^ 7) with 128 in *; Z.div_mod_to_equations; lia);
    revert E; unfold splitSizes; unwrap; rewrite A, B; intros [= <- <- <-]; intros; change (2 ^ 7) with 128 in *; Z.div_mod_to_equations; lia|]).
  all: assert (k = 0 \/ k = 1 \/ k = 2 \/ k = 3 \/ k = 4 \/ k = 5 \/ k = 6) as Hc by lia; intros Hp; specialize (Hal ltac:(lia));
    destruct_or! Hc; subst k; match goal with |- _ mod ?p = 0 => let q := eval vm_compute in p in change p with q in * end; Z.div_mod_to_equations; lia.
Qed.

Section copies.
Context `{D : WorkSizeDeduction BuiltinKernel} (all_ok : forall k : BuiltinKernel, kernel_ok k).

(** The bytes that left and right items copy. *)
Lemma byte_pairs ps pd so d k n : (forall q, workItem k (mkVec3 q 0 0) = copyByte ps pd (w32 so) (w32 d) (w32 q)) ->
  0 <= so -> 0 <= d -> so + n <= 2 ^ 32 -> d + n <= 2 ^ 32 ->
  forall d' s', (exists q, 0 <= q < n /\ (d', s') ∈ workItem k (mkVec3 q 0 0)) <-> spans (pd + d) (ps + so) n d' s'.
Proof.
  intros Hk Hs Hd Hsn Hdn d' s'. unfold spans. split; intros (q & Hq & H); exists q; (split; [lia|]); revert H; rewrite Hk; unfold copyByte; rewrite list_elem_of_singleton; unwrap.
  - intros [= -> ->]. lia.
  - intros [-> ->]. f_equal; lia.
Qed.

Lemma middle_pairs ps pd so d n : so mod 4 = 0 -> d mod 4 = 0 -> 0 <= so < 2 ^ 32 -> 0 <= d < 2 ^ 32 -> 0 <= n <= 2 ^ 32 -> n mod 16 = 0 ->
  forall d' s', (exists q, 0 <= q < n / 16 /\ (d', s') ∈ workItem (CopyBufferToBufferMiddle ps pd (w32 so) (w32 d)) (mkVec3 q 0 0)) <-> spans (pd + d) (ps + so) n d' s'.
Proof.
  intros Hs Hd Hs' Hd' Hn Hm d' s'. unfold workItem, copyWords, spans. cbn [x]. rewrite (wrap_small 32 so), (wrap_small 32 d), !Z.shiftr_div_pow2 by word_lia. change (2 ^ 2) with 4. split.
  - intros (q & Hq & H). rewrite (wrap_small 32 q) in H by (Z.div_mod_to_equations; word_lia). apply list_elem_of_fmap in H as (j & [= -> ->] & Hj%elem_of_seqZ). exists (16 * q + j). Z.div_mod_to_equations. lia.
  - intros (i & Hi & -> & ->). exists (i / 16). split; [Z.div_mod_to_equations; lia|]. rewrite (wrap_small 32 (i / 16)) by (Z.div_mod_to_equations; word_lia).
    apply list_elem_of_fmap. exists (i mod 16). split; [f_equal; Z.div_mod_to_equations; lia|]. apply elem_of_seqZ. Z.div_mod_to_equations. lia.
Qed.

Record copy_ok (p : BuiltinOpParams) : Prop := {
  co_src : 0 <= srcPtr p;
  co_dst : 0 <= dstPtr p;
  co_words : 64 <= x (opSize p) -> (srcPtr p + x (srcOffset p)) mod 4 = (dstPtr p + x (dstOffset p)) mod 4 ->
    srcPtr p mod 4 = 0 /\ dstPtr p mod 4 = 0;
  co_srcOffset : 0 <= x (srcOffset p);
  co_dstOffset : 0 <= x (dstOffset p);
  co_size : 0 <= x (opSize p);
  co_src32 : x (srcOffset p) + x (opSize p) < 2 ^ 32;
  co_dst32 : x (dstOffset p) + x (opSize p) < 2 ^ 32;
  co_src64 : srcPtr p + x (srcOffset p) + x (opSize p) < 2 ^ 64;
  co_dst64 : dstPtr p + x (dstOffset p) + x (opSize p) < 2 ^ 64 }.

Lemma copyBufferToBuffer_pairs p : copy_ok p ->
  let s := kernelPointer (srcSvmAlloc p) (srcMemObj p) (srcPtr p) + x (srcOffset p) in
  let d := kernelPointer (dstSvmAlloc p) (dstMemObj p) (dstPtr p) + x (dstOffset p) in
  exists out, copyBufferToBuffer p = Some out /\ forall d' s', (d', s') ∈ mjoin (items out) <-> spans d s (x (opSize p)) d' s'.
Proof.
  intros [S0 D0 W4 Hs Hd Hn Hs32 Hd32 Hs64 Hd64]. unfold copyBufferToBuffer. cbv zeta.
  set (A0 := kernelPointer _ (srcMemObj p) _). set (A1 := kernelPointer _ (dstMemObj p) _).
  set (s := x (srcOffset p)) in *. set (d := x (dstOffset p)) in *. set (n := x (opSize p)) in *. rewrite (wrap_small 64 (dstPtr p + d)) by word_lia.
  destruct (splitSizes_spec (dstPtr p + d) n) as (l & m & r & -> & Hl & Hm & Hr & Hsum & Hm64 & Hal); [lia..|].
  assert (exists l' m', (if isAligned 4 (w64 (srcPtr p + s + l)) then (l, m) else (l + m, 0)) = (l', m') /\ 0 <= l' /\ 0 <= m' /\ l' + m' + r = n /\ m' mod 16 = 0 /\
    (0 < m' -> (s + l') mod 4 = 0 /\ (d + l') mod 4 = 0)) as (l' & m' & -> & Hl' & Hm' & Hsum' & Hm16 & Hal').
  { unfold isAligned. case_bool_decide as Hc; eexists _, _; (split; [done|]).
    - rewrite (wrap_small 64) in Hc by word_lia. split_and!; try lia; [Z.div_mod_to_equations; lia|]. intros Hp. specialize (Hal ltac:(lia)).
      destruct W4 as [S4 D4]; [Z.div_mod_to_equations; lia..|]. split; Z.div_mod_to_equations; lia.
    - split_and!; try lia; done. }
  edestruct (split1D_pairs all_ok (CopyBufferToBufferLeftLeftover A0 A1 (w32 s) (w32 d)) (CopyBufferToBufferMiddle A0 A1 (w32 (s + l')) (w32 (d + l')))
    (CopyBufferToBufferRightLeftover A0 A1 (w32 (s + l' + m')) (w32 (d + l' + m'))) l' (m' / 16) r (spans (A1 + d) (A0 + s) l')
    (spans (A1 + (d + l')) (A0 + (s + l')) m') (spans (A1 + (d + l' + m')) (A0 + (s + l' + m')) r)) as (out & E & Hi); [lia|Z.div_mod_to_equations; lia|lia|..].
  { apply byte_pairs; (done || lia). }
  { destruct (decide (0 < m')) as [Hp|Hp]; [destruct (Hal' Hp); apply middle_pairs; (done || lia)|]. assert (m' = 0) as -> by lia. change (0 / 16) with 0.
    unfold spans. split; intros (q & Hq & _); lia. }
  { apply byte_pairs; (done || lia). }
  exists out. split; [exact E|]. intros d' s'. rewrite Hi.
  unfold spans. split.
  - intros [(i & Hi' & -> & ->)|[(i & Hi' & -> & ->)|(i & Hi' & -> & ->)]]; [exists i|exists (l' + i)|exists (l' + m' + i)]; lia.
  - intros (i & Hi' & -> & ->). destruct (decide (i < l')); [left; exists i; lia|]. destruct (decide (i < l' + m')); [right; left; exists (i - l'); lia|right; right; exists (i - l' - m'); lia].
Qed.

Lemma alignDown4 a : 0 <= a < 2 ^ 64 -> alignDown 64 a 4 = a - a mod 4.
Proof. intros Ha. by apply (alignDown_spec 64 a 2); [word_lia|lia..]. Qed.

Lemma transfer_copy_ok t : transfer_ok t ->
  copy_ok (transferParams t) /\ x (opSize (transferParams t)) = transferBytes t /\
  kernelPointer (srcSvmAlloc (transferParams t)) (srcMemObj (transferParams t)) (srcPtr (transferParams t)) + x (srcOffset (transferParams t)) = transferSource t /\
  kernelPointer (dstSvmAlloc (transferParams t)) (dstMemObj (transferParams t)) (dstPtr (transferParams t)) + x (dstOffset (transferParams t)) = transferTarget t.
Proof.
  intros [Hn Ho _]. destruct t; simpl in *; unfold enqueueReadBuffer, enqueueWriteBuffer; cbv zeta; simpl; rewrite ?alignDown4 by lia.
  3,4: split_and!; [split|..]; simpl; rewrite ?Z.add_0_r; intros; first [done|lia|split; naive_solver].
  all: rewrite (wrap_small 64 (hostPtr - _)) by (Z.div_mod_to_equations; word_lia); split_and!; try lia.
  all: split; simpl; intros; Z.div_mod_to_equations; lia.
Qed.
End copies.

(** ** Patterns *)

Lemma validPatternSize_pow ps : validPatternSize ps = true -> 0 <= ps < 2 ^ 32 -> exists k, 0 <= k <= 7 /\ ps = 2 ^ k.
Proof.
  unfold validPatternSize. intros H%bool_decide_eq_true Hp. rewrite wrap_small in H by word_lia. rewrite !elem_of_cons, elem_of_nil in H.
  destruct_or! H; subst ps; [exists 7|exists 6|exists 5|exists 4|exists 3|exists 2|exists 1|exists 0]; done.
Qed.

Lemma fill_pattern_pow f pattern patternPtr : fill_ok f pattern patternPtr -> exists k, 0 <= k <= 7 /\ Z.of_nat (length pattern) = 2 ^ k.
Proof. intros [[H1 H2] _ _ _ _ _]. apply validPatternSize_pow; [done|lia]. Qed.

Lemma le_bytes_4 b0 b1 b2 b3 : 0 <= b0 < 256 -> 0 <= b1 < 256 -> 0 <= b2 < 256 -> 0 <= b3 < 256 ->
  le 4 (b0 + 256 * b1 + 65536 * b2 + 16777216 * b3) = [b0; b1; b2; b3].
Proof. intros H0 H1 H2 H3. cbn [le]. repeat f_equal; Z.div_mod_to_equations; lia. Qed.

Lemma patternMemObjSize_spec pattern k : 0 <= k <= 7 -> Z.of_nat (length pattern) = 2 ^ k -> patternMemObjSize pattern = 2 ^ Z.max k 2.
Proof.
  intros Hk Hl. unfold patternMemObjSize. rewrite Hl. assert (k = 0 \/ k = 1 \/ k = 2 \/ k = 3 \/ k = 4 \/ k = 5 \/ k = 6 \/ k = 7) as Hc by lia.
  destruct_or! Hc; subst k; by vm_compute.
Qed.

Lemma patternBytes_spec pattern k i : 0 <= k <= 7 -> Z.of_nat (length pattern) = 2 ^ k -> Forall (fun b => 0 <= b < 256) pattern ->
  0 <= i < patternMemObjSize pattern -> nth (Z.to_nat i) (patternBytes pattern) 0 = nth (Z.to_nat (i mod Z.of_nat (length pattern))) pattern 0.
Proof.
  intros Hk Hl Hb Hi. rewrite (patternMemObjSize_spec pattern k Hk Hl) in Hi. unfold patternBytes. rewrite Hl.
  assert (k = 0 \/ k = 1 \/ 2 <= k) as [->|[->|H2]] by lia.
  - destruct pattern as [|b [|]]; [done| |simpl in Hl; lia]. apply Forall_cons in Hb as [Hb _]. rewrite decide_True by done. simpl take. cbn [unle]. rewrite Z.mul_0_r, Z.add_0_r.
    rewrite !Z.shiftl_mul_pow2 by lia. replace (w32 _) with (b + 256 * b + 65536 * b + 16777216 * b).
    + rewrite le_bytes_4 by done. rewrite Z.mod_1_r. assert (i = 0 \/ i = 1 \/ i = 2 \/ i = 3) as [->|[->|[->| ->]]] by (change (2 ^ Z.max _ 2) with 4 in Hi; lia); done.
    + assert (forall v u n, 0 <= n -> 0 <= u < 2 ^ n -> Z.lor (v * 2 ^ n) u = u + v * 2 ^ n) as L by (intros; rewrite Z.lor_comm; by apply lor_high_add).
      rewrite L by lia. replace (b * 2 ^ 16 + b * 2 ^ 24) with ((b + b * 2 ^ 8) * 2 ^ 16) by lia. rewrite L by lia.
      replace (b * 2 ^ 8 + (b + b * 2 ^ 8) * 2 ^ 16) with ((b + (b + b * 2 ^ 8) * 2 ^ 8) * 2 ^ 8) by lia. rewrite L by lia. unwrap. lia.
  - destruct pattern as [|b [|c [|]]]; [done|done| |simpl in Hl; lia]. apply Forall_cons in Hb as [Hb [Hc _]%Forall_cons]. rewrite decide_False, decide_True by done. simpl take. cbn [unle].
    rewrite Z.shiftl_mul_pow2, Z.lor_comm, lor_high_add by lia. unwrap. replace (_ + _) with (b + 256 * c + 65536 * b + 16777216 * c) by lia. rewrite le_bytes_4 by done.
    assert (i = 0 \/ i = 1 \/ i = 2 \/ i = 3) as [->|[->|[->| ->]]] by (change (2 ^ Z.max _ 2) with 4 in Hi; lia); done.
  - assert (2 ^ 2 <= 2 ^ k) by (apply Z.pow_le_mono_r; lia). rewrite !decide_False by (simpl in *; lia). rewrite Z.max_l in Hi by lia. by rewrite Z.mod_small by lia.
Qed.

Section operations.
Context `{D : WorkSizeDeduction BuiltinKernel} (all_ok : forall k : BuiltinKernel, kernel_ok k).

(** C6: reading, writing and copying a buffer and copying SVM copy every byte of
    the source to its place in the target and change nothing else, whatever the
    order in which the work items of the walkers run.  For SVM this excludes
    copies of a cache line or more whose two pointers are off a multiple of 4 by
    the same amount, which the code gets wrong
    ([unaligned_svm_copy_skips_bytes]); aligned pointers, pointers with different
    remainders and shorter copies are included.  The other conditions of
    [transfer_ok]: offsets and sizes below 4 GiB, and ranges that do not
    overlap. *)
Theorem transfers_copy t : transfer_ok t ->
  exists out, copyBufferToBuffer (transferParams t) = Some out /\ forall m order, order ≡ₚ items out ->
    (forall i, 0 <= i < transferBytes t -> execItems m order (transferTarget t + i) = m (transferSource t + i)) /\
    (forall a, ~ (transferTarget t <= a < transferTarget t + transferBytes t) -> execItems m order a = m a).
Proof.
  intros H. destruct (transfer_copy_ok t H) as (Hc & En & Es & Ed). destruct (copyBufferToBuffer_pairs all_ok _ Hc) as (out & E & Hp).
  rewrite En, Es, Ed in Hp. exists out. split; [done|]. intros m order Ho. pose proof (to_apart t H).
  destruct (execItems_any m (items out) order (spans (transferTarget t) (transferSource t) (transferBytes t))) as [H1 H2]; [done|done|unfold spans; intros; destruct_and?; destruct_exists; lia..|].
  split; [intros i Hi; apply H1; by exists i|]. intros a Ha. apply H2. unfold spans. intros s (i & Hi & -> & _). lia.
Qed.

(** Bytes of the pattern that left and right items write. *)
Lemma fill_byte_pairs pd pp d P n k :
  (forall q, workItem k (mkVec3 q 0 0) = fillByte pd (w32 d) pp (w32 P) (w32 q)) ->
  (exists e, 0 <= e < 32 /\ P = 2 ^ e) -> 0 <= d -> d + n <= 2 ^ 32 ->
  forall d' s', (exists q, 0 <= q < n /\ (d', s') ∈ workItem k (mkVec3 q 0 0)) <-> exists q, 0 <= q < n /\ d' = pd + (d + q) /\ s' = pp + q mod P.
Proof.
  intros Hk (e & He & ->) Hd Hdn d' s'. assert (2 ^ e < 2 ^ 32) by (apply Z.pow_lt_mono_r; lia).
  split; intros (q & Hq & H'); exists q; (split; [lia|]); revert H'; rewrite Hk; unfold fillByte; rewrite list_elem_of_singleton; unwrap;
    replace (2 ^ e - 1) with (Z.ones e) by (rewrite Z.ones_equiv; lia); rewrite Z.land_ones by lia.
  - intros [= -> ->]. lia.
  - intros [-> ->]. f_equal; lia.
Qed.

Lemma fill_middle_pairs pd pp d e n : 0 <= d < 2 ^ 32 -> 2 <= e < 32 -> 0 <= n < 2 ^ 32 -> n mod 4 = 0 ->
  forall d' s', (exists q, 0 <= q < n / 4 /\ (d', s') ∈ workItem (FillBufferMiddle pd (w32 d) pp (w32 (2 ^ e / 4))) (mkVec3 q 0 0)) <->
    exists q, 0 <= q < n /\ d' = pd + (d + q) /\ s' = pp + q mod 2 ^ e.
Proof.
  intros Hd He Hn Hm d' s'. assert (2 ^ e = 4 * 2 ^ (e - 2)) as E by (change 4 with (2 ^ 2); rewrite <- Z.pow_add_r by lia; f_equal; lia).
  assert (0 < 2 ^ (e - 2)) by lia. assert (2 ^ (e - 2) < 2 ^ 30) by (apply Z.pow_lt_mono_r; lia). rewrite E, (Z.mul_comm 4), Z.div_mul by lia. unfold workItem, fillWord. cbn [x].
  assert (forall q j, 0 <= q -> 0 <= j < 4 -> (4 * q + j) mod (2 ^ (e - 2) * 4) = 4 * (q mod 2 ^ (e - 2)) + j) as Hmod.
  { intros q j Hq Hj. symmetry. apply (Z.mod_unique _ _ (q / 2 ^ (e - 2))); Z.div_mod_to_equations; nia. }
  rewrite (wrap_small 32 d), (wrap_small 32 (2 ^ (e - 2))), (wrap_small 32 (2 ^ (e - 2) - 1)) by word_lia.
  replace (2 ^ (e - 2) - 1) with (Z.ones (e - 2)) by (rewrite Z.ones_equiv; lia). split.
  - intros (q & Hq & H'). rewrite (wrap_small 32 q) in H' by (Z.div_mod_to_equations; word_lia). apply list_elem_of_fmap in H' as (j & [= -> ->] & Hj%elem_of_seqZ).
    rewrite Z.land_ones by lia. exists (4 * q + j). rewrite Hmod by lia. Z.div_mod_to_equations. lia.
  - intros (i & Hi & -> & ->). exists (i / 4). split; [Z.div_mod_to_equations; lia|]. rewrite (wrap_small 32 (i / 4)) by (Z.div_mod_to_equations; word_lia).
    apply list_elem_of_fmap. exists (i mod 4). split; [|apply elem_of_seqZ; Z.div_mod_to_equations; lia]. rewrite Z.land_ones by lia.
    rewrite (Z.div_mod i 4) at 2 by lia. rewrite Hmod by (Z.div_mod_to_equations; lia). f_equal; Z.div_mod_to_equations; lia.
Qed.

Lemma fillBuffer_pairs f pattern patternPtr : fill_ok f pattern patternPtr ->
  exists out idx, fillBuffer (fillParams f) patternPtr (patternMemObjSize pattern) = Some out /\
    (forall d s, (d, s) ∈ mjoin (items out) <-> exists i, 0 <= i < fillBytes f /\ d = fillTarget f + i /\ s = patternPtr + idx i) /\
    (forall i, 0 <= i < fillBytes f -> 0 <= idx i < patternMemObjSize pattern /\ idx i mod Z.of_nat (length pattern) = i mod Z.of_nat (length pattern)).
Proof.
  intros Hf. destruct (fill_pattern_pow _ _ _ Hf) as (k & Hk & HP). destruct Hf as [_ _ (S0 & Smod & S64) (N0 & Nmod) Ho _]. rewrite (patternMemObjSize_spec pattern k Hk HP). rewrite HP in *.
  set (P := 2 ^ Z.max k 2) in *. set (pd := kernelPointer (dstSvmAlloc (fillParams f)) (dstMemObj (fillParams f)) (dstPtr (fillParams f))).
  set (d := x (dstOffset (fillParams f))).
  assert (pd + d = fillTarget f /\ dstPtr (fillParams f) + d = fillStart f /\ x (opSize (fillParams f)) = fillBytes f /\ 0 <= d /\ d + fillBytes f < 2 ^ 32) as (Et & Es & En & D0 & D32)
    by (destruct f; unfold pd, d; simpl in *; lia).
  assert (exists e, 0 <= e <= 7 /\ 2 <= e /\ P = 2 ^ e) as (e & He & He2 & HPe) by (exists (Z.max k 2); unfold P; lia).
  assert (exists c, P = c * 2 ^ k) as (c & Hc) by (exists (2 ^ (Z.max k 2 - k)); unfold P; rewrite <- Z.pow_add_r by lia; f_equal; lia).
  assert (0 < 2 ^ k) as K0 by lia. assert (4 <= P < 2 ^ 32) as PB.
  { rewrite HPe. split; [change 4 with (2 ^ 2); apply Z.pow_le_mono_r; lia|]. apply Z.pow_lt_mono_r; lia. }
  unfold fillBuffer. cbv zeta. fold d pd. rewrite Es, En, (wrap_small 64 (fillStart f)) by word_lia. set (n := fillBytes f) in *.
  destruct (splitSizes_pattern (fillStart f) n k) as (l & m & r & -> & Hl & Hm & Hr & Hsum & Hm4 & Hal & Har); [lia..|done|done|].
  set (written := fun start n (d' s' : Z) => exists q, 0 <= q < n /\ d' = pd + (start + q) /\ s' = patternPtr + q mod P).
  destruct (split1D_pairs all_ok (FillBufferLeftLeftover pd (w32 d) patternPtr (w32 P)) (FillBufferMiddle pd (w32 (d + l)) patternPtr (w32 (P / 4)))
    (FillBufferRightLeftover pd (w32 (d + l + m)) patternPtr (w32 P)) l (m / 4) r (written d l) (written (d + l) m) (written (d + l + m) r))
    as (out & E & Hi); [lia|Z.div_mod_to_equations; lia|lia|..].
  { apply fill_byte_pairs; [done|exists e; lia|lia..]. }
  { unfold written. rewrite HPe. apply fill_middle_pairs; (done || lia). }
  { apply fill_byte_pairs; [done|exists e; lia|lia..]. }
  exists out, (fun i => (if decide (i < l) then i else if decide (i < l + m) then i - l else i - l - m) mod P). split; [exact E|]. split.
  - intros d' s'. rewrite Hi, <- Et. unfold written. split.
    + intros [(q & Hq & -> & ->)|[(q & Hq & -> & ->)|(q & Hq & -> & ->)]]; [exists q|exists (l + q)|exists (l + m + q)]; (split; [lia|]); (split; [lia|]); do 2 f_equal;
        repeat case_decide; lia.
    + intros (i & Hi' & -> & ->). case_decide; [left; exists i; lia|]. case_decide; [right; left; exists (i - l); lia|right; right; exists (i - l - m)]. split; [lia|]. split; [lia|done].
  - intros i Hi'. split; [apply Z.mod_pos_bound; lia|]. rewrite Z.mod_mod_divide by (exists c; done).
    repeat case_decide; [done|rewrite Zminus_mod, Hal by lia|replace (i - l - m) with (i - (l + m)) by lia; rewrite Zminus_mod, Har by lia]; by rewrite Z.sub_0_r, Z.mod_mod by lia.
Qed.

(** C31: filling a buffer or SVM with a pattern of a size that the entry point accepts
    leaves byte i of the target equal to byte (i mod pattern size) of the pattern
    and changes nothing else, whatever the order in which the items run. *)
Theorem fill_repeats_pattern f pattern patternPtr : fill_ok f pattern patternPtr ->
  exists out, fillBuffer (fillParams f) patternPtr (patternMemObjSize pattern) = Some out /\ forall m order, order ≡ₚ items out ->
    (forall k, 0 <= k < patternMemObjSize pattern -> m (patternPtr + k) = nth (Z.to_nat k) (patternBytes pattern) 0) ->
    (forall i, 0 <= i < fillBytes f -> execItems m order (fillTarget f + i) = nth (Z.to_nat (i mod Z.of_nat (length pattern))) pattern 0) /\
    (forall a, ~ (fillTarget f <= a < fillTarget f + fillBytes f) -> execItems m order a = m a).
Proof.
  intros Hf. destruct (fillBuffer_pairs f pattern patternPtr Hf) as (out & idx & E & Hp & Hidx). exists out. split; [exact E|]. intros m order Ho Hm.
  destruct (fill_pattern_pow _ _ _ Hf) as (k & Hk & HP). destruct Hf as [_ Hb _ _ _ Ha].
  destruct (execItems_any m (items out) order (fun d s => exists i, 0 <= i < fillBytes f /\ d = fillTarget f + i /\ s = patternPtr + idx i) Ho Hp) as [H1 H2].
  - intros d s s' (i & Hi & -> & ->) (i' & Hi' & E' & ->). by assert (i' = i) as -> by lia.
  - intros d s d' s' (i & Hi & -> & ->) (i' & Hi' & -> & ->). destruct (Hidx i' Hi'). lia.
  - split.
    + intros i Hi. destruct (Hidx i Hi) as [Hr Hmod]. rewrite (H1 _ (patternPtr + idx i)) by (exists i; lia). rewrite Hm by done.
      by rewrite (patternBytes_spec pattern k) by (done || lia); rewrite Hmod.
    + intros a Hna. apply H2. intros s (i & Hi & -> & _). lia.
Qed.
End operations.

(** ** Examples *)

(** The kernels of the driver's own deduction, with SIMD 16. *)
Definition demo_builtins : WorkSizeDeduction BuiltinKernel.
Proof.
  refine {| deduceLws := fun k => @deduceLws _ demo_deduction ((fun _ => demo_kernel) <$> k); kernel_ok := fun _ => True |}.
  intros k gws dim _ Hg. apply (@deduce_valid _ demo_deduction demo_kernel gws dim); [|exact Hg]. split_and!; [by right; left|by vm_compute|]. exists 8. by split.
Defined.

Lemma demo_builtins_ok k : @kernel_ok _ demo_builtins k.
Proof. done. Qed.

(** A read to an unaligned host pointer, with the items run backwards. *)
Example transfers_copy_witness :
  let t := ReadBuffer 0x10000 7 200 0x20003 in
  exists out, @copyBufferToBuffer demo_builtins (transferParams t) = Some out /\ length out = 3%nat /\
    forall m, execItems m (rev (items out)) (0x20003 + 199) = m (0x10007 + 199).
Proof.
  intros t. destruct (@transfers_copy demo_builtins demo_builtins_ok t) as (out & E & H).
  - split; simpl; lia.
  - exists out. split; [exact E|]. split; [vm_compute in E; injection E as <-; reflexivity|]. intros m.
    destruct (H m (rev (items out))) as [H1 _]; [symmetry; apply Permutation_rev|]. apply (H1 199). simpl. lia.
Defined.

(** Ten bytes with a pattern of one byte. *)
Example fill_repeats_pattern_witness :
  let f := FillBuffer 0x10000 59 10 in
  exists out, @fillBuffer demo_builtins (fillParams f) 0x40000 4 = Some out /\ length out = 2%nat /\
    forall m, (forall k, 0 <= k < 4 -> m (0x40000 + k) = 7) -> execItems m (items out) (0x10000 + 68) = 7.
Proof.
  intros f. destruct (@fill_repeats_pattern demo_builtins demo_builtins_ok f [7] 0x40000) as (out & E & H).
  - split.
    + by vm_compute.
    + by repeat constructor.
    + by vm_compute.
    + by vm_compute.
    + done.
    + left. by vm_compute.
  - exists out. split; [exact E|]. split; [vm_compute in E; injection E as <-; reflexivity|]. intros m Hm.
    destruct (H m (items out)) as [H1 _]; [reflexivity| |apply (H1 9); simpl; lia].
    intros k Hk. change (patternMemObjSize [7]) with 4 in Hk. rewrite Hm by done.
    assert (k = 0 \/ k = 1 \/ k = 2 \/ k = 3) as [->|[->|[->| ->]]] by lia; reflexivity.
Defined.

(** Property: an SVM copy between pointers that are both one more than a multiple of 4
    gives the middle kernel, which counts in words from the pointers, a byte
    offset that is no multiple of 4: of 256 bytes to copy, the kernels leave
    bytes 252 to 254 of the target as they were. *)
Theorem unaligned_svm_copy_skips_bytes :
  match @copyBufferToBuffer demo_builtins (transferParams (SVMMemcpy 0x1001 0x2001 256)) with
  | Some out =>
      let m a := if decide (0x2001 <= a < 0x2101) then 1 else 0 in
      filter (fun i => execItems m (items out) (0x1001 + i) = 0) (seqZ 0 256) = [252; 253; 254]
  | None => False
  end.
Proof. vm_compute. reflexivity. Qed.

(** The cast to 32 bits lets a size above 4 GiB through. *)
Example large_pattern_accepted : validPatternSize (2 ^ 32 + 4) = true.
Proof. reflexivity. Qed.
