(* ===== verification/BufferRect.v ===== *)
(** * Rectangles of buffers

    [Buffer::bufferRectPitchSet] and [Buffer::calculateHostPtrSize] of
    [mem_obj/buffer.cpp], and the commands that copy a rectangle
    ([command_queue/enqueue_*_buffer_rect.h]) with the builder [copyBufferRect] of
    [BuiltinCopy].  Sizes, origins and pitches are 64-bit and wrap.  [None] is a
    division by zero.  Left out: the host pointer's address in GPU space, a
    parameter, and buffers whose memory is the host's, which need no copy. *)

From S2P Require Import Prelude.
From S2P Require Import AlignedMemory.
From S2P Require Import LocalWorkSize.
From S2P Require Import Dispatch.
From S2P Require Import BuiltinCopy.

(** ** Pitches *)

(** In the checks, side 1 is the buffer and side 2 the host pointer. *)
Record Pitches := mkPitches { rowPitch1 : Z; slicePitch1 : Z; rowPitch2 : Z; slicePitch2 : Z }.

(** Whether a slice is shorter than its rows or no multiple of a row. *)
Definition badSlice (region : Vec3) (slice row : Z) : option bool :=
  if decide (slice < w64 (y region * row)) then Some true
  else if decide (row = 0) then None
  else Some (bool_decide (slice mod row <> 0)).

(** Whether the pitches are accepted, and their new values. *)
Definition bufferRectPitchSet (getSize : Z) (bufferOrigin region : Vec3) (p : Pitches) : option (bool * Pitches) :=
  let bufferRowPitch := if decide (rowPitch1 p = 0) then x region else rowPitch1 p in
  let bufferSlicePitch := if decide (slicePitch1 p = 0) then w64 (y region * bufferRowPitch) else slicePitch1 p in
  let hostRowPitch := if decide (rowPitch2 p = 0) then x region else rowPitch2 p in
  let hostSlicePitch := if decide (slicePitch2 p = 0) then w64 (y region * hostRowPitch) else slicePitch2 p in
  let p' := mkPitches bufferRowPitch bufferSlicePitch hostRowPitch hostSlicePitch in
  if decide (bufferRowPitch < x region \/ hostRowPitch < x region) then Some (false, p') else
  b1 ← badSlice region bufferSlicePitch bufferRowPitch;
  b2 ← (if b1 : bool then Some true else badSlice region hostSlicePitch hostRowPitch);
  if b2 : bool then Some (false, p') else
  let lastByte := w64 (w64 (z bufferOrigin + z region - 1) * bufferSlicePitch + w64 (y bufferOrigin + y region - 1) * bufferRowPitch + x bufferOrigin + x region) in
  if decide (lastByte > getSize) then Some (false, p') else Some (true, p').

Definition calculateHostPtrSize (origin region : Vec3) (rowPitch slicePitch : Z) : Z :=
  let hostPtrOffsetInBytes := w64 (z origin * slicePitch + y origin * rowPitch + x origin) in
  let hostPtrRegionSizeInbytes := w64 (x region + rowPitch * w64 (y region - 1) + slicePitch * w64 (z region - 1)) in
  w64 (hostPtrOffsetInBytes + hostPtrRegionSizeInbytes).

(** ** Commands *)

(** Origins and pitches of the two sides. *)
Record RectArgs := mkRectArgs { srcOrigin : Vec3; dstOrigin : Vec3; region : Vec3; rowPitchS : Z; slicePitchS : Z; rowPitchD : Z; slicePitchD : Z }.
Inductive RectTransfer :=
  | ReadBufferRect (buffer hostPtr : Z)
  | WriteBufferRect (buffer hostPtr : Z)
  | CopyBufferRect (srcBuffer dstBuffer : Z).

Definition addX (v : Vec3) (d : Z) : Vec3 := mkVec3 (w64 (x v + d)) (y v) (z v).
Definition rectOp (sp dp : Z) (sm dm : option Z) (so d : Vec3) (r : RectArgs) : BuiltinOpParams :=
  mkParams sp dp sm dm false false so d (region r) (rowPitchS r) (rowPitchD r) (slicePitchS r) (slicePitchD r).
Definition enqueueReadBufferRect (buffer hostPtr : Z) (r : RectArgs) : BuiltinOpParams :=
  let alignedDstPtr := alignDown 64 hostPtr 4 in
  rectOp 0 alignedDstPtr (Some buffer) None (srcOrigin r) (addX (dstOrigin r) (w64 (hostPtr - alignedDstPtr))) r.
Definition enqueueWriteBufferRect (buffer hostPtr : Z) (r : RectArgs) : BuiltinOpParams :=
  let alignedSrcPtr := alignDown 64 hostPtr 4 in
  rectOp alignedSrcPtr 0 None (Some buffer) (addX (srcOrigin r) (w64 (hostPtr - alignedSrcPtr))) (dstOrigin r) r.
Definition enqueueCopyBufferRect (srcBuffer dstBuffer : Z) (r : RectArgs) : BuiltinOpParams :=
  rectOp 0 0 (Some srcBuffer) (Some dstBuffer) (srcOrigin r) (dstOrigin r) r.
Definition rectParams (t : RectTransfer) (r : RectArgs) : BuiltinOpParams :=
  match t with
  | ReadBufferRect buffer hostPtr => enqueueReadBufferRect buffer hostPtr r
  | WriteBufferRect buffer hostPtr => enqueueWriteBufferRect buffer hostPtr r
  | CopyBufferRect srcBuffer dstBuffer => enqueueCopyBufferRect srcBuffer dstBuffer r
  end.

(** ** What is to be copied *)

Definition rectByte (base : Z) (origin : Vec3) (row slice : Z) (p : Vec3) : Z := base + (x origin + x p) + (y origin + y p) * row + (z origin + z p) * slice.
Definition rectSource (t : RectTransfer) (r : RectArgs) (p : Vec3) : Z :=
  rectByte (match t with ReadBufferRect buffer _ => buffer | WriteBufferRect _ hostPtr => hostPtr | CopyBufferRect s _ => s end) (srcOrigin r) (rowPitchS r) (slicePitchS r) p.
Definition rectTarget (t : RectTransfer) (r : RectArgs) (p : Vec3) : Z :=
  rectByte (match t with ReadBufferRect _ hostPtr => hostPtr | WriteBufferRect buffer _ => buffer | CopyBufferRect _ d => d end) (dstOrigin r) (rowPitchD r) (slicePitchD r) p.

(** A rectangle whose rows and slices do not overlap and whose extent fits 32 bits.
    The command that copies between buffers does not see to it: it passes on
    pitches of zero. *)
Record side_ok (origin region : Vec3) (row slice : Z) : Prop := {
  so_origin : 0 <= x origin /\ 0 <= y origin /\ 0 <= z origin;
  so_row : x region <= row;
  so_slice : y region * row <= slice;
  so_extent : x origin + x region + (y origin + y region) * row + (z origin + z region) * slice + 4 <= 2 ^ 32 }.

Record rect_ok (t : RectTransfer) (r : RectArgs) : Prop := {
  ro_region : pos3 (region r);
  ro_src : side_ok (srcOrigin r) (region r) (rowPitchS r) (slicePitchS r);
  ro_dst : side_ok (dstOrigin r) (region r) (rowPitchD r) (slicePitchD r);
  ro_host : match t with ReadBufferRect _ hostPtr | WriteBufferRect _ hostPtr => 4 <= hostPtr /\ hostPtr + 2 ^ 32 <= 2 ^ 64 | CopyBufferRect _ _ => True end;
  ro_apart : forall p q, p ∈ box (region r) -> q ∈ box (region r) -> rectTarget t r p <> rectSource t r q }.

(** ** Proofs *)

Lemma side_bounds o g row slice : pos3 g -> side_ok o g row slice ->
  0 < row < 2 ^ 32 /\ 0 < slice < 2 ^ 32 /\ x o < 2 ^ 32 /\ y o < 2 ^ 32 /\ z o < 2 ^ 32 /\ x g < 2 ^ 32 /\ y g < 2 ^ 32 /\ z g < 2 ^ 32 /\ 0 <= z o * slice < 2 ^ 32 /\
  x g * y g * z g < 2 ^ 64.
Proof.
  intros (Gx & Gy & Gz) [(Ox & Oy & Oz) Hr Hs He]. assert (0 < row) by lia. assert (0 < slice) by nia. assert (0 <= y o * row /\ 0 <= z o * slice) by nia.
  assert (row <= y g * row /\ slice <= z g * slice) by nia. assert (y o <= y o * row /\ z o <= z o * slice /\ y g <= y g * row /\ z g <= z g * slice) by nia.
  assert (x g * y g <= slice) by nia. assert (x g * y g * z g <= slice * z g) by nia. rewrite !Z.mul_add_distr_r in He. split_and!; try lia.
Qed.

(** The offset of a point, computed by the kernels in 32 bits. *)
Lemma rect_offset o g row slice p d : pos3 g -> side_ok o g row slice -> p ∈ box g -> 0 <= d < 4 ->
  rectOffset3d p (v32 (addX o d)) (w32 row, w32 slice) = x o + d + x p + (y o + y p) * row + (z o + z p) * slice /\
  (z p = 0 -> rectOffset2d p (v32 (addX o d)) (w32 row, w32 slice) = x o + d + x p + (y o + y p) * row).
Proof.
  intros Hg Hs Hp%elem_of_box Hd. destruct (side_bounds o g row slice Hg Hs) as (R & S & X & Y & Z' & _ & _ & _ & _ & _). destruct Hs as [(Ox & Oy & Oz) _ _ He].
  unfold rectOffset3d, rectOffset2d, v32, addX. cbn [x y z fst snd]. rewrite (wrap_small 64) by word_lia.
  assert (0 <= (y p + y o) * row <= (y o + y g) * row) by nia. assert (0 <= (z p + z o) * slice <= (z o + z g) * slice) by nia.
  assert (0 < y g * row /\ 0 < z g * slice) by (destruct Hg; nia).
  rewrite (wrap_small 32 row), (wrap_small 32 slice), (wrap_small 32 (x o + d)), (wrap_small 32 (y o)), (wrap_small 32 (z o)) by word_lia.
  split; [|intros Zp]; rewrite (wrap_small 32) by word_lia; lia.
Qed.

Lemma addX_0 v : 0 <= x v < 2 ^ 64 -> addX v 0 = v.
Proof. intros H. unfold addX. rewrite Z.add_0_r, wrap_small by word_lia. by destruct v. Qed.

Lemma box_injective o g row slice p q base : pos3 g -> side_ok o g row slice -> p ∈ box g -> q ∈ box g ->
  rectByte base o row slice p = rectByte base o row slice q -> p = q.
Proof.
  intros Hg [_ Hr Hs _] (Px & Py & Pz)%elem_of_box (Qx & Qy & Qz)%elem_of_box. unfold rectByte. intros E.
  assert (x p + y p * row + z p * slice = x q + y q * row + z q * slice) as E' by lia.
  assert (0 <= x p + y p * row < slice /\ 0 <= x q + y q * row < slice) by nia. assert (z p = z q) by nia. assert (y p = y q) by nia.
  destruct p, q; simpl in *; f_equal; nia.
Qed.

Section rects.
Context `{D : WorkSizeDeduction BuiltinKernel} (all_ok : forall k : BuiltinKernel, kernel_ok k).

(** The host side: the address is a multiple of 4 and the rest is in the origin. *)
Lemma host_side o g row slice hostPtr : pos3 g -> side_ok o g row slice -> 4 <= hostPtr -> hostPtr + 2 ^ 32 <= 2 ^ 64 ->
  exists a d, alignDown 64 hostPtr 4 = a /\ w64 (hostPtr - a) = d /\ 0 <= d < 4 /\ a + d = hostPtr /\ 0 < a /\ w64 (a + w64 (z o * slice)) = a + z o * slice.
Proof.
  intros Hg Hs H4 H64. destruct (side_bounds o g row slice Hg Hs) as (_ & _ & _ & _ & _ & _ & _ & _ & Hz & _).
  exists (hostPtr - hostPtr mod 4), (hostPtr mod 4). rewrite alignDown4 by lia. pose proof (Z.mod_pos_bound hostPtr 4 ltac:(lia)).
  rewrite (wrap_small 64 (hostPtr - _)), (wrap_small 64 (z o * slice)), (wrap_small 64 (_ + z o * slice)) by (Z.div_mod_to_equations; word_lia).
  Z.div_mod_to_equations. split_and!; lia.
Qed.

(** With more than [n] slices the kernel has three dimensions. *)
Ltac slices v n S3 D3 := destruct (bool_decide_reflect (z v > n)); simpl; [rewrite S3, D3; do 2 f_equal; lia|].

Lemma rect_item t r p : rect_ok t r -> p ∈ box (region r) -> workItem (rectKernel (rectParams t r)) p = [(rectTarget t r p, rectSource t r p)].
Proof.
  intros [Hg Hs Hd Hh _] Hp. pose proof Hp as (Px & Py & Pz)%elem_of_box.
  pose proof (so_origin _ _ _ _ Hs) as (Sx & Sy & Sz). pose proof (so_origin _ _ _ _ Hd) as (Dx & Dy & Dz).
  destruct (side_bounds _ _ _ _ Hg Hs) as (_ & _ & SX & _). destruct (side_bounds _ _ _ _ Hg Hd) as (_ & _ & DX & _).
  assert (addX (srcOrigin r) 0 = srcOrigin r) as S0 by (apply addX_0; lia). assert (addX (dstOrigin r) 0 = dstOrigin r) as D0 by (apply addX_0; lia).
  destruct t as [buffer hostPtr|buffer hostPtr|s d]; unfold rectTarget, rectSource, rectByte.
  - destruct (host_side _ _ _ _ hostPtr Hg Hd) as (a & d & Ea & Ed & Hd4 & Had & Ha & Ew); [lia..|].
    destruct (rect_offset _ _ _ _ p 0 Hg Hs Hp) as [S3 S2]; [lia|]. destruct (rect_offset _ _ _ _ p d Hg Hd Hp) as [D3 D2]; [lia|]. rewrite S0 in S3, S2.
    unfold rectKernel, is3D, rectParams, enqueueReadBufferRect, enqueueWriteBufferRect, rectOp. cbv zeta. rewrite Ea, Ed. simpl. rewrite (decide_True (P := a <> 0)) by lia.
    slices (region r) 1 S3 D3.
    slices (srcOrigin r) 0 S3 D3.
    assert (z p = 0) as Zp by lia. assert (z (srcOrigin r) = 0) as Zs by lia. rewrite S2, D2, Ew, Zp, Zs by done. do 2 f_equal; lia.
  - destruct (host_side _ _ _ _ hostPtr Hg Hs) as (a & d & Ea & Ed & Hd4 & Had & Ha & Ew); [lia..|].
    destruct (rect_offset _ _ _ _ p d Hg Hs Hp) as [S3 S2]; [lia|]. destruct (rect_offset _ _ _ _ p 0 Hg Hd Hp) as [D3 D2]; [lia|]. rewrite D0 in D3, D2.
    unfold rectKernel, is3D, rectParams, enqueueReadBufferRect, enqueueWriteBufferRect, rectOp. cbv zeta. rewrite Ea, Ed. simpl. rewrite (decide_True (P := a <> 0)) by lia.
    slices (region r) 1 S3 D3.
    slices (dstOrigin r) 0 S3 D3.
    assert (z p = 0) as Zp by lia. assert (z (dstOrigin r) = 0) as Zs by lia. rewrite S2, D2, Ew, Zp, Zs by done. do 2 f_equal; lia.
  - destruct (rect_offset _ _ _ _ p 0 Hg Hs Hp) as [S3 S2]; [lia|]. destruct (rect_offset _ _ _ _ p 0 Hg Hd Hp) as [D3 D2]; [lia|]. rewrite S0 in S3, S2. rewrite D0 in D3, D2.
    unfold rectKernel, is3D, rectParams, enqueueCopyBufferRect, rectOp. cbv zeta. simpl.
    slices (region r) 1 S3 D3.
    slices (srcOrigin r) 0 S3 D3.
    slices (dstOrigin r) 0 S3 D3.
    assert (z p = 0) as Zp by lia. assert (z (srcOrigin r) = 0) as Zs by lia. assert (z (dstOrigin r) = 0) as Zd by lia. rewrite S2, D2, Zp, Zs, Zd by done. do 2 f_equal; lia.
Qed.

(** C32: given pitches in which the rows and slices of either side do not overlap
    (row pitch at least the region's width, slice pitch at least its rows),
    reading, writing and copying a rectangle copy each of its bytes to its place
    in the other rectangle and change no other byte of memory, in any order of
    the work items: with the two-dimensional kernel, which takes a slice of the
    host memory from the pointer, as with the three-dimensional one.

    Reads and writes get such pitches from [bufferRectPitchSet], which fills in
    zeros and refuses the rest ([rect_pitches_exact]).  A copy between buffers
    gets the pitches of its caller unchecked: zero pitches, which the API allows,
    break the condition, and the code does not copy such a rectangle
    ([copied_rect_keeps_zero_pitches]).  The other conditions of [rect_ok]:
    extents below 4 GiB, and no byte both read and written. *)
Theorem rects_copy t r : rect_ok t r ->
  exists out, copyBufferRect (rectParams t r) = Some out /\ forall m order, order ≡ₚ items out ->
    (forall p, p ∈ box (region r) -> execItems m order (rectTarget t r p) = m (rectSource t r p)) /\
    (forall a, (forall p, p ∈ box (region r) -> a <> rectTarget t r p) -> execItems m order a = m a).
Proof.
  intros Hr. pose proof Hr as [Hg Hs Hd _ Ha].
  destruct (copyBufferRect_items all_ok (rectParams t r)) as (out & E & Hi); [by destruct t|destruct (side_bounds _ _ _ _ Hg Hs); by destruct t; destruct_and?|].
  exists out. split; [exact E|]. intros m order Ho. assert (opSize (rectParams t r) = region r) as Eo by by destruct t. rewrite Eo in Hi.
  destruct (execItems_any m (items out) order (fun d s => exists p, p ∈ box (region r) /\ d = rectTarget t r p /\ s = rectSource t r p) Ho) as [H1 H2].
  - intros d s. rewrite elem_of_mjoin. split.
    + intros (i & Hi' & Hm). apply Hi in Hi' as (p & Hp & ->). rewrite (rect_item t r p Hr Hp) in Hm. apply list_elem_of_singleton in Hm as [= -> ->]. by exists p.
    + intros (p & Hp & -> & ->). exists [(rectTarget t r p, rectSource t r p)]. split; [apply Hi; exists p; by rewrite (rect_item t r p Hr Hp)|by apply list_elem_of_singleton].
  - intros d s s' (p & Hp & -> & ->) (q & Hq & Ht & ->). by rewrite (box_injective _ _ _ _ p q _ Hg Hd Hp Hq Ht).
  - intros d s d' s' (p & Hp & -> & ->) (q & Hq & -> & ->). by apply Ha.
  - split; [intros p Hp; apply H1; by exists p|]. intros a Hna. apply H2. intros s (p & Hp & -> & _). by apply (Hna p).
Qed.
End rects.

(** ** The checks of a rectangle *)

(** The arguments are 64-bit numbers and the extents do not wrap. *)
Record pitches_fit (origin region : Vec3) (row slice : Z) : Prop := {
  pf_origin : 0 <= x origin /\ 0 <= y origin /\ 0 <= z origin;
  pf_row : 0 <= row;
  pf_slice : 0 <= slice;
  pf_extent : x origin + x region + (y origin + y region) * row + (z origin + z region) * slice < 2 ^ 64 }.

Definition filled (v def : Z) : Z := if decide (v = 0) then def else v.
Definition lastByteOf (o g : Vec3) (row slice : Z) : Z := (z o + z g - 1) * slice + (y o + y g - 1) * row + x o + x g.

Lemma lastByte_fits o g row slice : pos3 g -> pitches_fit o g row slice ->
  0 <= lastByteOf o g row slice < 2 ^ 64 /\ 0 <= (y g - 1) * row /\ 0 <= (z g - 1) * slice /\ 0 <= y o * row /\ 0 <= z o * slice /\ y g * row < 2 ^ 64.
Proof.
  intros (Gx & Gy & Gz) [(Ox & Oy & Oz) Hr Hs He]. unfold lastByteOf. assert (0 <= (y g - 1) * row /\ 0 <= (z g - 1) * slice /\ 0 <= y o * row /\ 0 <= z o * slice) by nia.
  split_and!; lia.
Qed.

(** Every byte is below the last, and the last is one of them. *)
Lemma rectByte_below o g row slice bound : pos3 g -> pitches_fit o g row slice ->
  lastByteOf o g row slice <= bound <-> forall p, p ∈ box g -> rectByte 0 o row slice p < bound.
Proof.
  intros (Gx & Gy & Gz) [(Ox & Oy & Oz) Hr Hs He]. unfold lastByteOf, rectByte. split.
  - intros H p (Px & Py & Pz)%elem_of_box. assert ((y o + y p) * row <= (y o + y g - 1) * row) by nia. assert ((z o + z p) * slice <= (z o + z g - 1) * slice) by nia. lia.
  - intros H. specialize (H (mkVec3 (x g - 1) (y g - 1) (z g - 1))). simpl in H. rewrite elem_of_box in H. simpl in H. specialize (H ltac:(lia)). lia.
Qed.

Lemma calculateHostPtrSize_exact o g row slice : pos3 g -> pitches_fit o g row slice -> calculateHostPtrSize o g row slice = lastByteOf o g row slice.
Proof.
  intros Hg Hf. destruct (lastByte_fits o g row slice Hg Hf) as (Hl & H1 & H2 & H3 & H4 & H5). destruct Hg as (Gx & Gy & Gz). destruct Hf as [(Ox & Oy & Oz) Hr Hs He].
  unfold lastByteOf in *. unfold calculateHostPtrSize. assert (0 <= y g - 1 < 2 ^ 64 \/ row = 0) as Hy by nia. assert (0 <= z g - 1 < 2 ^ 64 \/ slice = 0) as Hz by nia.
  assert (w64 (x g + row * w64 (y g - 1) + slice * w64 (z g - 1)) = x g + (y g - 1) * row + (z g - 1) * slice) as ->.
  { destruct Hy as [Hy| ->]; [rewrite (wrap_small 64 (y g - 1)) by word_lia|]; (destruct Hz as [Hz| ->]; [rewrite (wrap_small 64 (z g - 1)) by word_lia|]);
      rewrite ?Z.mul_0_l; rewrite wrap_small by word_lia; lia. }
  rewrite (wrap_small 64 (z o * slice + y o * row + x o)), wrap_small by word_lia. lia.
Qed.

Lemma le_mul_pos a b : 0 <= a -> 0 < b -> a <= a * b.
Proof. nia. Qed.

Lemma badSlice_spec g slice row : 0 < row -> 0 <= y g * row < 2 ^ 64 ->
  exists b, badSlice g slice row = Some b /\ (b = false <-> y g * row <= slice /\ slice mod row = 0).
Proof.
  intros Hr Hy. unfold badSlice. rewrite wrap_small by word_lia. case_decide; [exists true; split; [done|]; split; [done|lia]|]. rewrite decide_False by lia.
  eexists. split; [done|]. rewrite bool_decide_eq_false. split; [|naive_solver]. intros Hn. split; [lia|]. destruct (decide (slice mod row = 0)); [done|by destruct Hn].
Qed.

(** C33: zero pitches are filled in from the region, and the pitches are accepted
    exactly when rows hold the region's width, slices hold its rows and are
    multiples of a row, on both sides, and every byte of the region lies inside
    the buffer; and the size computed for the host memory covers every byte of
    the region there.  This is so when no extent wraps in 64 bits. *)
Theorem rect_pitches_exact getSize bufferOrigin hostOrigin region p :
  let row1 := filled (rowPitch1 p) (x region) in let slice1 := filled (slicePitch1 p) (y region * row1) in
  let row2 := filled (rowPitch2 p) (x region) in let slice2 := filled (slicePitch2 p) (y region * row2) in
  pos3 region -> pitches_fit bufferOrigin region row1 slice1 -> pitches_fit hostOrigin region row2 slice2 ->
  exists ok, bufferRectPitchSet getSize bufferOrigin region p = Some (ok, mkPitches row1 slice1 row2 slice2) /\
    (ok = true <-> x region <= row1 /\ y region * row1 <= slice1 /\ slice1 mod row1 = 0 /\ x region <= row2 /\ y region * row2 <= slice2 /\ slice2 mod row2 = 0 /\
       forall q, q ∈ box region -> rectByte 0 bufferOrigin row1 slice1 q < getSize) /\
    forall q, q ∈ box region -> rectByte 0 hostOrigin row2 slice2 q < calculateHostPtrSize hostOrigin region row2 slice2.
Proof.
  intros row1 slice1 row2 slice2 Hg F1 F2.
  destruct (lastByte_fits _ _ _ _ Hg F1) as (L1 & A1 & B1 & C1 & D1 & E1), (lastByte_fits _ _ _ _ Hg F2) as (L2 & A2 & B2 & C2 & D2 & E2).
  pose proof (pf_row _ _ _ _ F1) as R1. pose proof (pf_row _ _ _ _ F2) as R2. pose proof Hg as (Gx & Gy & Gz).
  assert (forall q, q ∈ box region -> rectByte 0 hostOrigin row2 slice2 q < calculateHostPtrSize hostOrigin region row2 slice2) as Hh.
  { apply rectByte_below; [done|done|]. by rewrite calculateHostPtrSize_exact. }
  unfold bufferRectPitchSet. cbv zeta. fold (filled (rowPitch1 p) (x region)) (filled (rowPitch2 p) (x region)). fold row1 row2.
  rewrite (wrap_small 64 (y region * row1)), (wrap_small 64 (y region * row2)) by (unfold uint; nia).
  fold (filled (slicePitch1 p) (y region * row1)) (filled (slicePitch2 p) (y region * row2)). fold slice1 slice2.
  case_decide as Hx; [exists false; split_and!; [done|split; [done|lia]|done]|].
  destruct (badSlice_spec region slice1 row1) as (b1 & -> & Hb1); [lia|nia|]. destruct (badSlice_spec region slice2 row2) as (b2 & Eb2 & Hb2); [lia|nia|]. cbn [mbind option_bind].
  destruct b1; cbn [mbind option_bind].
  { exists false. split_and!; [done| |exact Hh]. split; [done|]. intros (_ & H1 & H2 & _). by discriminate (proj2 Hb1 (conj H1 H2)). }
  rewrite Eb2. cbn [mbind option_bind].
  destruct b2.
  { exists false. split_and!; [done| |exact Hh]. split; [done|]. intros (_ & _ & _ & _ & H1 & H2 & _). by discriminate (proj2 Hb2 (conj H1 H2)). }
  destruct (proj1 Hb1 eq_refl) as [Hs1 Hm1], (proj1 Hb2 eq_refl) as [Hs2 Hm2].
  replace (w64 (_ + _ + _ + _)) with (lastByteOf bufferOrigin region row1 slice1); [|].
  - pose proof (rectByte_below bufferOrigin region row1 slice1 getSize Hg F1) as Hi.
    case_decide as Hc.
    + exists false. split_and!; [done| |exact Hh]. split; [done|]. intros (_ & _ & _ & _ & _ & _ & Ht). apply Hi in Ht. lia.
    + exists true. split_and!; [done| |exact Hh]. split; [|done]. intros _. split_and!; try lia. apply Hi. lia.
  - unfold lastByteOf in *. destruct F1 as [(O1 & O2 & O3) _ S1 X1].
    assert (0 < row1) by lia. assert (0 < y region * row1) by (by apply Z.mul_pos_pos). pose proof (le_mul_pos (z bufferOrigin + z region) slice1 ltac:(lia) ltac:(lia)).
    pose proof (le_mul_pos (y bufferOrigin + y region) row1 ltac:(lia) ltac:(lia)).
    rewrite (wrap_small 64 (z bufferOrigin + z region - 1)), (wrap_small 64 (y bufferOrigin + y region - 1)) by word_lia. rewrite wrap_small by word_lia. done.
Qed.

(** ** Examples *)

(** Two rows of four bytes in the second slice: the three-dimensional kernel. *)
Definition demo_rect : RectArgs := mkRectArgs (mkVec3 1 0 1) (mkVec3 0 0 0) (mkVec3 4 2 1) 8 16 4 8.

Example rects_copy_witness :
  let t := ReadBufferRect 0x10000 0x20003 in
  exists out, @copyBufferRect demo_builtins (rectParams t demo_rect) = Some out /\ length out = 1%nat /\
    forall m, execItems m (rev (items out)) (0x20003 + 3 + 4) = m (0x10000 + 16 + 8 + 1 + 3).
Proof.
  intros t. destruct (@rects_copy demo_builtins demo_builtins_ok t demo_rect) as (out & E & H).
  - split; [by vm_compute| | |by vm_compute|].
    + split; by vm_compute.
    + split; by vm_compute.
    + intros p q Hp%elem_of_box Hq%elem_of_box. unfold rectTarget, rectSource, rectByte. simpl in *. lia.
  - exists out. split; [exact E|]. split; [vm_compute in E; injection E as <-; reflexivity|]. intros m.
    destruct (H m (rev (items out))) as [H1 _]; [symmetry; apply Permutation_rev|].
    apply (H1 (mkVec3 3 1 0)). apply elem_of_box. simpl. lia.
Defined.

Example rect_pitches_exact_witness :
  bufferRectPitchSet 64 (mkVec3 1 0 1) (mkVec3 4 2 1) (mkPitches 8 0 0 0) = Some (true, mkPitches 8 16 4 8) /\
  rectByte 0 zero3 4 8 (mkVec3 3 1 0) < calculateHostPtrSize zero3 (mkVec3 4 2 1) 4 8.
Proof.
  destruct (rect_pitches_exact 64 (mkVec3 1 0 1) zero3 (mkVec3 4 2 1) (mkPitches 8 0 0 0)) as (ok & E & Hok & Hh).
  - by vm_compute.
  - split; by vm_compute.
  - split; by vm_compute.
  - assert (ok = true) as ->.
    { apply Hok. split_and!; [by vm_compute..|]. intros q Hq%elem_of_box. unfold rectByte. simpl in *. unfold filled. simpl. lia. }
    split; [exact E|]. apply Hh, elem_of_box. simpl. lia.
Defined.

(** A region without width and without pitches. *)
Example zero_width_divides : bufferRectPitchSet 64 zero3 (mkVec3 0 1 1) (mkPitches 0 0 0 0) = None.
Proof. reflexivity. Qed.

(** The last byte wraps: slice 2 ^ 63 of a buffer of 64 bytes is accepted. *)
Example far_origin_accepted : fst <$> bufferRectPitchSet 64 (mkVec3 0 0 (2 ^ 63)) (mkVec3 2 1 1) (mkPitches 2 2 2 2) = Some true.
Proof. reflexivity. Qed.

(** a copy between buffers passes zero pitches on, as the command for it fills
    none in: of two rows of four bytes, whose second row is to be four bytes
    after the first, only the first is copied. *)
Theorem copied_rect_keeps_zero_pitches :
  match @copyBufferRect demo_builtins (rectParams (CopyBufferRect 0x1000 0x2000) (mkRectArgs zero3 zero3 (mkVec3 4 2 1) 0 0 0 0)) with
  | Some out => execItems (fun a => a) (items out) 0x2003 = 0x1003 /\ execItems (fun a => a) (items out) 0x2004 = 0x2004
  | None => False
  end.
Proof. vm_compute. by split. Qed.
