(* ===== verification/MapOperations.v ===== *)
(** * Mapping buffers

    The mapped ranges of a memory object ([mem_obj/map_operations_handler.cpp])
    and the two ways a queue maps and unmaps a buffer: copying on the CPU
    ([command_queue/cpu_data_transfer_handler.cpp]) and reading and writing it
    with the GPU ([enqueueReadMemObjForMap], [enqueueWriteMemObjForUnmap] of
    [command_queue.cpp]).

    Memory maps addresses to bytes, and addresses may alias: the host pointer of
    a zero-copy buffer is its storage.  What the GPU does for a read or a write is
    an argument, as [BuiltinCopy] models it.  Left out: images, blocked queues,
    events, and the locking of the list. *)

From S2P Require Import Prelude.

Definition CL_SUCCESS : Z := 0.
Definition CL_INVALID_VALUE : Z := -30.
Definition CL_INVALID_OPERATION : Z := -59.
Definition CL_MAP_READ : Z := 1.
Definition CL_MAP_WRITE : Z := 2.
Definition CL_MAP_WRITE_INVALIDATE_REGION : Z := 4.
Definition CL_MEM_HOST_WRITE_ONLY : Z := 128.
Definition CL_MEM_HOST_READ_ONLY : Z := 256.
Definition CL_MEM_HOST_NO_ACCESS : Z := 512.

(** ** The mapped ranges *)

Definition ptrOffset (ptr offset : Z) : Z := ptr ⊞ offset.

(** Size and offset in the buffer: the first elements of the arrays. *)
Record MapInfo := mkMapInfo { ptr : Z; ptrLength : Z; size : Z; offset : Z; readOnly : bool }.

Definition isOverlapping (input : MapInfo) (mappedPointers : list MapInfo) : bool :=
  if readOnly input then false
  else existsb (fun m => bool_decide (ptr input < ptrOffset (ptr m) (ptrLength m)) && bool_decide (ptrOffset (ptr input) (ptrLength input) >= ptr m)) mappedPointers.
Definition add (mapInfo : MapInfo) (mappedPointers : list MapInfo) : bool * list MapInfo :=
  if isOverlapping mapInfo mappedPointers then (false, mappedPointers) else (true, mappedPointers ++ [mapInfo]).
Fixpoint findMapped (mappedPtr : Z) (mappedPointers : list MapInfo) : option MapInfo :=
  match mappedPointers with [] => None | m :: l => if decide (ptr m = mappedPtr) then Some m else findMapped mappedPtr l end.
(** The last element takes the place of the removed one. *)
Definition remove (mappedPtr : Z) (mappedPointers : list MapInfo) : list MapInfo :=
  match list_find (fun m => ptr m = mappedPtr) mappedPointers, last mappedPointers with
  | Some (i, _), Some back => take (pred (length mappedPointers)) (<[i := back]> mappedPointers)
  | _, _ => mappedPointers
  end.

(** ** Buffers *)

Definition Memory : Type := Z -> Z.
Definition memcpy_s (dst src count : Z) (mem : Memory) : Memory := fun a => if decide (dst <= a < dst + count) then mem (src + (a - dst)) else mem a.

(** [onCpu]: [mappingOnCpuAllowed].  [useHostPtr]: [CL_MEM_USE_HOST_PTR]. *)
Record Buffer := mkBuffer {
  flags : Z; useHostPtr : bool; isMemObjZeroCopy : bool; onCpu : bool;
  memoryStorage : Z; hostPtr : Z; bufferSize : Z; allocatedMapPtr : option Z; mapOperations : list MapInfo }.
Definition setMapOperations (l : list MapInfo) (b : Buffer) : Buffer :=
  mkBuffer (flags b) (useHostPtr b) (isMemObjZeroCopy b) (onCpu b) (memoryStorage b) (hostPtr b) (bufferSize b) (allocatedMapPtr b) l.
Definition setAllocatedMapPtr (p : option Z) (b : Buffer) : Buffer :=
  mkBuffer (flags b) (useHostPtr b) (isMemObjZeroCopy b) (onCpu b) (memoryStorage b) (hostPtr b) (bufferSize b) p (mapOperations b).

Definition isValueSet (field value : Z) : bool := bool_decide (Z.land field value = value).
Definition readMemObjFlagsInvalid (b : Buffer) : bool := isValueSet (flags b) CL_MEM_HOST_WRITE_ONLY || isValueSet (flags b) CL_MEM_HOST_NO_ACCESS.
Definition writeMemObjFlagsInvalid (b : Buffer) : bool := isValueSet (flags b) CL_MEM_HOST_READ_ONLY || isValueSet (flags b) CL_MEM_HOST_NO_ACCESS.
Definition mapMemObjFlagsInvalid (mapFlags : Z) (b : Buffer) : bool :=
  (writeMemObjFlagsInvalid b && isValueSet mapFlags CL_MAP_WRITE) || (readMemObjFlagsInvalid b && isValueSet mapFlags CL_MAP_READ).

Definition getCpuAddressForMapping (b : Buffer) : Z := if useHostPtr b then hostPtr b else memoryStorage b.
Definition transferData (dst src copySize copyOffset : Z) : Memory -> Memory := memcpy_s (ptrOffset dst copyOffset) (ptrOffset src copyOffset) copySize.
Definition transferDataToHostPtr (copySize copyOffset : Z) (b : Buffer) : Memory -> Memory := transferData (hostPtr b) (memoryStorage b) copySize copyOffset.
Definition transferDataFromHostPtr (copySize copyOffset : Z) (b : Buffer) : Memory -> Memory := transferData (memoryStorage b) (hostPtr b) copySize copyOffset.

Section Mapping.
(** Reading and writing a range of the buffer at a pointer, and the memory that
    is allocated for maps. *)
Context (enqueueReadBuffer enqueueWriteBuffer : Buffer -> Z -> Z -> Z -> Memory -> Z * Memory) (allocateSystemMemory : Z).

Definition getBasePtrForMap (b : Buffer) : Z * Buffer :=
  if useHostPtr b then (hostPtr b, b)
  else match allocatedMapPtr b with Some p => (p, b) | None => (allocateSystemMemory, setAllocatedMapPtr (Some allocateSystemMemory) b) end.

(** A pointer or an error. *)
Definition MapResult : Type := (Z + Z) * Buffer * Memory.

Definition mapOnCpu (mapFlags off len : Z) (b : Buffer) (mem : Memory) : MapResult :=
  let returnPtr := ptrOffset (getCpuAddressForMapping b) off in
  let '(added, l) := add (mkMapInfo returnPtr len len off (bool_decide (mapFlags = CL_MAP_READ))) (mapOperations b) in
  if added : bool then
    let b := setMapOperations l b in
    (inl returnPtr, b, if isMemObjZeroCopy b then mem else transferDataToHostPtr len off b mem)
  else (inr CL_INVALID_OPERATION, b, mem).
Definition unmapOnCpu (mappedPtr : Z) (b : Buffer) (mem : Memory) : Z * Buffer * Memory :=
  match findMapped mappedPtr (mapOperations b) with
  | None => (CL_INVALID_VALUE, b, mem)
  | Some unmapInfo =>
      let b := setMapOperations (remove (ptr unmapInfo) (mapOperations b)) b in
      (CL_SUCCESS, b, if isMemObjZeroCopy b || readOnly unmapInfo then mem else transferDataFromHostPtr (size unmapInfo) (offset unmapInfo) b mem)
  end.

Definition enqueueReadMemObjForMap (mapFlags off len : Z) (b : Buffer) (mem : Memory) : MapResult :=
  let '(base, b) := getBasePtrForMap b in
  let returnPtr := ptrOffset base off in
  let '(added, l) := add (mkMapInfo returnPtr len len off (bool_decide (mapFlags = CL_MAP_READ))) (mapOperations b) in
  if added : bool then
    let b := setMapOperations l b in
    let '(errcodeRet, mem) := enqueueReadBuffer b off len returnPtr mem in
    if decide (errcodeRet <> CL_SUCCESS) then (inr errcodeRet, setMapOperations (remove returnPtr (mapOperations b)) b, mem)
    else (inl returnPtr, b, mem)
  else (inr CL_INVALID_OPERATION, b, mem).
Definition enqueueWriteMemObjForUnmap (mappedPtr : Z) (b : Buffer) (mem : Memory) : Z * Buffer * Memory :=
  match findMapped mappedPtr (mapOperations b) with
  | None => (CL_INVALID_VALUE, b, mem)
  | Some unmapInfo =>
      let '(retVal, mem) := if readOnly unmapInfo then (CL_SUCCESS, mem) else enqueueWriteBuffer b (offset unmapInfo) (size unmapInfo) mappedPtr mem in
      (retVal, if decide (retVal = CL_SUCCESS) then setMapOperations (remove mappedPtr (mapOperations b)) b else b, mem)
  end.

Definition clEnqueueMapBuffer (mapFlags off len : Z) (b : Buffer) (mem : Memory) : MapResult :=
  if mapMemObjFlagsInvalid mapFlags b then (inr CL_INVALID_OPERATION, b, mem)
  else if onCpu b then mapOnCpu mapFlags off len b mem else enqueueReadMemObjForMap mapFlags off len b mem.
Definition enqueueUnmapMemObject (mappedPtr : Z) (b : Buffer) (mem : Memory) : Z * Buffer * Memory :=
  if onCpu b then unmapOnCpu mappedPtr b mem else enqueueWriteMemObjForUnmap mappedPtr b mem.
End Mapping.

(** ** Removing *)

Lemma findMapped_list_find p l : findMapped p l = snd <$> list_find (fun m => ptr m = p) l.
Proof. induction l as [|m l IH]; simpl; [done|]. case_decide; simpl; [done|]. rewrite IH. by destruct (list_find _ l) as [[]|]. Qed.

Lemma remove_perm p l m : findMapped p l = Some m -> l ≡ₚ m :: remove p l.
Proof.
  rewrite findMapped_list_find. unfold remove. destruct (list_find _ l) as [[i x]|] eqn:Hf; [|done]. simpl. intros [= <-].
  apply list_find_Some in Hf as (Hi & _ & _). destruct l as [|back l1 _] using rev_ind; [done|]. rewrite last_snoc, length_app. simpl. rewrite Nat.add_1_r. simpl.
  apply lookup_app_Some in Hi as [Hi|[Hle Hi]].
  - assert (i < length l1)%nat by (by eapply lookup_lt_Some). rewrite insert_app_l, take_app_length' by (rewrite ?length_insert; lia).
    apply list_elem_of_split_length in Hi as (a & c & -> & Hla). rewrite insert_app_r_alt by lia. replace (i - length a)%nat with 0%nat by lia. simpl.
    rewrite <- app_assoc. simpl. etransitivity; [symmetry; apply Permutation_middle|]. apply perm_skip, Permutation_app_head. symmetry. apply Permutation_cons_append.
  - apply list_lookup_singleton_Some in Hi as [Hi ->]. rewrite insert_app_r_alt, take_app_length' by lia. symmetry. apply Permutation_cons_append.
Qed.

Lemma findMapped_None p l : findMapped p l = None -> Forall (fun m => ptr m <> p) l.
Proof. induction l as [|m l IH]; simpl; [done|]. case_decide; [done|]. intros Hn. constructor; [done|auto]. Qed.

Lemma findMapped_Some p l m : findMapped p l = Some m -> ptr m = p /\ m ∈ l.
Proof. induction l as [|x l IH]; simpl; [done|]. case_decide; [intros [= <-]; split; [done|constructor]|]. intros Hn. destruct (IH Hn). split; [done|by constructor]. Qed.

(** ** What the application relies on *)

(** Where mapped pointers point. *)
Definition mapBase (allocateSystemMemory : Z) (b : Buffer) : Z :=
  if onCpu b then getCpuAddressForMapping b else if useHostPtr b then hostPtr b else default allocateSystemMemory (allocatedMapPtr b).

Record buffer_ok (allocateSystemMemory : Z) (b : Buffer) : Prop := {
  bo_storage : 0 <= memoryStorage b /\ memoryStorage b + bufferSize b < 2 ^ 64;
  bo_base : 0 <= mapBase allocateSystemMemory b /\ mapBase allocateSystemMemory b + bufferSize b < 2 ^ 64;
  bo_alias : mapBase allocateSystemMemory b = memoryStorage b \/ mapBase allocateSystemMemory b + bufferSize b <= memoryStorage b \/ memoryStorage b + bufferSize b <= mapBase allocateSystemMemory b;
  bo_zeroCopy : onCpu b = true -> if isMemObjZeroCopy b then mapBase allocateSystemMemory b = memoryStorage b else useHostPtr b = true }.

(** Reads and writes copy or fail. *)
Record transfers_ok (enqueueReadBuffer enqueueWriteBuffer : Buffer -> Z -> Z -> Z -> Memory -> Z * Memory) : Prop := {
  to_read : forall b off len p mem, enqueueReadBuffer b off len p mem = (CL_SUCCESS, memcpy_s p (memoryStorage b + off) len mem) \/
    exists err, err <> CL_SUCCESS /\ enqueueReadBuffer b off len p mem = (err, mem);
  to_write : forall b off len p mem, enqueueWriteBuffer b off len p mem = (CL_SUCCESS, memcpy_s (memoryStorage b + off) p len mem) \/
    exists err, err <> CL_SUCCESS /\ enqueueWriteBuffer b off len p mem = (err, mem) }.

Definition covers (m : MapInfo) (i : Z) : Prop := offset m <= i < offset m + size m.
Definition apart (m m' : MapInfo) : Prop := offset m + size m <= offset m' \/ offset m' + size m' <= offset m.
#[export] Instance covers_dec m i : Decision (covers m i). Proof. unfold covers. apply _. Defined.

Section Application.
Context (enqueueReadBuffer enqueueWriteBuffer : Buffer -> Z -> Z -> Z -> Memory -> Z * Memory) (allocateSystemMemory : Z).

(** The driver's state, and what the application expects: the contents of the
    buffer and what it sees through the pointers it was given. *)
Record App := mkApp { buffer : Buffer; mem : Memory; contents : Memory; view : Memory }.
Inductive Op := Map (mapFlags off len : Z) | Store (i v : Z) | Unmap (mappedPtr : Z).
Definition overlay (off len : Z) (new old : Memory) : Memory := fun i => if decide (off <= i < off + len) then new i else old i.
Definition write (a v : Z) (mem : Memory) : Memory := fun x => if decide (x = a) then v else mem x.

Definition act (o : Op) (a : App) : App :=
  match o with
  | Map mapFlags off len =>
      let '(r, b, mem) := clEnqueueMapBuffer enqueueReadBuffer allocateSystemMemory mapFlags off len (buffer a) (mem a) in
      mkApp b mem (contents a) (match r with inl _ => overlay off len (contents a) (view a) | inr _ => view a end)
  | Store i v => mkApp (buffer a) (write (mapBase allocateSystemMemory (buffer a) + i) v (mem a)) (contents a) (write i v (view a))
  | Unmap p =>
      let '(r, b, mem) := enqueueUnmapMemObject enqueueWriteBuffer p (buffer a) (mem a) in
      mkApp b mem (match findMapped p (mapOperations (buffer a)) with
        | Some m => if decide (r = CL_SUCCESS /\ readOnly m = false) then overlay (offset m) (size m) (view a) (contents a) else contents a
        | None => contents a end) (view a)
  end.
(** The rules of the application: ranges inside the buffer, no reading map of
    what is mapped for writing, stores to what is mapped for writing, and, when
    the GPU copies, no two maps at one offset ([failed_map_removes_other]). *)
Definition allowed (o : Op) (a : App) : Prop :=
  match o with
  | Map mapFlags off len => 0 <= off /\ 0 < len /\ off + len <= bufferSize (buffer a) /\
      (onCpu (buffer a) = false -> Forall (fun m => offset m <> off) (mapOperations (buffer a))) /\
      (mapFlags = CL_MAP_READ -> Forall (fun m => readOnly m = false -> offset m + size m <= off \/ off + len <= offset m) (mapOperations (buffer a)))
  | Store i v => Exists (fun m => readOnly m = false /\ covers m i) (mapOperations (buffer a))
  | Unmap p => True
  end.
Fixpoint actAll (l : list Op) (a : App) : App := match l with [] => a | o :: l => actAll l (act o a) end.
Fixpoint allowedAll (l : list Op) (a : App) : Prop := match l with [] => True | o :: l => allowed o a /\ allowedAll l (act o a) end.

(** ** What every call keeps *)

Record mapped_ok (b : Buffer) : Prop := {
  mo_buffer : buffer_ok allocateSystemMemory b;
  mo_each : Forall (fun m => ptr m = mapBase allocateSystemMemory b + offset m /\ ptrLength m = size m /\ 0 <= offset m /\ 0 < size m /\ offset m + size m <= bufferSize b) (mapOperations b);
  mo_apart : forall m l, mapOperations b ≡ₚ m :: l -> readOnly m = false -> Forall (apart m) l }.

Record faithful (a : App) : Prop := {
  fa_mapped : mapped_ok (buffer a);
  fa_contents : forall i, 0 <= i < bufferSize (buffer a) ->
    mapBase allocateSystemMemory (buffer a) <> memoryStorage (buffer a) \/ Forall (fun m => readOnly m = false -> ~ covers m i) (mapOperations (buffer a)) ->
    mem a (memoryStorage (buffer a) + i) = contents a i;
  fa_view : forall i, Exists (fun m => covers m i) (mapOperations (buffer a)) -> mem a (mapBase allocateSystemMemory (buffer a) + i) = view a i }.

Lemma apart_sym m m' : apart m m' -> apart m' m.
Proof. unfold apart. lia. Qed.

Lemma cons_perm_cases (x m : MapInfo) l l' : x :: l ≡ₚ m :: l' -> (x = m /\ l ≡ₚ l') \/ exists l2, l' ≡ₚ x :: l2 /\ l ≡ₚ m :: l2.
Proof.
  intros H. assert (x ∈ m :: l') as [->|Hx]%elem_of_cons by (rewrite <- H; constructor).
  - left. split; [done|]. by apply Permutation_cons_inv in H.
  - right. apply elem_of_Permutation in Hx as [l2 Hl2]. exists l2. split; [done|]. apply (Permutation_cons_inv (a := x)). rewrite H, Hl2. apply perm_swap.
Qed.

(** A writable range that is accepted is apart from all others. *)
Lemma accepted_apart b x : mapped_ok b -> ptr x = mapBase allocateSystemMemory b + offset x -> ptrLength x = size x -> 0 <= offset x -> 0 < size x -> offset x + size x <= bufferSize b ->
  readOnly x = false -> isOverlapping x (mapOperations b) = false -> Forall (apart x) (mapOperations b).
Proof.
  intros [Hb He _] Hp Hl Ho Hs Hin Hr Hov. unfold isOverlapping in Hov. rewrite Hr in Hov. apply Forall_forall. intros m Hm. rewrite Forall_forall in He.
  destruct (He m Hm) as (Mp & Ml & M1 & M2 & M3). pose proof (bo_base _ _ Hb) as [B1 B2].
  destruct (existsb_exists (fun m => bool_decide (ptr x < ptrOffset (ptr m) (ptrLength m)) && bool_decide (ptrOffset (ptr x) (ptrLength x) >= ptr m)) (mapOperations b)) as [_ Hex].
  assert (bool_decide (ptr x < ptrOffset (ptr m) (ptrLength m)) && bool_decide (ptrOffset (ptr x) (ptrLength x) >= ptr m) = false) as Hm'.
  { apply not_true_is_false. intros Ht. rewrite Hex in Hov; [done|]. exists m. split; [by apply list_elem_of_In|done]. }
  unfold ptrOffset in Hm'. rewrite !wrap_small in Hm' by word_lia. unfold apart. apply andb_false_iff in Hm' as [Hx|Hx]; apply bool_decide_eq_false in Hx; lia.
Qed.

Lemma mapped_add b x : mapped_ok b -> ptr x = mapBase allocateSystemMemory b + offset x -> ptrLength x = size x -> 0 <= offset x -> 0 < size x -> offset x + size x <= bufferSize b ->
  Forall (fun m => readOnly m = false \/ readOnly x = false -> apart x m) (mapOperations b) -> mapped_ok (setMapOperations (mapOperations b ++ [x]) b).
Proof.
  intros [Hb He Ha] Hp Hl Ho Hs Hin Hx. constructor; simpl.
  - by destruct Hb; constructor.
  - apply Forall_app. split; [exact He|]. by repeat constructor.
  - intros m l Hperm Hm. rewrite <- Permutation_cons_append in Hperm. rewrite Forall_forall in Hx. apply cons_perm_cases in Hperm as [[-> Hl']|(l2 & Hl2 & Hops)].
    + rewrite <- Hl'. apply Forall_forall. intros y Hy. apply Hx; [done|by right].
    + rewrite Hl2. constructor; [|by apply (Ha m l2)]. apply apart_sym, Hx; [rewrite Hops; constructor|by left].
Qed.

Lemma mapped_sub b l m : mapped_ok b -> mapOperations b ≡ₚ m :: l -> mapped_ok (setMapOperations l b).
Proof.
  intros [Hb He Ha] Hperm. constructor; simpl.
  - by destruct Hb; constructor.
  - rewrite Hperm in He. by apply Forall_cons in He as [_ He].
  - intros m' l' Hl Hr. assert (Forall (apart m') (m :: l')) as HF; [|by apply Forall_cons in HF as [_ HF]]. apply (Ha m' (m :: l')); [|done]. rewrite Hperm, Hl. apply perm_swap.
Qed.

Lemma mapped_perm b l l' : mapped_ok (setMapOperations l b) -> l ≡ₚ l' -> mapped_ok (setMapOperations l' b).
Proof.
  intros [Hb He Ha] Hl. constructor; simpl in *; [by destruct Hb; constructor|by rewrite <- Hl|]. intros m l2 H. apply Ha. by rewrite Hl.
Qed.

(** *** Memory *)

(** [len] bytes at [off] came from [src] to [dst], and nothing else changed. *)
Record copied (dst src off len n : Z) (mem mem' : Memory) : Prop := {
  cp_range : forall i, off <= i < off + len -> mem' (dst + i) = mem (src + i);
  cp_source : forall i, 0 <= i < n -> mem' (src + i) = mem (src + i);
  cp_others : forall i, 0 <= i < n -> ~ (off <= i < off + len) -> mem' (dst + i) = mem (dst + i) }.

Lemma copied_memcpy dst src off len n mem : dst = src \/ dst + n <= src \/ src + n <= dst -> 0 <= off -> 0 < len -> off + len <= n -> copied dst src off len n mem (memcpy_s (dst + off) (src + off) len mem).
Proof.
  intros Ha Ho Hl Hn. unfold memcpy_s. constructor; intros i; intros; case_decide; try done; try lia; f_equal; lia.
Qed.

Lemma copied_same dst off len n mem : copied dst dst off len n mem mem.
Proof. by constructor. Qed.

(** *** One call *)

Lemma base_after b : onCpu b = false -> forall base b', getBasePtrForMap allocateSystemMemory b = (base, b') ->
  base = mapBase allocateSystemMemory b /\ mapBase allocateSystemMemory b' = base /\ memoryStorage b' = memoryStorage b /\ bufferSize b' = bufferSize b /\ mapOperations b' = mapOperations b /\ onCpu b' = false /\
    (buffer_ok allocateSystemMemory b -> buffer_ok allocateSystemMemory b').
Proof.
  intros Hc base b'. unfold getBasePtrForMap, mapBase. rewrite Hc. destruct (useHostPtr b) eqn:Hu; [|destruct (allocatedMapPtr b) as [p|] eqn:Hp].
  - intros [= <- <-]. rewrite Hc, Hu. by split_and!.
  - intros [= <- <-]. rewrite Hc, Hu, Hp. by split_and!.
  - intros [= <- <-]. simpl. rewrite Hc, Hu. split_and!; try done. intros [H1 H2 H3 H4]. unfold mapBase in *. rewrite Hc, Hu, Hp in H2, H3, H4. simpl in *.
    constructor; unfold mapBase; simpl; rewrite ?Hc, ?Hu; done.
Qed.

Definition newMap (base mapFlags off len : Z) : MapInfo := mkMapInfo (base + off) len len off (bool_decide (mapFlags = CL_MAP_READ)).

(** A map gives a pointer to the range, having copied it, or changes nothing. *)
Lemma map_outcome mapFlags off len a : transfers_ok enqueueReadBuffer enqueueWriteBuffer -> mapped_ok (buffer a) -> allowed (Map mapFlags off len) a ->
  let base := mapBase allocateSystemMemory (buffer a) in
  exists r b mem', clEnqueueMapBuffer enqueueReadBuffer allocateSystemMemory mapFlags off len (buffer a) (mem a) = (r, b, mem') /\
    mapBase allocateSystemMemory b = base /\ memoryStorage b = memoryStorage (buffer a) /\ bufferSize b = bufferSize (buffer a) /\ buffer_ok allocateSystemMemory b /\
    match r with
    | inl p => p = base + off /\ isOverlapping (newMap base mapFlags off len) (mapOperations (buffer a)) = false /\ mapOperations b = mapOperations (buffer a) ++ [newMap base mapFlags off len] /\
        copied base (memoryStorage b) off len (bufferSize b) (mem a) mem'
    | inr _ => mapOperations b ≡ₚ mapOperations (buffer a) /\ mem' = mem a
    end.
Proof.
  intros Ht [Hb He _] (Ho & Hl & Hin & Hsame & _) base. pose proof Hb as [B1 B2 B3 B4]. unfold clEnqueueMapBuffer.
  destruct (mapMemObjFlagsInvalid mapFlags (buffer a)); [eexists _, _, _; by split_and!|]. destruct (onCpu (buffer a)) eqn:Hc.
  - assert (getCpuAddressForMapping (buffer a) = base) as Hbase by (unfold base, mapBase; by rewrite Hc). unfold mapOnCpu. rewrite Hbase. unfold add, ptrOffset at 1. fold base in B2, B3, B4.
    unfold ptrOffset. rewrite wrap_small by word_lia. fold (newMap base mapFlags off len). destruct (isOverlapping _ _) eqn:Hov; [eexists _, _, _; by split_and!|].
    eexists _, _, _. split; [reflexivity|]. simpl. split; [done|]. split; [done|]. split; [done|]. split; [by destruct Hb; constructor|]. split_and!; try done. specialize (B4 eq_refl).
    destruct (isMemObjZeroCopy (buffer a)) eqn:Hz; [rewrite B4; apply copied_same|]. unfold transferDataToHostPtr, transferData, ptrOffset. simpl.
    assert (hostPtr (buffer a) = base) as -> by (unfold base, mapBase, getCpuAddressForMapping; by rewrite Hc, B4). rewrite !wrap_small by word_lia. apply copied_memcpy; try done; lia.
  - unfold enqueueReadMemObjForMap. destruct (getBasePtrForMap allocateSystemMemory (buffer a)) as [base' b] eqn:Eb. destruct (base_after _ Hc _ _ Eb) as (-> & G1 & G2 & G3 & G4 & G5 & G6). fold base in B2, B3, G1.
    fold base. unfold ptrOffset. rewrite wrap_small by word_lia. fold (newMap base mapFlags off len). unfold add. rewrite G4. destruct (isOverlapping _ _) eqn:Hov.
    { eexists _, _, _. split; [reflexivity|]. split_and!; try done; [by apply G6|by rewrite G4]. }
    destruct (to_read _ _ Ht (setMapOperations (mapOperations (buffer a) ++ [newMap base mapFlags off len]) b) off len (base + off) (mem a)) as [->|(err & Herr & ->)].
    + rewrite decide_False by (intros Hx; by apply Hx). eexists _, _, _. split; [reflexivity|]. simpl. split; [done|]. split; [done|]. split; [done|]. split; [by constructor; destruct (G6 Hb)|]. split_and!; try done.
      rewrite G2, G3. apply copied_memcpy; try done; lia.
    + rewrite decide_True by done. eexists _, _, _. split; [reflexivity|]. simpl. split; [done|]. split; [done|]. split; [done|]. split; [by constructor; destruct (G6 Hb)|]. split; [|done].
      assert (findMapped (base + off) (mapOperations (buffer a) ++ [newMap base mapFlags off len]) = Some (newMap base mapFlags off len)) as Hf.
      { specialize (Hsame eq_refl). clear -Hsame He. rewrite Forall_forall in He, Hsame. fold base in He. induction (mapOperations (buffer a)) as [|m l IH]; simpl; [by rewrite decide_True|].
        rewrite decide_False; [apply IH; intros; [apply He|apply Hsame]; by constructor|]. destruct (He m) as [-> _]; [constructor|]. pose proof (Hsame m ltac:(constructor)). lia. }
      apply remove_perm in Hf. symmetry. apply (Permutation_cons_inv (a := newMap base mapFlags off len)). rewrite <- Hf. apply Permutation_cons_append.
Qed.

(** An unmap removes the map, having copied back what was writable, or changes nothing. *)
Lemma unmap_outcome p a : transfers_ok enqueueReadBuffer enqueueWriteBuffer -> mapped_ok (buffer a) ->
  let base := mapBase allocateSystemMemory (buffer a) in
  exists r l mem', enqueueUnmapMemObject enqueueWriteBuffer p (buffer a) (mem a) = (r, setMapOperations l (buffer a), mem') /\
    if decide (r = CL_SUCCESS) then exists m, findMapped p (mapOperations (buffer a)) = Some m /\ mapOperations (buffer a) ≡ₚ m :: l /\
        if readOnly m then mem' = mem a else copied (memoryStorage (buffer a)) base (offset m) (size m) (bufferSize (buffer a)) (mem a) mem'
    else l = mapOperations (buffer a) /\ mem' = mem a.
Proof.
  intros Ht [Hb He _] base. pose proof Hb as [B1 B2 B3 B4]. fold base in B2, B3, B4. rewrite Forall_forall in He.
  assert (setMapOperations (mapOperations (buffer a)) (buffer a) = buffer a) as Hid by (by destruct (buffer a)).
  unfold enqueueUnmapMemObject, unmapOnCpu, enqueueWriteMemObjForUnmap.
  destruct (findMapped p (mapOperations (buffer a))) as [m|] eqn:Hf; [|exists CL_INVALID_VALUE, (mapOperations (buffer a)), (mem a); rewrite Hid; by destruct (onCpu (buffer a))].
  destruct (findMapped_Some _ _ _ Hf) as [Hp Hm]. destruct (He m Hm) as (Mp & Ml & M1 & M2 & M3). fold base in Mp. pose proof (remove_perm _ _ _ Hf) as Hperm. destruct (onCpu (buffer a)) eqn:Hc.
  - eexists _, _, _. split; [reflexivity|]. rewrite decide_True by done. exists m. split; [done|]. rewrite Hp. split; [done|]. simpl. specialize (B4 eq_refl).
    destruct (isMemObjZeroCopy (buffer a)) eqn:Hz; simpl; [rewrite B4; destruct (readOnly m); [done|apply copied_same]|]. destruct (readOnly m); [done|].
    unfold transferDataFromHostPtr, transferData, ptrOffset. simpl. assert (hostPtr (buffer a) = base) as -> by (unfold base, mapBase, getCpuAddressForMapping; by rewrite Hc, B4).
    rewrite !wrap_small by word_lia. apply copied_memcpy; try done; lia.
  - destruct (readOnly m) eqn:Hr; [eexists _, _, _; split; [reflexivity|]; rewrite decide_True by done; exists m; by rewrite Hr|].
    destruct (to_write _ _ Ht (buffer a) (offset m) (size m) p (mem a)) as [->|(err & Herr & ->)].
    + rewrite decide_True by done. eexists _, _, _. split; [reflexivity|]. rewrite decide_True by done. exists m. split; [done|]. split; [done|]. rewrite Hr, <- Hp, Mp. apply copied_memcpy; try done; lia.
    + rewrite decide_False by done. exists err, (mapOperations (buffer a)), (mem a). rewrite Hid. split; [done|]. by rewrite decide_False.
Qed.

(** No byte of a range is mapped for writing elsewhere. *)
Definition unwritten (l : list MapInfo) (i : Z) : Prop := Forall (fun m => readOnly m = false -> ~ covers m i) l.

Lemma act_map mapFlags off len a : transfers_ok enqueueReadBuffer enqueueWriteBuffer -> faithful a -> allowed (Map mapFlags off len) a -> faithful (act (Map mapFlags off len) a).
Proof.
  intros Ht [Hm Hc Hv] Ha. destruct (map_outcome mapFlags off len a Ht Hm Ha) as (r & b & mem' & E & Eb & Es & En & Hok & Hr). destruct Ha as (Ho & Hl & Hin & _ & Hread).
  unfold act. rewrite E. set (base := mapBase allocateSystemMemory (buffer a)) in *. set (x := newMap base mapFlags off len) in *. destruct r as [p|err].
  - destruct Hr as (_ & Hov & Hops & [C1 C2 C3]). rewrite Es, En in *.
    assert (Forall (fun m => readOnly m = false \/ readOnly x = false -> apart x m) (mapOperations (buffer a))) as Hap.
    { destruct (readOnly x) eqn:Hrx.
      - apply bool_decide_eq_true in Hrx. eapply Forall_impl; [exact (Hread Hrx)|]. simpl. intros m Hmr [Hw|[=]]. specialize (Hmr Hw). unfold apart, x. simpl. lia.
      - pose proof (accepted_apart (buffer a) x Hm) as Hx. eapply Forall_impl; [apply Hx; try done; simpl; lia|]. done. }
    assert (mapped_ok (setMapOperations (mapOperations (buffer a) ++ [x]) (buffer a))) as Hm' by (apply mapped_add; try done; simpl; lia).
    assert (forall i, off <= i < off + len -> mem a (memoryStorage (buffer a) + i) = contents a i) as Hsrc.
    { intros i Hi. apply Hc; [lia|]. right. eapply Forall_impl; [exact Hap|]. simpl. intros m Hmx Hw Hcov. specialize (Hmx (or_introl Hw)). unfold apart, covers, x in *. simpl in *. lia. }
    constructor; simpl; rewrite ?Eb, ?Es, ?En, ?Hops.
    + destruct Hm' as [_ H2 H3]. constructor; [done| |by rewrite Hops]. rewrite Hops, Eb, En. exact H2.
    + intros i Hi Hcase. rewrite C2 by done. apply Hc; [done|]. destruct Hcase as [Hne|Hu]; [by left|right]. by apply Forall_app in Hu as [Hu _].
    + intros i Hex. unfold overlay. case_decide as Hd; [rewrite C1 by done; by apply Hsrc|]. apply Exists_app in Hex as [Hex|Hex].
      * rewrite C3; [by apply Hv| |done]. apply Exists_exists in Hex as (m & Hmem & Hcov). destruct Hm as [_ He _]. rewrite Forall_forall in He. destruct (He m Hmem) as (_ & _ & ? & ? & ?). unfold covers in Hcov. lia.
      * apply Exists_exists in Hex as (m & ->%list_elem_of_singleton & Hcov). unfold covers, x in Hcov. simpl in Hcov. lia.
  - destruct Hr as [Hperm ->]. constructor; simpl; rewrite ?Eb, ?Es, ?En; [|intros i Hi; rewrite Hperm; by apply Hc|intros i; rewrite Hperm; apply Hv].
    destruct Hm as [_ H2 H3]. constructor; [done|by rewrite Hperm, Eb, En|intros m l H; apply H3; by rewrite <- Hperm].
Qed.

Lemma act_unmap p a : transfers_ok enqueueReadBuffer enqueueWriteBuffer -> faithful a -> faithful (act (Unmap p) a).
Proof.
  intros Ht [Hm Hc Hv]. destruct (unmap_outcome p a Ht Hm) as (r & l & mem' & E & Hr). unfold act. rewrite E. set (base := mapBase allocateSystemMemory (buffer a)) in *. case_decide as Hs.
  2: { destruct Hr as [-> ->]. assert (setMapOperations (mapOperations (buffer a)) (buffer a) = buffer a) as -> by (by destruct (buffer a)). constructor; simpl; try done.
    intros i Hi Hcase. case_match; [rewrite decide_False by tauto|]; by apply Hc. }
  destruct Hr as (m & Hf & Hperm & Hmem). rewrite Hf. pose proof (mapped_sub (buffer a) l m Hm Hperm) as Hm'. destruct Hm as [_ He _]. rewrite Hperm in He. apply Forall_cons in He as [(_ & _ & M1 & M2 & M3) He].
  destruct (readOnly m) eqn:Hw.
  - subst mem'. rewrite decide_False by (intros [_ [=]]). constructor; simpl; [exact Hm'| |].
    + intros i Hi Hcase. apply Hc; [done|]. destruct Hcase as [Hne|Hu]; [by left|right]. rewrite Hperm. constructor; [congruence|done].
    + intros i Hex. apply Hv. rewrite Hperm. by right.
  - rewrite decide_True by done. destruct Hmem as [C1 C2 C3]. constructor; simpl; [exact Hm'| |].
    + intros i Hi Hcase. unfold overlay. case_decide as Hd; [rewrite C1 by done; apply Hv; rewrite Hperm; by left|]. rewrite C3 by done. apply Hc; [done|].
      destruct Hcase as [Hne|Hu]; [by left|right]. rewrite Hperm. constructor; [by intros _|done].
    + intros i Hex. fold base. apply Exists_exists in Hex as Hex'. destruct Hex' as (m' & Hm'' & Hcov). rewrite Forall_forall in He. destruct (He m' Hm'') as (_ & _ & ? & ? & ?). unfold covers in Hcov.
      change (mapBase allocateSystemMemory (setMapOperations l (buffer a))) with base. rewrite C2 by lia. apply Hv. rewrite Hperm. by right.
Qed.

Lemma act_store i v a : faithful a -> allowed (Store i v) a -> faithful (act (Store i v) a).
Proof.
  intros [Hm Hc Hv] Ha. pose proof (bo_alias _ _ (mo_buffer _ Hm)) as Hal. apply Exists_exists in Ha as (m & Hmem & Hw & Hcov). 
  pose proof (mo_each _ Hm) as He. rewrite Forall_forall in He. destruct (He m Hmem) as (_ & _ & M1 & M2 & M3). unfold covers in Hcov. unfold act, write. constructor; simpl; [done| |].
  - intros j Hj Hcase. rewrite decide_False; [by apply Hc|]. intros Heq. destruct Hcase as [Hne|Hu]; [lia|]. rewrite Forall_forall in Hu. specialize (Hu m Hmem Hw). unfold covers in Hu. lia.
  - intros j Hex. destruct (decide (j = i)) as [->|Hne]; [by rewrite !decide_True|]. rewrite !decide_False by lia. by apply Hv.
Qed.

Lemma actAll_faithful l : forall a, transfers_ok enqueueReadBuffer enqueueWriteBuffer -> faithful a -> allowedAll l a -> faithful (actAll l a).
Proof.
  induction l as [|o l IH]; intros a Ht Hf Ha; simpl in *; [done|]. destruct Ha as [Ho Ha]. apply IH; [done| |done]. destruct o; [by apply act_map|by apply act_store|by apply act_unmap].
Qed.

(** ** Properties *)

(** C40: whatever an application maps, writes and unmaps under the rules, with copies by the CPU or by the GPU, which may fail, and with or without zero copy, the buffer has the expected contents wherever it is not mapped for writing, each mapped pointer shows the contents at the time of the map and what was stored since, and nothing is mapped for writing twice. *)
Theorem mapped_writes_arrive b m0 v0 l : transfers_ok enqueueReadBuffer enqueueWriteBuffer -> buffer_ok allocateSystemMemory b -> mapOperations b = [] ->
  let a0 := mkApp b m0 (fun i => m0 (memoryStorage b + i)) v0 in allowedAll l a0 ->
  let a := actAll l a0 in
  (forall i, 0 <= i < bufferSize (buffer a) -> unwritten (mapOperations (buffer a)) i -> mem a (memoryStorage (buffer a) + i) = contents a i) /\
  (forall m i, m ∈ mapOperations (buffer a) -> covers m i -> ptr m = mapBase allocateSystemMemory (buffer a) + offset m /\ mem a (ptr m + (i - offset m)) = view a i) /\
  (forall m rest, mapOperations (buffer a) ≡ₚ m :: rest -> readOnly m = false -> Forall (apart m) rest).
Proof.
  intros Ht Hb Hnil a0 Hall a. assert (faithful a0) as H0.
  { constructor; simpl; rewrite ?Hnil; [|done|intros i Hex; by apply Exists_nil in Hex]. constructor; rewrite ?Hnil; [done|constructor|intros m rest Hp; by apply Permutation_nil_cons in Hp]. }
  destruct (actAll_faithful l a0 Ht H0 Hall) as [Hm Hc Hv]. fold a in Hm, Hc, Hv. split_and!.
  - intros i Hi Hu. apply Hc; [done|by right].
  - intros m i Hmem Hcov. pose proof (mo_each _ Hm) as He. rewrite Forall_forall in He. destruct (He m Hmem) as (Hp & _). split; [done|].
    rewrite <- Hv by (apply Exists_exists; eauto). f_equal. lia.
  - apply (mo_apart _ Hm).
Qed.
End Application.

(** *** Witnesses *)

Definition exampleRead (b : Buffer) (off len p : Z) (mem : Memory) : Z * Memory := (CL_SUCCESS, memcpy_s p (memoryStorage b + off) len mem).
Definition exampleWrite (b : Buffer) (off len p : Z) (mem : Memory) : Z * Memory := (CL_SUCCESS, memcpy_s (memoryStorage b + off) p len mem).
(** A host pointer that is not shared with the storage. *)
Definition exampleBuffer (memFlags : Z) (cpu : bool) : Buffer := mkBuffer memFlags true false cpu 0x1000 0x2000 16 None [].
Definition exampleMemory : Memory := fun a => a mod 256.
Definition exampleApp : App := mkApp (exampleBuffer 0 true) exampleMemory (fun i => exampleMemory (0x1000 + i)) (fun _ => 0).
Definition exampleOps : list Op := [Map CL_MAP_WRITE 4 8; Store 5 77; Unmap 0x2004].

Example mapped_writes_arrive_witness : mem (actAll exampleRead exampleWrite 0 exampleOps exampleApp) 0x1005 = 77.
Proof.
  destruct (mapped_writes_arrive exampleRead exampleWrite 0 (exampleBuffer 0 true) exampleMemory (fun _ => 0) exampleOps) as (H & _ & _).
  - split; intros; by left.
  - constructor; vm_compute; intuition discriminate.
  - reflexivity.
  - simpl. split_and!; try done; try lia; try (intros _; by constructor). constructor. split; [reflexivity|]. unfold covers. simpl. lia.
  - assert (mem (actAll exampleRead exampleWrite 0 exampleOps exampleApp) (0x1000 + 5) = 77) as Hx; [|exact Hx]. unfold exampleApp. rewrite H; [reflexivity|split; [done|vm_compute; reflexivity]|vm_compute; constructor].
Defined.

(** A writable range that ends where a mapped one begins is refused, one that
    begins where a mapped one ends is not. *)
Example adjacent_map_refused :
  let b := exampleBuffer 0 true in
  match clEnqueueMapBuffer exampleRead 0 CL_MAP_WRITE 8 8 b exampleMemory with
  | (inl _, b1, mem) => (clEnqueueMapBuffer exampleRead 0 CL_MAP_WRITE 0 8 b1 mem).1.1 = inr CL_INVALID_OPERATION
  | _ => False end /\
  match clEnqueueMapBuffer exampleRead 0 CL_MAP_WRITE 0 8 b exampleMemory with
  | (inl _, b1, mem) => (clEnqueueMapBuffer exampleRead 0 CL_MAP_WRITE 8 8 b1 mem).1.1 = inl 0x2008
  | _ => False end.
Proof. by vm_compute. Qed.

(** A range beyond the buffer is accepted, and bytes beyond the host memory are
    written. *)
Example map_beyond_buffer_accepted :
  match clEnqueueMapBuffer exampleRead 0 CL_MAP_READ 8 100 (exampleBuffer 0 true) (fun a => if decide (a < 0x2000) then 1 else 2) with
  | (inl p, _, mem) => p = 0x2008 /\ mem (0x2000 + 50) = 1
  | _ => False end.
Proof. by vm_compute. Qed.

(** A buffer that the host may only read can be mapped to be overwritten. *)
Example write_invalidate_accepted :
  mapMemObjFlagsInvalid CL_MAP_WRITE (exampleBuffer CL_MEM_HOST_READ_ONLY true) = true /\ mapMemObjFlagsInvalid CL_MAP_WRITE_INVALIDATE_REGION (exampleBuffer CL_MEM_HOST_READ_ONLY true) = false.
Proof. by vm_compute. Qed.

(** When the GPU cannot copy for a second reading map of a pointer, the first one is forgotten. *)
Example failed_map_removes_other :
  match clEnqueueMapBuffer exampleRead 0 CL_MAP_READ 0 4 (exampleBuffer 0 false) exampleMemory with
  | (inl _, b1, mem) => size <$> mapOperations (clEnqueueMapBuffer (fun _ _ _ _ m => (-5, m)) 0 CL_MAP_READ 0 16 b1 mem).1.2 = [16]
  | _ => False end.
Proof. by vm_compute. Qed.
