(* ===== verification/DeferredDeleter.v ===== *)
(** * The deferred deleter

    Model of [memory_manager/deferred_deleter.cpp]: deletions that cannot be made
    yet wait in a queue, which a worker thread and any thread that drains empty.
    Threads interleave: an [exec]ution is a sequence of events, each one atomic
    step of one thread: an operation of the thread-safe queue (see [IDList]), of
    an atomic counter, of a mutex or of the condition variable.  The program
    counters follow the lines of the code.  Waiting for the condition is two
    steps, before and after the mutex is given up, and may end without cause.

    Whether [apply] succeeds is an argument of its step.  [elementsToRelease] and
    [numClients] wrap in 32 bits.  [deferred] and [released] are ghost state: the
    deletions ever handed over and those counted as gone. *)

From S2P Require Import Prelude.

(** ** State *)

(** [clearQueue]. *)
Inductive Clear := RemoveFront | Apply (deletion : nat) | CountDown (deletion : nat) | PushBack (deletion : nat) | PeekEmpty.

Inductive Client :=
  | Idle
  | DeferLock (deletion : nat) | DeferCount (deletion : nat) | DeferPush (deletion : nat) | DeferUnlock | DeferNotify
  | Draining (blocking : bool) (c : Clear) | AreElementsReleased
  | AddLock | AddCount | EnsureThread
  | RemoveLock | RemoveCount | SafeStopLock
  | StopWorker | StopLock | StopStarted | StopSignal | StopUnlock | StopNotify | StopJoin | StopReset | StopDrain (c : Clear)
  | ThreadUnlock.

(** [run]. *)
Inductive Worker := RunLock | RunStarted | RunPeek | RunWait | Asleep | Woken | RunUnlock | RunClear (c : Clear) | RunRelock | ShouldStop | RunExit | Finished.

Inductive Owner := OfClient (t : nat) | OfWorker.

Record State := mkState {
  queue : list nat; elementsToRelease : Z; doWorkInBackground : bool; queueMutex : option Owner; threadMutex : option nat;
  worker : option Worker; numClients : Z; clients : list Client; deferred : list nat; released : list nat }.

Definition setQueue (q : list nat) (s : State) : State :=
  mkState q (elementsToRelease s) (doWorkInBackground s) (queueMutex s) (threadMutex s) (worker s) (numClients s) (clients s) (deferred s) (released s).
Definition setElements (e : Z) (s : State) : State :=
  mkState (queue s) e (doWorkInBackground s) (queueMutex s) (threadMutex s) (worker s) (numClients s) (clients s) (deferred s) (released s).
Definition setDoWork (b : bool) (s : State) : State :=
  mkState (queue s) (elementsToRelease s) b (queueMutex s) (threadMutex s) (worker s) (numClients s) (clients s) (deferred s) (released s).
Definition setQueueMutex (m : option Owner) (s : State) : State :=
  mkState (queue s) (elementsToRelease s) (doWorkInBackground s) m (threadMutex s) (worker s) (numClients s) (clients s) (deferred s) (released s).
Definition setThreadMutex (m : option nat) (s : State) : State :=
  mkState (queue s) (elementsToRelease s) (doWorkInBackground s) (queueMutex s) m (worker s) (numClients s) (clients s) (deferred s) (released s).
Definition setWorker (w : option Worker) (s : State) : State :=
  mkState (queue s) (elementsToRelease s) (doWorkInBackground s) (queueMutex s) (threadMutex s) w (numClients s) (clients s) (deferred s) (released s).
Definition setNumClients (n : Z) (s : State) : State :=
  mkState (queue s) (elementsToRelease s) (doWorkInBackground s) (queueMutex s) (threadMutex s) (worker s) n (clients s) (deferred s) (released s).
Definition setClient (t : nat) (th : Client) (s : State) : State :=
  mkState (queue s) (elementsToRelease s) (doWorkInBackground s) (queueMutex s) (threadMutex s) (worker s) (numClients s) (<[t := th]> (clients s)) (deferred s) (released s).
Definition addDeferred (d : nat) (s : State) : State :=
  mkState (queue s) (elementsToRelease s) (doWorkInBackground s) (queueMutex s) (threadMutex s) (worker s) (numClients s) (clients s) (d :: deferred s) (released s).
Definition addReleased (d : nat) (s : State) : State :=
  mkState (queue s) (elementsToRelease s) (doWorkInBackground s) (queueMutex s) (threadMutex s) (worker s) (numClients s) (clients s) (deferred s) (d :: released s).

(** The constructor. *)
Definition newDeleter (threads : nat) : State := mkState [] 0 false None None None 0 (replicate threads Idle) [] [].

(** ** Steps *)

(** One step of [clearQueue]; [None]: it returns. *)
Definition clearStep (c : Clear) (applied : bool) (s : State) : State * option Clear :=
  match c with
  | RemoveFront => match queue s with d :: q => (setQueue q s, Some (Apply d)) | [] => (s, Some PeekEmpty) end
  | Apply d => (s, Some (if applied then CountDown d else PushBack d))
  | CountDown d => (addReleased d (setElements (w32 (elementsToRelease s - 1)) s), Some PeekEmpty)
  | PushBack d => (setQueue (queue s ++ [d]) s, Some PeekEmpty)
  | PeekEmpty => (s, match queue s with [] => None | _ => Some RemoveFront end)
  end.

(** [condition.notify_one]: only the worker waits. *)
Definition wake (w : option Worker) : option Worker := match w with Some Asleep => Some Woken | _ => w end.
Definition notifyOne (s : State) : State := setWorker (wake (worker s)) s.

Definition lockQueue (o : Owner) (s : State) : option State := match queueMutex s with None => Some (setQueueMutex (Some o) s) | Some _ => None end.
Definition lockThread (t : nat) (s : State) : option State := match threadMutex s with None => Some (setThreadMutex (Some t) s) | Some _ => None end.

Definition ensureThread (s : State) : State := setWorker (match worker s with None => Some RunLock | w => w end) s.

Definition clientStep (t : nat) (applied : bool) (s : State) : option State :=
  th ← clients s !! t;
  let goto th s := Some (setClient t th s) in
  match th with
  | Idle => None
  | DeferLock d => s ← lockQueue (OfClient t) s; goto (DeferCount d) s
  | DeferCount d => goto (DeferPush d) (setElements (w32 (elementsToRelease s + 1)) s)
  | DeferPush d => goto DeferUnlock (setQueue (queue s ++ [d]) s)
  | DeferUnlock => goto DeferNotify (setQueueMutex None s)
  | DeferNotify => goto Idle (notifyOne s)
  | Draining blocking c =>
      let '(s, next) := clearStep c applied s in
      goto (match next with Some c => Draining blocking c | None => if blocking then AreElementsReleased else Idle end) s
  | AreElementsReleased => goto (if decide (elementsToRelease s = 0) then Idle else AreElementsReleased) s
  | AddLock => s ← lockThread t s; goto AddCount s
  | AddCount => goto EnsureThread (setNumClients (w32 (numClients s + 1)) s)
  | EnsureThread => goto ThreadUnlock (ensureThread s)
  | RemoveLock => s ← lockThread t s; goto RemoveCount s
  | RemoveCount =>
      let n := w32 (numClients s - 1) in
      goto (if decide (n = 0) then StopWorker else ThreadUnlock) (setNumClients n s)
  | SafeStopLock => s ← lockThread t s; goto StopWorker s
  | StopWorker => goto (match worker s with Some _ => StopLock | None => StopDrain RemoveFront end) s
  | StopLock => s ← lockQueue (OfClient t) s; goto StopStarted s
  | StopStarted => if doWorkInBackground s then goto StopSignal s else goto StopLock (setQueueMutex None s)
  | StopSignal => goto StopUnlock (setDoWork false s)
  | StopUnlock => goto StopNotify (setQueueMutex None s)
  | StopNotify => goto StopJoin (notifyOne s)
  | StopJoin => match worker s with Some Finished => goto StopReset s | _ => None end
  | StopReset => goto (StopDrain RemoveFront) (setWorker None s)
  | StopDrain c =>
      let '(s, next) := clearStep c applied s in
      goto (match next with Some c => StopDrain c | None => ThreadUnlock end) s
  | ThreadUnlock => goto Idle (setThreadMutex None s)
  end.

Definition workerStep (applied : bool) (s : State) : option State :=
  w ← worker s;
  let goto w s := Some (setWorker (Some w) s) in
  match w with
  | RunLock => s ← lockQueue OfWorker s; goto RunStarted s
  | RunStarted => goto RunPeek (setDoWork true s)
  | RunPeek => goto (match queue s with [] => RunWait | _ => RunUnlock end) s
  | RunWait => goto Asleep (setQueueMutex None s)
  | Asleep => None
  | Woken => s ← lockQueue OfWorker s; goto RunUnlock s
  | RunUnlock => goto (RunClear RemoveFront) (setQueueMutex None s)
  | RunClear c =>
      let '(s, next) := clearStep c applied s in
      goto (match next with Some c => RunClear c | None => RunRelock end) s
  | RunRelock => s ← lockQueue OfWorker s; goto ShouldStop s
  | ShouldStop => goto (if doWorkInBackground s then RunPeek else RunExit) s
  | RunExit => goto Finished (setQueueMutex None s)
  | Finished => None
  end.

Inductive Event :=
  | DeferDeletion (t deletion : nat)
  | Drain (t : nat) (blocking : bool)
  | AddClient (t : nat)
  | RemoveClient (t : nat)
  | SafeStop (t : nat)
  | Run (t : nat) (applied : bool)
  | RunWorker (applied : bool)
  | WakeUp.

(** Calls begin on idle threads. *)
Definition beginCall (t : nat) (th : Client) (s : State) : option State :=
  match clients s !! t with Some Idle => Some (setClient t th s) | _ => None end.
Definition exec (e : Event) (s : State) : option State :=
  match e with
  | DeferDeletion t d => s ← beginCall t (DeferLock d) s; Some (addDeferred d s)
  | Drain t blocking => beginCall t (Draining blocking RemoveFront) s
  | AddClient t => beginCall t AddLock s
  | RemoveClient t => beginCall t RemoveLock s
  | SafeStop t => beginCall t SafeStopLock s
  | Run t applied => clientStep t applied s
  | RunWorker applied => workerStep applied s
  | WakeUp => Some (notifyOne s)
  end.
Fixpoint execAll (es : list Event) (s : State) : option State :=
  match es with [] => Some s | e :: es => s ← exec e s; execAll es s end.
Definition reachable (s : State) : Prop := exists threads es, execAll es (newDeleter threads) = Some s.

(** ** Where deletions are *)

Definition clearHeld (c : Clear) : list nat := match c with Apply d | CountDown d | PushBack d => [d] | _ => [] end.
(** Deletions of a thread that are in [elementsToRelease], ... *)
Definition counted (th : Client) : list nat := match th with DeferPush d => [d] | Draining _ c | StopDrain c => clearHeld c | _ => [] end.
(** ... and those that are not yet. *)
Definition uncounted (th : Client) : list nat := match th with DeferLock d | DeferCount d => [d] | _ => [] end.
Definition workerHeld (w : option Worker) : list nat := match w with Some (RunClear c) => clearHeld c | _ => [] end.

Definition one (n d : nat) : nat := if decide (d = n) then 1%nat else 0%nat.

Record placed (s : State) : Prop := {
  pl_deferred : forall w, sumw w (deferred s) = (sumw w (queue s) + sumw (fun th => sumw w (counted th)) (clients s) +
    sumw (fun th => sumw w (uncounted th)) (clients s) + sumw w (workerHeld (worker s)) + sumw w (released s))%nat;
  pl_elements : elementsToRelease s = w32 (Z.of_nat (length (queue s) + sumw (fun th => length (counted th)) (clients s) + length (workerHeld (worker s)))) }.

(** ** Who holds the mutexes *)

Definition holdsQueue (th : Client) : bool :=
  match th with DeferCount _ | DeferPush _ | DeferUnlock | StopStarted | StopSignal | StopUnlock => true | _ => false end.
Definition holdsThread (th : Client) : bool :=
  match th with
  | AddCount | EnsureThread | RemoveCount | StopWorker | StopLock | StopStarted | StopSignal | StopUnlock | StopNotify | StopJoin | StopReset | StopDrain _ | ThreadUnlock => true
  | _ => false end.
Definition workerHolds (w : option Worker) : bool := match w with Some (RunStarted | RunPeek | RunWait | RunUnlock | ShouldStop | RunExit) => true | _ => false end.
Definition clientOwner (m : option Owner) : option nat := match m with Some (OfClient t) => Some t | _ => None end.

Definition owned (holds : Client -> bool) (m : option nat) (l : list Client) : Prop :=
  (forall t th, l !! t = Some th -> holds th = true <-> m = Some t) /\ (forall t, m = Some t -> is_Some (l !! t)).

Record locked (s : State) : Prop := {
  lo_queue : owned holdsQueue (clientOwner (queueMutex s)) (clients s);
  lo_worker : workerHolds (worker s) = true <-> queueMutex s = Some OfWorker;
  lo_thread : owned holdsThread (threadMutex s) (clients s) }.

(** ** The worker and the thread that stops it *)

Definition manager (s : State) : option Client := t ← threadMutex s; clients s !! t.
(** The flag is cleared and the worker not yet joined. *)
Definition signalled (m : option Client) : bool := match m with Some (StopUnlock | StopNotify | StopJoin) => true | _ => false end.
Definition joined (m : option Client) : bool := match m with Some (StopReset | StopDrain _) => true | _ => false end.

Definition phase_ok (w : option Worker) (doWork : bool) (m : option Client) : bool :=
  match w with
  | None => negb doWork && match m with Some (StopLock | StopStarted | StopSignal | StopUnlock | StopNotify | StopJoin | StopReset) => false | _ => true end
  | Some (RunLock | RunStarted) => negb doWork && match m with Some StopSignal => false | _ => negb (signalled m || joined m) end
  | Some (RunPeek | RunWait) => doWork && negb (signalled m || joined m)
  | Some Asleep => eqb doWork (negb (signalled m)) && match m with Some StopJoin => false | _ => negb (joined m) end
  | Some (Woken | RunUnlock | RunClear _ | RunRelock | ShouldStop) => eqb doWork (negb (signalled m)) && negb (joined m)
  | Some RunExit => negb doWork && signalled m
  | Some Finished => negb doWork && (signalled m || match m with Some StopReset => true | _ => false end)
  end.

Definition phased (s : State) : Prop := phase_ok (worker s) (doWorkInBackground s) (manager s) = true.

(** ** Who will look at the queue *)

Definition clearing (th : Client) : bool := match th with Draining _ _ | StopDrain _ => true | _ => false end.
Definition notifying (th : Client) : bool := match th with DeferUnlock | DeferNotify => true | _ => false end.
Definition attended (s : State) : Prop :=
  match worker s with
  | Some RunWait => queue s = [] \/ exists t th, clients s !! t = Some th /\ clearing th = true
  | Some Asleep => queue s = [] \/ exists t th, clients s !! t = Some th /\ clearing th || notifying th = true
  | _ => True
  end.

(** ** Preservation *)

Lemma owned_keep h m l t th th' : owned h m l -> l !! t = Some th -> h th' = h th -> owned h m (<[t := th']> l).
Proof.
  intros [H1 H2] Ht E. split.
  - intros u x. rewrite list_lookup_insert_Some. intros [(-> & <- & _)|[_ Hu]]; [rewrite E|]; by apply H1.
  - intros u Hu. rewrite lookup_lt_is_Some, length_insert, <- lookup_lt_is_Some. by apply H2.
Qed.

Lemma owned_take h l t th th' : owned h None l -> l !! t = Some th -> h th' = true -> owned h (Some t) (<[t := th']> l).
Proof.
  intros [H1 _] Ht E. split.
  - intros u x. rewrite list_lookup_insert_Some. intros [(-> & <- & _)|[Hne Hu]]; [by rewrite E|]. rewrite (H1 u x Hu). split; [done|congruence].
  - intros u [= <-]. rewrite lookup_lt_is_Some, length_insert, <- lookup_lt_is_Some. by eexists.
Qed.

Lemma owned_drop h m l t th th' : owned h m l -> l !! t = Some th -> h th = true -> h th' = false -> owned h None (<[t := th']> l).
Proof.
  intros [H1 _] Ht E E'. split; [|done]. apply (H1 t th Ht) in E as ->.
  intros u x. rewrite list_lookup_insert_Some. intros [(-> & <- & _)|[Hne Hu]]; [by rewrite E'|]. rewrite (H1 u x Hu). split; [congruence|done].
Qed.

Lemma w32_add a b c : a + b = c -> w32 (w32 a + b) = w32 c.
Proof. intros <-. apply Zplus_mod_idemp_l. Qed.

(** The places before and after a step, as linear facts. *)
Lemma deleter_placed_move s s' t th th' :
  placed s -> clients s !! t = Some th -> clients s' = <[t := th']> (clients s) -> workerHeld (worker s') = workerHeld (worker s) ->
  (forall w, (sumw w (deferred s') + sumw w (queue s) + sumw w (released s) + sumw w (counted th) + sumw w (uncounted th) =
    sumw w (deferred s) + sumw w (queue s') + sumw w (released s') + sumw w (counted th') + sumw w (uncounted th'))%nat) ->
  (exists k, elementsToRelease s' = (if decide (k = 0) then elementsToRelease s else w32 (elementsToRelease s + k)) /\
    Z.of_nat (length (queue s') + length (counted th')) = Z.of_nat (length (queue s) + length (counted th)) + k) ->
  placed s'.
Proof.
  intros [P1 P2] Ht Ec Ew Hp (k & Ee & Hk). split.
  - intros w. specialize (P1 w). specialize (Hp w). rewrite Ec, Ew. pose proof (sum_update (fun x => sumw w (counted x)) t th th' _ Ht). pose proof (sum_update (fun x => sumw w (uncounted x)) t th th' _ Ht).
    simpl in *. lia.
  - rewrite Ec, Ew, Ee, P2. pose proof (sum_update (fun x => length (counted x)) t th th' _ Ht). simpl in *. case_decide as Hz; [f_equal; lia|]. apply w32_add. lia.
Qed.

Lemma wake_held w : workerHeld (wake w) = workerHeld w.
Proof. by destruct w as [[]|]. Qed.

(** The steps of a thread. *)
Ltac step_cases H :=
  cbn [mbind option_bind] in H;
  repeat first [match type of H with context [match ?x with _ => _ end] => let E := fresh "E" in destruct x eqn:E; cbn [mbind option_bind] in H end
    | match goal with E : match ?x with _ => _ end = _ |- _ => let E' := fresh "E" in destruct x eqn:E' end
    | progress simplify_eq/=]; try discriminate.
Ltac client_cases H th Ht :=
  unfold clientStep in H; destruct (clients _ !! _) as [th|] eqn:Ht in H; [|discriminate H]; cbn [mbind option_bind] in H;
  destruct th; try match goal with c : Clear |- _ => destruct c end; unfold lockQueue, lockThread, clearStep in H; step_cases H.
Ltac worker_cases H w Ew :=
  unfold workerStep in H; destruct (worker _) as [w|] eqn:Ew in H; [|discriminate H]; cbn [mbind option_bind] in H;
  destruct w; try match goal with c : Clear |- _ => destruct c end; unfold lockQueue, clearStep in H; step_cases H.

Ltac moved k :=
  eapply deleter_placed_move; [eassumption|eassumption|reflexivity|first [reflexivity|apply wake_held|unfold ensureThread; simpl; by destruct (worker _)]
    |intros w'; simpl; try match goal with H : queue _ = _ :: _ |- _ => rewrite H end; simpl; rewrite ?sum_list_with_app; simpl; lia
    |exists k; simpl; try match goal with H : queue _ = _ :: _ |- _ => rewrite H end; simpl; rewrite ?length_app; simpl; split; [done|lia]].

Lemma manager_of s t th : locked s -> clients s !! t = Some th -> holdsThread th = true -> manager s = Some th.
Proof. intros [_ _ [H _]] Ht Hh. unfold manager. apply (H t th Ht) in Hh as ->. done. Qed.

Lemma placed_client t applied s s' : placed s -> locked s -> phased s -> clientStep t applied s = Some s' -> placed s'.
Proof.
  intros P L Ph H. client_cases H th Ht; try moved 0; try moved 1; try moved (-1).
  eapply deleter_placed_move; [done|done|reflexivity| |intros w'; simpl; lia|exists 0; simpl; split; [done|lia]].
  assert (manager s = Some StopReset) as Em by (by eapply manager_of). unfold phased in Ph. rewrite Em in Ph. simpl.
  destruct (worker s) as [[]|], (doWorkInBackground s); done.
Qed.

Lemma placed_worker applied s s' : placed s -> workerStep applied s = Some s' -> placed s'.
Proof.
  intros [P1 P2] H. worker_cases H w Ew; rewrite Ew in P1, P2.
  all: try match goal with E : queue _ = _ |- _ => rewrite E in P1, P2 end.
  all: split; [intros w'; specialize (P1 w'); simpl in *; rewrite ?sum_list_with_app; try match goal with E : queue _ = _ |- _ => rewrite E end; simpl in *; lia|].
  all: simpl in *; rewrite P2, ?length_app; try match goal with E : queue _ = _ |- _ => rewrite E end; simpl; try (f_equal; lia).
  apply w32_add. lia.
Qed.

Lemma placed_call t th s s' : beginCall t th s = Some s' -> placed s -> counted th = [] -> uncounted th = [] -> placed s'.
Proof. intros H P H1 H2. unfold beginCall in H. case_match; [|done]. case_match; simplify_eq. eapply deleter_placed_move; [done|done|done|done|intros w; simpl; rewrite H1, H2; done|exists 0; simpl; rewrite H1; split; [done|simpl; lia]]. Qed.

Lemma placed_exec e s s' : placed s -> locked s -> phased s -> exec e s = Some s' -> placed s'.
Proof.
  intros P L Ph H. destruct e; simpl in H; try exact (placed_call _ _ _ _ H P eq_refl eq_refl).
  - unfold beginCall in H. destruct (clients s !! t) as [[]|] eqn:Ht; try done. simpl in H. simplify_eq.
    eapply deleter_placed_move; [done|done|reflexivity|done|intros w; simpl; lia|exists 0; simpl; split; [done|lia]].
  - exact (placed_client _ _ _ _ P L Ph H).
  - exact (placed_worker _ _ _ P H).
  - simplify_eq. destruct P as [P1 P2]. split; simpl; [intros w|]; rewrite wake_held; done.
Qed.

(** The mutexes. *)
Ltac owner_step :=
  match goal with
  | |- owned _ None _ => first [eapply owned_drop; [eassumption|eassumption|reflexivity|reflexivity]|eapply owned_keep; [eassumption|eassumption|reflexivity]]
  | |- owned _ (Some _) _ => first [eapply owned_keep; [eassumption|eassumption|reflexivity]|eapply owned_take; [eassumption|eassumption|reflexivity]]
  | |- owned _ _ _ => eapply owned_keep; [eassumption|eassumption|reflexivity]
  end.

Lemma wake_holds w : workerHolds (wake w) = workerHolds w.
Proof. by destruct w as [[]|]. Qed.

Lemma holder_queue s t th : locked s -> clients s !! t = Some th -> holdsQueue th = true -> queueMutex s = Some (OfClient t).
Proof. intros [[H _] _ _] Ht Hh. apply (H t th Ht) in Hh. destruct (queueMutex s) as [[]|]; naive_solver. Qed.

Lemma locked_client t applied s s' : locked s -> phased s -> clientStep t applied s = Some s' -> locked s'.
Proof.
  intros L Ph H. pose proof L as [L1 L2 L3]. client_cases H th Ht; split; simpl; try owner_step; rewrite ?wake_holds; try exact L2.
  all: try (match goal with E : worker _ = _ |- _ => rewrite E; exact L2 end).
  all: try (rewrite L2; by split).
  all: try (rewrite (holder_queue _ _ _ L Ht eq_refl) in L2; rewrite L2; by split).
  - rewrite <- L2. clear. destruct (worker s); simpl; done.
  - assert (manager s = Some StopReset) as Em by (by eapply manager_of). unfold phased in Ph. rewrite Em in Ph. rewrite <- L2.
    destruct (worker s) as [[]|], (doWorkInBackground s); done.
Qed.

Lemma owned_worker l m m' : clientOwner m = clientOwner m' -> owned holdsQueue (clientOwner m) l -> owned holdsQueue (clientOwner m') l.
Proof. by intros ->. Qed.

Lemma locked_worker applied s s' : locked s -> workerStep applied s = Some s' -> locked s'.
Proof.
  intros [L1 L2 L3] H. worker_cases H w Ew; rewrite Ew in L2.
  all: split; simpl in *; try exact L3.
  all: first [exact L1|exact L2|by split|by rewrite (proj1 L2 eq_refl) in L1].
Qed.

Lemma locked_call t th s s' : beginCall t th s = Some s' -> locked s -> holdsQueue th = false -> holdsThread th = false -> locked s'.
Proof.
  intros H [L1 L2 L3] H1 H2. unfold beginCall in H. case_match eqn:Ht; [|done]. case_match; simplify_eq.
  split; simpl; [eapply owned_keep; done|done|eapply owned_keep; done].
Qed.

Lemma locked_exec e s s' : locked s -> phased s -> exec e s = Some s' -> locked s'.
Proof.
  intros L Ph H. destruct e; simpl in H; try exact (locked_call _ _ _ _ H L eq_refl eq_refl).
  - destruct (beginCall t (DeferLock deletion) s) as [s1|] eqn:E; [|done]. simpl in H. simplify_eq. destruct (locked_call _ _ _ _ E L eq_refl eq_refl). by split.
  - exact (locked_client _ _ _ _ L Ph H).
  - exact (locked_worker _ _ _ L H).
  - simplify_eq. destruct L as [L1 L2 L3]. split; simpl; [done|by rewrite wake_holds|done].
Qed.

(** The phases of the worker. *)
Lemma manager_same s s' t th th' : locked s -> clients s !! t = Some th -> holdsThread th = false ->
  threadMutex s' = threadMutex s -> clients s' = <[t := th']> (clients s) -> manager s' = manager s.
Proof.
  intros [_ _ [H _]] Ht Hh Et Ec. unfold manager. rewrite Et, Ec. destruct (threadMutex s) as [u|] eqn:Eu; [|done]. simpl.
  apply list_lookup_insert_ne. intros ->. destruct (H u th Ht) as [_ Hu]. rewrite Hu in Hh; done.
Qed.

Lemma manager_own s s' t th th' : locked s -> clients s !! t = Some th -> holdsThread th = true ->
  threadMutex s' = threadMutex s -> clients s' = <[t := th']> (clients s) -> manager s' = Some th'.
Proof.
  intros [_ _ [H _]] Ht Hh Et Ec. unfold manager. apply (H t th Ht) in Hh. rewrite Et, Ec, Hh. simpl.
  apply list_lookup_insert_eq. by eapply lookup_lt_Some.
Qed.

Lemma phase_wake w b m : phase_ok w b m = true -> phase_ok (wake w) b m = true.
Proof. destruct w as [[]|]; simpl; try done. destruct m as [[]|], b; done. Qed.

Lemma phased_client t applied s s' : locked s -> phased s -> clientStep t applied s = Some s' -> phased s'.
Proof.
  intros L Ph H.
  assert (forall th, clients s !! t = Some th -> holdsThread th = true -> manager s = Some th) as Mo by (intros; by eapply manager_of).
  client_cases H th Ht.
  all: try (unfold phased in *; erewrite manager_same; [|eassumption|eassumption|reflexivity|reflexivity|reflexivity]; first [exact Ph|by apply phase_wake]).
  all: try (unfold phased in *; rewrite (Mo _ Ht eq_refl) in Ph; erewrite manager_own; [|eassumption|eassumption|reflexivity|reflexivity|reflexivity]; simpl in *;
    destruct (worker _) as [[]|], (doWorkInBackground _); done).
  1-3: unfold phased in *; unfold manager in Ph; rewrite E in Ph; unfold manager; simpl; rewrite list_lookup_insert_eq by (by eapply lookup_lt_Some);
    destruct (worker s) as [[]|], (doWorkInBackground s); done.
  - pose proof (holder_queue _ _ _ L Ht eq_refl) as Hq. pose proof (lo_worker _ L) as L2. rewrite Hq in L2. unfold phased in *. rewrite (Mo _ Ht eq_refl) in Ph.
    erewrite manager_own; [|eassumption|eassumption|reflexivity|reflexivity|reflexivity]. simpl in *.
    destruct (worker s) as [[]|], (doWorkInBackground s); try done; discriminate (proj1 L2 eq_refl).
  - unfold phased in *. rewrite (Mo _ Ht eq_refl) in Ph. unfold manager. simpl. destruct (worker s) as [[]|], (doWorkInBackground s); done.
Qed.

Lemma phased_worker applied s s' : locked s -> phased s -> workerStep applied s = Some s' -> phased s'.
Proof.
  intros L Ph H. unfold phased in Ph. worker_cases H w Ew; rewrite Ew in Ph; unfold phased, manager in *; simpl in *; destruct (threadMutex _) as [t|]; simpl in *;
    try destruct (clients _ !! t) as [[]|], (doWorkInBackground _); try done.
  all: by destruct (doWorkInBackground _).
Qed.

Lemma phased_call t th s s' : beginCall t th s = Some s' -> locked s -> phased s -> holdsThread th = false -> phased s'.
Proof.
  intros H L Ph H1. unfold beginCall in H. destruct (clients s !! t) as [x|] eqn:Ht; [|done]. destruct x; simplify_eq.
  unfold phased in *. by erewrite manager_same; [|eassumption|eassumption|reflexivity|reflexivity|reflexivity].
Qed.

Lemma phased_exec e s s' : locked s -> phased s -> exec e s = Some s' -> phased s'.
Proof.
  intros L Ph H. destruct e; simpl in H; try exact (phased_call _ _ _ _ H L Ph eq_refl).
  - destruct (beginCall t (DeferLock deletion) s) as [s1|] eqn:E; [|done]. simpl in H. simplify_eq. exact (phased_call _ _ _ _ E L Ph eq_refl).
  - exact (phased_client _ _ _ _ L Ph H).
  - exact (phased_worker _ _ _ L Ph H).
  - simplify_eq. by apply phase_wake.
Qed.

(** Who looks at the queue. *)
Lemma witness_kept (f : Client -> bool) (t : nat) th th' (l : list Client) : l !! t = Some th -> f th = false ->
  (exists (u : nat) x, l !! u = Some x /\ f x = true) -> exists u x, <[t := th']> l !! u = Some x /\ f x = true.
Proof. intros Ht Hf (u & x & Hu & Hx). exists u, x. split; [|done]. rewrite list_lookup_insert_ne; [done|]. intros ->. congruence. Qed.

Lemma witness_here (f : Client -> bool) (t : nat) th th' (l : list Client) : l !! t = Some th -> f th' = true -> exists u x, <[t := th']> l !! u = Some x /\ f x = true.
Proof. intros Ht Hf. exists t, th'. split; [|done]. apply list_lookup_insert_eq. by eapply lookup_lt_Some. Qed.

Lemma attended_client t applied s s' : locked s -> attended s -> clientStep t applied s = Some s' -> attended s'.
Proof.
  intros L A H. pose proof (holder_queue s t) as Hq. pose proof (lo_worker _ L) as L2.
  client_cases H th Ht; unfold attended in *; simpl; destruct (worker _) as [[]|]; simpl in *; try done.
  all: try (destruct A as [A|A]; [by left|right; eapply witness_kept; [eassumption|reflexivity|exact A]]).
  all: try (right; eapply witness_here; [eassumption|reflexivity]).
  all: try (left; assumption).
  rewrite (Hq _ L Ht eq_refl) in L2. discriminate (proj1 L2 eq_refl).
Qed.

Lemma attended_worker applied s s' : attended s -> workerStep applied s = Some s' -> attended s'.
Proof.
  intros A H. worker_cases H w Ew; unfold attended in *; simpl; try done; rewrite Ew in A; [by left|].
  destruct A as [A|(t & th & Ht & Hc)]; [by left|right]. exists t, th. by rewrite Hc.
Qed.

Lemma attended_exec e s s' : locked s -> attended s -> exec e s = Some s' -> attended s'.
Proof.
  assert (forall t th s s', beginCall t th s = Some s' -> attended s -> attended s') as Hc.
  { clear. intros t th s s' H A. unfold beginCall in H. destruct (clients s !! t) as [x|] eqn:Ht; [|done]. destruct x; simplify_eq.
    unfold attended in *. simpl. destruct (worker s) as [[]|]; try done; (destruct A as [A|A]; [by left|right; eapply witness_kept; [eassumption|reflexivity|exact A]]). }
  intros L A H. destruct e; simpl in H; try exact (Hc _ _ _ _ H A).
  - destruct (beginCall t (DeferLock deletion) s) as [s1|] eqn:E; [|done]. simpl in H. simplify_eq. exact (Hc _ _ _ _ E A).
  - exact (attended_client _ _ _ _ L A H).
  - exact (attended_worker _ _ _ A H).
  - simplify_eq. unfold attended in *. simpl. by destruct (worker s) as [[]|].
Qed.

(** ** Reachable states *)

Record inv (s : State) : Prop := { inv_placed : placed s; inv_locked : locked s; inv_phased : phased s; inv_attended : attended s }.

Lemma deleter_inv_exec e s s' : inv s -> exec e s = Some s' -> inv s'.
Proof. intros [P L Ph A] H. split; [by eapply placed_exec|by eapply locked_exec|by eapply phased_exec|by eapply attended_exec]. Qed.

Lemma deleter_inv_execAll es s s' : inv s -> execAll es s = Some s' -> inv s'.
Proof.
  revert s. induction es as [|e es IH]; intros s I H; simpl in H; [by simplify_eq|].
  destruct (exec e s) as [s1|] eqn:E; [|done]. simpl in H. apply (IH s1); [by eapply deleter_inv_exec|done].
Qed.

Lemma sum_idle (f : Client -> nat) k : f Idle = 0%nat -> sumw f (replicate k Idle) = 0%nat.
Proof. intros Hf. induction k as [|k IH]; simpl; [done|]. by rewrite Hf. Qed.

Lemma deleter_inv_new k : inv (newDeleter k).
Proof.
  assert (forall h : Client -> bool, h Idle = false -> owned h None (replicate k Idle)) as Ho.
  { intros h Hh. split; [|done]. intros t th Ht. apply lookup_replicate in Ht as [-> _]. by rewrite Hh. }
  split; [split| | |done].
  - intros w. simpl. by rewrite !sum_idle.
  - simpl. by rewrite sum_idle.
  - split; simpl; [by apply Ho|done|by apply Ho].
  - done.
Qed.

Lemma deleter_reachable_inv s : reachable s -> inv s.
Proof. intros (k & es & H). eapply deleter_inv_execAll; [apply deleter_inv_new|done]. Qed.

Lemma deleter_execAll_app es es' s : execAll (es ++ es') s = (s ← execAll es s; execAll es' s).
Proof. revert s. induction es as [|e es IH]; intros s; simpl; [done|]. destruct (exec e s) as [s1|]; simpl; [apply IH|done]. Qed.

Lemma reachable_step e s s' : reachable s -> exec e s = Some s' -> reachable s'.
Proof. intros (k & es & E) H. exists k, (es ++ [e]). rewrite deleter_execAll_app, E. simpl. by rewrite H. Qed.

(** How often [n] occurs. *)
Definition occurs (n : nat) (l : list nat) : nat := sumw (one n) l.
Definition held (n : nat) (s : State) : nat := (sumw (fun th => occurs n (counted th)) (clients s) + occurs n (workerHeld (worker s)))%nat.
Definition beingDeferred (n : nat) (s : State) : nat := sumw (fun th => occurs n (uncounted th)) (clients s).

(** C10: under any interleaving of threads that defer, drain, add and remove clients
    and of the worker, each deletion handed over is at one place: with the
    thread that hands it over, in the queue, with the one thread that took it
    from there, or released; and [elementsToRelease] counts those in the queue
    and with the threads that took them. *)
Theorem deletions_in_one_place s : reachable s ->
  (forall n, occurs n (deferred s) = (beingDeferred n s + occurs n (queue s) + held n s + occurs n (released s))%nat) /\
  exists k, elementsToRelease s = w32 (Z.of_nat k) /\ k = (length (queue s) + sumw (fun th => length (counted th)) (clients s) + length (workerHeld (worker s)))%nat.
Proof.
  intros [[P1 P2] _ _ _]%deleter_reachable_inv. split.
  - intros n. specialize (P1 (one n)). unfold beingDeferred, held, occurs. lia.
  - by eexists.
Qed.

Lemma sumw_nil (f : Client -> list nat) l n : sumw (fun th => length (f th)) l = 0%nat -> sumw (fun th => occurs n (f th)) l = 0%nat.
Proof. induction l as [|x l IH]; simpl; [done|]. intros H. rewrite IH by lia. by destruct (f x); [|simpl in H; lia]. Qed.

(** C34: a thread leaves a blocking drain only when every deletion is released whose
    hand-over has got to the count; a hand-over that has not is the only
    exception.  The count of fewer than 2^32 deletions does not wrap to zero. *)
Theorem blocking_drain_waits s s' t applied : reachable s -> Z.of_nat (length (deferred s)) < 2 ^ 32 ->
  clients s !! t = Some AreElementsReleased -> exec (Run t applied) s = Some s' -> clients s' !! t = Some Idle ->
  queue s' = [] /\ forall n, occurs n (deferred s') = (beingDeferred n s' + occurs n (released s'))%nat.
Proof.
  intros R Hb Ht H Hi. pose proof (reachable_step _ _ _ R H) as R'.
  apply deleter_reachable_inv in R as [[P1 P2] _ _ _]. apply deleter_reachable_inv in R' as [[P1' _] _ _ _].
  simpl in H. unfold clientStep in H. rewrite Ht in H. simpl in H. simplify_eq. simpl in Hi.
  rewrite list_lookup_insert_eq in Hi by (by eapply lookup_lt_Some). case_decide as Hz; [|done].
  specialize (P1 (fun _ => 1%nat)). rewrite P2 in Hz.
  change (length (deferred s) = (length (queue s) + sumw (fun th => length (counted th)) (clients s) + sumw (fun th => length (uncounted th)) (clients s) +
    length (workerHeld (worker s)) + length (released s))%nat) in P1.
  rewrite wrap_small in Hz by (unfold uint; lia).
  assert (length (queue s) = 0 /\ sumw (fun th => length (counted th)) (clients s) = 0 /\ length (workerHeld (worker s)) = 0)%nat as (Q & C & W) by lia.
  apply nil_length_inv in Q, W. split; [done|]. intros n. specialize (P1' (one n)). simpl in P1'. rewrite Q, W in P1'. simpl in P1'.
  pose proof (sum_update (fun x => occurs n (counted x)) t _ Idle _ Ht) as Hu. rewrite (sumw_nil _ _ n C) in Hu. unfold beingDeferred, occurs in *. simpl in *. lia.
Qed.

(** the worker never sleeps through work: while it waits and the queue holds a
    deletion, another thread is on its way to wake it up or empties the queue
    itself. *)
Theorem sleeping_worker_is_attended s : reachable s -> worker s = Some Asleep -> queue s <> [] ->
  exists t th, clients s !! t = Some th /\ (notifying th = true \/ clearing th = true).
Proof.
  intros [_ _ _ A]%deleter_reachable_inv Hw Hq. unfold attended in A. rewrite Hw in A. destruct A as [A|(t & th & Ht & A)]; [done|].
  exists t, th. split; [done|]. apply orb_true_iff in A. tauto.
Qed.

(** ** Stopping *)

Definition clearMeasure (c : Clear) (q : nat) : nat :=
  match c with RemoveFront => if decide (q = 0)%nat then 2 else 4 * q | Apply _ => 4 * q + 3 | CountDown _ => 4 * q + 2 | PushBack _ => 4 * q + 6 | PeekEmpty => 4 * q + 1 end.
(** Steps to the end of a worker that finds the flag cleared. *)
Definition workerMeasure (w : option Worker) (q : nat) : nat :=
  match w with
  | Some Woken => 7 + clearMeasure RemoveFront q | Some RunUnlock => 6 + clearMeasure RemoveFront q | Some (RunClear c) => 5 + clearMeasure c q
  | Some RunRelock => 4 | Some ShouldStop => 3 | Some RunExit => 2 | _ => 0
  end.

Definition joining (t : nat) (s : State) : Prop := clients s !! t = Some StopJoin.

Lemma joining_phase t s : inv s -> joining t s -> manager s = Some StopJoin /\ doWorkInBackground s = false /\ phase_ok (worker s) false (Some StopJoin) = true.
Proof.
  intros [_ L Ph _] Ht. assert (manager s = Some StopJoin) as Em by (by eapply manager_of). unfold phased in Ph. rewrite Em in Ph.
  destruct (worker s) as [[]|], (doWorkInBackground s); done.
Qed.

Lemma worker_progress t s : inv s -> joining t s -> clientOwner (queueMutex s) = None -> worker s <> Some Finished ->
  exists s', exec (RunWorker true) s = Some s' /\ joining t s' /\ clientOwner (queueMutex s') = None /\
    (workerMeasure (worker s') (length (queue s')) < workerMeasure (worker s) (length (queue s)))%nat.
Proof.
  intros I Ht Hm Hf. destruct (joining_phase t s I Ht) as (_ & Hd & Ph). pose proof (lo_worker _ (inv_locked _ I)) as L.
  assert (workerHolds (worker s) = false -> queueMutex s = None) as Hn.
  { intros Hw. destruct (queueMutex s) as [[u|]|] eqn:Eq; [done| |done]. rewrite (proj2 L eq_refl) in Hw. done. }
  simpl. unfold workerStep, joining in *. destruct (worker s) as [w|]; [|done]. simpl.
  destruct w as [| | | | | | |[]| | | |]; try done; simpl in *; unfold lockQueue; rewrite ?Hn by done; simpl; rewrite ?Hd;
    try (destruct (queue s) as [|x q] eqn:Eq); simpl; eexists; (split; [reflexivity|]); simpl; rewrite ?Eq, ?length_app; simpl; (split; [done|]); (split; [done|]); repeat case_decide; lia.
Qed.

Definition runs (e : Event) : Prop := match e with Run _ true | RunWorker true => True | _ => False end.

Lemma worker_finishes n t s : inv s -> joining t s -> clientOwner (queueMutex s) = None -> (workerMeasure (worker s) (length (queue s)) <= n)%nat ->
  exists es s', Forall runs es /\ execAll es s = Some s' /\ joining t s' /\ worker s' = Some Finished.
Proof.
  revert s. induction n as [|n IH]; intros s I Ht Hm Hn.
  - exists [], s. split_and!; [done|done|done|]. destruct (joining_phase t s I Ht) as (_ & _ & Ph). destruct (worker s) as [[]|]; try done; simpl in Hn; lia.
  - assert (worker s = Some Finished \/ worker s <> Some Finished) as [Hf|Hf] by (destruct (worker s) as [[]|]; naive_solver); [by exists [], s|].
    destruct (worker_progress t s I Ht Hm Hf) as (s1 & E & Ht1 & Hm1 & Hl). destruct (IH s1) as (es & s' & Hr & E' & H'); [by eapply deleter_inv_exec|done|done|lia|].
    exists (RunWorker true :: es), s'. split; [by constructor|]. split; [cbn [execAll]; by rewrite E|done].
Qed.

(** A thread in the middle of [deferDeletion] gives the mutex back. *)
Lemma queue_mutex_freed t s : inv s -> joining t s -> exists es s', Forall runs es /\ execAll es s = Some s' /\ joining t s' /\ clientOwner (queueMutex s') = None.
Proof.
  intros I Ht. destruct (queueMutex s) as [[u|]|] eqn:Eq; [|by exists [], s; rewrite Eq..].
  pose proof (inv_locked _ I) as [[_ L1] _ [L3 _]]. rewrite Eq in L1. destruct (L1 u eq_refl) as [x Hx]. pose proof (inv_locked _ I) as L.
  assert (holdsQueue x = true) as Hh by (apply (proj1 (lo_queue _ L) u x Hx); by rewrite Eq).
  assert (u <> t) as Hne by (intros ->; unfold joining in Ht; rewrite Ht in Hx; by simplify_eq).
  assert (holdsThread x = false) as Hth.
  { destruct (holdsThread x) eqn:E; [|done]. apply (L3 u x Hx) in E. rewrite (proj1 (L3 t _ Ht) eq_refl) in E. congruence. }
  destruct x; try done; [exists [Run u true; Run u true; Run u true]|exists [Run u true; Run u true]|exists [Run u true]]; eexists; (split; [by repeat constructor|]);
    simpl; unfold clientStep; rewrite Hx; simpl; rewrite ?list_lookup_insert_eq by (rewrite ?length_insert; by eapply lookup_lt_Some); simpl;
    rewrite ?list_lookup_insert_eq by (rewrite ?length_insert; by eapply lookup_lt_Some); simpl; (split; [reflexivity|]); unfold joining in *; simpl; rewrite ?list_lookup_insert_ne by done; by split.
Qed.

(** C35: a thread that stops the worker is never stuck in [join]: the steps that the
    other threads and the worker can take lead the worker, which is not asleep
    and finds the flag cleared, to its end, and then [join] returns. *)
Theorem join_returns t s : reachable s -> clients s !! t = Some StopJoin ->
  exists es s', Forall runs es /\ execAll es s = Some s' /\ clients s' !! t = Some StopReset.
Proof.
  intros I%deleter_reachable_inv Ht. destruct (queue_mutex_freed t s I Ht) as (es1 & s1 & R1 & E1 & Ht1 & Hm).
  destruct (worker_finishes _ t s1 (deleter_inv_execAll _ _ _ I E1) Ht1 Hm (le_n _)) as (es2 & s2 & R2 & E2 & Ht2 & Hf).
  exists (es1 ++ es2 ++ [Run t true]), (setClient t StopReset s2). split; [apply Forall_app; split; [done|]; apply Forall_app; split; [done|by repeat constructor]|].
  rewrite deleter_execAll_app, E1. cbn [mbind option_bind]. rewrite deleter_execAll_app, E2. cbn [mbind option_bind]. simpl. unfold clientStep. unfold joining in Ht2. rewrite Ht2. simpl. rewrite Hf. simpl.
  split; [reflexivity|]. simpl. apply list_lookup_insert_eq. by eapply lookup_lt_Some.
Qed.

(** Nothing is left when a stop returns and no other thread is inside a call. *)
Lemma stop_leaves_nothing t s : reachable s -> clients s !! t = Some (StopDrain PeekEmpty) -> queue s = [] ->
  (forall u th, u <> t -> clients s !! u = Some th -> th = Idle) -> worker s = None /\ forall n, occurs n (deferred s) = occurs n (released s).
Proof.
  intros R Ht Hq Ho. pose proof (deleter_reachable_inv _ R) as [[P1 _] L Ph _].
  assert (manager s = Some (StopDrain PeekEmpty)) as Em by (by eapply manager_of). unfold phased in Ph. rewrite Em in Ph.
  assert (worker s = None) as Hw by (destruct (worker s) as [[]|], (doWorkInBackground s); done). split; [done|].
  intros n. specialize (P1 (one n)). rewrite Hq, Hw in P1. simpl in P1.
  assert (forall f : Client -> list nat, f Idle = [] -> f (StopDrain PeekEmpty) = [] -> sumw (fun th => sumw (one n) (f th)) (clients s) = 0%nat) as Hz.
  { intros f F1 F2. assert (forall l : list Client, (forall x, x ∈ l -> f x = []) -> sumw (fun th => sumw (one n) (f th)) l = 0%nat) as Hl.
    { induction l as [|x l IH]; intros Hx; simpl; [done|]. rewrite IH by set_solver. by rewrite (Hx x) by set_solver. }
    apply Hl. intros x [u Hu]%list_elem_of_lookup. destruct (decide (u = t)) as [->|Hne]; [by simplify_eq|]. by rewrite (Ho u x Hne Hu). }
  rewrite !Hz in P1 by done. unfold occurs. lia.
Qed.

(** ** Examples *)

Definition stateAfter (es : list Event) : State := default (newDeleter 2) (execAll es (newDeleter 2)).
Lemma stateAfter_reachable es : is_Some (execAll es (newDeleter 2)) -> reachable (stateAfter es).
Proof. intros [s E]. exists 2%nat, es. unfold stateAfter. by rewrite E. Qed.

Definition runs_of (t n : nat) : list Event := replicate n (Run t true).
Definition worker_runs (n : nat) : list Event := replicate n (RunWorker true).
(** The deletion is with the worker, a second one with the thread that defers it. *)
Definition demo_taken : list Event :=
  [DeferDeletion 0 7] ++ runs_of 0 5 ++ [AddClient 1] ++ runs_of 1 4 ++ worker_runs 6 ++ [DeferDeletion 0 8] ++ runs_of 0 2.

Example deletions_in_one_place_witness :
  let s := stateAfter demo_taken in
  reachable s /\ held 7 s = 1%nat /\ held 8 s = 1%nat /\ elementsToRelease s = 2 /\
  occurs 7 (deferred s) = (beingDeferred 7 s + occurs 7 (queue s) + held 7 s + occurs 7 (released s))%nat.
Proof.
  intros s. assert (reachable s) as R by (apply stateAfter_reachable; vm_compute; by eexists).
  split; [exact R|]. split; [by vm_compute|]. split; [by vm_compute|]. split; [by vm_compute|]. exact (proj1 (deletions_in_one_place s R) 7%nat).
Defined.

Definition demo_drained : list Event := [DeferDeletion 0 7] ++ runs_of 0 5 ++ [Drain 1 true] ++ runs_of 1 4 ++ [DeferDeletion 0 8].
Example blocking_drain_waits_witness :
  let s := stateAfter demo_drained in let s' := stateAfter (demo_drained ++ [Run 1 true]) in
  exec (Run 1 true) s = Some s' /\ clients s' !! 1%nat = Some Idle /\ occurs 7 (deferred s') = (beingDeferred 7 s' + occurs 7 (released s'))%nat /\ occurs 7 (released s') = 1%nat.
Proof.
  intros s s'. assert (exec (Run 1 true) s = Some s') as E by (vm_compute; reflexivity).
  split; [exact E|]. split; [vm_compute; reflexivity|]. split; [|vm_compute; reflexivity].
  refine (proj2 (blocking_drain_waits s s' 1 true _ _ _ E _) 7%nat).
  - apply stateAfter_reachable. vm_compute. by eexists.
  - vm_compute. reflexivity.
  - vm_compute. reflexivity.
  - vm_compute. reflexivity.
Defined.

Definition demo_asleep : list Event := [AddClient 1] ++ runs_of 1 4 ++ worker_runs 4 ++ [DeferDeletion 0 7] ++ runs_of 0 3.
Example sleeping_worker_is_attended_witness :
  let s := stateAfter demo_asleep in
  worker s = Some Asleep /\ queue s = [7%nat] /\ exists t th, clients s !! t = Some th /\ (notifying th = true \/ clearing th = true).
Proof.
  intros s. split; [vm_compute; reflexivity|]. split; [vm_compute; reflexivity|].
  apply (sleeping_worker_is_attended s); [apply stateAfter_reachable; vm_compute; by eexists|vm_compute; reflexivity|vm_compute; discriminate].
Defined.

(** The last client goes while a deletion is being deferred. *)
Definition demo_join : list Event :=
  [AddClient 1] ++ runs_of 1 4 ++ worker_runs 4 ++ [RemoveClient 1] ++ runs_of 1 8 ++ [DeferDeletion 0 7] ++ runs_of 0 2.
Example join_returns_witness :
  let s := stateAfter demo_join in
  worker s = Some Woken /\ queueMutex s = Some (OfClient 0) /\ exists es s', Forall runs es /\ execAll es s = Some s' /\ clients s' !! 1%nat = Some StopReset.
Proof.
  intros s. split; [vm_compute; reflexivity|]. split; [vm_compute; reflexivity|].
  apply (join_returns 1 s); [apply stateAfter_reachable; vm_compute; by eexists|vm_compute; reflexivity].
Defined.

(** A deletion deferred, the worker started, and stopped by the last client. *)
Definition demo_events : list Event :=
  let run t n := replicate n (Run t true) in let work n := replicate n (RunWorker true) in
  [DeferDeletion 0 7] ++ run 0%nat 3%nat ++ [AddClient 1] ++ run 1%nat 4%nat ++ [RemoveClient 1] ++ run 0%nat 2%nat ++ work 12%nat ++ run 1%nat 8%nat ++ work 7%nat ++ run 1%nat 5%nat.
Example demo_run :
  (fun s => (queue s, elementsToRelease s, worker s, clients s, released s)) <$> execAll demo_events (newDeleter 2) = Some ([], 0, None, [Idle; Idle], [7%nat]).
Proof. vm_compute. reflexivity. Qed.
