(* ===== verification/BaseObject.v ===== *)
(** * Ownership and references of API objects

    Every OpenCL object of the driver is a [BaseObject]
    ([helpers/base_object.h]): one thread at a time owns it, and its references
    are counted by [ReferenceTrackedObject]
    ([utilities/reference_tracked_object.h]).  Both are modelled as steps of many
    threads.  The functions on the ownership hold the mutex of the object, so
    they are atomic up to the wait on the condition variable; the two counters of
    references are atomic variables, so a call that changes both is two steps.

    What a thread may do with references is a rule of its callers: it uses and
    gives up only references that it holds.  An action against the rule is
    [Forbidden], one that uses the object after its deletion, or makes a counter
    negative, is a [Fault]. *)

From S2P Require Import Prelude.

(** ** Ownership *)

Inductive Waiting := Running | Asleep | Woken.
#[export] Instance Waiting_eq_dec : EqDecision Waiting. Proof. solve_decision. Defined.
(** [held]: how often a thread took the object without releasing it. *)
Record Thread := mkThread { waiting : Waiting; held : nat }.
Record Ownership := mkOwnership { owner : option nat; recursiveOwnageCounter : Z; waitersCount : Z; threads : list Thread }.
Definition newOwnership (n : nat) : Ownership := mkOwnership None 0 0 (replicate n (mkThread Running 0)).

Inductive Taken := Got | Refused | Waits.

Definition takeOwnership (self : nat) (waitUntilGet : bool) (s : Ownership) : option (Taken * Ownership) :=
  th ← threads s !! self;
  match waiting th, owner s with
  | Running, None => Some (Got, mkOwnership (Some self) (recursiveOwnageCounter s) (waitersCount s) (<[self := mkThread Running (S (held th))]> (threads s)))
  | Running, Some o =>
      if decide (o = self) then Some (Got, mkOwnership (owner s) (w32 (recursiveOwnageCounter s + 1)) (waitersCount s) (<[self := mkThread Running (S (held th))]> (threads s)))
      else if negb waitUntilGet then Some (Refused, s)
      else Some (Waits, mkOwnership (owner s) (recursiveOwnageCounter s) (w32 (waitersCount s + 1)) (<[self := mkThread Asleep (held th)]> (threads s)))
  | _, _ => None
  end.

(** The rest of [takeOwnership] once the thread was woken. *)
Definition resumeWait (self : nat) (s : Ownership) : option Ownership :=
  th ← threads s !! self;
  match waiting th, owner s with
  | Woken, None => Some (mkOwnership (Some self) 0 (w32 (waitersCount s - 1)) (<[self := mkThread Running (S (held th))]> (threads s)))
  | Woken, Some _ => Some (mkOwnership (owner s) (recursiveOwnageCounter s) (waitersCount s) (<[self := mkThread Asleep (held th)]> (threads s)))
  | _, _ => None
  end.

Definition isAsleep (th : Thread) : bool := bool_decide (waiting th = Asleep).
(** [cond.notify_one]: a thread that sleeps, if there is one. *)
Definition notifyOne (chosen : option nat) (l : list Thread) : option (list Thread) :=
  match chosen with
  | Some u => th ← l !! u; if isAsleep th then Some (<[u := mkThread Woken (held th)]> l) else None
  | None => if existsb isAsleep l then None else Some l
  end.

Definition releaseOwnership (self : nat) (chosen : option nat) (s : Ownership) : option Ownership :=
  th ← threads s !! self;
  if negb (bool_decide (waiting th = Running)) then None
  else if decide (owner s <> Some self) then Some s
  else
    let l := <[self := mkThread Running (pred (held th))]> (threads s) in
    if decide (0 < recursiveOwnageCounter s) then Some (mkOwnership (owner s) (w32 (recursiveOwnageCounter s - 1)) (waitersCount s) l)
    else l ← notifyOne chosen l; Some (mkOwnership None (recursiveOwnageCounter s) (waitersCount s) l).

Inductive Use :=
  | Take (t : nat) (waitUntilGet : bool)
  | Resume (t : nat)
  | Release (t : nat) (chosen : option nat)
  | SpuriousWakeUp (t : nat).
Definition use (a : Use) (s : Ownership) : option Ownership :=
  match a with
  | Take t w => r ← takeOwnership t w s; Some r.2
  | Resume t => resumeWait t s
  | Release t c => releaseOwnership t c s
  | SpuriousWakeUp t => l ← notifyOne (Some t) (threads s); Some (mkOwnership (owner s) (recursiveOwnageCounter s) (waitersCount s) l)
  end.
Fixpoint useAll (l : list Use) (s : Ownership) : option Ownership :=
  match l with [] => Some s | a :: l => s ← use a s; useAll l s end.

(** ** References *)

(** A [RefCounter] of 32 bits with sign. *)
Definition s32 (z : Z) : Z := w32 (z + 2 ^ 31) - 2 ^ 31.

Inductive Doing := Ready | Retaining | Releasing | Deleting.
Record Holder := mkHolder { apiRefs : nat; internalRefs : nat; doing : Doing }.
Record Object := mkObject { refInternal : Z; refApi : Z; deletions : nat; holders : list Holder }.
Definition holds (h : Holder) : nat := apiRefs h + internalRefs h.

(** The constructor, run by the first of [S n] threads. *)
Definition newObject (n : nat) : Object := mkObject 1 1 0 (mkHolder 1 0 Ready :: replicate n (mkHolder 0 0 Ready)).

Inductive Outcome := Done (s : Object) | Forbidden | Fault.
Definition access (s : Object) (r : Outcome) : Outcome := match deletions s with O => r | _ => Fault end.

(** [decRefInternal]; who reaches zero deletes. *)
Definition decRefInternal (t : nat) (h : Holder) (s : Object) : Outcome :=
  let current := s32 (refInternal s - 1) in
  if decide (current < 0) then Fault
  else Done (mkObject current (refApi s) (deletions s) (<[t := mkHolder (apiRefs h) (internalRefs h) (if decide (current = 0) then Deleting else Ready)]> (holders s))).

Inductive RefAction :=
  | IncRefInternal (t : nat) | DecRefInternal (t : nat) | IncRefApi (t : nat) | DecRefApi (t : nat)
  | Continue (t : nat)  (** the second step of a call *)
  | Give (t u : nat) (api : bool)  (** a reference passes to another thread *).

Definition refStep (a : RefAction) (s : Object) : Outcome :=
  let with_ t k := match holders s !! t with Some h => k h | None => Forbidden end in
  match a with
  | IncRefInternal t => with_ t (fun h => match doing h, holds h with
      | Ready, S _ => access s (Done (mkObject (s32 (refInternal s + 1)) (refApi s) (deletions s) (<[t := mkHolder (apiRefs h) (S (internalRefs h)) Ready]> (holders s))))
      | _, _ => Forbidden end)
  | DecRefInternal t => with_ t (fun h => match doing h, internalRefs h with
      | Ready, S n => access s (decRefInternal t (mkHolder (apiRefs h) n Ready) s)
      | _, _ => Forbidden end)
  | IncRefApi t => with_ t (fun h => match doing h, holds h with
      | Ready, S _ => access s (Done (mkObject (refInternal s) (s32 (refApi s + 1)) (deletions s) (<[t := mkHolder (apiRefs h) (internalRefs h) Retaining]> (holders s))))
      | _, _ => Forbidden end)
  | DecRefApi t => with_ t (fun h => match doing h, apiRefs h with
      | Ready, S n => access s (Done (mkObject (refInternal s) (s32 (refApi s - 1)) (deletions s) (<[t := mkHolder n (internalRefs h) Releasing]> (holders s))))
      | _, _ => Forbidden end)
  | Continue t => with_ t (fun h => match doing h with
      | Retaining => access s (Done (mkObject (s32 (refInternal s + 1)) (refApi s) (deletions s) (<[t := mkHolder (S (apiRefs h)) (internalRefs h) Ready]> (holders s))))
      | Releasing => access s (decRefInternal t h s)
      | Deleting => access s (Done (mkObject (refInternal s) (refApi s) (S (deletions s)) (<[t := mkHolder (apiRefs h) (internalRefs h) Ready]> (holders s))))
      | Ready => Forbidden end)
  | Give t u api => with_ t (fun h => with_ u (fun g => if decide (t = u) then Forbidden else match doing h, (if api then apiRefs h else internalRefs h) with
      | Ready, S n =>
          let h := if api then mkHolder n (internalRefs h) Ready else mkHolder (apiRefs h) n Ready in
          let g := if api then mkHolder (S (apiRefs g)) (internalRefs g) (doing g) else mkHolder (apiRefs g) (S (internalRefs g)) (doing g) in
          Done (mkObject (refInternal s) (refApi s) (deletions s) (<[u := g]> (<[t := h]> (holders s))))
      | _, _ => Forbidden end))
  end.
Fixpoint refSteps (l : list RefAction) (s : Object) : Outcome :=
  match l with [] => Done s | a :: l => match refStep a s with Done s => refSteps l s | r => r end end.

Definition convertToInternalObject (t : nat) : list RefAction := [IncRefInternal t; DecRefApi t; Continue t].

(** ** The counters count *)

(** What a thread contributes to [refInternal], to [refApi] and to the deletions. *)
Definition contributes (h : Holder) : nat := (holds h + match doing h with Releasing => 1 | _ => 0 end)%nat.
Definition contributesApi (h : Holder) : nat := (apiRefs h + match doing h with Retaining => 1 | _ => 0 end)%nat.
Definition deletes (h : Holder) : nat := match doing h with Deleting => 1 | _ => 0 end.

Record counted (k : nat) (s : Object) : Prop := {
  co_internal : refInternal s = Z.of_nat (sumw contributes (holders s));
  co_api : refApi s = Z.of_nat (sumw contributesApi (holders s));
  co_deleted : (sumw deletes (holders s) + deletions s)%nat = if decide (sumw contributes (holders s) = 0%nat) then 1%nat else 0%nat;
  co_retaining : forall t h, holders s !! t = Some h -> doing h = Retaining -> (0 < holds h)%nat;
  co_bound : (sumw contributes (holders s) <= S k)%nat /\ (sumw contributesApi (holders s) <= S k)%nat }.

Lemma s32_small z : -2 ^ 31 <= z < 2 ^ 31 -> s32 z = z.
Proof. intros H. unfold s32. rewrite wrap_small by word_lia. lia. Qed.

(** The sums after thread [t] has changed from [h] to [h']. *)
Lemma counted_update k s t h h' ri ra d : counted k s -> holders s !! t = Some h ->
  ri = refInternal s + Z.of_nat (contributes h') - Z.of_nat (contributes h) -> ra = refApi s + Z.of_nat (contributesApi h') - Z.of_nat (contributesApi h) ->
  (contributes h' <= S (contributes h))%nat -> (contributesApi h' <= S (contributesApi h))%nat -> (doing h' = Retaining -> (0 < holds h')%nat) ->
  (sumw deletes (holders s) + deletes h' + d)%nat = (deletes h + if decide (ri = 0%Z) then 1 else 0)%nat ->
  counted (S k) (mkObject ri ra d (<[t := h']> (holders s))).
Proof.
  intros [C1 C2 C3 C4 [C5 C6]] Ht Hri Hra H1 H2 H3 H4.
  pose proof (sum_update contributes t h h' _ Ht) as S1. pose proof (sum_update contributesApi t h h' _ Ht) as S2. pose proof (sum_update deletes t h h' _ Ht) as S3.
  pose proof (sum_ge deletes t h _ Ht) as S4. constructor; simpl; [lia|lia| | |lia].
  - destruct (decide (ri = 0)), (decide (sumw contributes (<[t := h']> (holders s)) = 0%nat)); lia.
  - intros u g. rewrite list_lookup_insert_Some. intros [(_ & <- & _)|[_ Hu]]; [done|by apply (C4 u)].
Qed.

(** While somebody contributes, the object exists and nobody deletes it. *)
Lemma alive k s t h : counted k s -> holders s !! t = Some h -> (0 < contributes h)%nat -> deletions s = 0%nat /\ sumw deletes (holders s) = 0%nat /\ 0 < refInternal s.
Proof.
  intros [C1 C2 C3 C4 C5] Ht Hc. pose proof (sum_ge contributes t h _ Ht). rewrite decide_False in C3 by lia. split_and!; lia.
Qed.

Definition good (k : nat) (r : Outcome) : Prop := match r with Done s => counted k s | Forbidden => True | Fault => False end.

Lemma decRefInternal_ok k s t h h' : counted k s -> Z.of_nat k + 2 < 2 ^ 31 -> holders s !! t = Some h -> contributes h = S (holds h') -> contributesApi h = apiRefs h' -> deletes h = 0%nat ->
  good (S k) (decRefInternal t h' s).
Proof.
  intros Hc Hk Ht H1 H2 H3. destruct (alive k s t h Hc Ht) as (A1 & A2 & A3); [lia|]. pose proof (co_internal _ _ Hc) as C1. pose proof (co_bound _ _ Hc) as [C5 _].
  unfold decRefInternal. rewrite s32_small by lia. rewrite decide_False by lia. simpl.
  eapply (counted_update k s t h); [done|done| | | | | |]; rewrite ?A2, ?A1, ?H3; unfold contributes, contributesApi, deletes, holds in *; simpl; repeat case_decide; simpl; try done; lia.
Qed.

Lemma refStep_ok k a s : counted k s -> Z.of_nat k + 2 < 2 ^ 31 -> good (S k) (refStep a s).
Proof.
  intros Hc Hk. pose proof (co_bound _ _ Hc) as [C5 C6]. pose proof (co_internal _ _ Hc) as C1. pose proof (co_api _ _ Hc) as C2.
  destruct a as [t|t|t|t|t|t u api]; simpl; (destruct (holders s !! t) as [h|] eqn:Ht; [|done]).
  - destruct (doing h) eqn:Hd, (holds h) as [|n] eqn:Hh; try done. destruct (alive k s t h Hc Ht) as (A1 & A2 & A3); [unfold contributes; lia|]. unfold access. rewrite A1. simpl.
    eapply (counted_update k s t h); [done|done|rewrite s32_small by lia| | | | |rewrite A2, s32_small by lia]; unfold contributes, contributesApi, deletes, holds in *; rewrite ?Hd; simpl; try done; repeat case_decide; lia.
  - destruct (doing h) eqn:Hd, (internalRefs h) as [|n] eqn:Hh; try done. destruct (alive k s t h Hc Ht) as (A1 & _); [unfold contributes, holds; lia|]. unfold access. rewrite A1.
    apply (decRefInternal_ok k s t h); try done; unfold contributes, contributesApi, deletes, holds; rewrite ?Hd; simpl; lia.
  - destruct (doing h) eqn:Hd, (holds h) as [|n] eqn:Hh; try done. destruct (alive k s t h Hc Ht) as (A1 & A2 & A3); [unfold contributes; lia|]. unfold access. rewrite A1. simpl.
    eapply (counted_update k s t h); [done|done| |rewrite s32_small by lia| | | |rewrite A2]; unfold contributes, contributesApi, deletes, holds in *; rewrite ?Hd; simpl; try done; repeat case_decide; lia.
  - destruct (doing h) eqn:Hd, (apiRefs h) as [|n] eqn:Hh; try done. destruct (alive k s t h Hc Ht) as (A1 & A2 & A3); [unfold contributes, holds; lia|]. unfold access. rewrite A1. simpl.
    pose proof (sum_ge contributesApi t h _ Ht) as Hge. unfold contributesApi in Hge at 1.
    eapply (counted_update k s t h); [done|done| |rewrite s32_small by lia| | | |rewrite A2]; unfold contributes, contributesApi, deletes, holds in *; rewrite ?Hd; simpl; try done; repeat case_decide; lia.
  - destruct (doing h) eqn:Hd; try done.
    + pose proof (co_retaining _ _ Hc t h Ht Hd) as Hh. destruct (alive k s t h Hc Ht) as (A1 & A2 & A3); [unfold contributes; lia|]. unfold access. rewrite A1. simpl.
      eapply (counted_update k s t h); [done|done|rewrite s32_small by lia| | | | |rewrite A2, s32_small by lia]; unfold contributes, contributesApi, deletes, holds in *; rewrite ?Hd; simpl; try done; repeat case_decide; lia.
    + destruct (alive k s t h Hc Ht) as (A1 & _); [unfold contributes; rewrite Hd; lia|]. unfold access. rewrite A1.
      apply (decRefInternal_ok k s t h); try done; unfold contributes, contributesApi, deletes, holds; rewrite ?Hd; simpl; lia.
    + pose proof (sum_ge deletes t h _ Ht) as Hge. unfold deletes in Hge at 1. rewrite Hd in Hge. pose proof (co_deleted _ _ Hc) as C3. case_decide as Hz; [|lia].
      assert (deletions s = 0%nat) as A1 by lia. unfold access. rewrite A1. simpl.
      eapply (counted_update k s t h); [done|done| | | | | |]; unfold contributes, contributesApi, deletes, holds in *; rewrite ?Hd; simpl; try done; repeat case_decide; lia.
  - destruct (holders s !! u) as [g|] eqn:Hu; [|done]. case_decide as Htu; [done|]. destruct (doing h) eqn:Hd, (if api then apiRefs h else internalRefs h) as [|n] eqn:Hn; try done. simpl.
    pose proof Hc as [_ _ C3 C4 _].
    match goal with |- counted _ (mkObject _ _ _ (<[u := ?g2]> (<[t := ?h2]> _))) => set (h' := h2); set (g' := g2) end.
    assert (forall f, (f h + f g = f h' + f g')%nat -> sumw f (<[u := g']> (<[t := h']> (holders s))) = sumw f (holders s)) as Hsum.
    { intros f Hf. pose proof (sum_update f t h h' _ Ht). pose proof (sum_update f u g g' (<[t := h']> (holders s))) as H2. rewrite list_lookup_insert_ne in H2 by done. specialize (H2 Hu). lia. }
    assert (holds h' = pred (holds h) /\ doing h' = Ready /\ holds g' = S (holds g) /\ doing g' = doing g) as (E1 & E2 & E3 & E4) by (unfold h', g', holds; destruct api; simpl; split_and!; try done; lia).
    constructor; simpl; rewrite ?(Hsum contributes), ?(Hsum contributesApi), ?(Hsum deletes);
      try (unfold contributes, deletes; rewrite ?E2, ?E4, ?Hd; unfold holds in *; destruct api; simpl in *; lia);
      try (unfold contributesApi; rewrite ?E2, ?E4, ?Hd; unfold h', g'; destruct api; simpl; lia); try done; try lia.
    intros w x. rewrite !list_lookup_insert_Some. intros [(_ & <- & _)|[_ [(_ & <- & _)|[_ Hw]]]] Hx; [lia|congruence|by apply (C4 w)].
Qed.

Lemma refSteps_ok l : forall k s, counted k s -> Z.of_nat (k + length l) + 2 < 2 ^ 31 -> good (k + length l) (refSteps l s).
Proof.
  induction l as [|a l IH]; intros k s Hc Hk; simpl in *; [by rewrite Nat.add_0_r|]. pose proof (refStep_ok k a s Hc) as H.
  destruct (refStep a s) as [s'| |]; [|done|apply H; lia]. replace (k + S (length l))%nat with (S k + length l)%nat in * by lia. apply IH; [apply H; lia|done].
Qed.

Lemma newObject_counted n : counted 0 (newObject n).
Proof.
  assert (forall f : Holder -> nat, f (mkHolder 0 0 Ready) = 0%nat -> sumw f (replicate n (mkHolder 0 0 Ready)) = 0%nat) as Hz by (intros f Hf; induction n as [|m IH]; simpl; lia).
  constructor; simpl; rewrite ?Hz by done; simpl; try done; try lia.
  intros [|t] h; simpl; [by intros [= <-]|]. intros [-> _]%lookup_replicate. done.
Qed.

(** ** One owner *)

Definition isWaiting (th : Thread) : nat := match waiting th with Running => 0 | _ => 1 end.

Record owned (k : nat) (s : Ownership) : Prop := {
  ow_held : forall t th, threads s !! t = Some th -> ((0 < held th)%nat <-> owner s = Some t) /\ (held th <= k)%nat;
  ow_counter : match owner s with
    | Some t => exists th, threads s !! t = Some th /\ waiting th = Running /\ recursiveOwnageCounter s = Z.of_nat (held th) - 1
    | None => recursiveOwnageCounter s = 0 end;
  ow_waiters : waitersCount s = Z.of_nat (sumw isWaiting (threads s)) /\ (sumw isWaiting (threads s) <= k)%nat;
  ow_woken : owner s = None -> existsb isAsleep (threads s) = true -> exists t th, threads s !! t = Some th /\ waiting th = Woken }.

Lemma newOwnership_owned n : owned 0 (newOwnership n).
Proof.
  constructor; simpl; try done.
  - intros t th [-> _]%lookup_replicate. simpl. split; [split; [lia|done]|lia].
  - assert (sumw isWaiting (replicate n (mkThread Running 0)) = 0%nat) as -> by (induction n; simpl; lia). done.
  - intros _. assert (existsb isAsleep (replicate n (mkThread Running 0)) = false) as ->; [|done]. induction n as [|m IH]; simpl; [done|exact IH].
Qed.

Lemma asleep_exists l : existsb isAsleep l = true <-> exists t th, l !! t = Some th /\ waiting th = Asleep.
Proof.
  rewrite existsb_exists. split.
  - intros (th & [t Ht]%list_elem_of_In%list_elem_of_lookup & Ha). exists t, th. split; [done|]. by apply bool_decide_eq_true in Ha.
  - intros (t & th & Ht & Ha). exists th. split; [apply list_elem_of_In; by eapply list_elem_of_lookup_2|]. by apply bool_decide_eq_true.
Qed.

(** A change of one thread that keeps the owner. *)
Lemma owned_change k s t th th' c wc : owned k s -> threads s !! t = Some th -> owner s <> None -> (held th' <= S k)%nat -> ((0 < held th')%nat <-> owner s = Some t) ->
  (owner s = Some t -> waiting th' = Running /\ c = Z.of_nat (held th') - 1) -> (owner s <> Some t -> c = recursiveOwnageCounter s) ->
  wc = waitersCount s + Z.of_nat (isWaiting th') - Z.of_nat (isWaiting th) ->
  owned (S k) (mkOwnership (owner s) c wc (<[t := th']> (threads s))).
Proof.
  intros [O1 O2 [O3 O3'] O4] Ht Ho Hk Hh Hc Hc' Hw. pose proof (sum_update isWaiting t th th' _ Ht) as Hs.
  assert (isWaiting th' <= 1)%nat by (unfold isWaiting; destruct (waiting th'); lia). constructor; simpl; [| | |done].
  - intros u x. rewrite list_lookup_insert_Some. intros [(-> & <- & _)|[Hne Hu]]; [done|]. destruct (O1 u x Hu). split; [done|lia].
  - destruct (owner s) as [o|] eqn:Eo; [|done]. destruct (decide (o = t)) as [->|Hne].
    + exists th'. destruct (Hc eq_refl). rewrite list_lookup_insert_eq by (by eapply lookup_lt_Some). done.
    + destruct O2 as (x & Hx & Hr & Hcx). exists x. rewrite list_lookup_insert_ne by done. split_and!; [done|done|]. rewrite Hc'; [done|congruence].
  - split; lia.
Qed.

Lemma takeOwnership_owned k t w s r : owned k s -> Z.of_nat k + 1 < 2 ^ 32 -> takeOwnership t w s = Some r -> owned (S k) r.2.
Proof.
  intros H Hk. pose proof H as [O1 O2 [O3 O3'] O4]. unfold takeOwnership. destruct (threads s !! t) as [th|] eqn:Ht; [|done]. cbn [mbind option_bind].
  destruct (O1 t th Ht) as [Hh Hle]. destruct (waiting th) eqn:Hwt; try done.
  destruct (owner s) as [o|] eqn:Ho.
  - case_decide as Hd; [subst o|destruct w; simpl].
    + intros [= <-]. simpl. rewrite <- Ho. destruct O2 as (x & Hx & Hr & Hc). simplify_eq. rewrite Hc, wrap_small by word_lia.
      apply (owned_change k s t x); try done; simpl; rewrite ?Ho; unfold isWaiting; rewrite ?Hwt; simpl; try done; try lia; (split; [done|lia]).
    + intros [= <-]. simpl. rewrite <- Ho. assert (w32 (waitersCount s + 1) = waitersCount s + 1) as -> by (apply wrap_small; word_lia).
      assert (held th = 0%nat) as H0 by (destruct (held th); [done|]; destruct Hh as [Hh _]; specialize (Hh ltac:(lia)); congruence).
      apply (owned_change k s t th); try done; simpl; rewrite ?Ho, ?H0; unfold isWaiting; rewrite ?Hwt; simpl; try done; try lia; [split; [lia|congruence]|congruence].
    + intros [= <-]. simpl. constructor; try done.
      * intros u x Hu. destruct (O1 u x Hu). rewrite Ho. split; [done|lia].
      * by rewrite Ho.
      * split; [done|lia].
      * by rewrite Ho.
  - intros [= <-]. simpl. pose proof (sum_update isWaiting t th (mkThread Running (S (held th))) _ Ht) as Hs. unfold isWaiting in Hs at 2 4. rewrite Hwt in Hs. simpl in Hs.
    assert (held th = 0%nat) as H0 by (destruct (held th); [done|]; destruct Hh as [Hh _]; specialize (Hh ltac:(lia)); congruence).
    constructor; simpl.
    + intros u x. rewrite list_lookup_insert_Some. intros [(-> & <- & _)|[Hne Hu]]; simpl; [split; [split; [done|lia]|lia]|].
      destruct (O1 u x Hu) as [Hx Hx']. split; [|lia]. split; [intros Hpos; apply Hx in Hpos; congruence|intros [= ->]; done].
    + exists (mkThread Running (S (held th))). rewrite list_lookup_insert_eq by (by eapply lookup_lt_Some). simpl. split_and!; [done|done|]. rewrite O2, H0. done.
    + rewrite O3. lia.
    + done.
Qed.

Lemma notifyOne_spec c l l' : notifyOne c l = Some l' ->
  (forall t th', l' !! t = Some th' -> exists th, l !! t = Some th /\ held th' = held th /\ (waiting th = Running <-> waiting th' = Running)) /\
  (forall t th, l !! t = Some th -> waiting th = Running -> l' !! t = Some th) /\ sumw isWaiting l' = sumw isWaiting l /\
  (existsb isAsleep l' = true -> exists t th, l' !! t = Some th /\ waiting th = Woken) /\
  (forall t th, l !! t = Some th -> waiting th = Woken -> l' !! t = Some th).
Proof.
  unfold notifyOne. destruct c as [u|]; [|destruct (existsb isAsleep l) eqn:He; [done|]; intros [= <-]; split_and!; [intros t th' Ht; by exists th'|done|done|congruence|done]].
  destruct (l !! u) as [x|] eqn:Hu; [|done]. cbn [mbind option_bind]. destruct (isAsleep x) eqn:Ha; [|done]. apply bool_decide_eq_true in Ha. intros [= <-].
  pose proof (sum_update isWaiting u x (mkThread Woken (held x)) l Hu) as Hs. assert (u < length l)%nat as Hlt by (by eapply lookup_lt_Some). split_and!.
  - intros t th'. rewrite list_lookup_insert_Some. intros [(<- & <- & _)|[_ Ht]]; [exists x; simpl; split_and!; try done; by rewrite Ha|naive_solver].
  - intros t th Ht Hr. rewrite list_lookup_insert_ne; [done|]. intros ->. congruence.
  - unfold isWaiting in Hs at 2 4. simpl in Hs. rewrite Ha in Hs. lia.
  - intros _. exists u, (mkThread Woken (held x)). by rewrite list_lookup_insert_eq.
  - intros t th Ht Hr. rewrite list_lookup_insert_ne; [done|]. intros ->. congruence.
Qed.

Lemma owned_notified k s c l' : owned k s -> notifyOne c (threads s) = Some l' -> owned (S k) (mkOwnership (owner s) (recursiveOwnageCounter s) (waitersCount s) l').
Proof.
  intros [O1 O2 [O3 O3'] O4] Hn. destruct (notifyOne_spec _ _ _ Hn) as (N1 & N2 & N3 & N4 & _). constructor; simpl.
  - intros t th' Ht. destruct (N1 t th' Ht) as (th & Hth & -> & _). destruct (O1 t th Hth). split; [done|lia].
  - destruct (owner s) as [o|]; [|done]. destruct O2 as (th & Ht & Hr & Hc). exists th. by rewrite (N2 o th Ht Hr).
  - rewrite N3. split; [done|lia].
  - intros _. apply N4.
Qed.

Lemma resumeWait_owned k t s s' : owned k s -> Z.of_nat k + 1 < 2 ^ 32 -> resumeWait t s = Some s' -> owned (S k) s'.
Proof.
  intros H Hk. pose proof H as [O1 O2 [O3 O3'] O4]. unfold resumeWait. destruct (threads s !! t) as [th|] eqn:Ht; [|done]. cbn [mbind option_bind].
  destruct (O1 t th Ht) as [Hh Hle]. destruct (waiting th) eqn:Hwt; try done. destruct (owner s) as [o|] eqn:Ho; intros [= <-].
  - assert (o <> t) as Hne by (intros ->; destruct O2 as (x & Hx & Hr & _); congruence).
    assert (held th = 0%nat) as H0 by (destruct (held th); [done|]; destruct Hh as [Hh _]; specialize (Hh ltac:(lia)); congruence). rewrite <- Ho.
    apply (owned_change k s t th); try done; simpl; rewrite ?Ho, ?H0; unfold isWaiting; rewrite ?Hwt; simpl; try done; try lia; [split; [lia|congruence]|congruence].
  - assert (held th = 0%nat) as H0 by (destruct (held th); [done|]; destruct Hh as [Hh _]; specialize (Hh ltac:(lia)); congruence).
    pose proof (sum_update isWaiting t th (mkThread Running (S (held th))) _ Ht) as Hs. unfold isWaiting in Hs at 2 4. rewrite Hwt in Hs. simpl in Hs. constructor; simpl; [| | |done].
    + intros u x. rewrite list_lookup_insert_Some. intros [(-> & <- & _)|[Hne Hu]]; simpl; [split; [split; [done|lia]|lia]|].
      destruct (O1 u x Hu) as [Hx Hx']. split; [|lia]. split; [intros Hpos; apply Hx in Hpos; congruence|intros [= ->]; done].
    + eexists. rewrite list_lookup_insert_eq by (by eapply lookup_lt_Some). split; [done|]. simpl. split; [done|]. rewrite H0. done.
    + rewrite O3, wrap_small by word_lia. lia.
Qed.

Lemma releaseOwnership_owned k t c s s' : owned k s -> Z.of_nat k + 1 < 2 ^ 32 -> releaseOwnership t c s = Some s' -> owned (S k) s'.
Proof.
  intros H Hk. pose proof H as [O1 O2 [O3 O3'] O4]. unfold releaseOwnership. destruct (threads s !! t) as [th|] eqn:Ht; [|done]. cbn [mbind option_bind].
  destruct (O1 t th Ht) as [Hh Hle]. case_bool_decide as Hwt; [|done]. simpl. case_decide as Ho.
  - intros [= <-]. constructor; [intros u x Hu; destruct (O1 u x Hu); split; [done|lia]|done|split; [done|lia]|done].
  - rewrite Ho in O2. destruct O2 as (x & Hx & Hr & Hc). assert (x = th) as -> by congruence. case_decide as Hpos.
    + intros [= <-]. rewrite wrap_small by word_lia.
      apply (owned_change k s t th); try done; simpl; rewrite ?Ho; unfold isWaiting; rewrite ?Hwt; simpl; try done; try lia; (split; [done|lia]).
    + assert (held th = 1%nat) as H1 by (apply Hh in Ho; lia). destruct (notifyOne c _) as [l'|] eqn:Hn; [|done]. cbn [mbind option_bind]. intros [= <-].
      destruct (notifyOne_spec _ _ _ Hn) as (N1 & N2 & N3 & N4 & _). pose proof (sum_update isWaiting t th (mkThread Running (pred (held th))) _ Ht) as Hs. unfold isWaiting in Hs at 2 4. rewrite Hwt in Hs. simpl in Hs.
      constructor; simpl; [| lia| |intros _; apply N4].
      * intros u y' Hu. destruct (N1 u y' Hu) as (y & Hy & -> & _). revert Hy. rewrite list_lookup_insert_Some. intros [(<- & <- & _)|[Hne Hy]]; simpl.
        -- rewrite H1. simpl. split; [split; [lia|done]|lia].
        -- destruct (O1 u y Hy) as [Hy1 Hy2]. split; [|lia]. split; [intros Hp; apply Hy1 in Hp; congruence|done].
      * rewrite N3. split; [lia|lia].
Qed.

Lemma use_owned k a s s' : owned k s -> Z.of_nat k + 1 < 2 ^ 32 -> use a s = Some s' -> owned (S k) s'.
Proof.
  intros H Hk. destruct a as [t w|t|t c|t]; simpl.
  - destruct (takeOwnership t w s) as [r|] eqn:E; [|done]. intros [= <-]. by eapply takeOwnership_owned.
  - by apply resumeWait_owned.
  - by apply releaseOwnership_owned.
  - intros (l' & Hn & [= <-])%bind_Some. apply (owned_notified k s (Some t)); done.
Qed.

Lemma useAll_owned l : forall k s s', owned k s -> Z.of_nat (k + length l) < 2 ^ 32 -> useAll l s = Some s' -> owned (k + length l) s'.
Proof.
  induction l as [|a l IH]; intros k s s' H Hk; simpl in *; [intros [= <-]; by rewrite Nat.add_0_r|].
  intros (s1 & E & E')%bind_Some. replace (k + S (length l))%nat with (S k + length l)%nat in * by lia. apply (IH (S k) s1); [eapply use_owned; eauto; lia|done|done].
Qed.

(** *** A thread that waits can get the object *)

(** The owner releases as often as it took. *)
Lemma releases_free o c n : forall s th l', owner s = Some o -> threads s !! o = Some th -> waiting th = Running -> recursiveOwnageCounter s = Z.of_nat n -> Z.of_nat n < 2 ^ 32 -> held th = S n ->
  notifyOne c (<[o := mkThread Running 0]> (threads s)) = Some l' -> useAll (replicate (S n) (Release o c)) s = Some (mkOwnership None 0 (waitersCount s) l').
Proof.
  induction n as [|n IH]; intros s th l' Ho Ht Hr Hc Hn Hh Hl; cbn [replicate useAll use]; unfold releaseOwnership; rewrite Ht; cbn [mbind option_bind]; rewrite Hr, bool_decide_eq_true_2 by done; cbn [negb];
    rewrite decide_False by (intros H; by apply H); rewrite Hc, Hh; cbn [pred].
  - rewrite decide_False by lia. rewrite Hl. done.
  - rewrite decide_True by lia. cbn [mbind option_bind]. assert (o < length (threads s))%nat by (by eapply lookup_lt_Some).
    apply (IH (mkOwnership (owner s) (w32 (Z.of_nat (S n) - 1)) (waitersCount s) (<[o := mkThread Running (S n)]> (threads s))) (mkThread Running (S n)) l'); simpl; try done; try lia; [by rewrite list_lookup_insert_eq|rewrite wrap_small by word_lia; lia|by rewrite list_insert_insert_eq].
Qed.

Lemma someone_notified l : exists c l', notifyOne c l = Some l'.
Proof.
  destruct (existsb isAsleep l) eqn:He; [|exists None; simpl; rewrite He; eauto]. pose proof He as (t & th & Ht & Ha)%asleep_exists.
  exists (Some t). simpl. rewrite Ht. cbn [mbind option_bind]. unfold isAsleep. rewrite bool_decide_eq_true_2 by done. eauto.
Qed.

Definition passes (a : Use) : Prop := match a with Release _ _ | Resume _ => True | _ => False end.

Lemma useAll_app l1 l2 s : useAll (l1 ++ l2) s = (s ← useAll l1 s; useAll l2 s).
Proof. revert s. induction l1 as [|a l1 IH]; intros s; simpl; [done|]. destruct (use a s); simpl; [apply IH|done]. Qed.

Lemma resume_gets t s th : threads s !! t = Some th -> waiting th = Woken -> owner s = None -> exists s', useAll [Resume t] s = Some s' /\ owner s' = Some t.
Proof. intros Ht Hw Ho. simpl. unfold resumeWait. rewrite Ht. cbn [mbind option_bind]. rewrite Hw, Ho. simpl. eauto. Qed.

Lemma owner_passes k s o t th : owned k s -> Z.of_nat k < 2 ^ 32 -> owner s = Some o -> threads s !! t = Some th -> waiting th <> Running ->
  exists l s', Forall passes l /\ useAll l s = Some s' /\ owner s' = Some t.
Proof.
  intros [O1 O2 O3 O4] Hk Ho Ht Hw. rewrite Ho in O2. destruct O2 as (x & Hx & Hr & Hc). destruct (O1 o x Hx) as [Hh Hle]. apply Hh in Ho as Hpos. destruct (held x) as [|n] eqn:Hn; [lia|].
  assert (o <> t) as Hne by (intros ->; congruence). set (l0 := <[o := mkThread Running 0]> (threads s)).
  assert (l0 !! t = Some th) as Ht0 by (unfold l0; by rewrite list_lookup_insert_ne).
  assert (exists c l' th', notifyOne c l0 = Some l' /\ l' !! t = Some th' /\ waiting th' = Woken) as (c & l' & th' & Hc' & Ht' & Hw').
  { destruct (waiting th) eqn:Hwt; [done| |].
    - exists (Some t). simpl. rewrite Ht0. cbn [mbind option_bind]. unfold isAsleep. rewrite bool_decide_eq_true_2 by done. eexists _, (mkThread Woken (held th)). split; [done|].
      by rewrite list_lookup_insert_eq by (by eapply lookup_lt_Some).
    - destruct (someone_notified l0) as (c & l' & Hl). exists c, l', th. split; [done|]. destruct (notifyOne_spec _ _ _ Hl) as (_ & _ & _ & _ & N). split; [by apply N|done]. }
  pose proof (releases_free o c n s x l' Ho Hx Hr ltac:(lia) ltac:(lia) Hn Hc') as Hrel.
  destruct (resume_gets t (mkOwnership None 0 (waitersCount s) l') th' Ht' Hw' eq_refl) as (s' & E & Hs').
  exists (replicate (S n) (Release o c) ++ [Resume t]), s'. split; [|split; [rewrite useAll_app, Hrel; exact E|done]].
  apply Forall_app. split; [by apply Forall_replicate|by repeat constructor].
Qed.

Lemma waiter_passes k s t th : owned k s -> Z.of_nat k + 1 < 2 ^ 32 -> threads s !! t = Some th -> waiting th <> Running ->
  exists l s', Forall passes l /\ useAll l s = Some s' /\ owner s' = Some t.
Proof.
  intros H Hk Ht Hw. destruct (owner s) as [o|] eqn:Ho; [apply (owner_passes k s o t th); try done; lia|].
  assert (forall u x, threads s !! u = Some x -> waiting x = Woken -> exists s1, useAll [Resume u] s = Some s1 /\ owner s1 = Some u) as Hres by (intros u x Hu Hx; by apply (resume_gets u s x)).
  destruct (waiting th) eqn:Hwt; [done| |].
  - destruct (ow_woken _ _ H Ho) as (u & x & Hu & Hx); [apply asleep_exists; eauto|]. destruct (Hres u x Hu Hx) as (s1 & E1 & Ho1).
    assert (owned (S k) s1 /\ exists th1, threads s1 !! t = Some th1 /\ waiting th1 <> Running) as (H1 & th1 & Ht1 & Hw1).
    { simpl in E1. apply bind_Some in E1 as (s2 & E1 & [= ->]). split; [by eapply resumeWait_owned|]. unfold resumeWait in E1. rewrite Hu in E1. cbn [mbind option_bind] in E1. rewrite Hx, Ho in E1. injection E1 as <-. simpl.
      exists th. rewrite list_lookup_insert_ne by congruence. split; [done|congruence]. }
    destruct (owner_passes (S k) s1 u t th1 H1 ltac:(lia) Ho1 Ht1 Hw1) as (l & s' & Hl & E & Hs'). exists ([Resume u] ++ l), s'. rewrite useAll_app, E1. split; [by constructor|done].
  - destruct (Hres t th Ht Hwt) as (s1 & E1 & Ho1). exists [Resume t], s1. split; [by repeat constructor|done].
Qed.

(** ** Scoped ownership *)

(** [TakeOwnershipWrapper], with its flag [locked]. *)
Definition constructWrapper (self : nat) (lockImmediately : bool) (s : Ownership) : option (bool * Ownership) :=
  if lockImmediately then '(r, s) ← takeOwnership self true s; match r with Got => Some (true, s) | _ => None end else Some (false, s).
Definition unlock (self : nat) (chosen : option nat) (s : Ownership) : option (bool * Ownership) := s ← releaseOwnership self chosen s; Some (false, s).
Definition lock (self : nat) (locked : bool) (s : Ownership) : option (bool * Ownership) := if locked then Some (locked, s) else constructWrapper self true s.
Definition destroyWrapper (self : nat) (chosen : option nat) (locked : bool) (s : Ownership) : option Ownership := if locked then releaseOwnership self chosen s else Some s.

(** [lock] looks at the flag and [unlock] does not: unlocked twice, an inner
    wrapper gives up the ownership of the outer one. *)
Example unlock_twice_releases_outer :
  (s ← constructWrapper 0 true (newOwnership 1); s ← constructWrapper 0 true s.2; s ← unlock 0 None s.2; s ← unlock 0 None s.2; Some (owner s.2)) = Some None /\
  (s ← constructWrapper 0 true (newOwnership 1); s ← constructWrapper 0 true s.2; s ← unlock 0 None s.2; s ← destroyWrapper 0 None s.1 s.2; Some (owner s)) = Some (Some 0%nat).
Proof. by split. Qed.

(** ** Properties *)

(** C38: under any interleaving of takes, releases and wake-ups a thread holds the object exactly when it is the owner, a take by another thread is refused or waits, a release frees the object exactly when it matches the first take, the number of waiting threads is counted, and no wake-up is lost: for each waiting thread, releases by the owner and the wake-ups that were given suffice for it to become the owner.  Up to fewer than 2^32 - 1 steps, as the recursion and waiter counters have 32 bits. *)
Theorem ownership_passes_on n l s : useAll l (newOwnership n) = Some s -> Z.of_nat (length l) + 1 < 2 ^ 32 ->
  (forall t th, threads s !! t = Some th -> ((0 < held th)%nat <-> owner s = Some t)) /\ waitersCount s = Z.of_nat (sumw isWaiting (threads s)) /\
  (forall t th w, threads s !! t = Some th -> waiting th = Running -> exists r, takeOwnership t w s = Some r /\
    (r.1 = Got <-> owner s = None \/ owner s = Some t) /\ (r.1 = Waits <-> w = true /\ exists o, owner s = Some o /\ o <> t)) /\
  (forall t th c s', threads s !! t = Some th -> owner s = Some t -> releaseOwnership t c s = Some s' -> (owner s' = None <-> held th = 1%nat)) /\
  (forall t th, threads s !! t = Some th -> waiting th <> Running -> exists l' s', Forall passes l' /\ useAll l' s = Some s' /\ owner s' = Some t).
Proof.
  intros E Hl. pose proof (useAll_owned l 0 _ s (newOwnership_owned n) ltac:(simpl; lia) E) as H. pose proof H as [O1 O2 [O3 _] _]. split_and!.
  - intros t th Ht. by apply (O1 t).
  - exact O3.
  - intros t th w Ht Hw. unfold takeOwnership. rewrite Ht. cbn [mbind option_bind]. rewrite Hw. destruct (owner s) as [o|].
    + case_decide as Hd; [subst o|destruct w]; eexists; (split; [reflexivity|]); simpl; split; naive_solver.
    + eexists. split; [reflexivity|]. simpl. split; split; try done; [by left|]. intros (_ & ? & [=] & _).
  - intros t th c s' Ht Ho. rewrite Ho in O2. destruct O2 as (x & Hx & Hr & Hc). assert (x = th) as -> by congruence. destruct (O1 t th Ht) as [Hh _]. apply Hh in Ho as Hpos.
    unfold releaseOwnership. rewrite Ht. cbn [mbind option_bind]. rewrite bool_decide_eq_true_2 by done. cbn [negb]. rewrite decide_False by (intros Hx'; by apply Hx'). case_decide.
    + intros [= <-]. simpl. rewrite Ho. split; [done|lia].
    + destruct (notifyOne c _); [|done]. intros [= <-]. simpl. split; [lia|done].
  - intros t th Ht Hw. apply (waiter_passes (length l) s t th); try done; lia.
Qed.

(** C39: whatever threads do with the references they hold, an object is never used after its deletion and no counter becomes negative; it is deleted at most once, not while a reference is held, and it has been deleted once all references are given up; between calls the counters are the numbers of references.  Up to fewer than 2^31 - 3 steps, as the counters have 32 bits and a sign. *)
Theorem references_delete_once n l : Z.of_nat (length l) + 3 < 2 ^ 31 -> refSteps l (newObject n) <> Fault /\
  forall s, refSteps l (newObject n) = Done s ->
    (forall a, refStep a s <> Fault) /\ (deletions s <= 1)%nat /\
    (forall t h, holders s !! t = Some h -> (0 < holds h)%nat -> deletions s = 0%nat) /\
    ((forall t h, holders s !! t = Some h -> doing h = Ready) ->
      refApi s = Z.of_nat (sumw apiRefs (holders s)) /\ refInternal s = Z.of_nat (sumw holds (holders s)) /\ (deletions s = 1%nat <-> sumw holds (holders s) = 0%nat)).
Proof.
  intros Hl. pose proof (refSteps_ok l 0 (newObject n) (newObject_counted n) ltac:(simpl; lia)) as H. simpl in H. split; [by intros Hf; rewrite Hf in H|].
  intros s Hs. rewrite Hs in H. simpl in H. pose proof H as [C1 C2 C3 C4 C5]. split_and!.
  - intros a Ha. pose proof (refStep_ok _ a s H ltac:(lia)) as Hg. by rewrite Ha in Hg.
  - case_decide; lia.
  - intros t h Ht Hh. by apply (alive (length l) s t h H Ht); unfold contributes; lia.
  - intros Hr. assert (forall f g : Holder -> nat, (forall h, doing h = Ready -> f h = g h) -> sumw f (holders s) = sumw g (holders s)) as Hsame.
    { intros f g Hfg. clear -Hr Hfg. induction (holders s) as [|h hs IH]; [done|]. simpl. rewrite (Hfg h) by (by apply (Hr 0%nat)). f_equal. apply IH. intros t x Hx. by apply (Hr (S t)). }
    assert (sumw contributes (holders s) = sumw holds (holders s)) as S1 by (apply Hsame; intros h Hh; unfold contributes; rewrite Hh; lia).
    assert (sumw contributesApi (holders s) = sumw apiRefs (holders s)) as S2 by (apply Hsame; intros h Hh; unfold contributesApi; rewrite Hh; lia).
    assert (sumw deletes (holders s) = 0%nat) as S3.
    { rewrite (Hsame deletes (fun _ => 0%nat)); [|intros h Hh; unfold deletes; by rewrite Hh]. clear. by induction (holders s). }
    rewrite C1, C2, S1, S2. rewrite S1, S3 in C3. split_and!; [done|done|]. case_decide; lia.
Qed.

(** *** Witnesses *)

(** Thread 1 waits while thread 0 owns the object. *)
Example ownership_passes_on_witness : exists s l' s', useAll [Take 0 true; Take 0 true; Take 1 true] (newOwnership 2) = Some s /\ Forall passes l' /\ useAll l' s = Some s' /\ owner s' = Some 1%nat.
Proof.
  destruct (useAll [Take 0 true; Take 0 true; Take 1 true] (newOwnership 2)) as [s|] eqn:E; [|discriminate E].
  destruct (ownership_passes_on 2 _ s E) as (_ & _ & _ & _ & H); [done|].
  assert (threads s !! 1%nat = Some (mkThread Asleep 0)) as Ht by (revert E; vm_compute; intros [= <-]; done).
  destruct (H 1%nat _ Ht) as (l' & s' & Hl & E' & Ho); [done|]. exists s, l', s'. split_and!; done.
Defined.

(** The application keeps a reference while the driver takes and drops one of its own. *)
Example references_delete_once_witness : exists s, refSteps [IncRefInternal 0; Give 0 1 false; DecRefApi 0; Continue 0; DecRefInternal 1; Continue 1] (newObject 1) = Done s /\ deletions s = 1%nat.
Proof.
  destruct (references_delete_once 1 [IncRefInternal 0; Give 0 1 false; DecRefApi 0; Continue 0; DecRefInternal 1; Continue 1]) as [_ H]; [done|].
  destruct (refSteps _ _) as [s| |] eqn:E in H; [|discriminate E|discriminate E]. exists s. split; [exact E|]. destruct (H s eq_refl) as (_ & _ & _ & Hd).
  destruct Hd as (_ & _ & Hd); [intros t h Ht; revert E Ht; vm_compute; intros [= <-]; by destruct t as [|[|t]]; intros [= <-]|].
  apply Hd. revert E. vm_compute. by intros [= <-].
Defined.

Example convert_keeps_alive : match refSteps (convertToInternalObject 0) (newObject 0) with Done s => refApi s = 0 /\ refInternal s = 1 /\ deletions s = 0%nat | _ => False end.
Proof. by vm_compute. Qed.
