(* ===== verification/CommandQueue.v ===== *)
(** * Command queues

    The part of [command_queue/enqueue_common.h] and [command_queue.cpp] that
    orders commands: the task level that a command gets from its queue and its
    wait list, whether it is blocked, the completion stamp that the queue and the
    event take over, and the event that a blocked command waits with
    ([enqueueBlocked], [event/event_builder.cpp]).  Events are those of [Event].

    The command stream receiver is an interface, the class [Receiver]: what a
    queue relies on is how it stamps a task.  [QueueOrder] gives the instance of
    [FlushTask].  What is dispatched is an argument [T] of the flush; residency,
    time-stamp packets, profiling, device-side enqueues and the events of shared
    OpenGL objects are left out.  [None]
    is an event that does not exist, or too little fuel in [Event]. *)

From S2P Require Import Prelude.
From S2P Require Import Event.

(** ** Commands *)

Inductive CommandType :=
  | CL_COMMAND_NDRANGE_KERNEL | CL_COMMAND_BARRIER | CL_COMMAND_MARKER | CL_COMMAND_MIGRATE_MEM_OBJECTS | CL_COMMAND_SVM_MAP | CL_COMMAND_SVM_UNMAP
  | CL_COMMAND_SVM_FREE
  | OtherCommand  (** reads, writes, copies, fills: all dispatch kernels *).
Definition isCommandWithoutKernel (commandType : CommandType) : bool :=
  match commandType with
  | CL_COMMAND_BARRIER | CL_COMMAND_MARKER | CL_COMMAND_MIGRATE_MEM_OBJECTS | CL_COMMAND_SVM_MAP | CL_COMMAND_SVM_UNMAP | CL_COMMAND_SVM_FREE => true
  | _ => false
  end.
Definition isBarrier (commandType : CommandType) : bool := match commandType with CL_COMMAND_BARRIER => true | _ => false end.

Record CompletionStamp := mkStamp { stampCount : Z; stampLevel : Z; stampFlush : Z }.
Record Queue := mkQueue { queueCount : Z; queueLevel : Z; queueFlush : Z; virtualEvent : option Z; isOOQEnabled : bool }.
Definition newQueue (ooq : bool) : Queue := mkQueue 0 0 0 None ooq.

Definition updateFromCompletionStamp (s : CompletionStamp) (q : Queue) : Queue :=
  mkQueue (if decide (stampCount s <> eventNotReady) then stampCount s else queueCount q) (stampLevel s) (stampFlush s) (virtualEvent q) (isOOQEnabled q).
Definition updateCompletionStamp (s : CompletionStamp) (e : Event) : Event := setTaskCount (stampCount s) (setLevel (stampLevel s) e).

(** ** Levels *)

Fixpoint getTaskLevelFromWaitList (level : Z) (eventWaitList : list Z) (w : World) : option Z :=
  match eventWaitList with
  | [] => Some level
  | id :: l => e ← events w !! id; getTaskLevelFromWaitList (Z.max level (taskLevel e)) l w
  end.

(** The queue takes over the stamp of its virtual event when that has ended. *)
Definition isQueueBlocked (csrTaskLevel : list Action -> Z) (flushStampOf : Z -> Z) (q : Queue) (w : World) : option (bool * Queue * World) :=
  match virtualEvent q with
  | None => Some (false, q, w)
  | Some v =>
      e ← events w !! v;
      if decide (executionStatus e <= CL_COMPLETE) then
        let q :=
          if isStatusCompletedByTermination (executionStatus e) then mkQueue 0 (csrTaskLevel (log w)) 0 None (isOOQEnabled q)
          else mkQueue (taskCount e) (if isOOQEnabled q then taskLevel e else w32 (taskLevel e + 1)) (flushStampOf v) None (isOOQEnabled q) in
        w ← modify v (addRef (-1)) w;
        Some (false, q, w)
      else Some (true, q, w)
  end.

(** An empty wait list is a null pointer. *)
Definition isTaskLevelUpdateRequired (level : Z) (eventWaitList : list Z) (commandType : CommandType) (q : Queue) (w : World) : option bool :=
  let updateTaskLevel := negb (bool_decide (level = eventNotReady)) in
  let updateTaskLevel := if isCommandWithoutKernel commandType && negb (isBarrier commandType) then false else updateTaskLevel in
  if isOOQEnabled q then
    match eventWaitList with
    | [] => Some (if isBarrier commandType then updateTaskLevel else false)
    | _ =>
        taskLevelFromEvents ← getTaskLevelFromWaitList 0 eventWaitList w;
        Some (if decide (w32 (taskLevelFromEvents + 1) <= queueLevel q) then false else updateTaskLevel)
    end
  else Some updateTaskLevel.

(** A virtual method that only the events of shared OpenGL objects override;
    the kinds of [Event] are not synchronised outside. *)
Definition isExternallySynchronized (e : Event) : bool := false.

(** The count that a command without a submission inherits. *)
Fixpoint maxTaskCount (count : Z) (eventWaitList : list Z) (w : World) : option Z :=
  match eventWaitList with
  | [] => Some count
  | id :: l =>
      e ← events w !! id;
      maxTaskCount (if negb (bool_decide (kind e = UserEvent)) && negb (isExternallySynchronized e) then Z.max count (taskCount e) else count) l w
  end.

(** ** Wait lists *)

Lemma waitList_level ids w level : Forall (fun id => is_Some (events w !! id)) ids ->
  exists m, getTaskLevelFromWaitList level ids w = Some m /\ level <= m /\
    (forall id e, id ∈ ids -> events w !! id = Some e -> taskLevel e <= m) /\
    (m = level \/ exists id e, id ∈ ids /\ events w !! id = Some e /\ m = taskLevel e).
Proof.
  intros H. revert level. induction H as [|id ids [e He] _ IH]; intros level; simpl.
  - exists level. split_and!; [done|lia|set_solver|by left].
  - rewrite He. simpl. destruct (IH (Z.max level (taskLevel e))) as (m & -> & Hm & Hall & Heq). exists m. split_and!; [done|lia| |].
    + intros i f [->|Hi]%elem_of_cons Hf; [simplify_eq; lia|eauto].
    + destruct Heq as [->|(i & f & Hi & Hf & ->)]; [|right; exists i, f; set_solver].
      destruct (Z.max_spec level (taskLevel e)) as [[_ ->]|[_ ->]]; [right; exists id, e; set_solver|by left].
Qed.

Lemma waitList_count ids w count : Forall (fun id => exists e, events w !! id = Some e /\ kind e = BaseEvent) ids ->
  exists m, maxTaskCount count ids w = Some m /\ count <= m /\
    (forall id e, id ∈ ids -> events w !! id = Some e -> taskCount e <= m) /\
    (m = count \/ exists id e, id ∈ ids /\ events w !! id = Some e /\ m = taskCount e).
Proof.
  intros H. revert count. induction H as [|id ids (e & He & Hk) _ IH]; intros count; simpl.
  - exists count. split_and!; [done|lia|set_solver|by left].
  - rewrite He. simpl. rewrite Hk, bool_decide_eq_false_2 by done. simpl. destruct (IH (Z.max count (taskCount e))) as (m & -> & Hm & Hall & Heq). exists m. split_and!; [done|lia| |].
    + intros i f [->|Hi]%elem_of_cons Hf; [simplify_eq; lia|eauto].
    + destruct Heq as [->|(i & f & Hi & Hf & ->)]; [|right; exists i, f; set_solver].
      destruct (Z.max_spec count (taskCount e)) as [[_ ->]|[_ ->]]; [right; exists id, e; set_solver|by left].
Qed.

Section Queues.
Context (isCompleted : list Action -> Z -> bool) (csrTaskLevel csrTaskCount : list Action -> Z) (submit : list Action -> Z -> Z -> bool -> Z) (flushStampOf : Z -> Z).

(** The task level, whether the command is blocked, and the queue. *)
Definition obtainTaskLevelAndBlockedStatus (eventWaitList : list Z) (commandType : CommandType) (q : Queue) (w : World) : option (Z * bool * Queue * World) :=
  '(isQueueBlockedStatus, q, w) ← isQueueBlocked csrTaskLevel flushStampOf q w;
  level ← getTaskLevelFromWaitList (queueLevel q) eventWaitList w;
  let blockQueue := bool_decide (level = eventNotReady) || isQueueBlockedStatus in
  updateTaskLevel ← isTaskLevelUpdateRequired level eventWaitList commandType q w;
  if updateTaskLevel : bool then
    let level := w32 (level + 1) in
    Some (level, blockQueue, mkQueue (queueCount q) level (queueFlush q) (virtualEvent q) (isOOQEnabled q), w)
  else Some (level, blockQueue, q, w).

(** ** Blocked commands *)

Definition addParentEvent (parents : list Z) (newParentEvent : Z) : list Z := if decide (newParentEvent ∈ parents) then parents else parents ++ [newParentEvent].

(** The loop of [finalize] over the parents. *)
Fixpoint addToParents (fuel : nat) (event : Z) (parents : list Z) (w : World) : option World :=
  match parents with
  | [] => Some w
  | p :: l =>
      e ← events w !! p;
      let waits := negb (negb (peekIsBlocked e) && bool_decide (taskLevel e <> eventNotReady)) || (negb (eventWithoutCommand e) && bool_decide (submittedCmd e = None)) in
      w ← (if waits then addChild isCompleted csrTaskLevel csrTaskCount submit fuel p event w else Some w);
      addToParents fuel event l w
  end.
(** [sentinel]: the user event that keeps the event from being submitted too early. *)
Definition finalize (fuel : nat) (event : Z) (parents : list Z) (sentinel : Z) (w : World) : option World :=
  match parents with
  | [] => Some w
  | _ =>
      let w := mkWorld (<[sentinel := newUserEvent]> (events w)) (log w) in
      w ← addChild isCompleted csrTaskLevel csrTaskCount submit fuel sentinel event w;
      w ← addToParents fuel event parents w;
      '(_, w) ← setStatus isCompleted csrTaskLevel csrTaskCount submit fuel sentinel CL_COMPLETE w;
      Some w
  end.

(** [fresh]: the events made on the way, the virtual one and the sentinel. *)
Definition enqueueBlocked (fuel : nat) (command : Z) (eventWaitList : list Z) (externalEvent : option Z) (fresh : Z * Z) (q : Queue) (w : World) : option (Queue * World) :=
  '(event, w) ← (match externalEvent with
    | Some e => w ← modify e (addRef 1) w; Some (e, w)
    | None => Some (fresh.1, mkWorld (<[fresh.1 := newVirtualEvent true]> (events w)) (log w))
    end);
  e ← events w !! event;
  let count := taskCount e in
  w ← setCommand event command w;
  let parents := foldl addParentEvent [] eventWaitList in
  let parents := match virtualEvent q with Some v => addParentEvent parents v | None => parents end in
  w ← finalize fuel event parents fresh.2 w;
  w ← (match virtualEvent q with Some v => modify v (addRef (-1)) w | None => Some w end);
  Some (mkQueue count (queueLevel q) (queueFlush q) (Some event) (isOOQEnabled q), w).

(** ** Enqueuing *)

(** What a queue relies on: a task is stamped with a level that is not below the
    one it requires, and with the next count.  [ran] lists the required and the
    stamped levels in the order of submission, [pending] bounds the levels that
    what was recorded may still add. *)
Class Receiver (R T : Type) := {
  flushTask : Z -> T -> R -> option (R * CompletionStamp);
  validReceiver : R -> Prop;
  validTask : T -> Prop;
  topLevel : R -> Z;
  pending : R -> Z;
  lastCount : R -> Z;
  ran : R -> list (Z * Z);
  flush_stamps : forall level t r, validReceiver r -> validTask t -> 0 <= level ->
    Z.max level (topLevel r) + pending r + 2 < eventNotReady -> lastCount r + 1 < eventNotReady ->
    exists r' st, flushTask level t r = Some (r', st) /\ validReceiver r' /\ ran r' = ran r ++ [(level, stampLevel st)] /\
      level <= stampLevel st /\ stampLevel st + pending r' <= Z.max level (topLevel r) + pending r + 2 /\
      topLevel r' + pending r' <= Z.max level (topLevel r) + pending r + 2 /\ pending r' <= pending r + 1 /\
      stampCount st = lastCount r + 1 /\ lastCount r' = lastCount r + 1;
  receiver_range : forall r, validReceiver r -> 0 <= topLevel r /\ 0 <= pending r /\ 0 <= lastCount r }.

Context {R T : Type} `{Hrecv : Receiver R T}.

(** A call: [None] for the task when nothing is dispatched. *)
Record Enqueue := mkEnqueue { onQueue : nat; commandType : CommandType; multiDispatchInfo : option T; waitList : list Z; outEvent : option Z }.

(** An empty dispatch is enqueued as a marker. *)
Definition effectiveType (c : Enqueue) : CommandType :=
  match multiDispatchInfo c with None => if isCommandWithoutKernel (commandType c) then commandType c else CL_COMMAND_MARKER | Some _ => commandType c end.

Record Outcome := mkOutcome { requiredLevel : Z; blocked : bool; stamp : CompletionStamp }.

Definition enqueueHandler (fuel : nat) (c : Enqueue) (command : Z) (fresh : Z * Z) (q : Queue) (w : World) (r : R) : option (Outcome * Queue * World * R) :=
  let w := match outEvent c with Some id => mkWorld (<[id := newEvent BaseEvent true eventNotReady 0]> (events w)) (log w) | None => w end in
  '(level, blockQueue, q, w) ← obtainTaskLevelAndBlockedStatus (waitList c) (effectiveType c) q w;
  '(r, st) ← (if blockQueue : bool then Some (r, mkStamp eventNotReady level 0)
    else match isCommandWithoutKernel (effectiveType c), multiDispatchInfo c with
      | false, Some t => flushTask level t r
      | false, None => None
      | true, _ => count ← maxTaskCount (queueCount q) (waitList c) w; Some (r, mkStamp count level (queueFlush q))
      end);
  let q := updateFromCompletionStamp st q in
  w ← (match outEvent c with Some id => modify id (updateCompletionStamp st) w | None => Some w end);
  '(q, w) ← (if blockQueue then enqueueBlocked fuel command (waitList c) (outEvent c) fresh q w else Some (q, w));
  Some (mkOutcome level blockQueue st, q, w, r).

(** ** Histories *)

(** The commands that were enqueued, with what was made of them. *)
Record System := mkSystem { queues : gmap nat Queue; world : World; receiver : R; trace : list (Enqueue * Outcome) }.

Context (fuel : nat) (fresh : nat -> Z * Z).
Definition enqueue (c : Enqueue) (s : System) : option System :=
  q ← queues s !! onQueue c;
  '(o, q, w, r) ← enqueueHandler fuel c (Z.of_nat (length (trace s))) (fresh (length (trace s))) q (world s) (receiver s);
  Some (mkSystem (<[onQueue c := q]> (queues s)) w r (trace s ++ [(c, o)])).
Fixpoint enqueueAll (l : list Enqueue) (s : System) : option System :=
  match l with [] => Some s | c :: l => s ← enqueue c s; enqueueAll l s end.

(** A command waits for events of earlier commands and makes a new event. *)
Fixpoint eventsFlow (known : list Z) (l : list Enqueue) : Prop :=
  match l with
  | [] => True
  | c :: l => Forall (fun id => id ∈ known) (waitList c) /\ Forall (fun id => id ∉ known) (option_list (outEvent c)) /\ eventsFlow (known ++ option_list (outEvent c)) l
  end.

Definition isKernel (c : Enqueue) : bool := negb (isCommandWithoutKernel (effectiveType c)).
(** [b], which comes later, has to wait for [a]. *)
Definition waitsFor (ooq : nat -> bool) (a b : Enqueue) : Prop :=
  (onQueue a = onQueue b /\ ooq (onQueue b) = false) \/
  (exists id, outEvent a = Some id /\ id ∈ waitList b) \/
  (onQueue a = onQueue b /\ isKernel b = false /\ waitList b = []) \/
  (onQueue a = onQueue b /\ isBarrier (effectiveType a) = true).
Definition precedes (ooq : nat -> bool) (l : list (Enqueue * Outcome)) (i j : nat) : Prop :=
  (i < j)%nat /\ exists a b, l !! i = Some a /\ l !! j = Some b /\ waitsFor ooq a.1 b.1.

(** ** Levels of a command *)

(** The events of a wait list exist, and their levels are at most [b]. *)
Definition waits_below (b : Z) (ids : list Z) (w : World) : Prop := Forall (fun id => exists e, events w !! id = Some e /\ 0 <= taskLevel e <= b) ids.
(** A kernel or a barrier. *)
Definition advances (ty : CommandType) : bool := negb (isCommandWithoutKernel ty) || isBarrier ty.

Lemma free_level ids ty q w b : virtualEvent q = None -> 0 <= queueLevel q <= b -> waits_below b ids w -> b + 1 < eventNotReady ->
  exists level q', obtainTaskLevelAndBlockedStatus ids ty q w = Some (level, false, q', w) /\
    queueCount q' = queueCount q /\ queueFlush q' = queueFlush q /\ virtualEvent q' = None /\ isOOQEnabled q' = isOOQEnabled q /\
    queueLevel q <= level <= b + 1 /\
    (forall id e, id ∈ ids -> events w !! id = Some e -> taskLevel e <= level /\ (advances ty = true -> taskLevel e < level)) /\
    (advances ty = true -> isOOQEnabled q = false \/ isBarrier ty = true /\ ids = [] -> queueLevel q < level).
Proof.
  intros Hv Hq Hw Hb. unfold eventNotReady in Hb.
  assert (Forall (fun id => is_Some (events w !! id)) ids) as Hs by (eapply Forall_impl; [exact Hw|intros ? (? & ? & _); eauto]).
  unfold obtainTaskLevelAndBlockedStatus, isQueueBlocked. rewrite Hv. cbn [mbind option_bind].
  destruct (waitList_level ids w (queueLevel q) Hs) as (m & -> & Hm & Hall & Hmax). cbn [mbind option_bind].
  assert (m <= b) as Hmb.
  { destruct Hmax as [->|(id & e & Hid & He & ->)]; [lia|]. unfold waits_below in Hw. rewrite Forall_forall in Hw. destruct (Hw id Hid) as (? & ? & ?). simplify_eq. lia. }
  unfold isTaskLevelUpdateRequired. rewrite (bool_decide_eq_false_2 (m = _)) by (unfold eventNotReady; lia). cbn [negb orb].
  assert (forall u, (if isCommandWithoutKernel ty && negb (isBarrier ty) then false else u) = (if advances ty then u else false)) as -> by (intros; unfold advances; by destruct ty).
  assert (w32 (m + 1) = m + 1) as -> by (apply wrap_small; word_lia).
  destruct (isOOQEnabled q) eqn:Hooq.
  2: { cbn [mbind option_bind]. destruct (advances ty) eqn:Ha; eexists _, _; (split; [done|]); simpl; split_and!; try done; try lia; intros id e Hi He; specialize (Hall _ _ Hi He); lia. }
  destruct ids as [|i ids'].
  { cbn [mbind option_bind]. destruct (isBarrier ty) eqn:Hbar.
    - assert (advances ty = true) as -> by (unfold advances; rewrite Hbar; by destruct (negb _)).
      eexists _, _. split; [done|]. simpl. split_and!; try done; try lia; intros; first [lia|set_solver].
    - eexists _, _. split; [done|]. simpl. split_and!; try done; try lia; first [by intros _ [|[]]|intros; set_solver]. }
  set (ids := i :: ids') in *.
  destruct (waitList_level ids w 0 Hs) as (m0 & -> & Hm0 & Hall0 & Hmax0). cbn [mbind option_bind].
  assert (m0 <= m) as Hle.
  { destruct Hmax0 as [->|(id & e & Hid & He & ->)]; [lia|]. by apply (Hall id). }
  assert (w32 (m0 + 1) = m0 + 1) as -> by (apply wrap_small; word_lia).
  case_decide as Hd.
  - eexists _, _. split; [done|]. simpl. split_and!; try done; try lia; first [by intros _ [|[]]|idtac].
    intros id e Hi He. specialize (Hall _ _ Hi He). specialize (Hall0 _ _ Hi He). lia.
  - destruct (advances ty) eqn:Ha; eexists _, _; (split; [done|]); simpl; split_and!; try done; try lia; intros id e Hi He; specialize (Hall _ _ Hi He); lia.
Qed.

(** *** Blocking *)

(** The events that a queue looks at have levels of 32 bits up to [eventNotReady],
    and those that have ended are ready. *)
Record queue_ok (ids : list Z) (q : Queue) (w : World) : Prop := {
  qo_level : 0 <= queueLevel q <= eventNotReady;
  qo_free : virtualEvent q = None -> queueLevel q < eventNotReady;
  qo_waits : Forall (fun id => exists e, events w !! id = Some e /\ 0 <= taskLevel e <= eventNotReady) ids;
  qo_virtual : forall v, virtualEvent q = Some v -> exists e, events w !! v = Some e /\ 0 <= taskLevel e /\ (executionStatus e = CL_COMPLETE -> taskLevel e + 1 < eventNotReady);
  qo_csr : 0 <= csrTaskLevel (log w) < eventNotReady }.

Definition waits_on_unready (ids : list Z) (w : World) : Prop := exists id e, id ∈ ids /\ events w !! id = Some e /\ taskLevel e = eventNotReady.
Definition virtual_pending (q : Queue) (w : World) : Prop := exists v e, virtualEvent q = Some v /\ events w !! v = Some e /\ CL_COMPLETE < executionStatus e.

Lemma queue_blocked_spec ids q w : queue_ok ids q w -> exists b q' w', isQueueBlocked csrTaskLevel flushStampOf q w = Some (b, q', w') /\
  (b = true <-> virtual_pending q w) /\ (b = false -> virtualEvent q' = None /\ 0 <= queueLevel q' < eventNotReady) /\ (b = true -> q' = q /\ w' = w) /\
  (forall v e, virtualEvent q = Some v -> events w !! v = Some e -> executionStatus e = CL_COMPLETE -> queueLevel q' = taskLevel e + Z.b2z (negb (isOOQEnabled q))) /\
  (forall id e, events w !! id = Some e -> exists e', events w' !! id = Some e' /\ taskLevel e' = taskLevel e).
Proof.
  clear fuel fresh.
  intros [Hl Hf _ Hv Hc]. unfold isQueueBlocked, virtual_pending. destruct (virtualEvent q) as [v|] eqn:Eq.
  2: { exists false, q, w. split; [done|]. specialize (Hf eq_refl). split_and!; [split; [done|naive_solver]|intros _; split; [done|lia]|done|done|eauto]. }
  destruct (Hv v eq_refl) as (e & He & Hle & Hend). rewrite He. cbn [mbind option_bind].
  assert (forall f g : Event -> Event, (forall e, taskLevel (f e) = taskLevel e) -> exists w', modify v f w = Some w' /\
    forall id e, events w !! id = Some e -> exists e', events w' !! id = Some e' /\ taskLevel e' = taskLevel e) as Hmod.
  { intros f _ Hfl. unfold modify. rewrite He. eexists. split; [done|]. simpl. intros id e' Hi. destruct (decide (id = v)) as [->|Hne].
    - rewrite lookup_insert_eq. eexists. split; [done|]. rewrite Hfl. congruence.
    - rewrite lookup_insert_ne by done. eauto. }
  destruct (Hmod (addRef (-1)) id) as (w' & Hw' & Hsame); [done|]. rewrite Hw'. cbn [mbind option_bind]. clear Hmod.
  case_decide as Hd.
  - eexists _, _, _. split; [done|]. split_and!; [split; [done|]; intros (v' & e' & [= <-] & He' & Hlt); simplify_eq; lia| |done| |exact Hsame].
    + intros _. unfold isStatusCompletedByTermination. case_bool_decide; simpl; [split; [done|lia]|].
      assert (executionStatus e = CL_COMPLETE) as Hz by (unfold CL_COMPLETE in *; lia). specialize (Hend Hz). unfold eventNotReady in *.
      destruct (isOOQEnabled q); split; try done; [lia|]. rewrite wrap_small by word_lia. lia.
    + intros v' e' [= <-] He' Hz. simplify_eq. specialize (Hend Hz). unfold eventNotReady in *. unfold isStatusCompletedByTermination. rewrite bool_decide_eq_false_2 by (rewrite Hz; done).
      simpl. destruct (isOOQEnabled q); simpl; [lia|]. rewrite wrap_small by word_lia. lia.
  - eexists true, q, w. split; [done|]. split_and!; [|done|done| |eauto].
    + split; [|done]. intros _. exists v, e. unfold CL_COMPLETE in *. split_and!; [done|done|lia].
    + intros v' e' [= <-] He' Hz. simplify_eq. rewrite Hz in Hd. unfold CL_COMPLETE in *. lia.
Qed.

(** ** One command *)

Definition withOutEvent (c : Enqueue) (w : World) : World :=
  match outEvent c with Some id => mkWorld (<[id := newEvent BaseEvent true eventNotReady 0]> (events w)) (log w) | None => w end.
Lemma withOutEvent_other c w id : id ∉ option_list (outEvent c) -> events (withOutEvent c w) !! id = events w !! id.
Proof. unfold withOutEvent. destruct (outEvent c) as [o|]; simpl; [|done]. intros Hi. apply lookup_insert_ne. set_solver. Qed.

(** What a command finds: no event that is not ready, and levels up to [b]. *)
Record calm (b n : Z) (c : Enqueue) (q : Queue) (w : World) : Prop := {
  ca_virtual : virtualEvent q = None;
  ca_level : 0 <= queueLevel q <= b;
  ca_count : 0 <= queueCount q <= n;
  ca_fresh : forall id, id ∈ waitList c -> id ∉ option_list (outEvent c);
  ca_waits : forall id, id ∈ waitList c -> exists e, events w !! id = Some e /\ kind e = BaseEvent /\ 0 <= taskLevel e <= b /\ 0 <= taskCount e <= n }.

(** What becomes of it. *)
Record handled (c : Enqueue) (q : Queue) (w : World) (r : R) (o : Outcome) (q' : Queue) (w' : World) (r' : R) : Prop := {
  ha_free : blocked o = false;
  ha_queue : q' = mkQueue (stampCount (stamp o)) (stampLevel (stamp o)) (stampFlush (stamp o)) None (isOOQEnabled q);
  ha_levels : queueLevel q <= requiredLevel o <= stampLevel (stamp o);
  ha_counts : queueCount q <= stampCount (stamp o) <= lastCount r';
  ha_after : advances (effectiveType c) = true -> isOOQEnabled q = false \/ isBarrier (effectiveType c) = true /\ waitList c = [] -> queueLevel q < requiredLevel o;
  ha_waits : forall id e, id ∈ waitList c -> events w !! id = Some e -> taskLevel e <= requiredLevel o /\ (advances (effectiveType c) = true -> taskLevel e < requiredLevel o) /\ taskCount e <= stampCount (stamp o);
  ha_event : forall id, outEvent c = Some id -> exists e, events w' !! id = Some e /\ kind e = BaseEvent /\ taskLevel e = stampLevel (stamp o) /\ taskCount e = stampCount (stamp o);
  ha_others : forall id, id ∉ option_list (outEvent c) -> events w' !! id = events w !! id;
  ha_ran : ran r' = ran r ++ (if isKernel c then [(requiredLevel o, stampLevel (stamp o))] else []) }.

Lemma outEvent_stamped c w st : exists w',
  match outEvent c with Some id => modify id (updateCompletionStamp st) (withOutEvent c w) | None => Some (withOutEvent c w) end = Some w' /\
  (forall id, outEvent c = Some id -> exists e, events w' !! id = Some e /\ kind e = BaseEvent /\ taskLevel e = stampLevel st /\ taskCount e = stampCount st) /\
  (forall id, id ∉ option_list (outEvent c) -> events w' !! id = events w !! id).
Proof.
  unfold withOutEvent, modify. destruct (outEvent c) as [o|]; simpl; [|by eexists].
  rewrite lookup_insert_eq. eexists. split; [done|]. simpl. split.
  - intros id [= <-]. rewrite lookup_insert_eq. by eexists.
  - intros id Hi. rewrite !lookup_insert_ne by set_solver. done.
Qed.

(** The stamp of a command: by the receiver, or inherited. *)
Lemma command_stamp b level c q w r : validReceiver r -> (forall t, multiDispatchInfo c = Some t -> validTask t) -> calm b (lastCount r) c q w ->
  queueLevel q <= level <= b + 1 -> topLevel r <= b -> b + pending r + 3 < eventNotReady -> lastCount r + 1 < eventNotReady ->
  exists r' st, match isCommandWithoutKernel (effectiveType c), multiDispatchInfo c with
      | false, Some t => flushTask level t r
      | false, None => None
      | true, _ => count ← maxTaskCount (queueCount q) (waitList c) (withOutEvent c w); Some (r, mkStamp count level (queueFlush q))
      end = Some (r', st) /\ validReceiver r' /\
    level <= stampLevel st /\ stampLevel st + pending r' <= b + pending r + 3 /\ topLevel r' + pending r' <= b + pending r + 3 /\ pending r' <= pending r + 1 /\
    queueCount q <= stampCount st <= lastCount r' /\ lastCount r <= lastCount r' <= lastCount r + 1 /\
    (forall id e, id ∈ waitList c -> events w !! id = Some e -> taskCount e <= stampCount st) /\
    ran r' = ran r ++ (if isKernel c then [(level, stampLevel st)] else []).
Proof.
  intros Hv Ht [Cv Cl Cc Cf Cw] Hl Htop Hp Hn. unfold isKernel.
  destruct (isCommandWithoutKernel (effectiveType c)) eqn:Hk; simpl.
  - destruct (waitList_count (waitList c) (withOutEvent c w) (queueCount q)) as (m & -> & Hm & Hall & Hmax).
    { apply Forall_forall. intros id Hi. rewrite withOutEvent_other by auto. destruct (Cw id Hi) as (e & He & Hke & _). eauto. }
    cbn [mbind option_bind]. eexists _, _. split; [done|]. simpl. rewrite app_nil_r. split_and!; try done; try lia.
    + destruct Hmax as [->|(id & e & Hi & He & ->)]; [lia|]. rewrite withOutEvent_other in He by auto. destruct (Cw id Hi) as (f & Hf & _ & _ & Hc). simplify_eq. lia.
    + intros id e Hi He. apply (Hall id); [done|]. by rewrite withOutEvent_other by auto.
  - destruct (multiDispatchInfo c) as [t|] eqn:Hd.
    2: { exfalso. unfold effectiveType in Hk. rewrite Hd in Hk. revert Hk. by destruct (commandType c). }
    destruct (flush_stamps level t r Hv (Ht t eq_refl)) as (r' & st & -> & Hv' & Hr & H1 & H2 & H3 & H4 & H5 & H6); [lia..|].
    eexists _, _. split; [done|]. split_and!; try done; try lia.
    intros id e Hi He. destruct (Cw id Hi) as (f & Hf & _ & _ & Hc). simplify_eq. lia.
Qed.

Lemma handler_free b c command ids q w r : validReceiver r -> (forall t, multiDispatchInfo c = Some t -> validTask t) -> calm b (lastCount r) c q w ->
  topLevel r <= b -> b + pending r + 3 < eventNotReady -> lastCount r + 1 < eventNotReady ->
  exists o q' w' r', enqueueHandler fuel c command ids q w r = Some (o, q', w', r') /\ handled c q w r o q' w' r' /\ validReceiver r' /\
    stampLevel (stamp o) + pending r' <= b + pending r + 3 /\ topLevel r' + pending r' <= b + pending r + 3 /\ pending r' <= pending r + 1 /\ lastCount r <= lastCount r' <= lastCount r + 1.
Proof.
  intros Hv Ht Hc Htop Hp Hn. pose proof Hc as [Cv Cl Cc Cf Cw]. pose proof (receiver_range r Hv) as (Hr1 & Hr2 & Hr3).
  destruct (free_level (waitList c) (effectiveType c) q (withOutEvent c w) b) as (level & q1 & E & Q1 & Q2 & Q3 & Q4 & Hl & Hw & Ha); [done|done| |lia|].
  { apply Forall_forall. intros id Hi. rewrite withOutEvent_other by auto. destruct (Cw id Hi) as (e & He & _ & Hle & _). eauto. }
  assert (calm b (lastCount r) c (mkQueue (queueCount q1) (queueLevel q) (queueFlush q1) None (isOOQEnabled q)) w) as Hc1 by (constructor; simpl; try done; by rewrite Q1).
  destruct (command_stamp b level c _ w r Hv Ht Hc1 Hl Htop Hp Hn) as (r' & st & Es & Hv' & S1 & S2 & S3 & S4 & S5 & S6 & S7 & S8).
  destruct (outEvent_stamped c w st) as (w' & Eo & O1 & O2).
  unfold enqueueHandler. fold (withOutEvent c w). rewrite E. cbn [mbind option_bind]. simpl in Es. rewrite Es. cbn [mbind option_bind].
  rewrite Eo. cbn [mbind option_bind]. eexists _, _, _, _. split; [done|]. simpl in S5. split; [|simpl; split_and!; first [done|lia]].
  assert (stampCount st <> eventNotReady) as Hnr by (unfold eventNotReady in *; lia).
  constructor; simpl; try done; try lia.
  - unfold updateFromCompletionStamp. rewrite decide_True by done. by rewrite Q3, Q4.
  - intros id e Hi He. destruct (Hw id e Hi) as [H1 H2]; [by rewrite withOutEvent_other by auto|]. split_and!; [done|done|]. by apply (S7 id).
Qed.

(** ** What histories preserve *)

Definition made (tr : list (Enqueue * Outcome)) : list Z := omap (fun x => outEvent x.1) tr.
Definition runs (tr : list (Enqueue * Outcome)) : list (Z * Z) := (fun x => (requiredLevel x.2, stampLevel (stamp x.2))) <$> filter (fun x => isKernel x.1 = true) tr.

(** [y] follows [x] as it has to. *)
Definition ordered (ooq : nat -> bool) (x y : Enqueue * Outcome) : Prop :=
  waitsFor ooq x.1 y.1 -> stampLevel (stamp x.2) <= requiredLevel y.2 /\ stampCount (stamp x.2) <= stampCount (stamp y.2) /\
    (isBarrier (effectiveType x.1) = false -> advances (effectiveType y.1) = true -> stampLevel (stamp x.2) < requiredLevel y.2).

Record entry_ok (b : Z) (s : System) (x : Enqueue * Outcome) : Prop := {
  en_free : blocked x.2 = false;
  en_level : 0 <= requiredLevel x.2 <= stampLevel (stamp x.2);
  en_bound : stampLevel (stamp x.2) + pending (receiver s) <= b;
  en_count : 0 <= stampCount (stamp x.2) <= lastCount (receiver s);
  en_queue : forall q, queues s !! onQueue x.1 = Some q -> stampLevel (stamp x.2) <= queueLevel q /\ stampCount (stamp x.2) <= queueCount q;
  en_event : forall id, outEvent x.1 = Some id -> exists e, events (world s) !! id = Some e /\ kind e = BaseEvent /\ taskLevel e = stampLevel (stamp x.2) /\ taskCount e = stampCount (stamp x.2) }.

Record history_ok (ooq : nat -> bool) (b : Z) (s : System) : Prop := {
  hi_valid : validReceiver (receiver s);
  hi_top : topLevel (receiver s) + pending (receiver s) <= b;
  hi_queue : forall k q, queues s !! k = Some q -> virtualEvent q = None /\ isOOQEnabled q = ooq k /\ 0 <= queueLevel q /\ queueLevel q + pending (receiver s) <= b /\ 0 <= queueCount q <= lastCount (receiver s);
  hi_entry : forall x, x ∈ trace s -> entry_ok b s x;
  hi_order : forall i j x y, (i < j)%nat -> trace s !! i = Some x -> trace s !! j = Some y -> ordered ooq x y }.

Lemma made_entry tr id : id ∈ made tr -> exists x, x ∈ tr /\ outEvent x.1 = Some id.
Proof. intros (x & Hx & Ho)%list_elem_of_omap. eauto. Qed.

Lemma history_calm ooq b c s q : history_ok ooq b s -> queues s !! onQueue c = Some q ->
  Forall (fun id => id ∈ made (trace s)) (waitList c) -> Forall (fun id => id ∉ made (trace s)) (option_list (outEvent c)) ->
  calm (b - pending (receiver s)) (lastCount (receiver s)) c q (world s).
Proof.
  intros [Hv Ht Hq He _] Hk Hw Hf. rewrite Forall_forall in Hw, Hf. destruct (Hq _ _ Hk) as (Q1 & Q2 & Q3 & Q4 & Q5). constructor; [done|lia|done| |].
  - intros id Hi Ho. by apply (Hf id), Hw.
  - intros id Hi. destruct (made_entry _ _ (Hw _ Hi)) as ([c' o'] & Hx & Ho). destruct (He _ Hx) as [_ H1 H2 H3 _ H4].
    destruct (H4 _ Ho) as (e & He' & Hke & E1 & E2). exists e. rewrite E1, E2. simpl in *. split_and!; try done; lia.
Qed.

Lemma enqueue_orders ooq b c s q o q' w' r' : history_ok ooq b s -> queues s !! onQueue c = Some q -> Forall (fun id => id ∈ made (trace s)) (waitList c) ->
  handled c q (world s) (receiver s) o q' w' r' -> forall x, x ∈ trace s -> ordered ooq x (c, o).
Proof.
  intros [Hv Ht Hq He _] Hk Hw [A1 A2 A3 A4 A5 A6 A7 A8 A9] [c' o'] Hx. destruct (Hq _ _ Hk) as (Q1 & Q2 & Q3 & Q4 & Q5).
  destruct (He _ Hx) as [H0 H1 H2 H3 H4 H5]. unfold ordered, waitsFor. simpl in *.
  intros [[Hs Ho]|[(id & Ho & Hi)|[(Hs & Hb & Hl)|[Hs Hb]]]].
  - destruct (H4 q) as [L1 L2]; [by rewrite Hs|]. split_and!; [lia|lia|]. intros _ Ha. specialize (A5 Ha (or_introl (eq_trans Q2 Ho))). lia.
  - destruct (H5 _ Ho) as (e & Hee & _ & E1 & E2). destruct (A6 id e Hi Hee) as (W1 & W2 & W3). rewrite E1 in W1, W2. rewrite E2 in W3. by split_and!; auto.
  - destruct (H4 q) as [L1 L2]; [by rewrite Hs|]. split_and!; [lia|lia|]. intros _ Ha.
    assert (isBarrier (effectiveType c) = true) as Hbar by (unfold advances in Ha; unfold isKernel in Hb; by rewrite Hb in Ha).
    specialize (A5 Ha (or_intror (conj Hbar Hl))). lia.
  - destruct (H4 q) as [L1 L2]; [by rewrite Hs|]. split_and!; [lia|lia|]. by rewrite Hb.
Qed.

Lemma ordered_snoc ooq l z : (forall i j x y, (i < j)%nat -> l !! i = Some x -> l !! j = Some y -> ordered ooq x y) -> (forall x, x ∈ l -> ordered ooq x z) ->
  forall i j x y, (i < j)%nat -> (l ++ [z]) !! i = Some x -> (l ++ [z]) !! j = Some y -> ordered ooq x y.
Proof.
  intros Hl Hz i j x y Hij Hi [Hj|[Hj1 Hj2]]%lookup_app_Some.
  - apply (Hl i j x y Hij); [|done]. rewrite lookup_app_l in Hi; [done|]. apply lookup_lt_Some in Hj. lia.
  - apply list_lookup_singleton_Some in Hj2 as [Hj2 ->]. apply Hz. rewrite lookup_app_l in Hi by lia. by eapply list_elem_of_lookup_2.
Qed.

Lemma enqueue_step ooq b c s : history_ok ooq b s -> is_Some (queues s !! onQueue c) -> (forall t, multiDispatchInfo c = Some t -> validTask t) ->
  Forall (fun id => id ∈ made (trace s)) (waitList c) -> Forall (fun id => id ∉ made (trace s)) (option_list (outEvent c)) ->
  b + 3 < eventNotReady -> lastCount (receiver s) + 1 < eventNotReady ->
  exists s' o, enqueue c s = Some s' /\ trace s' = trace s ++ [(c, o)] /\ history_ok ooq (b + 3) s' /\ dom (queues s') = dom (queues s) /\
    lastCount (receiver s') <= lastCount (receiver s) + 1 /\ ran (receiver s') = ran (receiver s) ++ (if isKernel c then [(requiredLevel o, stampLevel (stamp o))] else []).
Proof.
  intros H [q Hk] Ht Hw Hf Hb Hn. pose proof (history_calm ooq b c s q H Hk Hw Hf) as Hc. pose proof H as [Hv Htop Hq He Ho].
  destruct (handler_free _ c (Z.of_nat (length (trace s))) (fresh (length (trace s))) q (world s) (receiver s) Hv Ht Hc) as (o & q' & w' & r' & E & Hh & Hv' & B1 & B2 & B3 & B4); [lia..|].
  pose proof (enqueue_orders ooq b c s q o q' w' r' H Hk Hw Hh) as Hord. destruct Hh as [A1 -> A3 A4 A5 A6 A7 A8 A9].
  unfold enqueue. rewrite Hk. cbn [mbind option_bind]. rewrite E. cbn [mbind option_bind]. eexists _, o. split; [done|]. split; [done|]. simpl.
  destruct (Hq _ _ Hk) as (Q1 & Q2 & Q3 & Q4 & Q5).
  split; [|split_and!; [rewrite dom_insert_L; apply elem_of_dom_2 in Hk; set_solver|lia|done]].
  constructor; simpl; [done|lia| | |by apply ordered_snoc].
  - intros k qk. destruct (decide (onQueue c = k)) as [<-|Hne]; [rewrite lookup_insert_eq; intros [= <-]|rewrite lookup_insert_ne by done]; simpl.
    + split_and!; try done; lia.
    + intros Hqk. destruct (Hq _ _ Hqk) as (K1 & K2 & K3 & K4 & K5). split_and!; try done; lia.
  - intros x [Hx|[= ->]%list_elem_of_singleton]%elem_of_app.
    + destruct (He _ Hx) as [E0 E1 E2 E3 E4 E5]. constructor; simpl; try done; try lia.
      * intros qk. destruct (decide (onQueue c = onQueue x.1)) as [Heq|Hne]; [rewrite Heq, lookup_insert_eq; intros [= <-]; simpl|rewrite lookup_insert_ne by done; apply E4].
        destruct (E4 q) as [L1 L2]; [by rewrite <- Heq|]. lia.
      * intros id Hid. rewrite A8; [by apply E5|]. rewrite Forall_forall in Hf. intros Hid'. apply (Hf id Hid'). apply list_elem_of_omap. eauto.
    + constructor; simpl; try done; try lia. intros qk. rewrite lookup_insert_eq. intros [= <-]. simpl. lia.
Qed.

Lemma made_snoc tr c o : made (tr ++ [(c, o)]) = made tr ++ option_list (outEvent c).
Proof. unfold made. rewrite omap_app. simpl. by destruct (outEvent c). Qed.
Lemma runs_snoc tr c o : runs (tr ++ [(c, o)]) = runs tr ++ (if isKernel c then [(requiredLevel o, stampLevel (stamp o))] else []).
Proof. unfold runs. rewrite filter_app, fmap_app. f_equal. rewrite filter_cons. simpl. by destruct (isKernel c). Qed.

Lemma enqueueAll_ok ooq l : forall b s past, history_ok ooq b s -> Forall (fun c => is_Some (queues s !! onQueue c) /\ forall t, multiDispatchInfo c = Some t -> validTask t) l ->
  eventsFlow (made (trace s)) l -> b + 3 * Z.of_nat (length l) < eventNotReady -> lastCount (receiver s) + Z.of_nat (length l) < eventNotReady -> ran (receiver s) = past ++ runs (trace s) ->
  exists s', enqueueAll l s = Some s' /\ fst <$> trace s' = (fst <$> trace s) ++ l /\ history_ok ooq (b + 3 * Z.of_nat (length l)) s' /\ ran (receiver s') = past ++ runs (trace s').
Proof.
  induction l as [|c l IH]; intros b s past H Hl Hf Hb Hn Hr; simpl in *.
  - exists s. rewrite app_nil_r, Z.add_0_r. by split_and!.
  - apply Forall_cons in Hl as [[Hk Ht] Hl]. destruct Hf as (F1 & F2 & F3).
    destruct (enqueue_step ooq b c s H Hk Ht F1 F2) as (s1 & o & -> & E2 & E3 & E4 & E5 & E6); [lia..|]. cbn [mbind option_bind].
    destruct (IH (b + 3) s1 past E3) as (s' & E & G1 & G2 & G3); [| |lia|lia| |].
    + eapply Forall_impl; [exact Hl|]. simpl. intros c' [Hc' ?]. split; [|done]. apply elem_of_dom. rewrite E4. by apply elem_of_dom.
    + by rewrite E2, made_snoc.
    + rewrite E6, Hr, E2, runs_snoc. by rewrite app_assoc.
    + exists s'. split; [done|]. split_and!; [rewrite G1, E2, fmap_app; by rewrite <- app_assoc| |done].
      by replace (b + 3 * Z.of_nat (S (length l))) with (b + 3 + 3 * Z.of_nat (length l)) by lia.
Qed.

(** What holds of a single dependency holds along chains of them. *)
Lemma chain_ordered ooq b s i j : history_ok ooq b s -> tc (precedes ooq (trace s)) i j -> forall x y, trace s !! i = Some x -> trace s !! j = Some y ->
  stampLevel (stamp x.2) <= requiredLevel y.2 /\ stampCount (stamp x.2) <= stampCount (stamp y.2) /\
  (isBarrier (effectiveType x.1) = false -> advances (effectiveType y.1) = true -> stampLevel (stamp x.2) < requiredLevel y.2).
Proof.
  intros H. assert (forall i j, precedes ooq (trace s) i j -> forall x y, trace s !! i = Some x -> trace s !! j = Some y ->
    stampLevel (stamp x.2) <= requiredLevel y.2 /\ stampCount (stamp x.2) <= stampCount (stamp y.2) /\
    (isBarrier (effectiveType x.1) = false -> advances (effectiveType y.1) = true -> stampLevel (stamp x.2) < requiredLevel y.2)) as Hone.
  { clear i j. intros i j (Hij & a & z & Ha & Hz & Hw) x y Hx Hy. assert (a = x) as -> by congruence. assert (z = y) as -> by congruence. exact (hi_order _ _ _ H i j x y Hij Hx Hy Hw). }
  induction 1 as [i j Hp|i k j Hp Hr IH]; [by apply Hone|]. intros x y Hx Hy. pose proof Hp as (_ & _ & z & _ & Hz & _).
  destruct (Hone _ _ Hp _ _ Hx Hz) as (P1 & P2 & P3). destruct (IH _ _ Hz Hy) as (R1 & R2 & R3).
  pose proof (en_level _ _ _ (hi_entry _ _ _ H z (list_elem_of_lookup_2 _ _ _ Hz))) as E1. split_and!; [lia|lia|]. intros Hx' Hy'.
  destruct (isBarrier (effectiveType z.1)) eqn:Hb; [|specialize (R3 eq_refl Hy'); lia].
  assert (advances (effectiveType z.1) = true) as Ha by (unfold advances; rewrite Hb; by destruct (negb _)).
  specialize (P3 Hx' Ha). lia.
Qed.

Lemma start_history_ok ooq qs w r : validReceiver r -> (forall k q, qs !! k = Some q -> q = newQueue (ooq k)) -> history_ok ooq (topLevel r + pending r) (mkSystem qs w r []).
Proof.
  intros Hv Hq. pose proof (receiver_range r Hv) as (R1 & R2 & R3). constructor; simpl; [done|lia| | |done].
  - intros k q Hk. rewrite (Hq k q Hk). simpl. split_and!; try done; lia.
  - intros x Hx. by apply not_elem_of_nil in Hx.
Qed.

(** ** Properties *)

(** C37: a command is blocked exactly when it waits for an event whose level is not known yet, or when the queue still has a blocked command that has not ended; a queue whose last blocked command has ended, also by termination, is free again, and the level of the new command is then not below the levels of that command and of the events it waits for. *)
Theorem command_blocks_exactly ids ty q w : queue_ok ids q w ->
  exists level b q' w', obtainTaskLevelAndBlockedStatus ids ty q w = Some (level, b, q', w') /\
    (b = true <-> waits_on_unready ids w \/ virtual_pending q w) /\ (b = false -> virtualEvent q' = None /\ 0 <= level <= eventNotReady) /\
    (forall id e, id ∈ ids -> events w !! id = Some e -> taskLevel e <= level) /\
    (forall v e, virtualEvent q = Some v -> events w !! v = Some e -> executionStatus e = CL_COMPLETE -> taskLevel e + Z.b2z (negb (isOOQEnabled q)) <= level).
Proof.
  clear fuel fresh.
  intros H. destruct (queue_blocked_spec ids q w H) as (b & q' & w' & E & Hb & Hfree & Hkeep & Hend & Hsame). pose proof (qo_waits _ _ _ H) as Hw.
  assert (Forall (fun id => exists e, events w' !! id = Some e /\ 0 <= taskLevel e <= eventNotReady) ids) as Hw'.
  { eapply Forall_impl; [exact Hw|]. intros id (e & He & Hl). destruct (Hsame _ _ He) as (e' & He' & Hl'). exists e'. by rewrite Hl'. }
  assert (Forall (fun id => is_Some (events w' !! id)) ids) as Hs by (eapply Forall_impl; [exact Hw'|intros ? (? & ? & _); eauto]).
  assert (0 <= queueLevel q' <= eventNotReady) as Hq' by (destruct b; [destruct Hkeep as [-> _]; [done|apply (qo_level _ _ _ H)]|destruct Hfree; [done|lia]]).
  unfold obtainTaskLevelAndBlockedStatus. rewrite E. cbn [mbind option_bind].
  destruct (waitList_level ids w' (queueLevel q') Hs) as (m & -> & Hm & Hall & Hmax). cbn [mbind option_bind].
  assert (m <= eventNotReady) as Hmb.
  { destruct Hmax as [->|(id & e & Hid & He & ->)]; [lia|]. rewrite Forall_forall in Hw'. destruct (Hw' id Hid) as (? & ? & ?). simplify_eq. lia. }
  assert (bool_decide (m = eventNotReady) || b = true <-> waits_on_unready ids w \/ virtual_pending q w) as Hiff.
  { rewrite orb_true_iff, bool_decide_eq_true, Hb. split; intros [Hx|Hx]; [|by right| |by right].
    - destruct Hmax as [Hmq|(id & e & Hid & He & Hme)].
      + destruct b; [right; by apply Hb|]. destruct Hfree; [done|lia].
      + left. rewrite Forall_forall in Hw. destruct (Hw id Hid) as (e0 & He0 & _). destruct (Hsame _ _ He0) as (e' & He' & Hl'). exists id, e0. split_and!; [done|done|]. simplify_eq. lia.
    - destruct Hx as (id & e & Hid & He & Hle). destruct (Hsame _ _ He) as (e' & He' & Hl'). left. specialize (Hall id e' Hid He'). lia. }
  assert (exists u, isTaskLevelUpdateRequired m ids ty q' w' = Some u /\ (m = eventNotReady -> u = false)) as (u & -> & Hu).
  { unfold isTaskLevelUpdateRequired. destruct (waitList_level ids w' 0 Hs) as (m0 & Em & _).
    destruct (isOOQEnabled q'); [destruct ids; [|rewrite Em; cbn [mbind option_bind]]|]; eexists; (split; [done|]); intros ->; rewrite (bool_decide_eq_true_2 (_ = _)) by done;
      repeat first [done | case_decide | match goal with |- context [if ?c then _ else _] => destruct c end]. }
  assert (forall level, m <= level -> (forall id e, id ∈ ids -> events w !! id = Some e -> taskLevel e <= level) /\
    (forall v e, virtualEvent q = Some v -> events w !! v = Some e -> executionStatus e = CL_COMPLETE -> taskLevel e + Z.b2z (negb (isOOQEnabled q)) <= level)) as Hlev.
  { intros level Hlv. split.
    - intros id e Hid He. destruct (Hsame _ _ He) as (e' & He' & Hl'). specialize (Hall id e' Hid He'). lia.
    - intros v e Hv He Hz. rewrite <- (Hend v e Hv He Hz). lia. }
  cbn [mbind option_bind]. destruct u; eexists _, _, _, _; (split; [reflexivity|]); (split; [exact Hiff|]).
  - destruct (decide (m = eventNotReady)) as [Hx|Hx]; [by specialize (Hu Hx)|]. assert (w32 (m + 1) = m + 1) as -> by (unfold eventNotReady in *; apply wrap_small; word_lia).
    split; [|apply Hlev; lia]. intros [_ ->]%orb_false_iff. destruct Hfree as [Hf1 Hf2]; [done|]. split; [done|lia].
  - split; [|apply Hlev; lia]. intros [_ ->]%orb_false_iff. destruct Hfree as [Hf1 Hf2]; [done|]. split; [done|lia].
Qed.

(** C36: commands enqueued on any queues with events of earlier commands are never blocked, and whenever a kernel must wait for another one, through any chain of events, barriers, markers and in-order queues, it requires a task level above the one the other was stamped with, and its completion count is not lower; the receiver runs the kernels with these levels.  The number of commands is such that no level and no count reaches [eventNotReady]: three times the commands above the receiver's level stay below 2^32 - 16. *)
Theorem dependent_commands_ordered ooq qs w r l : validReceiver r -> (forall k q, qs !! k = Some q -> q = newQueue (ooq k)) ->
  Forall (fun c => is_Some (qs !! onQueue c) /\ forall t, multiDispatchInfo c = Some t -> validTask t) l -> eventsFlow [] l ->
  topLevel r + pending r + 3 * Z.of_nat (length l) < eventNotReady -> lastCount r + Z.of_nat (length l) < eventNotReady ->
  exists s, enqueueAll l (mkSystem qs w r []) = Some s /\ fst <$> trace s = l /\ ran (receiver s) = ran r ++ runs (trace s) /\ validReceiver (receiver s) /\
    Forall (fun x => blocked x.2 = false) (trace s) /\
    forall i j x y, tc (precedes ooq (trace s)) i j -> trace s !! i = Some x -> trace s !! j = Some y ->
      stampCount (stamp x.2) <= stampCount (stamp y.2) /\ (isKernel x.1 = true -> isKernel y.1 = true -> stampLevel (stamp x.2) < requiredLevel y.2).
Proof.
  intros Hv Hq Hl Hf Hb Hn. destruct (enqueueAll_ok ooq l _ (mkSystem qs w r []) (ran r) (start_history_ok ooq qs w r Hv Hq)) as (s & E & H1 & H2 & H3);
    [done..|by rewrite app_nil_r|]. exists s. split; [done|]. split; [done|]. split; [done|]. split; [apply H2|]. split.
  - apply Forall_forall. intros x Hx. by apply (hi_entry _ _ _ H2).
  - intros i j x y Hp Hx Hy. destruct (chain_ordered _ _ _ i j H2 Hp x y Hx Hy) as (C1 & C2 & C3). split; [done|]. intros Kx Ky. apply C3.
    + revert Kx. unfold isKernel. by destruct (effectiveType x.1).
    + unfold advances. unfold isKernel in Ky. by rewrite Ky.
Qed.
End Queues.

(** *** Witnesses *)

(** A receiver that runs a task at the highest level so far. *)
#[program] Definition exampleReceiver : Receiver (Z * Z * list (Z * Z)) unit := {|
  flushTask level _ r := let top := Z.max level r.1.1 in Some (top, r.1.2 + 1, r.2 ++ [(level, top)], mkStamp (r.1.2 + 1) top 0);
  validReceiver r := 0 <= r.1.1 /\ 0 <= r.1.2;
  validTask _ := True;
  topLevel r := r.1.1; pending _ := 0; lastCount r := r.1.2; ran r := r.2 |}.
Next Obligation. intros level t [[top n] l] [H1 H2] _ H3 H4 H5. eexists _, _. split; [reflexivity|]. simpl in *. split_and!; try done; lia. Qed.
Next Obligation. intros [[top n] l] [H1 H2]. simpl in *. lia. Qed.

Definition exampleQueues : gmap nat Queue := {[ 0%nat := newQueue false; 1%nat := newQueue true ]}.
Definition exampleOoq (k : nat) : bool := bool_decide (k = 1%nat).
(** A kernel, one on another queue that waits for its event, a barrier there and a kernel after it. *)
Definition exampleCommands : list (Enqueue (T := unit)) :=
  [ mkEnqueue 0 CL_COMMAND_NDRANGE_KERNEL (Some tt) [] (Some 10); mkEnqueue 1 CL_COMMAND_NDRANGE_KERNEL (Some tt) [10] (Some 11);
    mkEnqueue 1 CL_COMMAND_BARRIER None [] None; mkEnqueue 1 CL_COMMAND_NDRANGE_KERNEL (Some tt) [] None ].

Example dependent_commands_ordered_witness : exists s x y,
  enqueueAll (Hrecv := exampleReceiver) (fun _ _ => false) (fun _ => 0) (fun _ => 0) (fun _ _ _ _ => 0) (fun _ => 0) 0 (fun _ => (0, 0)) exampleCommands (mkSystem exampleQueues (mkWorld ∅ []) (0, 0, []) []) = Some s /\
  trace s !! 0%nat = Some x /\ trace s !! 3%nat = Some y /\ stampLevel (stamp x.2) < requiredLevel y.2.
Proof.
  destruct (dependent_commands_ordered (Hrecv := exampleReceiver) (fun _ _ => false) (fun _ => 0) (fun _ => 0) (fun _ _ _ _ => 0) (fun _ => 0) 0 (fun _ => (0, 0)) exampleOoq exampleQueues (mkWorld ∅ []) (0, 0, []) exampleCommands)
    as (s & E & Hl & _ & _ & _ & H).
  - done.
  - intros k q. unfold exampleQueues. intros [[<- <-]|[_ [<- <-]%lookup_singleton_Some]]%lookup_insert_Some; done.
  - unfold exampleCommands. rewrite !Forall_cons. split_and!; try done; by eexists.
  - simpl. repeat constructor; set_solver.
  - done.
  - done.
  - assert (tc (precedes exampleOoq (trace s)) 0%nat 3%nat) as Hp.
    { revert E. vm_compute. intros [= <-]. apply (tc_l _ _ 1%nat); [|apply (tc_l _ _ 2%nat); [|apply tc_once]]; (split; [lia|]); eexists _, _; (split; [reflexivity|]); (split; [reflexivity|]).
      - right. left. exists 10. split; [reflexivity|]. set_solver.
      - right. right. left. done.
      - right. right. right. done. }
    assert (length (trace s) = 4%nat) as Hlen by (rewrite <- (length_fmap fst (trace s)), Hl; done).
    destruct (lookup_lt_is_Some_2 (trace s) 0) as [x Hx]; [lia|]. destruct (lookup_lt_is_Some_2 (trace s) 3) as [y Hy]; [lia|].
    exists s, x, y. split; [exact E|]. split; [exact Hx|]. split; [exact Hy|].
    assert (x.1 :: drop 1 (fst <$> trace s) = exampleCommands) as Hx1.
    { rewrite <- Hl. destruct (trace s); [done|]. simpl in *. by injection Hx as ->. }
    apply (H _ _ _ _ Hp Hx Hy); [injection Hx1 as -> _; done|].
    assert ((fst <$> trace s) !! 3%nat = Some y.1) as Hy1 by (by rewrite list_lookup_fmap, Hy). rewrite Hl in Hy1. injection Hy1 as <-. done.
Defined.

(** An event that waits for nothing but has no level. *)
Example command_blocks_exactly_witness : exists level q w,
  obtainTaskLevelAndBlockedStatus (fun _ => 0) (fun _ => 0) [1] CL_COMMAND_NDRANGE_KERNEL (newQueue false) (mkWorld {[ 1 := newUserEvent ]} []) = Some (level, true, q, w).
Proof.
  destruct (command_blocks_exactly (fun _ => 0) (fun _ => 0) [1] CL_COMMAND_NDRANGE_KERNEL (newQueue false) (mkWorld {[ 1 := newUserEvent ]} []))
    as (level & b & q & w & E & Hb & _).
  - constructor; simpl; try done. constructor; [|constructor]. exists newUserEvent. split; [reflexivity|]. done.
  - assert (b = true) as ->; [|exists level, q, w; exact E]. apply Hb. left. exists 1, newUserEvent. split; [set_solver|]. split; reflexivity.
Defined.

(** A kernel that waits for a user event is not submitted; completing the user
    event submits it, and the queue is free again. *)
Example user_event_releases_kernel :
  let c := mkEnqueue (T := unit) 0 CL_COMMAND_NDRANGE_KERNEL (Some tt) [1] (Some 2) in
  match enqueueHandler (Hrecv := exampleReceiver) (fun _ _ => true) (fun _ => 0) (fun _ => 0) (fun _ _ _ _ => 1) (fun _ => 0) 20 c 7 (8, 9) (newQueue false) (mkWorld {[ 1 := newUserEvent ]} []) (0, 0, []) with
  | Some (o, q, w, r) =>
      blocked o = true /\ r = (0, 0, []) /\ virtualEvent q = Some 2 /\ submittedIn 2 (log w) = [] /\
      match setStatus (fun _ _ => true) (fun _ => 0) (fun _ => 0) (fun _ _ _ _ => 1) 20 1 CL_COMPLETE w with
      | Some (true, w) =>
          submittedIn 2 (log w) = [7] /\
          match isQueueBlocked (fun _ => 0) (fun _ => 0) q w with Some (b, q, _) => b = false /\ virtualEvent q = None /\ queueLevel q = 1 /\ queueCount q = 1 | None => False end
      | _ => False
      end
  | None => False
  end.
Proof. vm_compute. done. Qed.
