(* ===== verification/QueueOrder.v ===== *)
(** * Queues over the command stream receiver

    [CommandQueue] takes the receiver as an interface; here the receiver of
    [FlushTask] meets it, in both dispatch modes, and the two are composed: what
    the queues require of levels becomes stalls of the engine between the kernels
    that depend on one another.  The code that joins them is the call of
    [flushTask] in [enqueueNonBlocked] of [command_queue/enqueue_common.h]. *)

From S2P Require Import Prelude.
From S2P Require Import HwCommands.
From S2P Require Import Preamble.
From S2P Require Import FlushTask.
From S2P Require Import Event.
From S2P Require Import CommandQueue.

(** ** The receiver *)

(** The tasks that the engine ran: the required and the stamped levels. *)
Definition runOf (e : FlushTask.Entry) : option (Z * Z) := match e with FlushTask.Ran q s => Some (q, s) | _ => None end.
Definition atLevel (level : Z) (t : Task) : Task :=
  mkTask (flags t) (dsh t) (ioh t) (ssh t) level (commandStreamTask t) (commandStreamStartTask t) (overBudget t) (newBuffer t) (allocateScratch t).

Section Receivers.
Context (dev : Device) (l3CacheOn l3CacheOff : Z) (groups : list Z -> nat) (flushStampOfCsr : Csr -> Z).

(** What a queue asks of the receiver before the task, and the task. *)
Record Dispatch := mkDispatch { requestsBefore : list FlushTask.Call; task : Task }.
Definition submitDispatch (level : Z) (d : Dispatch) (w : FlushTask.World) : option (FlushTask.World * CompletionStamp) :=
  w ← FlushTask.calls dev l3CacheOn l3CacheOff groups (requestsBefore d) w;
  let t := atLevel level (task d) in
  '(c', _, f) ← FlushTask.flushTask dev l3CacheOn l3CacheOff groups t (FlushTask.receiver w);
  Some (FlushTask.mkWorld c' (execAll (csrCommands f) (engine w)) (FlushTask.log w ++ entriesOf dev t f c'),
        mkStamp (stampTaskCount f) (stampTaskLevel f) (flushStampOfCsr c')).

Definition isFlush (o : FlushTask.Call) : bool := match o with FlushTask.FlushTask _ => true | _ => false end.
Definition dispatch_ok (d : Dispatch) : Prop := Forall (fun o => isFlush o = false /\ FlushTask.call_ok dev o) (requestsBefore d) /\ flush_ok (task d).

(** Into at most as many submissions as there are recorded buffers. *)
Definition groups_ok : Prop := forall l, (groups l <= length l)%nat.
Record dispatching (w : FlushTask.World) : Prop := {
  di_device : device_ok dev l3CacheOn l3CacheOff;
  di_groups : groups_ok;
  di_world : FlushTask.world_ok dev w;
  di_count : 0 <= FlushTask.taskCount (counts (FlushTask.receiver w)) }.

(** ** Levels *)

(** Recorded command buffers that are flushed raise the level by the number of submissions. *)
Lemma flush_growth t c h c' task' f : groups_ok -> device_ok dev l3CacheOn l3CacheOff -> receiver_ok dev c h -> flush_ok t ->
  FlushTask.flushTask dev l3CacheOn l3CacheOff groups t c = Some (c', task', f) ->
  let top := Z.max (FlushTask.taskLevel (counts c)) (requiredTaskLevel t) in let n := Z.of_nat (length (recorded (counts c))) in
  top + n + 1 < 2 ^ 32 -> top <= stampTaskLevel f /\ stampTaskLevel f + Z.of_nat (length (recorded (counts c'))) <= top + n + 1 /\ Z.of_nat (length (recorded (counts c'))) <= n + 1.
Proof.
  intros Hg Hd Hr Hf E top n Hn. destruct (flush_programs dev _ _ t c h Hd Hr Hf) as (k & vfe & l & Ek & Es & El & _).
  pose proof (ro_level _ _ _ Hr) as Rl. unfold FlushTask.flushTask in E. cbv zeta in E.
  apply stdpp.option.bind_Some in E as (task1 & _ & E). rewrite Ek in E. cbn [mbind option_bind] in E. rewrite Es, El in E. cbn [mbind option_bind] in E.
  apply stdpp.option.bind_Some in E as (csr1 & _ & E). apply stdpp.option.bind_Some in E as ([task2 csr2] & _ & [= <- <- <-]). simpl.
  fold top. set (rec := if _ : bool then recorded (counts c) ++ _ else _). assert (Z.of_nat (length rec) <= n + 1) as Hrec by (unfold rec, n; match goal with |- context [if ?b then _ ++ _ else _] => destruct b end; rewrite ?length_app; simpl; lia).
  clearbody rec. assert (0 <= top) as Ht by (unfold top; lia). destruct (negb (immediateDispatch dev) && _); simpl; [|lia].
  unfold flushRecorded. simpl. destruct (last rec) as [x|]; simpl; [|lia]. destruct (immediateDispatch dev); simpl; [lia|].
  pose proof (Hg rec). rewrite wrap_small by word_lia. lia.
Qed.

Lemma requests_run l w : Forall (fun o => isFlush o = false /\ FlushTask.call_ok dev o) l -> device_ok dev l3CacheOn l3CacheOff -> FlushTask.world_ok dev w ->
  exists w', FlushTask.calls dev l3CacheOn l3CacheOff groups l w = Some w' /\ FlushTask.world_ok dev w' /\
    counts (FlushTask.receiver w') = counts (FlushTask.receiver w) /\ FlushTask.log w' = FlushTask.log w.
Proof.
  intros Hl Hd. revert w. induction Hl as [|o l [Ho Hc] _ IH]; intros w Hw; [by exists w|]. cbn [FlushTask.calls].
  destruct (call_world_ok dev l3CacheOn l3CacheOff groups o w Hd Hc Hw) as (w1 & E & Hw1). rewrite E. cbn [mbind option_bind].
  destruct (IH w1 Hw1) as (w' & E' & H1 & H2 & H3). exists w'. split; [done|]. split; [done|]. rewrite H2, H3.
  destruct o; try done; simpl in E; injection E as <-; simpl; try done. unfold setRequiredScratchSize. by case_decide.
Qed.

Lemma runs_entries t f c' : omap runOf (entriesOf dev t f c') = [(requiredTaskLevel t, stampTaskLevel f)].
Proof.
  assert (forall l, omap runOf (map Command l) = []) as Hc by (induction l; done).
  unfold entriesOf. rewrite !omap_app, Hc. simpl. destruct (immediateDispatch dev); simpl; rewrite ?Hc; [done|]. by destruct (bool_decide _).
Qed.

(** The promise of the receiver to the queues. *)
Lemma dispatch_stamps level d w : dispatching w -> dispatch_ok d -> 0 <= level ->
  let r := counts (FlushTask.receiver w) in let top := Z.max level (FlushTask.taskLevel r) in let n := Z.of_nat (length (recorded r)) in
  top + n + 2 < eventNotReady -> FlushTask.taskCount r + 1 < eventNotReady ->
  exists w' st, submitDispatch level d w = Some (w', st) /\ dispatching w' /\ omap runOf (FlushTask.log w') = omap runOf (FlushTask.log w) ++ [(level, stampLevel st)] /\
    let r' := counts (FlushTask.receiver w') in level <= stampLevel st /\ stampLevel st + Z.of_nat (length (recorded r')) <= top + n + 2 /\
    FlushTask.taskLevel r' + Z.of_nat (length (recorded r')) <= top + n + 2 /\ Z.of_nat (length (recorded r')) <= n + 1 /\
    stampCount st = FlushTask.taskCount r + 1 /\ FlushTask.taskCount r' = FlushTask.taskCount r + 1.
Proof.
  intros [Hd Hg Hw Hc] [Hreq Hf] Hl r top n Hb Hn. unfold eventNotReady in *. assert (level <= top) as Hlt by (unfold top; lia). assert (0 <= n) as Hn0 by (unfold n; lia). fold r in Hc.
  destruct (requests_run _ w Hreq Hd Hw) as (w1 & E1 & Hw1 & Hcounts & Hlog). assert (flush_ok (atLevel level (task d))) as Hf' by (destruct Hf as [Hh]; constructor; try done; [by destruct Hh|simpl; lia]).
  pose proof Hw1 as [Hr1 He1]. destruct (flushTask_outcome dev l3CacheOn l3CacheOff groups _ _ _ Hd Hr1 Hf') as (c' & task' & f & E2 & Ho).
  pose proof (flush_growth _ _ _ _ _ _ Hg Hd Hr1 Hf' E2) as Hgrow. rewrite Hcounts in Hgrow. simpl in Hgrow. fold r in Hgrow. rewrite Z.max_comm in Hgrow. fold top n in Hgrow.
  destruct Hgrow as (G1 & G2 & G3); [lia|]. destruct (oc_count _ _ _ _ _ _ _ _ _ Ho) as [C1 C2]. rewrite Hcounts in C1, C2. fold r in C1, C2. rewrite wrap_small in C1, C2 by word_lia.
  pose proof (oc_next _ _ _ _ _ _ _ _ _ Ho) as C3. rewrite wrap_small in C3 by (destruct (levelClosed _ _); simpl; word_lia).
  unfold submitDispatch. rewrite E1. cbn [mbind option_bind]. rewrite E2. cbn [mbind option_bind]. eexists _, _. split; [reflexivity|]. simpl. split.
  - constructor; [done|done| |simpl; rewrite C1; lia]. split; simpl; [by apply (oc_receiver _ _ _ _ _ _ _ _ _ Ho)|]. intros Ht. eapply entries_wait; eauto.
  - rewrite omap_app, Hlog, runs_entries. split; [done|]. rewrite C1, C2, C3. destruct (levelClosed _ _); simpl; lia.
Qed.

#[program] Definition queueReceiver : Receiver FlushTask.World Dispatch := {|
  CommandQueue.flushTask level d w := submitDispatch level d w;
  validReceiver := dispatching;
  validTask := dispatch_ok;
  topLevel w := FlushTask.taskLevel (counts (FlushTask.receiver w));
  pending w := Z.of_nat (length (recorded (counts (FlushTask.receiver w))));
  lastCount w := FlushTask.taskCount (counts (FlushTask.receiver w));
  ran w := omap runOf (FlushTask.log w) |}.
Next Obligation. intros level d w Hw Hd Hl Hb Hn. by apply dispatch_stamps. Qed.
Next Obligation. intros w [_ _ [Hr _] Hc]. pose proof (ro_level _ _ _ Hr). simpl. split_and!; lia. Qed.

(** ** Where a run is in the log *)

Lemma run_split l a x b : omap runOf l = a ++ x :: b -> exists pre post, l = pre ++ FlushTask.Ran x.1 x.2 :: post /\ omap runOf pre = a /\ omap runOf post = b.
Proof.
  revert a. induction l as [|e l IH]; intros a; simpl; [by destruct a|].
  destruct (runOf e) as [y|] eqn:He.
  - destruct a as [|y' a]; intros [= -> Hl].
    + exists [], l. split; [|done]. destruct e; try done. by injection He as <-.
    + destruct (IH a Hl) as (pre & post & -> & H1 & H2). exists (e :: pre), post. split; [done|]. split; [|done]. simpl. rewrite He. by f_equal.
  - intros Hl. destruct (IH a Hl) as (pre & post & -> & H1 & H2). exists (e :: pre), post. simpl. by rewrite He.
Qed.

Lemma runs_of_kernel {T} (A B : list (Enqueue (T := T) * Outcome)) x : isKernel x.1 = true -> runs (A ++ x :: B) = runs A ++ (requiredLevel x.2, stampLevel (stamp x.2)) :: runs B.
Proof. intros Hx. unfold runs. rewrite filter_app, fmap_app, filter_cons, decide_True by done. done. Qed.

(** ** Kernels on the engine *)

Context (isCompleted : list Action -> Z -> bool) (csrTaskLevel csrTaskCount : list Action -> Z) (submit : list Action -> Z -> Z -> bool -> Z) (flushStampOf : Z -> Z)
  (fuel : nat) (fresh : nat -> Z * Z).
#[local] Existing Instance queueReceiver.

(** C1: without time-stamp packets, of two kernels enqueued on any queues such that the later must wait for the earlier, through any chain of events, barriers, markers and in-order queues, the later starts on the engine after the earlier has ended: between the two the engine executes a pipe control that stalls it, or all that was recorded is submitted.  The commands are few enough for levels not to wrap: three times their number is below [eventNotReady], which is 2^32 - 16. *)
Theorem dependent_kernels_separated ooq qs w h l : device_ok dev l3CacheOn l3CacheOff -> groups_ok -> timestampPacketWriteEnabled dev = false ->
  (forall k q, qs !! k = Some q -> q = newQueue (ooq k)) ->
  Forall (fun c => is_Some (qs !! onQueue c) /\ forall d, multiDispatchInfo c = Some d -> dispatch_ok d) l -> eventsFlow [] l -> 3 * Z.of_nat (length l) < eventNotReady ->
  exists s, enqueueAll isCompleted csrTaskLevel csrTaskCount submit flushStampOf fuel fresh l (mkSystem qs w (start dev h) []) = Some s /\ fst <$> trace s = l /\
  forall before x between y after, trace s = before ++ x :: between ++ y :: after -> isKernel x.1 = true -> isKernel y.1 = true ->
    tc (precedes ooq (trace s)) (length before) (length before + S (length between))%nat ->
    exists pre mid post, FlushTask.log (CommandQueue.receiver s) = pre ++ FlushTask.Ran (requiredLevel x.2) (stampLevel (stamp x.2)) :: mid ++ FlushTask.Ran (requiredLevel y.2) (stampLevel (stamp y.2)) :: post /\
      omap runOf pre = runs before /\ omap runOf mid = runs between /\ existsb separates mid = true.
Proof.
  intros Hd Hg Ht Hq Hl Hf Hn.
  assert (validReceiver (start dev h)) as Hv by (constructor; [done|done|by apply (start_world_ok dev l3CacheOn l3CacheOff)|done]).
  destruct (enqueueAll_ok isCompleted csrTaskLevel csrTaskCount submit flushStampOf fuel fresh ooq l _ (mkSystem qs w (start dev h) []) [] (start_history_ok ooq qs w _ Hv Hq)) as (s & E & H1 & H2 & H3);
    [exact Hl|exact Hf|simpl; lia|simpl; lia|done|]. exists s. split; [exact E|]. split; [exact H1|].
  intros before x between y after Htr Kx Ky Hp. simpl in H3. rewrite Htr, runs_of_kernel, runs_of_kernel in H3 by done.
  apply run_split in H3 as (pre & rest & Hlog & Hpre & Hrest). apply run_split in Hrest as (mid & post & -> & Hmid & _). exists pre, mid, post. split_and!; [exact Hlog|exact Hpre|exact Hmid|].
  assert (trace s !! length before = Some x) as Hx by (rewrite Htr; by apply list_lookup_middle).
  assert (trace s !! (length before + S (length between))%nat = Some y) as Hy.
  { rewrite Htr, lookup_app_r by lia. replace (length before + S (length between) - length before)%nat with (S (length between)) by lia. simpl. by apply list_lookup_middle. }
  destruct (chain_ordered ooq _ s _ _ H2 Hp x y Hx Hy) as (_ & _ & C).
  destruct (hi_valid _ _ _ H2) as [_ _ [_ Hw] _]. destruct (Hw Ht) as [_ Hsep]. apply (Hsep _ _ _ _ _ _ _ Hlog). apply C.
  - revert Kx. unfold isKernel. by destruct (effectiveType x.1).
  - unfold advances. unfold isKernel in Ky. by rewrite Ky.
Qed.
End Receivers.

(** *** Witnesses *)

Definition exampleDispatch : Dispatch := mkDispatch [RequestThreadArbitrationPolicy 1] (exampleTask 0 true).
(** A kernel on an in-order queue and one on an out-of-order queue that waits for its event. *)
Definition exampleKernels : list (Enqueue (T := Dispatch)) :=
  [ mkEnqueue 0 CL_COMMAND_NDRANGE_KERNEL (Some exampleDispatch) [] (Some 10); mkEnqueue 1 CL_COMMAND_NDRANGE_KERNEL (Some exampleDispatch) [10] None ].

Example dependent_kernels_separated_witness : exists s pre q1 s1 mid q2 s2 post,
  enqueueAll (Hrecv := queueReceiver (exampleDevice false) 2 3 (fun l => length l) (fun _ => 0)) (fun _ _ => false) (fun _ => 0) (fun _ => 0) (fun _ _ _ _ => 0) (fun _ => 0) 0 (fun _ => (0, 0)) exampleKernels
    (mkSystem exampleQueues (mkWorld ∅ []) (start (exampleDevice false) blankEngine) []) = Some s /\
  FlushTask.log (CommandQueue.receiver s) = pre ++ FlushTask.Ran q1 s1 :: mid ++ FlushTask.Ran q2 s2 :: post /\ existsb separates mid = true.
Proof.
  destruct (dependent_kernels_separated (exampleDevice false) 2 3 (fun l => length l) (fun _ => 0) (fun _ _ => false) (fun _ => 0) (fun _ => 0) (fun _ _ _ _ => 0) (fun _ => 0) 0 (fun _ => (0, 0))
    exampleOoq exampleQueues (mkWorld ∅ []) blankEngine exampleKernels) as (s & E & Hl & H).
  - apply example_ok.
  - intros l. done.
  - done.
  - intros k q. unfold exampleQueues. intros [[<- <-]|[_ [<- <-]%lookup_singleton_Some]]%lookup_insert_Some; done.
  - unfold exampleKernels. rewrite !Forall_cons. assert (dispatch_ok (exampleDevice false) exampleDispatch) as Hd by (split; [by repeat constructor|by apply example_task_ok]).
    split_and!; try done; try (by eexists); by intros ? [= <-].
  - simpl. repeat constructor; set_solver.
  - done.
  - destruct (trace s) as [|x [|y [|]]] eqn:Htr; [discriminate Hl|discriminate Hl| |discriminate Hl]. injection Hl as Hx Hy. destruct (H [] x [] y [] eq_refl) as (pre & mid & post & Hlog & _ & _ & Hsep).
    + by rewrite Hx.
    + by rewrite Hy.
    + apply tc_once. split; [simpl; lia|]. exists x, y. split; [done|]. split; [done|]. rewrite Hx, Hy. right. left. exists 10. split; [done|]. constructor.
    + eexists s, pre, _, _, mid, _, _, post. split; [exact E|]. split; [exact Hlog|exact Hsep].
Defined.
